(** * GoshawkDB server: topology transmogrifier, immigration accounting,
      client resubmission back-off, variable manager and emigrator.

    A shallow embedding of the Go sources, with the properties of the
    topology state machine stated and proved over it.  Unsigned Go integers
    are carried as [Z] with their wrap-around written out; Go maps are
    [gmap]s; slices are lists. *)

From Stdlib Require Import ZArith Lia List Bool String.
From stdpp Require Import gmap strings list.

Local Open Scope Z_scope.

(** ** Machine integers *)

Definition uint8 (z : Z) : Z := z mod 2 ^ 8.
Definition uint16 (z : Z) : Z := z mod 2 ^ 16.
Definition uint32 (z : Z) : Z := z mod 2 ^ 32.

(** [int32(z)]: two's complement wrap-around into [-2^31, 2^31). *)
Definition int32 (z : Z) : Z := (z + 2 ^ 31) mod 2 ^ 32 - 2 ^ 31.

Definition is_uint8 (z : Z) : Prop := 0 <= z < 2 ^ 8.
Definition is_uint16 (z : Z) : Prop := 0 <= z < 2 ^ 16.
Definition is_uint32 (z : Z) : Prop := 0 <= z < 2 ^ 32.
Definition is_int32 (z : Z) : Prop := - 2 ^ 31 <= z < 2 ^ 31.

Lemma uint16_small z : is_uint16 z -> uint16 z = z.
Proof. unfold is_uint16, uint16. intros H. apply Z.mod_small. lia. Qed.

Lemma int32_small z : is_int32 z -> int32 z = z.
Proof.
  unfold is_int32, int32. intros H.
  rewrite Z.mod_small; lia.
Qed.

Lemma int32_range z : is_int32 (int32 z).
Proof.
  unfold is_int32, int32.
  pose proof (Z.mod_pos_bound (z + 2 ^ 31) (2 ^ 32) ltac:(lia)). lia.
Qed.

(** ** The configuration package

    [common.RMId] is a [uint32]; [common.RMIdEmpty] marks a gap in an RM
    list. *)

Definition RMId := Z.
Definition RMIdEmpty : RMId := 0.
Definition RMIds := list RMId.

Module Configuration.

(** Modelled from the spec: [RMIds.NonEmpty] and [RMIds.NonEmptyLen] of the
    common package are not among the sources; they keep, respectively
    count, the slots of an RM list that are not the empty RM. *)
Definition NonEmpty (rms : RMIds) : RMIds :=
  filter (fun rm => rm ≠ RMIdEmpty) rms.

Definition NonEmptyLen (rms : RMIds) : Z :=
  Z.of_nat (length (NonEmpty rms)).

(** Placement conditions: generators at the leaves, conjunction and
    disjunction inside.  The fields are the ones the transmogrifier sets
    when it builds [configuration.Generator] values. *)
Record Generator := mkGenerator {
  GenRMId : RMId;
  PermLen : Z;                      (* uint16 *)
  Start : Z;                        (* uint16 *)
  Len : Z;                          (* uint16 *)
  LenAdjustIntersect : RMIds;
  Includes : bool
}.

Inductive Cond :=
| CondGenerator (g : Generator)
| Conjunction (Left Right : Cond)
| Disjunction (Left Right : Cond).

Record CondSuppliers := mkCondSuppliers {
  CSCond : Cond;
  Suppliers : RMIds
}.

Abbreviation Conds := (gmap Z CondSuppliers).

(** Modelled from the spec: [Conds.DisjoinWith] is not among the sources.
    All clauses for the same RM are OR-combined: a first clause is stored
    as it is, with no suppliers; a later one is disjoined to the right of
    what is stored. *)
Definition DisjoinWith (rmId : RMId) (c : Cond) (conds : Conds) : Conds :=
  match conds !! rmId with
  | Some cs =>
      <[rmId := mkCondSuppliers (Disjunction (CSCond cs) c) (Suppliers cs)]> conds
  | None => <[rmId := mkCondSuppliers c []]> conds
  end.

(** [Configuration] and [NextConfiguration] refer to each other through
    pointers: a configuration may carry the target it is in transition
    to, and that target wraps a configuration. *)
Inductive Configuration := mkConfiguration {
  ClusterId : string;
  Version : Z;                      (* uint32 *)
  Hosts : list string;
  F : Z;                            (* uint8 *)
  MaxRMCount : Z;                   (* uint8 *)
  NoSync : bool;
  rms : RMIds;
  rmsRemoved : gset Z;
  nextConfiguration : option NextConfiguration
}
with NextConfiguration := mkNextConfiguration {
  NextCfg : Configuration;
  AllHosts : list string;
  NewRMIds : RMIds;
  SurvivingRMIds : RMIds;
  LostRMIds : RMIds;
  PendingInstall : RMIds;
  Pending : Conds
}.

Definition Next (c : Configuration) : option NextConfiguration :=
  nextConfiguration c.
Definition RMs (c : Configuration) : RMIds := rms c.
Definition RMsRemoved (c : Configuration) : gset Z := rmsRemoved c.

(** A topology is a configuration together with the id of the transaction
    that wrote it and the root variable. *)
Record Topology := mkTopology {
  TopCfg : Configuration;
  DBVersion : list Z;
  Root : option (list Z * list Z)   (* the root's VarUUId and positions *)
}.

#[global] Instance Generator_eq_dec : EqDecision Generator.
Proof. solve_decision. Defined.

#[global] Instance Cond_eq_dec : EqDecision Cond.
Proof. solve_decision. Defined.

#[global] Instance CondSuppliers_eq_dec : EqDecision CondSuppliers.
Proof. solve_decision. Defined.

(** Modelled from the spec: [Configuration.Equal] is not among the sources.
    Two configurations are equal when all their fields are, the target they
    are in transition to included (the state machine is driven by observing
    topologies of one version whose [next] differs). *)
Fixpoint Equal (a b : Configuration) : bool :=
  bool_decide (ClusterId a = ClusterId b)
  && (Version a =? Version b)
  && bool_decide (Hosts a = Hosts b)
  && (F a =? F b)
  && (MaxRMCount a =? MaxRMCount b)
  && Bool.eqb (NoSync a) (NoSync b)
  && bool_decide (rms a = rms b)
  && bool_decide (rmsRemoved a = rmsRemoved b)
  && match nextConfiguration a, nextConfiguration b with
     | None, None => true
     | Some na, Some nb => NextEqual na nb
     | _, _ => false
     end
with NextEqual (a b : NextConfiguration) : bool :=
  Equal (NextCfg a) (NextCfg b)
  && bool_decide (AllHosts a = AllHosts b)
  && bool_decide (NewRMIds a = NewRMIds b)
  && bool_decide (SurvivingRMIds a = SurvivingRMIds b)
  && bool_decide (LostRMIds a = LostRMIds b)
  && bool_decide (PendingInstall a = PendingInstall b)
  && bool_decide (Pending a = Pending b).


End Configuration.
Import Configuration.

(** ** Migration conditions ([calculateMigrationConditions]) *)

Module Conditions.

Definition twoFInc (f : Z) : Z := uint16 (uint16 (uint16 f * 2) + 1).

Definition addedGenerator (to : Configuration) (rmIdNew : RMId) : Cond :=
  CondGenerator {|
    GenRMId := rmIdNew;
    PermLen := uint16 (NonEmptyLen (RMs to));
    Start := 0;
    Len := twoFInc (F to);
    LenAdjustIntersect := [];
    Includes := true |}.

Definition lostGenerator (lost : RMIds) (from : Configuration) (rmId : RMId) : Cond :=
  CondGenerator {|
    GenRMId := rmId;
    PermLen := uint16 (NonEmptyLen (RMs from));
    Start := twoFInc (F from);
    Len := 0;
    LenAdjustIntersect := lost;
    Includes := true |}.

Definition grownConjunction (from to : Configuration) (rmId : RMId) : Cond :=
  Conjunction
    (CondGenerator {|
       GenRMId := rmId;
       PermLen := uint16 (NonEmptyLen (RMs to));
       Start := 0;
       Len := twoFInc (F to);
       LenAdjustIntersect := [];
       Includes := true |})
    (CondGenerator {|
       GenRMId := rmId;
       PermLen := uint16 (NonEmptyLen (RMs from));
       Start := 0;
       Len := twoFInc (F from);
       LenAdjustIntersect := [];
       Includes := false |}).

(** One [for _, rmId := range rmIds { conditions.DisjoinWith(rmId, g rmId) }]. *)
Definition disjoinAll (g : RMId -> Cond) (rmIds : RMIds) (conditions : Conds) : Conds :=
  fold_left (fun conds rmId => DisjoinWith rmId (g rmId) conds) rmIds conditions.

Definition calculateMigrationConditions
    (added lost survived : RMIds) (from to : Configuration) : Conds :=
  let conditions : Conds := ∅ in
  let twoFIncOld := twoFInc (F from) in
  let conditions := disjoinAll (addedGenerator to) added conditions in
  let conditions :=
    if 0 <? Z.of_nat (length lost) then
      if (twoFIncOld <? NonEmptyLen (RMs from)) && (1 <? Z.of_nat (length survived))
      then disjoinAll (lostGenerator lost from) survived conditions
      else conditions
    else conditions in
  let conditions :=
    if F from <? F to
    then disjoinAll (grownConjunction from to) survived conditions
    else conditions in
  conditions.

(** *** The rules as the specification words them *)

Definition includesGenerator (rm : RMId) (permLen start len : Z) (adjust : RMIds) : Cond :=
  CondGenerator (mkGenerator rm permLen start len adjust true).

Definition excludesGenerator (rm : RMId) (permLen start len : Z) : Cond :=
  CondGenerator (mkGenerator rm permLen start len [] false).

Definition occurrences (rm : RMId) (l : RMIds) : RMIds :=
  filter (fun x => x = rm) l.

(** The clauses the three rules give to [rm], in the order of the rules; an
    RM listed twice is given its clause twice. *)
Definition ruleClauses
    (added lost survived : RMIds) (from to : Configuration) (rm : RMId) : list Cond :=
  let nNew := NonEmptyLen (RMs to) in
  let nOld := NonEmptyLen (RMs from) in
  ((fun _ => includesGenerator rm nNew 0 (2 * F to + 1) []) <$> occurrences rm added)
  ++ (if bool_decide (lost ≠ [] ∧ 2 * F from + 1 < nOld ∧ (1 < length survived)%nat)
      then (fun _ => includesGenerator rm nOld (2 * F from + 1) 0 lost)
             <$> occurrences rm survived
      else [])
  ++ (if bool_decide (F from < F to)
      then (fun _ => Conjunction
                       (includesGenerator rm nNew 0 (2 * F to + 1) [])
                       (excludesGenerator rm nOld 0 (2 * F from + 1)))
             <$> occurrences rm survived
      else []).

(** OR-combination of a list of clauses, none for the empty list. *)
Definition orCombine (cs : list Cond) : option Cond :=
  match cs with
  | [] => None
  | c :: cs' => Some (fold_left Disjunction cs' c)
  end.

(** Extending what is stored for an RM by further clauses. *)
Definition orExtendOne (o : option CondSuppliers) (c : Cond) : option CondSuppliers :=
  Some match o with
       | Some s => mkCondSuppliers (Disjunction (CSCond s) c) (Suppliers s)
       | None => mkCondSuppliers c []
       end.

Definition orExtend (o : option CondSuppliers) (cs : list Cond) : option CondSuppliers :=
  fold_left orExtendOne cs o.

Lemma DisjoinWith_lookup rmId c (conds : Conds) rm :
  DisjoinWith rmId c conds !! rm =
  if decide (rmId = rm) then orExtendOne (conds !! rm) c else conds !! rm.
Proof.
  unfold DisjoinWith, orExtendOne.
  destruct (decide (rmId = rm)) as [->|Hne].
  - destruct (conds !! rm); by rewrite lookup_insert_eq.
  - destruct (conds !! rmId); by rewrite lookup_insert_ne.
Qed.

Lemma occurrences_cons rm x l :
  occurrences rm (x :: l) =
  if decide (x = rm) then x :: occurrences rm l else occurrences rm l.
Proof. reflexivity. Qed.

Lemma disjoinAll_lookup g rmIds : forall (conds : Conds) rm,
  disjoinAll g rmIds conds !! rm =
  orExtend (conds !! rm) (g <$> occurrences rm rmIds).
Proof.
  unfold disjoinAll, orExtend.
  induction rmIds as [|r rmIds IH]; intros conds rm; [done|].
  cbn [fold_left]. rewrite IH, DisjoinWith_lookup, occurrences_cons.
  destruct (decide (r = rm)) as [->|Hne]; done.
Qed.

Lemma orExtend_app o cs1 cs2 :
  orExtend (orExtend o cs1) cs2 = orExtend o (cs1 ++ cs2).
Proof. unfold orExtend. by rewrite fold_left_app. Qed.

Lemma orExtend_Some s cs :
  orExtend (Some s) cs =
  Some (mkCondSuppliers (fold_left Disjunction cs (CSCond s)) (Suppliers s)).
Proof.
  revert s. induction cs as [|c cs IH]; intros [c0 sup]; [done|].
  change (orExtend (Some (mkCondSuppliers c0 sup)) (c :: cs))
    with (orExtend (Some (mkCondSuppliers (Disjunction c0 c) sup)) cs).
  by rewrite IH.
Qed.

Lemma orExtend_None cs :
  orExtend None cs = (fun c => mkCondSuppliers c []) <$> orCombine cs.
Proof.
  destruct cs as [|c cs]; [done|].
  change (orExtend None (c :: cs)) with (orExtend (Some (mkCondSuppliers c [])) cs).
  by rewrite orExtend_Some.
Qed.

Lemma twoFInc_uint8 f : is_uint8 f -> twoFInc f = 2 * f + 1.
Proof.
  unfold is_uint8, twoFInc, uint16.
  change (2 ^ 8) with 256. change (2 ^ 16) with 65536. intros H.
  rewrite (Z.mod_small f) by lia.
  rewrite (Z.mod_small (f * 2)) by lia.
  rewrite Z.mod_small; lia.
Qed.

Lemma map_const_ext {A} (c1 c2 : A) (l : RMIds) :
  c1 = c2 -> ((fun _ => c1) <$> l) = ((fun _ => c2) <$> l).
Proof. by intros ->. Qed.

Lemma map_occurrences (g : RMId -> Cond) rm l :
  g <$> occurrences rm l = (fun _ => g rm) <$> occurrences rm l.
Proof.
  induction l as [|x l IH]; [done|].
  rewrite occurrences_cons. destruct (decide (x = rm)) as [->|]; [|done].
  cbn [fmap list_fmap]. by rewrite IH.
Qed.

Lemma ruleClauses_code added lost survived from to rm :
  is_uint8 (F from) -> is_uint8 (F to) ->
  is_uint16 (NonEmptyLen (RMs from)) -> is_uint16 (NonEmptyLen (RMs to)) ->
  ruleClauses added lost survived from to rm =
  (addedGenerator to <$> occurrences rm added)
  ++ (if (0 <? Z.of_nat (length lost)) &&
         ((twoFInc (F from) <? NonEmptyLen (RMs from))
          && (1 <? Z.of_nat (length survived)))
      then lostGenerator lost from <$> occurrences rm survived else [])
  ++ (if F from <? F to
      then grownConjunction from to <$> occurrences rm survived else []).
Proof.
  intros HFo HFn Ho Hn. unfold ruleClauses.
  rewrite !twoFInc_uint8 by done.
  rewrite (map_occurrences (addedGenerator to)),
          (map_occurrences (lostGenerator lost from)),
          (map_occurrences (grownConjunction from to)).
  unfold addedGenerator, lostGenerator, grownConjunction,
         includesGenerator, excludesGenerator.
  rewrite !twoFInc_uint8, !uint16_small by done.
  f_equal. f_equal.
  - destruct lost as [|l0 lost]; cbn [length].
    + rewrite bool_decide_eq_false_2 by (intros [? _]; done). done.
    + replace (0 <? Z.of_nat (S (length lost))) with true
        by (symmetry; apply Z.ltb_lt; lia).
      cbn [andb].
      destruct (2 * F from + 1 <? NonEmptyLen (RMs from)) eqn:E1;
        [apply Z.ltb_lt in E1|apply Z.ltb_ge in E1];
        (destruct (1 <? Z.of_nat (length survived)) eqn:E2;
          [apply Z.ltb_lt in E2|apply Z.ltb_ge in E2]); cbn [andb].
      * rewrite bool_decide_eq_true_2; [done|]. split; [done|]. lia.
      * rewrite bool_decide_eq_false_2; [done|]. lia.
      * rewrite bool_decide_eq_false_2; [done|]. lia.
      * rewrite bool_decide_eq_false_2; [done|]. lia.
  - destruct (F from <? F to) eqn:E; [apply Z.ltb_lt in E|apply Z.ltb_ge in E].
    + by rewrite bool_decide_eq_true_2.
    + rewrite bool_decide_eq_false_2; [done|lia].
Qed.

(** C2.  For all added, lost and surviving RM lists and all old and new
    configurations (whose [F] is a [uint8] and whose RM counts fit the
    [uint16] the generators store), the map [calculateMigrationConditions]
    returns holds, for every RM, exactly the OR-combination of the clauses
    the three rules give that RM, with no suppliers: an includes-generator
    over the new RM count from 0 of length 2*F_new+1 for each added RM; when
    some RM was lost, 2*F_old+1 is below the old RM count and more than one
    RM survived, an includes-generator over the old RM count starting at
    2*F_old+1 with lenAdjustIntersect the lost RMs for each survivor; when
    F_new > F_old, for each survivor the conjunction of the new-quorum
    includes-generator and the old-quorum excludes-generator.  An RM given no
    clause by the rules is absent from the map. *)
Theorem calculateMigrationConditions_rules added lost survived from to :
  is_uint8 (F from) -> is_uint8 (F to) ->
  is_uint16 (NonEmptyLen (RMs from)) -> is_uint16 (NonEmptyLen (RMs to)) ->
  forall rm : RMId,
    calculateMigrationConditions added lost survived from to !! rm =
    (fun c => mkCondSuppliers c [])
      <$> orCombine (ruleClauses added lost survived from to rm).
Proof.
  intros HFo HFn Ho Hn rm.
  rewrite ruleClauses_code by done.
  rewrite <- orExtend_None, <- !orExtend_app.
  unfold calculateMigrationConditions.
  destruct (F from <? F to).
  - rewrite disjoinAll_lookup. f_equal.
    destruct (0 <? Z.of_nat (length lost)); cbn [andb].
    + destruct ((twoFInc (F from) <? NonEmptyLen (RMs from))
                && (1 <? Z.of_nat (length survived))).
      * by rewrite !disjoinAll_lookup, lookup_empty.
      * by rewrite disjoinAll_lookup, lookup_empty.
    + by rewrite disjoinAll_lookup, lookup_empty.
  - cbn [orExtend fold_left].
    destruct (0 <? Z.of_nat (length lost)); cbn [andb].
    + destruct ((twoFInc (F from) <? NonEmptyLen (RMs from))
                && (1 <? Z.of_nat (length survived))).
      * by rewrite !disjoinAll_lookup, lookup_empty.
      * by rewrite disjoinAll_lookup, lookup_empty.
    + by rewrite disjoinAll_lookup, lookup_empty.
Qed.

(** A replacement of one node: RM 3 is lost, RM 4 is added, RMs 1 and 2
    survive, with [F = 1] on both sides. *)
Definition replaceOld : Configuration :=
  mkConfiguration "c" 1 ["h1"; "h2"; "h3"]%string 1 5 false [1; 2; 3] ∅ None.
Definition replaceNew : Configuration :=
  mkConfiguration "c" 2 ["h1"; "h2"; "h4"]%string 1 5 false [1; 2; 4] {[ 3 ]} None.

Example replace_added :
  calculateMigrationConditions [4] [3] [1; 2] replaceOld replaceNew !! 4 =
  Some (mkCondSuppliers (includesGenerator 4 3 0 3 []) []).
Proof. reflexivity. Qed.

Example replace_survivor :
  calculateMigrationConditions [4] [3] [1; 2] replaceOld replaceNew !! 1 = None.
Proof. reflexivity. Qed.

Lemma calculateMigrationConditions_rules_witness :
  (is_uint8 (F replaceOld) /\ is_uint8 (F replaceNew) /\
   is_uint16 (NonEmptyLen (RMs replaceOld)) /\
   is_uint16 (NonEmptyLen (RMs replaceNew))) /\
  calculateMigrationConditions [4] [3] [1; 2] replaceOld replaceNew !! 4 =
  (fun c => mkCondSuppliers c [])
    <$> orCombine (ruleClauses [4] [3] [1; 2] replaceOld replaceNew 4).
Proof.
  split.
  - unfold is_uint8, is_uint16. vm_compute. repeat split; congruence.
  - apply calculateMigrationConditions_rules;
      unfold is_uint8, is_uint16; vm_compute; split; congruence.
Defined.

End Conditions.

(** ** The topology transmogrifier: state, tasks and errors *)

Module Transmogrifier.

Definition VarUUId := list Z.
Definition TxnId := list Z.

(** What the transmogrifier reads off a [paxos.Connection]. *)
Record Connection := mkConnection {
  ConnHost : string;
  ConnRMId : RMId;
  ConnBootCount : Z;
  ConnRootId : option VarUUId
}.

(** The phases of a topology task.  A sub-task embeds the [targetConfig] it
    was started from, so a task is its phase together with the goal and the
    goal-sharing sender of that [targetConfig]. *)
Inductive TaskKind :=
| TargetConfig
| EnsureLocalTopology
| JoinCluster
| InstallTargetOld
| InstallTargetNew
| Migrate
| InstallCompletion.

Record Task := mkTask {
  kind : TaskKind;
  config : NextConfiguration;
  sender : bool                     (* task.sender != nil *)
}.

Definition subTask (k : TaskKind) (t : Task) : Task :=
  mkTask k (config t) (sender t).

Inductive Error :=
| ErrClusterIdChange (old new : string)
| ErrRemovedFromCluster
| ErrConfused
| ErrReadFailedToAbort
| ErrMultipleUpdates
| ErrMultipleActions
| ErrNoTopologyAction
| ErrNonWriteAction
| ErrTooManyReferences
| ErrExternal (msg : string).

(** What leaves the actor: log lines and calls on the connection manager,
    the disk and the actor's own queue.  The newest effect is at the head. *)
Inductive Effect :=
| EffLog (msg : string)
| EffInstallTopology (t : Topology)
| EffSetDesiredServers (localHost : string) (remoteHosts : list string)
| EffSetFlags (noSync : bool)
| EffAbandon (t : Task)
| EffRewriteTopology (read write : Topology) (act pas : RMIds)
| EffRemoveSender
| EffEnqueueTick.

(** The counters of the migration ledger are [*int32]: the ledger maps a
    version and a sender to the index of a cell in [cells]. *)
Record TT := mkTT {
  SelfRMId : RMId;                  (* connectionManager.RMId *)
  SelfBootCount : Z;                (* connectionManager.BootCount *)
  active : option Topology;
  installedOnProposers : option Topology;
  hostToConnection : gmap string Connection;
  activeConnections : gmap Z Connection;
  migrations : gmap Z (gmap Z nat);
  cells : list Z;
  task : option Task;
  effects : list Effect
}.

Definition setTask (t : option Task) (tt : TT) : TT :=
  mkTT (SelfRMId tt) (SelfBootCount tt) (active tt) (installedOnProposers tt) (hostToConnection tt)
       (activeConnections tt) (migrations tt) (cells tt) t (effects tt).

Definition setActiveTopology (a : option Topology) (tt : TT) : TT :=
  mkTT (SelfRMId tt) (SelfBootCount tt) a (installedOnProposers tt) (hostToConnection tt)
       (activeConnections tt) (migrations tt) (cells tt) (task tt) (effects tt).

Definition setMigrations (m : gmap Z (gmap Z nat)) (tt : TT) : TT :=
  mkTT (SelfRMId tt) (SelfBootCount tt) (active tt) (installedOnProposers tt) (hostToConnection tt)
       (activeConnections tt) m (cells tt) (task tt) (effects tt).

Definition setCells (c : list Z) (tt : TT) : TT :=
  mkTT (SelfRMId tt) (SelfBootCount tt) (active tt) (installedOnProposers tt) (hostToConnection tt)
       (activeConnections tt) (migrations tt) c (task tt) (effects tt).

Definition emit (e : Effect) (tt : TT) : TT :=
  mkTT (SelfRMId tt) (SelfBootCount tt) (active tt) (installedOnProposers tt) (hostToConnection tt)
       (activeConnections tt) (migrations tt) (cells tt) (task tt) (e :: effects tt).

Definition len {A} (l : list A) : Z := Z.of_nat (length l).

(** *** [targetConfig.tick] *)

(** [task.active.Next() == nil || task.active.Next().Version < task.config.Version] *)
Definition nextMissingOrOlder (a : Topology) (goal : NextConfiguration) : bool :=
  match Next (TopCfg a) with
  | None => true
  | Some next => Version (NextCfg next) <? Version (NextCfg goal)
  end.

(** [task.active.Next() != nil && task.active.Next().Version == task.config.Version && p] *)
Definition nextIsGoal (a : Topology) (goal : NextConfiguration)
    (p : NextConfiguration -> bool) : bool :=
  match Next (TopCfg a) with
  | None => false
  | Some next => (Version (NextCfg next) =? Version (NextCfg goal)) && p next
  end.

Definition install (k : TaskKind) (msg : string) (t : Task) (tt : TT)
    : TT * option Error :=
  (setTask (Some (subTask k t)) (emit (EffLog msg) tt), None).

Definition targetConfig_tick (t : Task) (tt : TT) : TT * option Error :=
  match active tt with
  | None => install EnsureLocalTopology "Ensuring local topology." t tt
  | Some a =>
      if Version (TopCfg a) =? 0 then
        install JoinCluster "Attempting to join cluster" t tt
      else if nextMissingOrOlder a (config t) then
        install InstallTargetOld "Attempting to install topology change target" t tt
      else if nextIsGoal a (config t) (fun next => 0 <? len (PendingInstall next)) then
        install InstallTargetNew
          "Attempting to install topology change to new cluster" t tt
      else if nextIsGoal a (config t) (fun next =>
                (len (PendingInstall next) =? 0)
                && (0 <? Z.of_nat (size (Pending next)))) then
        install Migrate "Attempting to perform object migration" t tt
      else if nextIsGoal a (config t) (fun next =>
                (len (PendingInstall next) =? 0)
                && (Z.of_nat (size (Pending next)) =? 0)) then
        install InstallCompletion "Object migration completed" t tt
      else (tt, Some ErrConfused)
  end.

(** The outcome "sub-task [k] is installed": the task slot holds phase [k]
    over the same goal and sender, one line is logged, nothing else changes
    and no error is returned. *)
Definition Installs (k : TaskKind) (t : Task) (tt : TT) (r : TT * option Error) : Prop :=
  exists msg, r = (setTask (Some (subTask k t)) (emit (EffLog msg) tt), None).

Lemma size_empty_iff (m : Conds) : Z.of_nat (size m) = 0 <-> m = ∅.
Proof.
  split.
  - intros H. apply map_size_empty_iff. lia.
  - intros ->. by rewrite map_size_empty.
Qed.

Lemma len_nil_iff {A} (l : list A) : len l = 0 <-> l = [].
Proof.
  unfold len. destruct l; simpl; split; intros; try done; lia.
Qed.

(** C1.  One call of [targetConfig.tick] on the pair (active topology, goal)
    installs the sub-task of the first row of the entry table that applies:
    ensureLocalTopology when there is no active topology; joinCluster when
    the active version is 0; otherwise installTargetOld when the active
    topology has no next or its next is older than the goal, and, when the
    next has the goal's version, installTargetNew if PendingInstall is
    non-empty, migrate if PendingInstall is empty and Pending is not,
    installCompletion if both are empty.  In the one remaining case (a next
    newer than the goal) tick returns an error and changes nothing. *)
Theorem targetConfig_tick_table (t : Task) (tt : TT) :
  (active tt = None ->
   Installs EnsureLocalTopology t tt (targetConfig_tick t tt)) /\
  (forall a, active tt = Some a -> Version (TopCfg a) = 0 ->
   Installs JoinCluster t tt (targetConfig_tick t tt)) /\
  (forall a, active tt = Some a -> Version (TopCfg a) <> 0 ->
   (Next (TopCfg a) = None \/
    exists next, Next (TopCfg a) = Some next /\
                 Version (NextCfg next) < Version (NextCfg (config t))) ->
   Installs InstallTargetOld t tt (targetConfig_tick t tt)) /\
  (forall a next, active tt = Some a -> Version (TopCfg a) <> 0 ->
   Next (TopCfg a) = Some next ->
   Version (NextCfg next) = Version (NextCfg (config t)) ->
   PendingInstall next <> [] ->
   Installs InstallTargetNew t tt (targetConfig_tick t tt)) /\
  (forall a next, active tt = Some a -> Version (TopCfg a) <> 0 ->
   Next (TopCfg a) = Some next ->
   Version (NextCfg next) = Version (NextCfg (config t)) ->
   PendingInstall next = [] -> Pending next <> ∅ ->
   Installs Migrate t tt (targetConfig_tick t tt)) /\
  (forall a next, active tt = Some a -> Version (TopCfg a) <> 0 ->
   Next (TopCfg a) = Some next ->
   Version (NextCfg next) = Version (NextCfg (config t)) ->
   PendingInstall next = [] -> Pending next = ∅ ->
   Installs InstallCompletion t tt (targetConfig_tick t tt)) /\
  (forall a next, active tt = Some a -> Version (TopCfg a) <> 0 ->
   Next (TopCfg a) = Some next ->
   Version (NextCfg (config t)) < Version (NextCfg next) ->
   targetConfig_tick t tt = (tt, Some ErrConfused)).
Proof.
  unfold targetConfig_tick, Installs, install, nextMissingOrOlder, nextIsGoal.
  repeat split.
  - intros ->. eauto.
  - intros a -> Hv. rewrite Hv. cbn. eauto.
  - intros a -> Hv Hn.
    rewrite (proj2 (Z.eqb_neq _ _) Hv).
    destruct Hn as [->|(next & -> & Hlt)]; [eauto|].
    rewrite (proj2 (Z.ltb_lt _ _) Hlt). eauto.
  - intros a next -> Hv -> He Hp.
    rewrite (proj2 (Z.eqb_neq _ _) Hv), He, Z.ltb_irrefl, Z.eqb_refl.
    assert ((0 <? len (PendingInstall next)) = true) as ->; [|cbn; eauto].
    apply Z.ltb_lt. destruct (PendingInstall next); [done|]. unfold len. cbn. lia.
  - intros a next -> Hv -> He Hp Hq.
    rewrite (proj2 (Z.eqb_neq _ _) Hv), He, Z.ltb_irrefl, Z.eqb_refl, Hp.
    assert ((0 <? Z.of_nat (size (Pending next))) = true) as ->; [|cbn; eauto].
    apply Z.ltb_lt.
    destruct (Z.eq_dec (Z.of_nat (size (Pending next))) 0) as [E|E]; [|lia].
    by apply size_empty_iff in E.
  - intros a next -> Hv -> He Hp Hq.
    rewrite (proj2 (Z.eqb_neq _ _) Hv), He, Z.ltb_irrefl, Z.eqb_refl, Hp, Hq.
    cbn. eauto.
  - intros a next -> Hv -> Hgt.
    rewrite (proj2 (Z.eqb_neq _ _) Hv).
    rewrite (proj2 (Z.ltb_ge _ _)) by lia.
    rewrite (proj2 (Z.eqb_neq _ _)) by lia. done.
Qed.

(** Adding one node (hosts h1..h3 at version 1, goal h1..h4 at version 2):
    the target is installed everywhere and RM 4 still waits for its data. *)
Definition addOneGoalCfg : Configuration :=
  mkConfiguration "c" 2 ["h1"; "h2"; "h3"; "h4"]%string 1 5 false [1; 2; 3; 4] ∅ None.

Definition addOneNext : NextConfiguration :=
  mkNextConfiguration addOneGoalCfg ["h2"; "h3"; "h4"; "h1"]%string [4] [1; 2; 3] [] []
    {[ 4 := mkCondSuppliers (Conditions.includesGenerator 4 4 0 3 []) [] ]}.

Definition addOneActive : Topology :=
  mkTopology
    (mkConfiguration "c" 1 ["h1"; "h2"; "h3"]%string 1 5 false [1; 2; 3] ∅
       (Some addOneNext))
    [1] (Some ([7], [0; 1; 2; 3; 4])).

Definition addOneGoal : NextConfiguration :=
  mkNextConfiguration addOneGoalCfg [] [] [] [] [] ∅.

Definition addOneTask : Task := mkTask TargetConfig addOneGoal false.

Definition addOneTT : TT :=
  mkTT 1 1 (Some addOneActive) None ∅ ∅ ∅ [] (Some addOneTask) [].

Example addOne_tick_migrate :
  task (fst (targetConfig_tick addOneTask addOneTT)) =
  Some (mkTask Migrate addOneGoal false).
Proof. reflexivity. Qed.

Lemma targetConfig_tick_table_witness :
  Installs Migrate addOneTask addOneTT (targetConfig_tick addOneTask addOneTT).
Proof.
  destruct (targetConfig_tick_table addOneTask addOneTT) as (_ & _ & _ & _ & H & _).
  apply (H addOneActive addOneNext); try reflexivity.
  - vm_compute. congruence.
  - intros E. apply (f_equal (fun m : Conds => m !! 4)) in E.
    vm_compute in E. congruence.
Defined.

(** *** [selectGoal], [installTopology] and [setActive] *)

(** An early [return] inside a Go [switch]. *)
Inductive Flow (S : Type) := Return (s : S) | Continue (s : S).
Arguments Return {S} s.
Arguments Continue {S} s.

Definition selectGoal (goal : NextConfiguration) (tt : TT) : TT :=
  let checkActive :=
    match active tt with
    | Some a =>
        if Version (NextCfg goal) =? 0 then Return tt
        else if negb (String.eqb (ClusterId (NextCfg goal)) (ClusterId (TopCfg a))) then
          Return (emit (EffLog "Illegal config: ClusterId") tt)
        else if Version (NextCfg goal) <? Version (TopCfg a) then
          Return (emit (EffLog "Ignoring config: newer version already active") tt)
        else if Version (NextCfg goal) =? Version (TopCfg a) then
          Return (emit (EffLog "Config transition completed") tt)
        else Continue tt
    | None => Continue tt
    end in
  match checkActive with
  | Return tt1 => tt1
  | Continue tt1 =>
      let tt := tt1 in
      let checkTask :=
        match task tt with
        | Some t =>
            let existingGoal := config t in
            if negb (String.eqb (ClusterId (NextCfg goal))
                                (ClusterId (NextCfg existingGoal))) then
              Return (emit (EffLog "Illegal config: ClusterId") tt)
            else if Version (NextCfg goal) <? Version (NextCfg existingGoal) then
              Return (emit (EffLog "Ignoring config: newer version already targetted") tt)
            else if Version (NextCfg goal) =? Version (NextCfg existingGoal) then
              Return (emit (EffLog "Config transition already in progress") tt)
            else Continue (setTask None (emit (EffAbandon t) tt))
        | None => Continue tt
        end in
      match checkTask with
      | Return tt2 => tt2
      | Continue tt2 =>
          match task tt2 with
          | None => setTask (Some (mkTask TargetConfig goal false)) tt2
          | Some _ => tt2
          end
      end
  end.

Definition installTopology (topology : Topology) (tt : TT) : TT :=
  emit (EffInstallTopology topology) tt.

Section Actor.

(** The ticks of the sub-tasks reach the network and the disk; their
    errors are their collaborators'.  The one sub-task that calls back into
    [setActive], [ensureLocalTopology], does so only while there is no
    active topology. *)
Variable subTaskTick : Task -> TT -> TT * option string.

(** Modelled from the spec: [Configuration.LocalRemoteHosts] is not among
    the sources; for a listen port it finds this node among the hosts of a
    configuration and returns it with the other hosts, or fails. *)
Variable LocalRemoteHosts : Configuration -> string + (string * list string).

(** The result of [env.SetFlags(mdb.NOSYNC, noSync)] on the disk. *)
Variable diskSetFlags : bool -> option string.

(** [tt.task.tick()], by the dynamic type of the task. *)
Definition tick (t : Task) (tt : TT) : TT * option Error :=
  match kind t with
  | TargetConfig => targetConfig_tick t tt
  | _ => let '(tt', err) := subTaskTick t tt in (tt', ErrExternal <$> err)
  end.

(** [setActive] once the observed topology has passed the guards on the
    cluster id, the version and equality with the active one. *)
Definition setActive_accepted (topology : Topology) (tt : TT) : TT * option Error :=
  if bool_decide (SelfRMId tt ∈ RMsRemoved (TopCfg topology)) then
    (tt, Some ErrRemovedFromCluster)
  else
    let tt := setActiveTopology (Some topology) tt in
    let ticked :=
      match task tt with
      | Some t => tick t tt
      | None => (tt, None)
      end in
    let tt := fst ticked in
    match snd ticked with
    | Some e => (tt, Some e)
    | None =>
        match task tt with
        | Some _ => (tt, None)
        | None =>
            match Next (TopCfg topology) with
            | None =>
                let tt := installTopology topology tt in
                match active tt with
                | None => (tt, Some (ErrExternal "nil pointer dereference"))
                | Some a =>
                    match LocalRemoteHosts (TopCfg a) with
                    | inl e => (tt, Some (ErrExternal e))
                    | inr (localHost, remoteHosts) =>
                        let tt := emit (EffLog ">==> We are") tt in
                        let tt := emit (EffSetFlags (NoSync (TopCfg topology))) tt in
                        let tt := emit (EffSetDesiredServers localHost remoteHosts) tt in
                        let tt :=
                          setMigrations
                            (filter (fun kv => ¬ (kv.1 <= Version (TopCfg topology)))
                                    (migrations tt)) tt in
                        (tt, ErrExternal <$> diskSetFlags (NoSync (TopCfg topology)))
                    end
                end
            | Some next => (selectGoal next tt, None)
            end
        end
    end.

Definition setActive (topology : Topology) (tt : TT) : TT * option Error :=
  match active tt with
  | Some a =>
      if negb (String.eqb (ClusterId (TopCfg a)) (ClusterId (TopCfg topology))) then
        (tt, Some (ErrClusterIdChange (ClusterId (TopCfg a)) (ClusterId (TopCfg topology))))
      else if Version (TopCfg topology) <? Version (TopCfg a) then
        (emit (EffLog "Ignoring config: newer version already active") tt, None)
      else if Equal (TopCfg a) (TopCfg topology) then
        (tt, None)
      else setActive_accepted topology tt
  | None => setActive_accepted topology tt
  end.

(** The observed topology gets past the three guards. *)
Definition accepts (tt : TT) (topology : Topology) : Prop :=
  match active tt with
  | Some a =>
      ClusterId (TopCfg a) = ClusterId (TopCfg topology)
      /\ Version (TopCfg a) <= Version (TopCfg topology)
      /\ Equal (TopCfg a) (TopCfg topology) = false
  | None => True
  end.

Lemma setActive_accepts topology tt :
  accepts tt topology -> setActive topology tt = setActive_accepted topology tt.
Proof.
  unfold accepts, setActive. destruct (active tt) as [a|]; [|done].
  intros (Hc & Hv & He). rewrite Hc, He.
  rewrite (proj2 (String.eqb_eq _ _) eq_refl). cbn [negb].
  by rewrite (proj2 (Z.ltb_ge _ _) Hv).
Qed.

Lemma tick_not_removed t tt :
  snd (tick t tt) <> Some ErrRemovedFromCluster.
Proof.
  unfold tick.
  destruct (kind t); try (destruct (subTaskTick t tt) as [tt' [e|]]; done).
  unfold targetConfig_tick, install.
  destruct (active tt) as [a|]; [|done].
  repeat (match goal with |- context [if ?b then _ else _] => destruct b end);
    done.
Qed.

Lemma setActive_accepted_removed topology tt :
  SelfRMId tt ∈ RMsRemoved (TopCfg topology) ->
  setActive_accepted topology tt = (tt, Some ErrRemovedFromCluster).
Proof.
  intros H. unfold setActive_accepted. by rewrite bool_decide_eq_true_2.
Qed.

Lemma setActive_accepted_not_removed topology tt :
  SelfRMId tt ∉ RMsRemoved (TopCfg topology) ->
  snd (setActive_accepted topology tt) <> Some ErrRemovedFromCluster.
Proof.
  intros H. unfold setActive_accepted. rewrite bool_decide_eq_false_2 by done.
  set (tt1 := setActiveTopology (Some topology) tt).
  destruct (task tt1) as [t|] eqn:Et.
  - pose proof (tick_not_removed t tt1) as Hn.
    destruct (tick t tt1) as [tt2 [e|]]; cbn [fst snd] in *; [done|].
    repeat case_match; cbn [fst snd]; try done.
    by destruct (diskSetFlags _).
  - cbn [fst snd]. rewrite Et.
    repeat case_match; cbn [fst snd]; try done.
    by destruct (diskSetFlags _).
Qed.

End Actor.

(** Collaborators that do nothing, for running the actor on examples. *)
Definition idleSubTaskTick (t : Task) (tt : TT) : TT * option string := (tt, None).
Definition noLocalHost (c : Configuration) : string + (string * list string) :=
  inl "this node is not among the hosts"%string.
Definition firstHostLocal (c : Configuration) : string + (string * list string) :=
  match Hosts c with
  | h :: hs => inr (h, hs)
  | [] => inl "this node is not among the hosts"%string
  end.
Definition diskOk (noSync : bool) : option string := None.

(** The two guards of [setActive] that ignore: an observed topology of the
    active cluster whose version is strictly less than the active version
    is logged and ignored, and one of the active version is ignored,
    silently, when its configuration equals the active one. *)
Lemma setActive_ignored
    (subTaskTick : Task -> TT -> TT * option string)
    (LocalRemoteHosts : Configuration -> string + (string * list string))
    (diskSetFlags : bool -> option string)
    (topology a : Topology) (tt : TT) :
  active tt = Some a ->
  ClusterId (TopCfg a) = ClusterId (TopCfg topology) ->
  (Version (TopCfg topology) < Version (TopCfg a) ->
   setActive subTaskTick LocalRemoteHosts diskSetFlags topology tt =
   (emit (EffLog "Ignoring config: newer version already active") tt, None))
  /\ (Version (TopCfg topology) = Version (TopCfg a) ->
      Equal (TopCfg a) (TopCfg topology) = true ->
      setActive subTaskTick LocalRemoteHosts diskSetFlags topology tt = (tt, None)).
Proof.
  intros Ha Hc. unfold setActive. rewrite Ha, Hc.
  rewrite (proj2 (String.eqb_eq _ _) eq_refl). cbn [negb].
  split.
  - intros Hv. by rewrite (proj2 (Z.ltb_lt _ _) Hv).
  - intros Hv He. rewrite Hv, Z.ltb_irrefl. by rewrite He.
Qed.

(** The add-one-node change one step earlier: RM 4 has not been told about
    the target yet. *)
Definition addOneInstalling : Topology :=
  mkTopology
    (mkConfiguration "c" 1 ["h1"; "h2"; "h3"]%string 1 5 false [1; 2; 3] ∅
       (Some (mkNextConfiguration addOneGoalCfg ["h2"; "h3"; "h4"; "h1"]%string
                [4] [1; 2; 3] [] [4] (Pending addOneNext))))
    [1] (Some ([7], [0; 1; 2; 3; 4])).

Definition installingTT : TT :=
  mkTT 1 1 (Some addOneInstalling) None ∅ ∅ ∅ [] None [].

Definition olderTopology : Topology :=
  mkTopology
    (mkConfiguration "c" 0 [] 0 0 false [] ∅ None) [0] None.

(** The claim as first worded fails at equal versions: an observed topology
    of the active version and cluster whose [next] has moved on replaces the
    active topology, and a task is created for its target. *)
Lemma setActive_same_version_accepted :
  Version (TopCfg addOneActive) <= Version (TopCfg addOneInstalling)
  /\ ClusterId (TopCfg addOneActive) = ClusterId (TopCfg addOneInstalling)
  /\ active installingTT = Some addOneInstalling
  /\ active (fst (setActive idleSubTaskTick noLocalHost diskOk addOneActive installingTT))
     = Some addOneActive
  /\ addOneActive <> addOneInstalling
  /\ task installingTT = None
  /\ task (fst (setActive idleSubTaskTick noLocalHost diskOk addOneActive installingTT))
     = Some (mkTask TargetConfig addOneNext false).
Proof.
  split; [vm_compute; congruence|].
  do 3 (split; [reflexivity|]).
  split; [|split; reflexivity].
  intros E. apply (f_equal (fun t => PendingInstall <$> Next (TopCfg t))) in E.
  vm_compute in E. congruence.
Qed.

End Transmogrifier.

(** ** The earlier transmogrifier (synchronous [finish] callbacks)

    The repository also holds the earlier state machine, in which a goal
    carries an error channel and [setActive] installs the topology before
    it looks at [rmsRemoved]. *)

Module Synchronous.

Import Transmogrifier.

Record Goal := mkGoal {
  goalConfig : Configuration;
  errChan : bool                    (* errChan != nil *)
}.

Inductive TaskKind :=
| TargetConfig
| EnsureLocalTopology
| JoinCluster
| InstallTarget.

Record Task := mkTask {
  kind : TaskKind;
  goal : Goal
}.

Inductive Effect :=
| EffLog (msg : string)
| EffSetTopology (t : Topology)
| EffSetDesiredServers (localHost : string) (remoteHosts : list string)
| EffFinish (err : option string).

Record TT := mkTT {
  SelfRMId : RMId;
  active : option Topology;
  task : option Task;
  effects : list Effect
}.

Definition setTask (t : option Task) (tt : TT) : TT :=
  mkTT (SelfRMId tt) (active tt) t (effects tt).

Definition setActiveTopology (a : option Topology) (tt : TT) : TT :=
  mkTT (SelfRMId tt) a (task tt) (effects tt).

Definition emit (e : Effect) (tt : TT) : TT :=
  mkTT (SelfRMId tt) (active tt) (task tt) (e :: effects tt).

(** [goal.finish(err)]: the error, if any, is sent and the channel closed,
    once. *)
Definition finish (g : Goal) (err : option string) (tt : TT) : TT :=
  if errChan g then emit (EffFinish err) tt else tt.

Definition activeSuch (tt : TT) (p : Topology -> bool) : bool :=
  match active tt with
  | Some a => p a
  | None => false
  end.

Definition selectGoal (g : Goal) (tt : TT) : TT :=
  let gv := Version (goalConfig g) in
  if activeSuch tt (fun a =>
       negb (String.eqb (ClusterId (TopCfg a)) (ClusterId (goalConfig g)))
       && (0 <? gv)) then
    finish g (Some "Illegal config: ClusterId") tt
  else if activeSuch tt (fun a => (gv <? Version (TopCfg a)) && (0 <? gv)) then
    finish g (Some "Ignoring config: newer version already active") tt
  else if activeSuch tt (fun a => gv <? Version (TopCfg a)) then
    finish g None tt
  else if activeSuch tt (fun a => Version (TopCfg a) =? gv) then
    finish g None tt
  else
    let afterTask :=
      match task tt with
      | Some t =>
          let existingGoal := goal t in
          if negb (String.eqb (ClusterId (goalConfig existingGoal))
                              (ClusterId (goalConfig g))) then
            Return (finish g (Some "Illegal config: ClusterId") tt)
          else if gv <? Version (goalConfig existingGoal) then
            Return (finish g (Some "Ignoring config: newer version already targetted") tt)
          else if Version (goalConfig existingGoal) =? gv then
            Return (finish g None tt)
          else Continue (setTask None tt)
      | None => Continue tt
      end in
    match afterTask with
    | Return tt1 => tt1
    | Continue tt1 =>
        match task tt1 with
        | None => setTask (Some (mkTask TargetConfig g)) tt1
        | Some _ => tt1
        end
    end.

Section Actor.

Variable LocalRemoteHosts : Configuration -> string + (string * list string).

Definition setActive_accepted (topology : Topology) (tt : TT)
    : TT * option Transmogrifier.Error :=
  let tt := setActiveTopology (Some topology) tt in
  let tt := emit (EffSetTopology topology) tt in
  let checkRemoved (tt1 : TT) : TT * option Transmogrifier.Error :=
    if bool_decide (SelfRMId tt1 ∈ RMsRemoved (TopCfg topology)) then
      (tt1, Some ErrRemovedFromCluster)
    else
      let tt2 :=
        match task tt1 with
        | Some t => selectGoal (goal t) (setTask None tt1)
        | None => tt1
        end in
      let tt3 :=
        match Next (TopCfg topology) with
        | Some next => selectGoal (mkGoal (NextCfg next) true) tt2
        | None => tt2
        end in
      (tt3, None) in
  if 0 <? Version (TopCfg topology) then
    match LocalRemoteHosts (TopCfg topology) with
    | inl e => (tt, Some (ErrExternal e))
    | inr (localHost, remoteHosts) =>
        checkRemoved (emit (EffSetDesiredServers localHost remoteHosts)
                        (emit (EffLog ">==> We are") tt))
    end
  else checkRemoved tt.

Definition setActive (topology : Topology) (tt : TT)
    : TT * option Transmogrifier.Error :=
  match active tt with
  | Some a =>
      if negb (String.eqb (ClusterId (TopCfg a)) (ClusterId (TopCfg topology))) then
        (emit (EffLog "Ignoring config with ClusterId change") tt, None)
      else if Version (TopCfg topology) <? Version (TopCfg a) then
        (emit (EffLog "Ignoring config: newer version already active") tt, None)
      else if Version (TopCfg a) =? Version (TopCfg topology) then
        (tt, None)
      else setActive_accepted topology tt
  | None => setActive_accepted topology tt
  end.

(** The observed topology gets past the guards of the earlier [setActive]. *)
Definition accepts (tt : TT) (topology : Topology) : Prop :=
  match active tt with
  | Some a =>
      ClusterId (TopCfg a) = ClusterId (TopCfg topology)
      /\ Version (TopCfg a) < Version (TopCfg topology)
  | None => True
  end.

Lemma sync_setActive_accepts topology tt :
  accepts tt topology -> setActive topology tt = setActive_accepted topology tt.
Proof.
  unfold accepts, setActive. destruct (active tt) as [a|]; [|done].
  intros (Hc & Hv). rewrite Hc.
  rewrite (proj2 (String.eqb_eq _ _) eq_refl). cbn [negb].
  rewrite (proj2 (Z.ltb_ge _ _)) by lia.
  by rewrite (proj2 (Z.eqb_neq _ _)) by lia.
Qed.

Lemma sync_setActive_accepted_removed topology tt :
  SelfRMId tt ∈ RMsRemoved (TopCfg topology) ->
  (exists e, snd (setActive_accepted topology tt) = Some e)
  /\ task (fst (setActive_accepted topology tt)) = task tt.
Proof.
  intros H. unfold setActive_accepted.
  destruct (0 <? Version (TopCfg topology)).
  - destruct (LocalRemoteHosts (TopCfg topology)) as [e|[l r]]; cbn.
    + eauto.
    + rewrite bool_decide_eq_true_2 by done. eauto.
  - cbn. rewrite bool_decide_eq_true_2 by done. eauto.
Qed.

Lemma sync_setActive_accepted_not_removed topology tt :
  SelfRMId tt ∉ RMsRemoved (TopCfg topology) ->
  snd (setActive_accepted topology tt) <> Some ErrRemovedFromCluster.
Proof.
  intros H. unfold setActive_accepted.
  destruct (0 <? Version (TopCfg topology)).
  - destruct (LocalRemoteHosts (TopCfg topology)) as [e|[l r]]; cbn; [done|].
    by rewrite bool_decide_eq_false_2.
  - cbn. by rewrite bool_decide_eq_false_2.
Qed.

End Actor.

End Synchronous.

(** ** Removal from the cluster *)

Module Removal.

(** A topology that removes RM 1, observed by RM 1 itself. *)
Definition removingTopology : Topology :=
  mkTopology
    (mkConfiguration "c" 2 ["h2"; "h3"; "h4"]%string 1 5 false [4; 2; 3] {[ 1 ]} None)
    [2] (Some ([7], [0; 1; 2; 3; 4])).

(** C6.  Whenever [setActive] accepts an observed topology whose
    [rmsRemoved] holds this node's RM id, it returns an error and leaves the
    task slot as it was, so that no task is run or created for that
    topology: in the later state machine the whole state is untouched and
    the error is the removal error; in the earlier one the error is
    returned before any task is abandoned or selected.  For an accepted
    topology whose [rmsRemoved] does not hold the local RM id the removal
    error is not returned, in either state machine. *)
Theorem setActive_removed_shuts_down :
  (forall subTaskTick LocalRemoteHosts diskSetFlags topology tt,
     Transmogrifier.accepts tt topology ->
     (Transmogrifier.SelfRMId tt ∈ RMsRemoved (TopCfg topology) ->
      Transmogrifier.setActive subTaskTick LocalRemoteHosts diskSetFlags topology tt
      = (tt, Some Transmogrifier.ErrRemovedFromCluster))
     /\ (Transmogrifier.SelfRMId tt ∉ RMsRemoved (TopCfg topology) ->
         snd (Transmogrifier.setActive subTaskTick LocalRemoteHosts diskSetFlags
                topology tt)
         <> Some Transmogrifier.ErrRemovedFromCluster))
  /\ (forall LocalRemoteHosts topology tt,
        Synchronous.accepts tt topology ->
        (Synchronous.SelfRMId tt ∈ RMsRemoved (TopCfg topology) ->
         (exists e, snd (Synchronous.setActive LocalRemoteHosts topology tt) = Some e)
         /\ Synchronous.task (fst (Synchronous.setActive LocalRemoteHosts topology tt))
            = Synchronous.task tt)
        /\ (Synchronous.SelfRMId tt ∉ RMsRemoved (TopCfg topology) ->
            snd (Synchronous.setActive LocalRemoteHosts topology tt)
            <> Some Transmogrifier.ErrRemovedFromCluster)).
Proof.
  split.
  - intros subTaskTick LRH disk topology tt Hacc.
    rewrite (Transmogrifier.setActive_accepts _ _ _ _ _ Hacc). split.
    + apply Transmogrifier.setActive_accepted_removed.
    + apply Transmogrifier.setActive_accepted_not_removed.
  - intros LRH topology tt Hacc.
    rewrite (Synchronous.sync_setActive_accepts _ _ _ Hacc). split.
    + apply Synchronous.sync_setActive_accepted_removed.
    + apply Synchronous.sync_setActive_accepted_not_removed.
Qed.

Example removed_later :
  Transmogrifier.setActive Transmogrifier.idleSubTaskTick
    Transmogrifier.firstHostLocal Transmogrifier.diskOk
    removingTopology Transmogrifier.addOneTT
  = (Transmogrifier.addOneTT, Some Transmogrifier.ErrRemovedFromCluster).
Proof. reflexivity. Qed.

Lemma setActive_removed_shuts_down_witness :
  Transmogrifier.accepts Transmogrifier.addOneTT removingTopology
  /\ Transmogrifier.SelfRMId Transmogrifier.addOneTT
     ∈ RMsRemoved (TopCfg removingTopology)
  /\ Transmogrifier.setActive Transmogrifier.idleSubTaskTick
       Transmogrifier.firstHostLocal Transmogrifier.diskOk
       removingTopology Transmogrifier.addOneTT
     = (Transmogrifier.addOneTT, Some Transmogrifier.ErrRemovedFromCluster).
Proof.
  assert (Hacc : Transmogrifier.accepts Transmogrifier.addOneTT removingTopology).
  { repeat split; vm_compute; congruence. }
  assert (Hin : Transmogrifier.SelfRMId Transmogrifier.addOneTT
                ∈ RMsRemoved (TopCfg removingTopology)).
  { vm_compute. reflexivity. }
  split; [exact Hacc|]. split; [exact Hin|].
  exact (proj1 (proj1 setActive_removed_shuts_down
                  Transmogrifier.idleSubTaskTick Transmogrifier.firstHostLocal
                  Transmogrifier.diskOk removingTopology Transmogrifier.addOneTT Hacc)
               Hin).
Defined.

End Removal.

(** ** Messages

    The capnp messages, as far as the transmogrifier, the emigrator and the
    topology transactions read and write them. *)

Module Msgs.

Definition VarUUId := list Z.
Definition TxnId := list Z.

Record VarIdPos := mkVarIdPos {
  RefId : VarUUId;
  RefPositions : list Z
}.

Inductive ActionBody :=
| ActionRead (version : TxnId)
| ActionWrite (value : list Z) (references : list VarIdPos)
| ActionReadwrite (version : TxnId) (value : list Z) (references : list VarIdPos)
| ActionCreate (positions : list Z) (value : list Z) (references : list VarIdPos)
| ActionMissing
| ActionRoll (version : TxnId) (value : list Z) (references : list VarIdPos).

Record Action := mkAction {
  ActionVarId : VarUUId;
  Body : ActionBody
}.

Record Allocation := mkAllocation {
  AllocRmId : Z;
  AllocActive : Z;                  (* boot count, 0 for a passive RM *)
  ActionIndices : list Z
}.

Record Txn := mkTxn {
  Id : TxnId;
  Submitter : Z;
  SubmitterBootCount : Z;
  Actions : list Action;
  Allocations : list Allocation;
  FInc : Z;
  TopologyVersion : Z
}.

Record Update := mkUpdate {
  UpdateTxnId : TxnId;
  UpdateActions : list Action
}.

Inductive Abort :=
| Resubmit
| Rerun (updates : list Update).

Inductive OutcomeWhich :=
| Commit
| OutcomeAbort (abort : Abort).

Record Outcome := mkOutcome {
  OutcomeTxn : Txn;
  Which : OutcomeWhich
}.

Record Var := mkVar {
  VarId : VarUUId;
  Positions : list Z;
  WriteTxnId : TxnId
}.

Record Migration := mkMigration {
  MigVersion : Z;                   (* uint32 *)
  MigTxns : list Txn;
  MigVars : list Var
}.

End Msgs.

(** ** Immigration accounting

    [migrationReceived], the completion callback it hands to the var
    dispatcher, and [migrationCompleteReceived]. *)

Module Ledger.

Import Transmogrifier Msgs.

(** The closure given to [VarDispatcher.Immigrate]: it captures [varCount]
    and the sender's counter [inprogressPtr]. *)
Record Closure := mkClosure {
  varCount : Z;                     (* int32 *)
  inprogressPtr : nat
}.

(** The actor together with the closures the var dispatcher holds. *)
Record World := mkWorld {
  actor : TT;
  closures : list Closure
}.

Definition ptrOf (tt : TT) (version : Z) (sender : RMId) : option nat :=
  migrations tt !! version ≫= fun senders : gmap Z nat => senders !! sender.

(** The immigration counter for a version and a sender, if there is one. *)
Definition counter (tt : TT) (version : Z) (sender : RMId) : option Z :=
  ptrOf tt version sender ≫= fun p => cells tt !! p.

(** [atomic.AddInt32(ptr, delta)]: the cell after the addition and the new
    value. *)
Definition atomicAddInt32 (ptr : nat) (delta : Z) (cs : list Z) : list Z * Z :=
  let new := int32 (default 0 (cs !! ptr) + delta) in
  (<[ptr := new]> cs, new).

Section Accounting.

Variable subTaskTick : Task -> TT -> TT * option string.

(** [None] is a Go panic (here: a nil dereference of [tt.active]). *)
Definition migrationReceived (sender : RMId) (migration : Migration) (w : World)
    : option (World * option Error) :=
  let tt := actor w in
  match active tt with
  | None => None
  | Some a =>
      let version := MigVersion migration in
      if Version (TopCfg a) <? version then
        let senders : gmap Z nat := default ∅ (migrations tt !! version) in
        let found :=
          match senders !! sender with
          | Some ptr => (ptr, senders, fst (atomicAddInt32 ptr 1 (cells tt)))
          | None =>
              let ptr := length (cells tt) in
              (ptr, <[sender := ptr]> senders, cells tt ++ [2])
          end in
        let tt1 :=
          setCells found.2 (setMigrations (<[version := found.1.2]> (migrations tt)) tt) in
        let vc := int32 (len (MigVars migration)) in
        Some (mkWorld tt1 (closures w ++ [mkClosure vc found.1.1]), None)
      else Some (w, None)
  end.

(** The completion callback of batch number [b], called by the var
    dispatcher with the error of one variable's immigration. *)
Definition immigrated (b : nat) (err : option string) (w : World) : option World :=
  match err with
  | Some _ => None
  | None =>
      match closures w !! b with
      | None => Some w
      | Some c =>
          let vc := int32 (varCount c - 1) in
          let cls := <[b := mkClosure vc (inprogressPtr c)]> (closures w) in
          if vc =? 0 then
            let added := atomicAddInt32 (inprogressPtr c) (-1) (cells (actor w)) in
            let tt1 := setCells added.1 (actor w) in
            Some (mkWorld (if added.2 =? 0 then emit EffEnqueueTick tt1 else tt1) cls)
          else Some (mkWorld (actor w) cls)
      end
  end.

(** [migrationCompleteReceived] from the point where [senders] is known:
    the map found for the version, or the fresh one just stored for it. *)
Definition completeIn (sender : RMId) (version : Z) (senders : gmap Z nat)
    (tt : TT) (cls : list Closure) : option (World * option Error) :=
  let found :=
    match senders !! sender with
    | Some ptr =>
        let added := atomicAddInt32 ptr (-1) (cells tt) in
        (senders, added.1, added.2)
    | None => (<[sender := length (cells tt)]> senders, cells tt ++ [0], 0)
    end in
  let tt1 :=
    setCells found.1.2 (setMigrations (<[version := found.1.1]> (migrations tt)) tt) in
  match task tt1 with
  | Some t =>
      if found.2 =? 0 then
        let ticked := tick subTaskTick t tt1 in
        Some (mkWorld ticked.1 cls, ticked.2)
      else Some (mkWorld tt1 cls, None)
  | None => Some (mkWorld tt1 cls, None)
  end.

Definition migrationCompleteReceived (sender : RMId) (version : Z) (w : World)
    : option (World * option Error) :=
  let tt := emit (EffLog "MCR from") (actor w) in
  match migrations tt !! version with
  | Some senders => completeIn sender version senders tt (closures w)
  | None =>
      match active tt with
      | None => None
      | Some a =>
          if Version (TopCfg a) <? version
          then completeIn sender version ∅ tt (closures w)
          else Some (mkWorld tt (closures w), None)
      end
  end.

(** *** Runs of the accounting *)

Inductive Event :=
| EvMigration (sender : RMId) (migration : Migration)
| EvImmigrated (b : nat)
| EvMigrationComplete (sender : RMId) (version : Z).

(** The actor goes on only while its handlers return no error. *)
Definition live (r : option (World * option Error)) : option World :=
  match r with
  | Some (w, None) => Some w
  | _ => None
  end.

Definition step (e : Event) (w : World) : option World :=
  match e with
  | EvMigration sender migration => live (migrationReceived sender migration w)
  | EvImmigrated b => immigrated b None w
  | EvMigrationComplete sender version =>
      live (migrationCompleteReceived sender version w)
  end.

Fixpoint run (tr : list Event) (w : World) : option World :=
  match tr with
  | [] => Some w
  | e :: tr' =>
      match step e w with
      | Some w' => run tr' w'
      | None => None
      end
  end.

(** *** What has happened, and what the environment may do

    The history of a run lists the batches the ledger took in (those of a
    version above the active one), each with the number of its completion
    callbacks that have fired, and the terminal messages received. *)

Record Batch := mkBatch {
  batchSender : RMId;
  batchMsg : Migration;
  fired : Z
}.

Record History := mkHistory {
  batches : list Batch;
  completes : list (RMId * Z)
}.

Definition record (av : Z) (e : Event) (h : History) : History :=
  match e with
  | EvMigration sender migration =>
      if av <? MigVersion migration
      then mkHistory (batches h ++ [mkBatch sender migration 0]) (completes h)
      else h
  | EvImmigrated b =>
      match batches h !! b with
      | Some x =>
          mkHistory (<[b := mkBatch (batchSender x) (batchMsg x) (fired x + 1)]> (batches h))
                    (completes h)
      | None => h
      end
  | EvMigrationComplete sender version =>
      mkHistory (batches h) ((sender, version) :: completes h)
  end.

(** The environment's side of the protocol: a sender flushes no empty
    batch and sends one terminal message per version; the var dispatcher
    calls a batch's callback once per variable, after the batch was handed
    to it; and the [int32] counters are not driven to overflow. *)
Definition admits (e : Event) (h : History) : bool :=
  match e with
  | EvMigration sender migration =>
      (1 <=? len (MigVars migration)) && (len (MigVars migration) <? 2 ^ 31)
      && (len (batches h) + 2 <? 2 ^ 31)
  | EvImmigrated b =>
      match batches h !! b with
      | Some x => fired x <? len (MigVars (batchMsg x))
      | None => false
      end
  | EvMigrationComplete sender version =>
      bool_decide ((sender, version) ∉ completes h)
  end.

Fixpoint history (av : Z) (tr : list Event) (h : History) : History :=
  match tr with
  | [] => h
  | e :: tr' => history av tr' (record av e h)
  end.

Fixpoint admissible (av : Z) (tr : list Event) (h : History) : bool :=
  match tr with
  | [] => true
  | e :: tr' => admits e h && admissible av tr' (record av e h)
  end.

Definition noHistory : History := mkHistory [] [].

(** All callbacks of every batch taken in from [sender] at [version] have
    fired. *)
Definition allImmigrated (h : History) (version : Z) (sender : RMId) : Prop :=
  forall x, x ∈ batches h ->
    batchSender x = sender -> MigVersion (batchMsg x) = version ->
    fired x = len (MigVars (batchMsg x)).

(** *** The invariant of the accounting *)

(** A batch is outstanding while some of its callbacks have not fired. *)
Definition isOutstanding (version : Z) (sender : RMId) (x : Batch) : Prop :=
  batchSender x = sender /\ MigVersion (batchMsg x) = version
  /\ fired x < len (MigVars (batchMsg x)).

#[local] Instance isOutstanding_dec version sender x :
  Decision (isOutstanding version sender x).
Proof. unfold isOutstanding. apply _. Defined.

Definition outstanding (h : History) (version : Z) (sender : RMId) : Z :=
  len (filter (isOutstanding version sender) (batches h)).

Definition awaitsComplete (h : History) (version : Z) (sender : RMId) : Z :=
  if bool_decide ((sender, version) ∈ completes h) then 0 else 1.

(** Closure [c] is the callback of batch [x]. *)
Definition tracks (av : Z) (tt : TT) (x : Batch) (c : Closure) : Prop :=
  varCount c = len (MigVars (batchMsg x)) - fired x
  /\ ptrOf tt (MigVersion (batchMsg x)) (batchSender x) = Some (inprogressPtr c)
  /\ av < MigVersion (batchMsg x)
  /\ 0 <= fired x <= len (MigVars (batchMsg x))
  /\ 1 <= len (MigVars (batchMsg x)) < 2 ^ 31.

Record Inv (av : Z) (h : History) (w : World) : Prop := mkInv {
  inv_active : exists a, active (actor w) = Some a /\ Version (TopCfg a) = av;
  inv_closures : Forall2 (tracks av (actor w)) (batches h) (closures w);
  inv_cells : forall v s p, ptrOf (actor w) v s = Some p ->
      cells (actor w) !! p = Some (outstanding h v s + awaitsComplete h v s);
  inv_inj : forall v s v' s' p,
      ptrOf (actor w) v s = Some p -> ptrOf (actor w) v' s' = Some p ->
      v = v' /\ s = s';
  inv_versions : forall v senders,
      migrations (actor w) !! v = Some senders -> av < v;
  inv_dom : forall v s, av < v ->
      (is_Some (ptrOf (actor w) v s) <->
       (exists x, x ∈ batches h /\ batchSender x = s /\ MigVersion (batchMsg x) = v)
       \/ (s, v) ∈ completes h);
  inv_bound : len (batches h) + 1 < 2 ^ 31
}.

Lemma filter_insert_len {A} (P : A -> Prop) `{forall x, Decision (P x)}
    (l : list A) i x y :
  l !! i = Some x ->
  len (filter P (<[i := y]> l)) =
  len (filter P l) - (if decide (P x) then 1 else 0) + (if decide (P y) then 1 else 0).
Proof.
  unfold len. revert i. induction l as [|z l IH]; intros i Hi; [done|].
  destruct i as [|i]; cbn in Hi.
  - injection Hi as ->. change (<[0%nat := y]> (x :: l)) with (y :: l).
    rewrite !(filter_cons P).
    destruct (decide (P x)), (decide (P y)); cbn [length]; lia.
  - change (<[S i := y]> (z :: l)) with (z :: <[i := y]> l).
    rewrite !(filter_cons P). specialize (IH i Hi).
    destruct (decide (P x)), (decide (P y)), (decide (P z)); cbn [length] in *; lia.
Qed.

Lemma outstanding_range h v s : 0 <= outstanding h v s <= len (batches h).
Proof.
  unfold outstanding, len.
  pose proof (length_filter (isOutstanding v s) (batches h)). lia.
Qed.

Lemma outstanding_zero h v s :
  outstanding h v s = 0 <->
  forall x, x ∈ batches h -> ~ isOutstanding v s x.
Proof.
  unfold outstanding, len. split.
  - intros H0 x Hx HP.
    assert (Hin : x ∈ filter (isOutstanding v s) (batches h))
      by (apply list_elem_of_filter; done).
    destruct (filter (isOutstanding v s) (batches h)); [by inversion Hin|].
    cbn in H0. lia.
  - intros Hall.
    destruct (filter (isOutstanding v s) (batches h)) as [|x l] eqn:E; [done|].
    assert (Hin : x ∈ filter (isOutstanding v s) (batches h))
      by (rewrite E; left).
    apply list_elem_of_filter in Hin as [HP Hx]. by destruct (Hall x Hx).
Qed.

Lemma awaitsComplete_range h v s : 0 <= awaitsComplete h v s <= 1.
Proof. unfold awaitsComplete. case_bool_decide; lia. Qed.

(** In a state that satisfies the invariant, the counter of a sender for a
    version above the active one is zero exactly when the terminal message
    has been received and every batch taken in has had all its callbacks. *)
Lemma Inv_zero av h w v s :
  Inv av h w -> av < v ->
  (counter (actor w) v s = Some 0 <-> (s, v) ∈ completes h /\ allImmigrated h v s).
Proof.
  intros HI Hv. unfold counter, allImmigrated. split.
  - intros Hc. apply bind_Some in Hc as (p & Hp & Hcell).
    rewrite (inv_cells _ _ _ HI _ _ _ Hp) in Hcell.
    pose proof (outstanding_range h v s). pose proof (awaitsComplete_range h v s).
    assert (Ho : outstanding h v s = 0) by (injection Hcell; lia).
    assert (Ha : awaitsComplete h v s = 0) by (injection Hcell; lia).
    split.
    + unfold awaitsComplete in Ha. by case_bool_decide.
    + intros x Hx Hs Hver.
      apply list_elem_of_lookup in Hx as [i Hi].
      destruct (Forall2_lookup_l _ _ _ _ _ (inv_closures _ _ _ HI) Hi)
        as (c & _ & _ & _ & _ & Hf & _).
      destruct (Z.eq_dec (fired x) (len (MigVars (batchMsg x)))) as [|Hne]; [done|].
      apply list_elem_of_lookup_2 in Hi.
      destruct (proj1 (outstanding_zero h v s) Ho x Hi).
      unfold isOutstanding. lia.
  - intros [Hcomp Hall].
    destruct (proj2 (inv_dom _ _ _ HI v s Hv) (or_intror Hcomp)) as [p Hp].
    rewrite Hp. cbn. rewrite (inv_cells _ _ _ HI _ _ _ Hp). f_equal.
    assert (outstanding h v s = 0) as ->.
    { apply outstanding_zero. intros x Hx (Hs & Hver & Hlt).
      rewrite (Hall x Hx Hs Hver) in Hlt. lia. }
    unfold awaitsComplete. by rewrite bool_decide_eq_true_2.
Qed.

(** The state after the cell of [(version, sender)] has been found or
    created at [ptr]. *)
Definition PointsAt (tt tt1 : TT) (version : Z) (sender : RMId) (ptr : nat) : Prop :=
  active tt1 = active tt
  /\ (forall v s, ptrOf tt1 v s =
                  if decide (v = version /\ s = sender) then Some ptr else ptrOf tt v s)
  /\ (forall p, p <> ptr -> is_Some (cells tt !! p) -> cells tt1 !! p = cells tt !! p)
  /\ (forall v s, ptrOf tt v s = Some ptr -> v = version /\ s = sender)
  /\ (forall q, ptrOf tt version sender = Some q -> q = ptr)
  /\ (forall v senders, migrations tt1 !! v = Some senders ->
                        v = version \/ is_Some (migrations tt !! v)).

Lemma outstanding_snoc h sender m v s :
  1 <= len (MigVars m) ->
  outstanding (mkHistory (batches h ++ [mkBatch sender m 0]) (completes h)) v s =
  outstanding h v s
  + (if decide (v = MigVersion m /\ s = sender) then 1 else 0).
Proof.
  intros Hlen. unfold outstanding, len. cbn [batches].
  rewrite (filter_app (isOutstanding v s)), length_app.
  rewrite (filter_cons (isOutstanding v s)), (filter_nil (isOutstanding v s)).
  destruct (decide (isOutstanding v s (mkBatch sender m 0))) as [Ho|Ho];
    destruct (decide (v = MigVersion m /\ s = sender)) as [Hd|Hd];
    cbn [length]; try lia.
  - destruct Hd. destruct Ho as (? & ? & ?). cbn in *. split; congruence.
  - destruct Ho. destruct Hd as [-> ->]. unfold isOutstanding. cbn.
    repeat split; lia.
Qed.

Lemma Inv_batch av h w tt1 ptr sender m :
  Inv av h w ->
  PointsAt (actor w) tt1 (MigVersion m) sender ptr ->
  cells tt1 !! ptr =
    Some (outstanding h (MigVersion m) sender + awaitsComplete h (MigVersion m) sender + 1) ->
  av < MigVersion m ->
  admits (EvMigration sender m) h = true ->
  Inv av (mkHistory (batches h ++ [mkBatch sender m 0]) (completes h))
         (mkWorld tt1 (closures w ++ [mkClosure (int32 (len (MigVars m))) ptr])).
Proof.
  intros [(a & Ha & Hav) Hcl Hcells Hinj Hvers Hdom Hbound]
         (Hact & Hptr & Hother & Hfresh & Hold & Hmig) Hcell Hlt Hadm.
  cbn [admits] in Hadm. apply andb_prop in Hadm as [Hadm Hb].
  apply andb_prop in Hadm as [Hl1 Hl2].
  apply Z.leb_le in Hl1. apply Z.ltb_lt in Hl2. apply Z.ltb_lt in Hb.
  constructor; cbn [actor closures batches completes].
  - exists a. by rewrite Hact.
  - apply Forall2_app.
    + eapply Forall2_impl; [exact Hcl|].
      intros x c (H1 & H2 & H3). split; [done|]. split; [|done].
      rewrite Hptr. destruct (decide _) as [[Hv Hs]|]; [|done].
      rewrite Hv, Hs in H2. f_equal. symmetry. by apply Hold.
    + constructor; [|constructor].
      unfold tracks. cbn. rewrite int32_small by (unfold is_int32; lia).
      repeat split; try lia.
      rewrite Hptr. by rewrite decide_True.
  - intros v s p Hp. rewrite Hptr in Hp.
    rewrite outstanding_snoc by done.
    unfold awaitsComplete. cbn [completes].
    destruct (decide (v = MigVersion m /\ s = sender)) as [[-> ->]|Hd].
    + injection Hp as <-. rewrite Hcell. unfold awaitsComplete. f_equal. lia.
    + pose proof (Hcells _ _ _ Hp) as Hc.
      rewrite Hother; [rewrite Hc; f_equal; unfold awaitsComplete; lia| |by eexists].
      intros ->. apply Hfresh in Hp. tauto.
  - intros v s v' s' p. rewrite !Hptr.
    destruct (decide (v = MigVersion m /\ s = sender)) as [[-> ->]|Hd];
      destruct (decide (v' = MigVersion m /\ s' = sender)) as [[-> ->]|Hd'];
      try done.
    + intros [= <-] Hp. apply Hfresh in Hp. tauto.
    + intros Hp [= <-]. apply Hfresh in Hp. tauto.
    + apply Hinj.
  - intros v senders Hs. destruct (Hmig _ _ Hs) as [->|[sd Hsd]]; [done|].
    by eapply Hvers.
  - intros v s Hv. rewrite Hptr.
    destruct (decide (v = MigVersion m /\ s = sender)) as [[-> ->]|Hd].
    + split; [|by eexists]. intros _. left.
      exists (mkBatch sender m 0). split; [|done].
      apply elem_of_app. right. left.
    + rewrite (Hdom v s Hv). split.
      * intros [(x & Hx & H1 & H2)|Hc]; [left|by right].
        exists x. split; [|done]. apply elem_of_app. by left.
      * intros [(x & Hx & H1 & H2)|Hc]; [|by right].
        apply elem_of_app in Hx as [Hx|Hx]; [left; eauto|].
        apply list_elem_of_singleton in Hx as ->. cbn in *. destruct Hd. done.
  - unfold len in *. rewrite length_app. cbn. lia.
Qed.

Lemma ptrOf_default tt version sender :
  ptrOf tt version sender = default ∅ (migrations tt !! version) !! sender.
Proof. unfold ptrOf. destruct (migrations tt !! version); cbn; [done|]. by rewrite lookup_empty. Qed.

Lemma found_insert_id tt version sender ptr :
  ptrOf tt version sender = Some ptr ->
  <[version := default ∅ (migrations tt !! version)]> (migrations tt) = migrations tt.
Proof.
  unfold ptrOf. intros H. destruct (migrations tt !! version) eqn:E; [|done].
  cbn. by apply insert_id.
Qed.

Lemma PointsAt_found av h w tt1 version sender ptr n :
  Inv av h w ->
  ptrOf (actor w) version sender = Some ptr ->
  active tt1 = active (actor w) ->
  migrations tt1 = migrations (actor w) ->
  cells tt1 = <[ptr := n]> (cells (actor w)) ->
  PointsAt (actor w) tt1 version sender ptr /\ cells tt1 !! ptr = Some n.
Proof.
  intros HI Hp Ha Hm Hc. unfold PointsAt. split_and!.
  - done.
  - intros v s. unfold ptrOf. rewrite Hm. fold (ptrOf (actor w) v s).
    destruct (decide _) as [[-> ->]|]; done.
  - intros p Hne _. rewrite Hc. by apply list_lookup_insert_ne.
  - intros v s Hq. apply (inv_inj _ _ _ HI _ _ _ _ _ Hq Hp).
  - intros q Hq. congruence.
  - intros v senders Hs. right. rewrite <- Hm. by eexists.
  - rewrite Hc. apply list_lookup_insert_eq.
    apply (lookup_lt_Some _ _ _ (inv_cells _ _ _ HI _ _ _ Hp)).
Qed.

Lemma PointsAt_new av h w tt1 version sender fresh :
  Inv av h w ->
  ptrOf (actor w) version sender = None ->
  active tt1 = active (actor w) ->
  migrations tt1 =
    <[version := <[sender := length (cells (actor w))]>
                   (default ∅ (migrations (actor w) !! version))]>
      (migrations (actor w)) ->
  cells tt1 = cells (actor w) ++ [fresh] ->
  PointsAt (actor w) tt1 version sender (length (cells (actor w)))
  /\ cells tt1 !! length (cells (actor w)) = Some fresh.
Proof.
  intros HI Hp Ha Hm Hc.
  assert (Hvalid : forall v s p, ptrOf (actor w) v s = Some p ->
                                 (p < length (cells (actor w)))%nat).
  { intros v s p Hq. apply (lookup_lt_Some _ _ _ (inv_cells _ _ _ HI _ _ _ Hq)). }
  unfold PointsAt. split_and!.
  - done.
  - intros v s. unfold ptrOf at 1. rewrite Hm.
    destruct (decide (v = version)) as [->|Hv].
    + rewrite lookup_insert_eq. cbn.
      destruct (decide (s = sender)) as [->|Hs].
      * rewrite lookup_insert_eq. by rewrite decide_True.
      * rewrite lookup_insert_ne by done.
        rewrite decide_False by tauto. by rewrite ptrOf_default.
    + rewrite lookup_insert_ne by done. by rewrite decide_False by tauto.
  - intros p Hne Hsome. rewrite Hc. apply lookup_app_l.
    by apply lookup_lt_is_Some.
  - intros v s Hq. apply Hvalid in Hq. lia.
  - intros q Hq. congruence.
  - intros v senders Hs. rewrite Hm in Hs.
    destruct (decide (v = version)) as [->|Hv]; [by left|].
    rewrite lookup_insert_ne in Hs by done. right. by eexists.
  - rewrite Hc. rewrite lookup_app_r by lia.
    by rewrite Nat.sub_diag.
Qed.

Lemma unlisted_zero av h w v s :
  Inv av h w -> ptrOf (actor w) v s = None ->
  outstanding h v s = 0 /\ (av < v -> awaitsComplete h v s = 1).
Proof.
  intros HI Hp. split.
  - apply outstanding_zero. intros x Hx (Hs & Hv & _).
    apply list_elem_of_lookup in Hx as [i Hi].
    destruct (Forall2_lookup_l _ _ _ _ _ (inv_closures _ _ _ HI) Hi)
      as (c & _ & _ & Hq & _).
    rewrite Hv, Hs in Hq. congruence.
  - intros Hv. unfold awaitsComplete. case_bool_decide as Hc; [|done].
    destruct (proj2 (inv_dom _ _ _ HI v s Hv) (or_intror Hc)) as [p Hq]. congruence.
Qed.

Lemma migrationReceived_Inv av h w sender m w' :
  Inv av h w ->
  admits (EvMigration sender m) h = true ->
  migrationReceived sender m w = Some (w', None) ->
  Inv av (record av (EvMigration sender m) h) w'.
Proof.
  intros HI Hadm Hstep.
  destruct (inv_active _ _ _ HI) as (a & Ha & Hav).
  unfold migrationReceived in Hstep. rewrite Ha, Hav in Hstep. cbn [record].
  destruct (av <? MigVersion m) eqn:Hlt; [|by injection Hstep as <-].
  apply Z.ltb_lt in Hlt.
  pose proof Hadm as Hadm'. cbn [admits] in Hadm'.
  apply andb_prop in Hadm' as [Hadm' Hb]. apply andb_prop in Hadm' as [Hl1 Hl2].
  apply Z.leb_le in Hl1. apply Z.ltb_lt in Hl2. apply Z.ltb_lt in Hb.
  rewrite <- ptrOf_default in Hstep.
  destruct (ptrOf (actor w) (MigVersion m) sender) as [ptr|] eqn:Hp;
    injection Hstep as <-; cbn [fst snd].
  - pose proof (inv_cells _ _ _ HI _ _ _ Hp) as Hcell.
    match goal with |- Inv _ _ (mkWorld ?t _) => set (tt1 := t) end.
    assert (Hact : active tt1 = active (actor w)) by done.
    assert (Hmig : migrations tt1 = migrations (actor w))
      by exact (found_insert_id _ _ _ _ Hp).
    assert (Hcs : cells tt1 =
              <[ptr := outstanding h (MigVersion m) sender
                       + awaitsComplete h (MigVersion m) sender + 1]>
                (cells (actor w))).
    { subst tt1. cbn. rewrite Hcell. cbn.
      rewrite int32_small; [done|].
      pose proof (outstanding_range h (MigVersion m) sender).
      pose proof (awaitsComplete_range h (MigVersion m) sender).
      unfold is_int32. lia. }
    destruct (PointsAt_found av h w tt1 _ _ _ _ HI Hp Hact Hmig Hcs) as [HP Hc].
    by apply Inv_batch.
  - destruct (unlisted_zero av h w _ _ HI Hp) as [Ho Hw].
    match goal with |- Inv _ _ (mkWorld ?t _) => set (tt1 := t) end.
    destruct (PointsAt_new av h w tt1 (MigVersion m) sender 2 HI Hp)
      as [HP Hc]; [done|done|done|].
    apply Inv_batch; [done|done| |done|done].
    rewrite Hc, Ho, (Hw Hlt). reflexivity.
Qed.

Lemma exists_insert {A} (P : A -> Prop) (l : list A) i x y :
  l !! i = Some x -> (P x <-> P y) ->
  ((exists z, z ∈ <[i := y]> l /\ P z) <-> (exists z, z ∈ l /\ P z)).
Proof.
  intros Hi Hxy. split.
  - intros (z & Hz & HP). apply list_elem_of_lookup in Hz as [j Hj].
    destruct (decide (i = j)) as [->|Hne].
    + rewrite list_lookup_insert_eq in Hj by (by eapply lookup_lt_Some).
      injection Hj as <-. exists x. split; [by eapply list_elem_of_lookup_2|tauto].
    + rewrite list_lookup_insert_ne in Hj by done.
      exists z. split; [by eapply list_elem_of_lookup_2|done].
  - intros (z & Hz & HP). apply list_elem_of_lookup in Hz as [j Hj].
    destruct (decide (i = j)) as [->|Hne].
    + assert (z = x) as -> by congruence.
      exists y. split; [|tauto].
      apply list_elem_of_insert. by eapply lookup_lt_Some.
    + exists z. split; [|done].
      apply (list_elem_of_lookup_2 _ j). by rewrite list_lookup_insert_ne.
Qed.

(** One more callback of batch [b] has fired. *)
Definition fire (x : Batch) : Batch :=
  mkBatch (batchSender x) (batchMsg x) (fired x + 1).

Lemma Inv_fired av h w b x c tt1 :
  Inv av h w ->
  batches h !! b = Some x ->
  closures w !! b = Some c ->
  fired x < len (MigVars (batchMsg x)) ->
  active tt1 = active (actor w) ->
  migrations tt1 = migrations (actor w) ->
  (forall p, p <> inprogressPtr c -> cells tt1 !! p = cells (actor w) !! p) ->
  cells tt1 !! inprogressPtr c =
    Some (outstanding h (MigVersion (batchMsg x)) (batchSender x)
          + awaitsComplete h (MigVersion (batchMsg x)) (batchSender x)
          - (if decide (fired x + 1 = len (MigVars (batchMsg x))) then 1 else 0)) ->
  Inv av (mkHistory (<[b := fire x]> (batches h)) (completes h))
         (mkWorld tt1 (<[b := mkClosure (len (MigVars (batchMsg x)) - fired x - 1)
                                         (inprogressPtr c)]> (closures w))).
Proof.
  intros HI Hx Hc Hlt Hact Hmig Hother Hcell.
  destruct HI as [(a & Ha & Hav) Hcl Hcells Hinj Hvers Hdom Hbound].
  destruct (Forall2_lookup_lr _ _ _ _ _ _ Hcl Hx Hc) as (T1 & T2 & T3 & T4 & T5).
  assert (Hp : forall v s, ptrOf tt1 v s = ptrOf (actor w) v s).
  { intros v s. unfold ptrOf. by rewrite Hmig. }
  assert (Hout : forall v s,
    outstanding (mkHistory (<[b := fire x]> (batches h)) (completes h)) v s =
    outstanding h v s
    - (if decide (v = MigVersion (batchMsg x) /\ s = batchSender x
                  /\ fired x + 1 = len (MigVars (batchMsg x))) then 1 else 0)).
  { intros v s. unfold outstanding. cbn [batches].
    rewrite (filter_insert_len (isOutstanding v s) _ _ _ _ Hx).
    unfold isOutstanding, fire. cbn.
    repeat case_decide; lia. }
  constructor; cbn [actor closures batches completes].
  - exists a. by rewrite Hact.
  - apply Forall2_insert.
    + eapply Forall2_impl; [exact Hcl|].
      intros y d (H1 & H2 & H3). split; [done|]. split; [|done]. by rewrite Hp.
    + unfold tracks, fire. cbn. rewrite Hp. repeat split; try done; lia.
  - intros v s p Hq. rewrite Hp in Hq. rewrite Hout.
    change (awaitsComplete (mkHistory (<[b := fire x]> (batches h)) (completes h)) v s)
      with (awaitsComplete h v s).
    destruct (decide (p = inprogressPtr c)) as [->|Hne].
    + destruct (Hinj _ _ _ _ _ Hq T2) as [-> ->]. rewrite Hcell. f_equal.
      clear Hcell.
      destruct (decide (fired x + 1 = len (MigVars (batchMsg x))));
        [rewrite decide_True by done|rewrite decide_False by tauto]; lia.
    + rewrite Hother by done. rewrite (Hcells _ _ _ Hq). f_equal.
      destruct (decide (v = MigVersion (batchMsg x) /\ s = batchSender x
                        /\ fired x + 1 = len (MigVars (batchMsg x))))
        as [(-> & -> & _)|]; [congruence|lia].
  - intros v s v' s' p. rewrite !Hp. apply Hinj.
  - intros v senders. rewrite Hmig. apply Hvers.
  - intros v s Hv. rewrite Hp, (Hdom v s Hv).
    rewrite (exists_insert
               (fun z => batchSender z = s /\ MigVersion (batchMsg z) = v)
               _ _ _ (fire x) Hx); done.
  - unfold len in *. by rewrite length_insert.
Qed.

Lemma immigrated_Inv av h w b w' :
  Inv av h w ->
  admits (EvImmigrated b) h = true ->
  immigrated b None w = Some w' ->
  Inv av (record av (EvImmigrated b) h) w'.
Proof.
  intros HI Hadm Hstep. cbn [admits record] in *.
  destruct (batches h !! b) as [x|] eqn:Hx; [|done].
  apply Z.ltb_lt in Hadm.
  destruct (Forall2_lookup_l _ _ _ _ _ (inv_closures _ _ _ HI) Hx)
    as (c & Hc & T1 & T2 & T3 & T4 & T5).
  unfold immigrated in Hstep. rewrite Hc in Hstep.
  pose proof (inv_cells _ _ _ HI _ _ _ T2) as Hcell.
  assert (Hvc : int32 (varCount c - 1) = len (MigVars (batchMsg x)) - fired x - 1).
  { rewrite T1. rewrite int32_small; [lia|]. unfold is_int32. lia. }
  rewrite Hvc in Hstep.
  assert (Hpos : 1 <= outstanding h (MigVersion (batchMsg x)) (batchSender x)).
  { destruct (Z.eq_dec (outstanding h (MigVersion (batchMsg x)) (batchSender x)) 0)
      as [E|E].
    - destruct (proj1 (outstanding_zero _ _ _) E x).
      + by eapply list_elem_of_lookup_2.
      + by unfold isOutstanding.
    - pose proof (outstanding_range h (MigVersion (batchMsg x)) (batchSender x)). lia. }
  pose proof (outstanding_range h (MigVersion (batchMsg x)) (batchSender x)) as Hr.
  pose proof (awaitsComplete_range h (MigVersion (batchMsg x)) (batchSender x)) as Hr'.
  pose proof (inv_bound _ _ _ HI) as Hb.
  destruct (len (MigVars (batchMsg x)) - fired x - 1 =? 0) eqn:Hz.
  - apply Z.eqb_eq in Hz.
    injection Hstep as <-.
    fold (fire x).
    assert (Hnew : int32 (default 0 (cells (actor w) !! inprogressPtr c) + -1) =
                   outstanding h (MigVersion (batchMsg x)) (batchSender x)
                   + awaitsComplete h (MigVersion (batchMsg x)) (batchSender x) - 1).
    { rewrite Hcell. cbn. rewrite int32_small; [lia|]. unfold is_int32. lia. }
    apply (Inv_fired av h w b x c); try done.
    + by destruct (_ =? 0).
    + by destruct (_ =? 0).
    + intros p Hne. destruct (_ =? 0); cbn; by rewrite list_lookup_insert_ne.
    + rewrite decide_True by lia.
      destruct (_ =? 0); cbn; rewrite list_lookup_insert_eq;
        try (by eapply lookup_lt_Some); by rewrite Hnew.
  - apply Z.eqb_neq in Hz. injection Hstep as <-. fold (fire x).
    apply (Inv_fired av h w b x c); try done.
    rewrite decide_False by lia. rewrite Hcell. f_equal. lia.
Qed.

(** A tick works on the task and talks to the outside; it leaves the
    active topology and the ledger alone (the one sub-task that sets the
    active topology runs only while there is none). *)
Hypothesis subTaskTick_frame : forall t tt,
  active (subTaskTick t tt).1 = active tt
  /\ migrations (subTaskTick t tt).1 = migrations tt
  /\ cells (subTaskTick t tt).1 = cells tt.

Lemma tick_frame t tt :
  active (tick subTaskTick t tt).1 = active tt
  /\ migrations (tick subTaskTick t tt).1 = migrations tt
  /\ cells (tick subTaskTick t tt).1 = cells tt.
Proof.
  unfold tick. destruct (kind t);
    try (pose proof (subTaskTick_frame t tt) as Hf;
         destruct (subTaskTick t tt) as [tt' e]; exact Hf).
  unfold targetConfig_tick, install.
  destruct (active tt) as [a|] eqn:Ha; [|by rewrite <- Ha].
  repeat (match goal with |- context [if ?b then _ else _] => destruct b end);
    by rewrite <- Ha.
Qed.

Lemma Inv_frame av h w tt1 :
  Inv av h w ->
  active tt1 = active (actor w) ->
  migrations tt1 = migrations (actor w) ->
  cells tt1 = cells (actor w) ->
  Inv av h (mkWorld tt1 (closures w)).
Proof.
  intros [(a & Ha & Hav) Hcl Hcells Hinj Hvers Hdom Hbound] Hact Hmig Hcs.
  assert (Hp : forall v s, ptrOf tt1 v s = ptrOf (actor w) v s).
  { intros v s. unfold ptrOf. by rewrite Hmig. }
  constructor; cbn [actor closures].
  - exists a. by rewrite Hact.
  - eapply Forall2_impl; [exact Hcl|].
    intros y d (H1 & H2 & H3). split; [done|]. split; [|done]. by rewrite Hp.
  - intros v s p. rewrite Hp, Hcs. apply Hcells.
  - intros v s v' s' p. rewrite !Hp. apply Hinj.
  - intros v senders. rewrite Hmig. apply Hvers.
  - intros v s Hv. rewrite Hp. by apply Hdom.
  - done.
Qed.

Lemma awaitsComplete_cons h s v v' s' :
  awaitsComplete (mkHistory (batches h) ((s, v) :: completes h)) v' s' =
  if decide (v' = v /\ s' = s) then 0 else awaitsComplete h v' s'.
Proof.
  unfold awaitsComplete. cbn [completes].
  destruct (decide (v' = v /\ s' = s)) as [[-> ->]|Hd].
  - rewrite bool_decide_eq_true_2; [done|left].
  - destruct (bool_decide ((s', v') ∈ completes h)) eqn:E.
    + apply bool_decide_eq_true_1 in E.
      rewrite bool_decide_eq_true_2; [done|by right].
    + apply bool_decide_eq_false_1 in E.
      rewrite bool_decide_eq_false_2; [done|].
      intros [[= -> ->]|Hin]%elem_of_cons; tauto.
Qed.

Lemma Inv_complete av h w tt1 v s ptr :
  Inv av h w ->
  (s, v) ∉ completes h ->
  av < v ->
  PointsAt (actor w) tt1 v s ptr ->
  cells tt1 !! ptr = Some (outstanding h v s) ->
  Inv av (mkHistory (batches h) ((s, v) :: completes h)) (mkWorld tt1 (closures w)).
Proof.
  intros [(a & Ha & Hav) Hcl Hcells Hinj Hvers Hdom Hbound] Hnin Hlt
         (Hact & Hptr & Hother & Hfresh & Hold & Hmig) Hcell.
  constructor; cbn [actor closures batches completes].
  - exists a. by rewrite Hact.
  - eapply Forall2_impl; [exact Hcl|].
    intros x c (H1 & H2 & H3). split; [done|]. split; [|done].
    rewrite Hptr. destruct (decide _) as [[Hv Hs]|]; [|done].
    rewrite Hv, Hs in H2. f_equal. symmetry. by apply Hold.
  - intros v' s' p Hp. rewrite Hptr in Hp. rewrite awaitsComplete_cons.
    change (outstanding (mkHistory (batches h) ((s, v) :: completes h)) v' s')
      with (outstanding h v' s').
    destruct (decide (v' = v /\ s' = s)) as [[-> ->]|Hd].
    + injection Hp as <-. rewrite Hcell. f_equal. lia.
    + rewrite Hother; [by apply Hcells| |rewrite (Hcells _ _ _ Hp); by eexists].
      intros ->. apply Hfresh in Hp. tauto.
  - intros v1 s1 v2 s2 p. rewrite !Hptr.
    destruct (decide (v1 = v /\ s1 = s)) as [[-> ->]|Hd];
      destruct (decide (v2 = v /\ s2 = s)) as [[-> ->]|Hd'];
      try done.
    + intros [= <-] Hp. apply Hfresh in Hp. tauto.
    + intros Hp [= <-]. apply Hfresh in Hp. tauto.
    + apply Hinj.
  - intros v' senders Hs. destruct (Hmig _ _ Hs) as [->|[sd Hsd]]; [done|].
    by eapply Hvers.
  - intros v' s' Hv. rewrite Hptr.
    destruct (decide (v' = v /\ s' = s)) as [[-> ->]|Hd].
    + split; [|by eexists]. intros _. right. left.
    + rewrite (Hdom v' s' Hv). split.
      * intros [?|?]; [by left|right; by right].
      * intros [?|Hc]; [by left|].
        apply elem_of_cons in Hc as [[= -> ->]|Hc]; [tauto|by right].
  - done.
Qed.

Lemma Inv_complete_ignored av h w tt1 v s :
  Inv av h w ->
  ~ av < v ->
  active tt1 = active (actor w) ->
  migrations tt1 = migrations (actor w) ->
  cells tt1 = cells (actor w) ->
  Inv av (mkHistory (batches h) ((s, v) :: completes h)) (mkWorld tt1 (closures w)).
Proof.
  intros HI Hge Hact Hmig Hcs.
  destruct (Inv_frame av h w tt1 HI Hact Hmig Hcs)
    as [Hactive Hcl Hcells Hinj Hvers Hdom Hbound].
  cbn [actor closures] in *.
  assert (Hno : forall v' s' p, ptrOf tt1 v' s' = Some p -> av < v').
  { intros v' s' p Hp. unfold ptrOf in Hp.
    destruct (migrations tt1 !! v') eqn:E; [|done]. by eapply Hvers. }
  constructor; cbn [actor closures batches completes]; try done.
  - intros v' s' p Hp. rewrite awaitsComplete_cons.
    rewrite decide_False; [by apply Hcells|].
    intros [-> ->]. apply Hno in Hp. lia.
  - intros v' s' Hv. rewrite (Hdom v' s' Hv). split.
    + intros [?|?]; [by left|right; by right].
    + intros [?|Hc]; [by left|].
      apply elem_of_cons in Hc as [[= -> ->]|Hc]; [lia|by right].
Qed.

Lemma completeIn_Inv av h tt cls sender version w' :
  Inv av h (mkWorld tt cls) ->
  (sender, version) ∉ completes h ->
  av < version ->
  completeIn sender version (default ∅ (migrations tt !! version)) tt cls
    = Some (w', None) ->
  Inv av (mkHistory (batches h) ((sender, version) :: completes h)) w'.
Proof.
  intros HI Hnin Hlt Hstep. unfold completeIn in Hstep.
  rewrite <- ptrOf_default in Hstep.
  pose proof (outstanding_range h version sender) as Hr.
  pose proof (inv_bound _ _ _ HI) as Hb.
  assert (Hgo : exists tt1 ptr,
            PointsAt tt tt1 version sender ptr
            /\ cells tt1 !! ptr = Some (outstanding h version sender)
            /\ exists tt2, w' = mkWorld tt2 cls
               /\ active tt2 = active tt1 /\ migrations tt2 = migrations tt1
               /\ cells tt2 = cells tt1).
  { destruct (ptrOf tt version sender) as [ptr|] eqn:Hp; cbn zeta in Hstep.
    - pose proof (inv_cells _ _ _ HI _ _ _ Hp) as Hcell. cbn [actor] in Hcell.
      assert (Haw : awaitsComplete h version sender = 1).
      { unfold awaitsComplete. by rewrite bool_decide_eq_false_2. }
      revert Hstep.
      match goal with |- context [task ?t] => set (tt1 := t) end.
      assert (Hcs : cells tt1 = <[ptr := outstanding h version sender]> (cells tt)).
      { subst tt1. cbn. rewrite Hcell, Haw. cbn.
        rewrite int32_small; [f_equal; lia|]. unfold is_int32. lia. }
      destruct (PointsAt_found av h (mkWorld tt cls) tt1 version sender ptr
                  (outstanding h version sender) HI Hp eq_refl
                  (found_insert_id _ _ _ _ Hp) Hcs) as [HP Hc].
      intros Hstep. exists tt1, ptr. split; [exact HP|]. split; [exact Hc|].
      destruct (task tt1) as [t|].
      + destruct (_ =? 0).
        * pose proof (tick_frame t tt1) as (F1 & F2 & F3).
          destruct (tick subTaskTick t tt1) as [tt2 [e|]]; [done|].
          injection Hstep as <-. cbn in *. eauto.
        * injection Hstep as <-. eauto.
      + injection Hstep as <-. eauto.
    - revert Hstep.
      match goal with |- context [task ?t] => set (tt1 := t) end.
      destruct (unlisted_zero av h (mkWorld tt cls) _ _ HI Hp) as [Ho _].
      destruct (PointsAt_new av h (mkWorld tt cls) tt1 version sender 0
                  HI Hp eq_refl eq_refl eq_refl) as [HP Hc].
      intros Hstep. exists tt1, (length (cells tt)).
      split; [exact HP|]. split; [by rewrite Ho|].
      destruct (task tt1) as [t|].
      + cbn [snd] in Hstep. rewrite Z.eqb_refl in Hstep.
        pose proof (tick_frame t tt1) as (F1 & F2 & F3).
        destruct (tick subTaskTick t tt1) as [tt2 [e|]]; [done|].
        injection Hstep as <-. cbn in *. eauto.
      + injection Hstep as <-. eauto. }
  destruct Hgo as (tt1 & ptr & HP & Hc & tt2 & -> & F1 & F2 & F3).
  apply (Inv_frame av _ (mkWorld tt1 cls)); try done.
  by apply (Inv_complete av h (mkWorld tt cls) tt1 version sender ptr).
Qed.

Lemma migrationCompleteReceived_Inv av h w sender version w' :
  Inv av h w ->
  admits (EvMigrationComplete sender version) h = true ->
  migrationCompleteReceived sender version w = Some (w', None) ->
  Inv av (record av (EvMigrationComplete sender version) h) w'.
Proof.
  intros HI Hadm Hstep. cbn [admits record] in *.
  apply bool_decide_eq_true_1 in Hadm.
  unfold migrationCompleteReceived in Hstep.
  pose proof (Inv_frame av h w (emit (EffLog "MCR from") (actor w)) HI
                eq_refl eq_refl eq_refl) as HI0.
  destruct (inv_active _ _ _ HI0) as (a & Ha & Hav). cbn [actor] in Ha.
  destruct (migrations (emit (EffLog "MCR from") (actor w)) !! version)
    as [senders|] eqn:Hm.
  - apply (completeIn_Inv av h _ _ _ _ _ HI0); [done| |by rewrite Hm].
    by eapply (inv_versions _ _ _ HI0).
  - rewrite Ha, Hav in Hstep.
    destruct (av <? version) eqn:Hlt.
    + apply Z.ltb_lt in Hlt.
      apply (completeIn_Inv av h _ _ _ _ _ HI0); [done|done|by rewrite Hm].
    + apply Z.ltb_ge in Hlt. injection Hstep as <-.
      apply (Inv_complete_ignored av h _ _ _ _ HI0); [lia|done..].
Qed.

Lemma step_Inv av h w e w' :
  Inv av h w -> admits e h = true -> step e w = Some w' ->
  Inv av (record av e h) w'.
Proof.
  intros HI Hadm Hstep. destruct e as [sender m|b|sender version]; cbn [step] in Hstep.
  - apply (migrationReceived_Inv av h w sender m w' HI Hadm).
    destruct (migrationReceived sender m w) as [[w1 [e|]]|]; cbn in Hstep; congruence.
  - by apply (immigrated_Inv av h w b w').
  - apply (migrationCompleteReceived_Inv av h w sender version w' HI Hadm).
    destruct (migrationCompleteReceived sender version w) as [[w1 [e|]]|];
      cbn in Hstep; congruence.
Qed.

Lemma run_Inv av tr : forall h w w',
  Inv av h w -> admissible av tr h = true -> run tr w = Some w' ->
  Inv av (history av tr h) w'.
Proof.
  induction tr as [|e tr IH]; intros h w w' HI Hadm Hrun;
    cbn [run admissible history] in *.
  - by injection Hrun as <-.
  - apply andb_prop in Hadm as [Hadm1 Hadm2].
    destruct (step e w) as [w1|] eqn:Hstep; [|done].
    apply (IH _ w1); [|done|done]. by apply (step_Inv av h w e w1).
Qed.

Lemma Inv_init av tt a :
  active tt = Some a -> Version (TopCfg a) = av -> migrations tt = ∅ ->
  Inv av noHistory (mkWorld tt []).
Proof.
  intros Ha Hav Hm.
  assert (Hp : forall v s, ptrOf tt v s = None).
  { intros v s. unfold ptrOf. by rewrite Hm, lookup_empty. }
  constructor; cbn [actor closures noHistory batches completes].
  - eauto.
  - constructor.
  - intros v s p. by rewrite Hp.
  - intros v s v' s' p. by rewrite Hp.
  - intros v senders. by rewrite Hm, lookup_empty.
  - intros v s _. rewrite Hp. split.
    + by intros [? ?].
    + intros [(x & Hx & _)|Hc]; [by inversion Hx|by inversion Hc].
  - done.
Qed.

(** The counter of a state that satisfies the invariant. *)
Lemma Inv_counter av h w v s :
  Inv av h w ->
  counter (actor w) v s =
  (fun _ => outstanding h v s + awaitsComplete h v s) <$> ptrOf (actor w) v s.
Proof.
  intros HI. unfold counter.
  destruct (ptrOf (actor w) v s) as [p|] eqn:Hp; cbn; [|done].
  apply (inv_cells _ _ _ HI _ _ _ Hp).
Qed.

Lemma Inv_counter_None av h w v s :
  Inv av h w -> av < v -> counter (actor w) v s = None ->
  outstanding h v s = 0 /\ awaitsComplete h v s = 1.
Proof.
  intros HI Hv Hc. rewrite (Inv_counter av h w v s HI) in Hc.
  destruct (ptrOf (actor w) v s) eqn:Hp; [done|].
  destruct (unlisted_zero av h w v s HI Hp). auto.
Qed.

Lemma outstanding_fire h b x v s :
  batches h !! b = Some x ->
  outstanding (mkHistory (<[b := fire x]> (batches h)) (completes h)) v s =
  outstanding h v s
  - (if decide (v = MigVersion (batchMsg x) /\ s = batchSender x
                /\ fired x < len (MigVars (batchMsg x))
                /\ fired x + 1 = len (MigVars (batchMsg x))) then 1 else 0).
Proof.
  intros Hx. unfold outstanding. cbn [batches].
  rewrite (filter_insert_len (isOutstanding v s) _ _ _ _ Hx).
  unfold isOutstanding, fire. cbn.
  repeat case_decide; lia.
Qed.

Lemma ignored_counter av h w s m :
  Inv av h w -> MigVersion m <= av ->
  migrationReceived s m w = Some (w, None).
Proof.
  intros HI Hle. destruct (inv_active _ _ _ HI) as (a & Ha & Hav).
  unfold migrationReceived. rewrite Ha, Hav.
  by rewrite (proj2 (Z.ltb_ge _ _) Hle).
Qed.

Lemma migrationReceived_total av h w s m :
  Inv av h w -> exists w', migrationReceived s m w = Some (w', None).
Proof.
  intros HI. destruct (inv_active _ _ _ HI) as (a & Ha & Hav).
  unfold migrationReceived. rewrite Ha. destruct (_ <? _); eauto.
Qed.

Lemma receipt_counter av h w s m w' :
  Inv av h w -> av < MigVersion m ->
  admits (EvMigration s m) h = true ->
  migrationReceived s m w = Some (w', None) ->
  counter (actor w') (MigVersion m) s =
  Some (match counter (actor w) (MigVersion m) s with
        | Some n => n + 1
        | None => 2
        end).
Proof.
  intros HI Hlt Hadm Hstep.
  pose proof (migrationReceived_Inv av h w s m w' HI Hadm Hstep) as HI'.
  cbn [record] in HI'. rewrite (proj2 (Z.ltb_lt _ _) Hlt) in HI'.
  pose proof Hadm as Hadm'. cbn [admits] in Hadm'.
  apply andb_prop in Hadm' as [Hadm' _]. apply andb_prop in Hadm' as [Hl1 _].
  apply Z.leb_le in Hl1.
  rewrite (Inv_counter _ _ _ _ _ HI').
  destruct (proj2 (inv_dom _ _ _ HI' (MigVersion m) s Hlt)) as [p ->].
  { left. exists (mkBatch s m 0). split; [|done]. apply elem_of_app. right. left. }
  cbn. f_equal. rewrite outstanding_snoc, decide_True by done.
  change (awaitsComplete (mkHistory (batches h ++ [mkBatch s m 0]) (completes h))
            (MigVersion m) s) with (awaitsComplete h (MigVersion m) s).
  destruct (counter (actor w) (MigVersion m) s) as [n|] eqn:Hc.
  - rewrite (Inv_counter _ _ _ _ _ HI) in Hc.
    destruct (ptrOf (actor w) (MigVersion m) s); [|done].
    cbn in Hc. injection Hc as <-. lia.
  - destruct (Inv_counter_None av h w _ _ HI Hlt Hc) as [-> ->]. done.
Qed.

Lemma callback_counter av h w b x :
  Inv av h w -> batches h !! b = Some x ->
  fired x < len (MigVars (batchMsg x)) ->
  exists w', immigrated b None w = Some w'
    /\ counter (actor w') (MigVersion (batchMsg x)) (batchSender x) =
       (fun n => n - (if decide (fired x + 1 = len (MigVars (batchMsg x)))
                      then 1 else 0))
         <$> counter (actor w) (MigVersion (batchMsg x)) (batchSender x)
    /\ is_Some (counter (actor w) (MigVersion (batchMsg x)) (batchSender x)).
Proof.
  intros HI Hx Hlt.
  destruct (Forall2_lookup_l _ _ _ _ _ (inv_closures _ _ _ HI) Hx)
    as (c & Hc & T1 & T2 & T3 & T4 & T5).
  assert (Hadm : admits (EvImmigrated b) h = true).
  { cbn [admits]. rewrite Hx. by apply Z.ltb_lt. }
  assert (exists w', immigrated b None w = Some w') as [w' Hstep].
  { unfold immigrated. rewrite Hc. destruct (_ =? 0); eauto. }
  exists w'. split; [done|].
  pose proof (immigrated_Inv av h w b w' HI Hadm Hstep) as HI'.
  cbn [record] in HI'. rewrite Hx in HI'. fold (fire x) in HI'.
  rewrite (Inv_counter _ _ _ _ _ HI'), (Inv_counter _ _ _ _ _ HI).
  destruct (proj2 (inv_dom _ _ _ HI' (MigVersion (batchMsg x)) (batchSender x) T3))
    as [p' ->].
  { left. exists (fire x). split; [|done].
    apply list_elem_of_insert. by eapply lookup_lt_Some. }
  rewrite T2. cbn. split; [|by eexists]. f_equal.
  rewrite outstanding_fire by done.
  change (awaitsComplete (mkHistory (<[b := fire x]> (batches h)) (completes h))
            (MigVersion (batchMsg x)) (batchSender x))
    with (awaitsComplete h (MigVersion (batchMsg x)) (batchSender x)).
  repeat case_decide; lia.
Qed.

Lemma complete_counter av h w s v w' :
  Inv av h w -> av < v ->
  admits (EvMigrationComplete s v) h = true ->
  migrationCompleteReceived s v w = Some (w', None) ->
  counter (actor w') v s =
  Some (match counter (actor w) v s with
        | Some n => n - 1
        | None => 0
        end).
Proof.
  intros HI Hlt Hadm Hstep.
  pose proof (migrationCompleteReceived_Inv av h w s v w' HI Hadm Hstep) as HI'.
  cbn [record admits] in *. apply bool_decide_eq_true_1 in Hadm.
  rewrite (Inv_counter _ _ _ _ _ HI').
  destruct (proj2 (inv_dom _ _ _ HI' v s Hlt)) as [p ->]; [right; left|].
  cbn. f_equal. rewrite awaitsComplete_cons, decide_True by done.
  change (outstanding (mkHistory (batches h) ((s, v) :: completes h)) v s)
    with (outstanding h v s).
  assert (Haw : awaitsComplete h v s = 1).
  { unfold awaitsComplete. by rewrite bool_decide_eq_false_2. }
  destruct (counter (actor w) v s) as [n|] eqn:Hc.
  - rewrite (Inv_counter _ _ _ _ _ HI) in Hc.
    destruct (ptrOf (actor w) v s); [|done].
    cbn in Hc. injection Hc as <-. lia.
  - destruct (Inv_counter_None av h w _ _ HI Hlt Hc) as [-> _]. done.
Qed.

End Accounting.

(** The states the accounting reaches from an actor with an active topology
    of version [av] and an empty ledger, along runs the environment admits,
    together with the history of the run. *)
Definition Reachable (subTaskTick : Task -> TT -> TT * option string)
    (av : Z) (w : World) (h : History) : Prop :=
  exists a tt tr,
    active tt = Some a /\ Version (TopCfg a) = av /\ migrations tt = ∅
    /\ admissible av tr noHistory = true
    /\ run subTaskTick tr (mkWorld tt []) = Some w
    /\ h = history av tr noHistory.

(** C3 (as amended).  In every state the accounting reaches along a run
    the environment admits (no batch without variables, one callback per
    variable of a batch, one terminal message per sender and version, no
    [int32] overflow), the ticks leaving the ledger alone, for every
    version above the active one and every sender: the counter is zero
    exactly when the terminal message of that sender has been received and
    every batch taken in from it at that version has had all its
    completion callbacks, whatever the order of the events of the run.  A
    batch of a version not above the active one is ignored; a batch
    receipt sets the counter to 2 when there is none and adds 1 otherwise;
    the last callback of a batch subtracts 1 and an earlier one leaves the
    counter alone; the terminal message subtracts 1 (and makes a counter
    of 0 when there is none). *)
Theorem immigration_counter_accounting
    (subTaskTick : Task -> TT -> TT * option string)
    (Hframe : forall t tt,
        active (subTaskTick t tt).1 = active tt
        /\ migrations (subTaskTick t tt).1 = migrations tt
        /\ cells (subTaskTick t tt).1 = cells tt)
    (av : Z) (w : World) (h : History) :
  Reachable subTaskTick av w h ->
  (forall version sender, av < version ->
     (counter (actor w) version sender = Some 0 <->
      (sender, version) ∈ completes h /\ allImmigrated h version sender))
  /\ (forall sender m, MigVersion m <= av ->
        migrationReceived sender m w = Some (w, None))
  /\ (forall sender m, av < MigVersion m ->
        admits (EvMigration sender m) h = true ->
        exists w', migrationReceived sender m w = Some (w', None)
          /\ counter (actor w') (MigVersion m) sender =
             Some (match counter (actor w) (MigVersion m) sender with
                   | Some n => n + 1
                   | None => 2
                   end))
  /\ (forall b x, batches h !! b = Some x ->
        fired x < len (MigVars (batchMsg x)) ->
        exists w', immigrated b None w = Some w'
          /\ counter (actor w') (MigVersion (batchMsg x)) (batchSender x) =
             (fun n => n - (if decide (fired x + 1 = len (MigVars (batchMsg x)))
                            then 1 else 0))
               <$> counter (actor w) (MigVersion (batchMsg x)) (batchSender x)
          /\ is_Some (counter (actor w) (MigVersion (batchMsg x)) (batchSender x)))
  /\ (forall sender version w', av < version ->
        admits (EvMigrationComplete sender version) h = true ->
        migrationCompleteReceived subTaskTick sender version w = Some (w', None) ->
        counter (actor w') version sender =
        Some (match counter (actor w) version sender with
              | Some n => n - 1
              | None => 0
              end)).
Proof.
  intros (a & tt & tr & Ha & Hav & Hm & Hadm & Hrun & ->).
  assert (HI : Inv av (history av tr noHistory) w).
  { apply (run_Inv subTaskTick Hframe av tr noHistory (mkWorld tt []) w);
      [by eapply Inv_init|done|done]. }
  split_and!.
  - intros version sender Hv. by apply (Inv_zero av).
  - intros sender m Hle. by eapply ignored_counter.
  - intros sender m Hlt Hadm1.
    destruct (migrationReceived_total av _ w sender m HI) as [w' Hw'].
    exists w'. split; [done|]. by eapply receipt_counter.
  - intros b x Hx Hlt. by eapply callback_counter.
  - intros sender version w' Hlt Hadm1 Hstep.
    by eapply (complete_counter subTaskTick Hframe).
Qed.

(** A run on the node that is being added: RM 2 sends one batch of two
    variables for version 2; its terminal message overtakes the callbacks. *)
Definition exampleBatch : Migration :=
  mkMigration 2 [] [mkVar [1] [0; 1; 2] [9]; mkVar [2] [2; 1; 0] [9]].

Definition exampleRun : list Event :=
  [EvMigration 2 exampleBatch; EvMigrationComplete 2 2; EvImmigrated 0; EvImmigrated 0].

Definition exampleActor : TT :=
  mkTT 4 1 (Some addOneActive) None ∅ ∅ ∅ [] None [].

Definition counterAfter (n : nat) : option Z :=
  match run idleSubTaskTick (take n exampleRun) (mkWorld exampleActor []) with
  | Some w => counter (actor w) 2 2
  | None => None
  end.

Example example_counters :
  [counterAfter 0; counterAfter 1; counterAfter 2; counterAfter 3; counterAfter 4]
  = [None; Some 2; Some 1; Some 1; Some 0].
Proof. vm_compute. reflexivity. Qed.

Definition exampleWorld : World :=
  default (mkWorld exampleActor [])
          (run idleSubTaskTick exampleRun (mkWorld exampleActor [])).

Definition exampleHistory : History := history 1 exampleRun noHistory.

Lemma idleSubTaskTick_frame : forall t tt,
  active (idleSubTaskTick t tt).1 = active tt
  /\ migrations (idleSubTaskTick t tt).1 = migrations tt
  /\ cells (idleSubTaskTick t tt).1 = cells tt.
Proof. done. Qed.

Lemma immigration_counter_accounting_witness :
  Reachable idleSubTaskTick 1 exampleWorld exampleHistory
  /\ (counter (actor exampleWorld) 2 2 = Some 0 <->
      (2, 2) ∈ completes exampleHistory /\ allImmigrated exampleHistory 2 2).
Proof.
  assert (Hr : Reachable idleSubTaskTick 1 exampleWorld exampleHistory).
  { exists addOneActive, exampleActor, exampleRun.
    split_and!; reflexivity. }
  split; [exact Hr|].
  apply (proj1 (immigration_counter_accounting idleSubTaskTick idleSubTaskTick_frame
                  1 exampleWorld exampleHistory Hr) 2 2).
  lia.
Defined.

(** The claim as first worded fails when a sender repeats itself, as the
    emigrator does when its connection is established again: RM 2 sends
    its batch and its terminal message, and once the callbacks of the batch
    have fired it sends both again.  After the second terminal message the
    counter is zero while the repeated batch is outstanding; after that
    batch's callbacks the counter is -1, with everything received and
    immigrated. *)
Definition replayedRun : list Event :=
  [EvMigration 2 exampleBatch; EvImmigrated 0; EvImmigrated 0;
   EvMigrationComplete 2 2;
   EvMigration 2 exampleBatch; EvMigrationComplete 2 2].

Definition replayedDone : list Event :=
  replayedRun ++ [EvImmigrated 1; EvImmigrated 1].

Definition counterOf (tr : list Event) : option Z :=
  match run idleSubTaskTick tr (mkWorld exampleActor []) with
  | Some w => counter (actor w) 2 2
  | None => None
  end.

Lemma replayed_complete_miscounts :
  Version (TopCfg addOneActive) < 2
  /\ admissible 1 replayedRun noHistory = false
  /\ (counterOf replayedRun = Some 0
      /\ (2, 2) ∈ completes (history 1 replayedRun noHistory)
      /\ ¬ allImmigrated (history 1 replayedRun noHistory) 2 2)
  /\ (counterOf replayedDone = Some (-1)
      /\ (2, 2) ∈ completes (history 1 replayedDone noHistory)
      /\ allImmigrated (history 1 replayedDone noHistory) 2 2).
Proof.
  assert (Hrun : batches (history 1 replayedRun noHistory)
                 = [mkBatch 2 exampleBatch 2; mkBatch 2 exampleBatch 0])
    by (vm_compute; reflexivity).
  assert (Hdone : batches (history 1 replayedDone noHistory)
                  = [mkBatch 2 exampleBatch 2; mkBatch 2 exampleBatch 2])
    by (vm_compute; reflexivity).
  split; [vm_compute; reflexivity|]. split; [vm_compute; reflexivity|]. split.
  - split; [vm_compute; reflexivity|]. split; [vm_compute; by left|].
    unfold allImmigrated. rewrite Hrun. intros H.
    specialize (H (mkBatch 2 exampleBatch 0)).
    assert (Hz : fired (mkBatch 2 exampleBatch 0)
                 = len (MigVars (batchMsg (mkBatch 2 exampleBatch 0)))).
    { apply H; [|reflexivity|reflexivity]. right. by left. }
    vm_compute in Hz. discriminate Hz.
  - split; [vm_compute; reflexivity|]. split; [vm_compute; by left|].
    unfold allImmigrated. rewrite Hdone. intros x Hx _ _.
    apply elem_of_cons in Hx as [->|Hx]; [reflexivity|].
    apply elem_of_cons in Hx as [->|Hx]; [reflexivity|].
    by apply elem_of_nil in Hx.
Qed.

End Ledger.

(** ** Topology transactions

    [createTopologyTransaction], [getTopologyFromLocalDatabase] and
    [rewriteTopology] of [targetConfig]. *)

Module TopologyTxn.

Import Transmogrifier Msgs.

(** Modelled from the spec: the topology variable is stored under a fixed
    well-known UUID; [configuration.TopologyVarUUId] and [common.VersionZero]
    are not among the sources. *)
Definition TopologyVarUUId : VarUUId := repeat 0 16.
Definition VersionZero : TxnId := repeat 0 20.

(** How a call returns: with a value, by a Go panic, or never (the
    environment gave no further answer). *)
Inductive Result (A : Type) :=
| Returned (a : A)
| Panics
| Blocks.
Arguments Returned {A} a.
Arguments Panics {A}.
Arguments Blocks {A}.

(** What [localConnection.RunTransaction] answers. *)
Record RunResult := mkRunResult {
  runOutcome : option Outcome;
  runErr : option string
}.

Section Transactions.

(** The capnp encoding of a topology and its decoding are the configuration
    package's. *)
Variable Serialize : Topology -> list Z.
Variable deserialize : list Z -> string + Configuration.

(** Modelled from the spec: [configuration.TopologyFromCap] is not among the
    sources.  It decodes the topology bytes of a write and takes the id of
    the writing transaction as the topology's [DBVersion] and the first
    reference, if given, as the root. *)
Definition TopologyFromCap (txnId : TxnId) (root : option VarIdPos) (value : list Z)
    : string + Topology :=
  match deserialize value with
  | inl e => inl e
  | inr cfg =>
      inr (mkTopology cfg txnId ((fun r => (RefId r, RefPositions r)) <$> root))
  end.

(** The allocations of a list of RMs: the boot count of its connection for
    an active RM, 0 for a passive one.  An active RM without a connection
    is a nil dereference. *)
Fixpoint allocations (tt : TT) (isActive : bool) (rmIds : RMIds)
    : option (list Allocation) :=
  match rmIds with
  | [] => Some []
  | rmId :: rest =>
      let bootCount :=
        if isActive then ConnBootCount <$> (activeConnections tt !! rmId)
        else Some 0 in
      match bootCount, allocations tt isActive rest with
      | Some bc, Some allocs => Some (mkAllocation (uint32 rmId) bc [0] :: allocs)
      | _, _ => None
      end
  end.

Definition positionsUpTo (n : Z) : list Z :=
  uint8 <$> (Z.of_nat <$> seq 0 (Z.to_nat n)).

Definition createTopologyTransaction (tt : TT) (read write : option Topology)
    (act pas : RMIds) : option Txn :=
  match write, read with
  | None, Some _ => None
  | _, _ =>
      let body :=
        match write, read with
        | None, _ => Some (ActionRead VersionZero)
        | Some wr, None =>
            Some (ActionCreate (positionsUpTo (MaxRMCount (TopCfg wr))) (Serialize wr) [])
        | Some wr, Some rd =>
            match Root wr with
            | Some root => Some (ActionReadwrite (DBVersion rd) (Serialize wr)
                                   [mkVarIdPos root.1 root.2])
            | None => None
            end
        end in
      match body, allocations tt true act, allocations tt false pas with
      | Some b, Some aa, Some pa =>
          Some {|
            Id := [];
            Submitter := uint32 (SelfRMId tt);
            SubmitterBootCount := SelfBootCount tt;
            Actions := [mkAction TopologyVarUUId b];
            Allocations := aa ++ pa;
            FInc := uint8 (len act);
            TopologyVersion :=
              match read with
              | None => 0
              | Some rd =>
                  match Next (TopCfg rd) with
                  | Some next => Version (NextCfg next)
                  | None => Version (TopCfg rd)
                  end
              end |}
      | _, _, _ => None
      end
  end.

(** What an abort's rerun payload says about the topology: it has to hold
    one update with one action, a write of the topology variable. *)
Definition topologyOfRerun (updates : list Update)
    : Error + (TxnId * list Z * list VarIdPos) :=
  match updates with
  | [update] =>
      match UpdateActions update with
      | [updateAction] =>
          if negb (bool_decide (ActionVarId updateAction = TopologyVarUUId)) then
            inl ErrNoTopologyAction
          else
            match Body updateAction with
            | ActionWrite value references =>
                inr (UpdateTxnId update, value, references)
            | _ => inl ErrNonWriteAction
            end
      | _ => inl ErrMultipleActions
      end
  | _ => inl ErrMultipleUpdates
  end.

Definition rootOf (references : list VarIdPos) : option VarIdPos :=
  match references with
  | [root] => Some root
  | _ => None
  end.

(** [getTopologyFromLocalDatabase], given what [IsDatabaseEmpty] says and
    the answers [RunTransaction] gives to the discovery transactions, in
    order. *)
Fixpoint discover (answers : list RunResult) : Result (option Topology * option Error) :=
  match answers with
  | [] => Blocks
  | answer :: rest =>
      match runErr answer with
      | Some e => Returned (None, Some (ErrExternal e))
      | None =>
          match runOutcome answer with
          | None => Returned (None, None)
          | Some result =>
              match Which result with
              | Commit => Returned (None, Some ErrReadFailedToAbort)
              | OutcomeAbort Resubmit => discover rest
              | OutcomeAbort (Rerun abortUpdates) =>
                  match topologyOfRerun abortUpdates with
                  | inl e => Returned (None, Some e)
                  | inr (dbversion, value, references) =>
                      match TopologyFromCap dbversion (rootOf references) value with
                      | inl e => Returned (None, Some (ErrExternal e))
                      | inr topology => Returned (Some topology, None)
                      end
                  end
              end
          end
      end
  end.

Definition getTopologyFromLocalDatabase (tt : TT)
    (empty : bool) (emptyErr : option string) (answers : list RunResult)
    : Result (option Topology * option Error) :=
  if empty || bool_decide (emptyErr <> None) then
    Returned (None, ErrExternal <$> emptyErr)
  else
    match createTopologyTransaction tt None None [SelfRMId tt] [] with
    | None => Panics
    | Some txn => discover answers
    end.

(** [rewriteTopology], given the answer of [RunTransaction]. *)
Definition rewriteTopology (tt : TT) (read write : Topology) (act pas : RMIds)
    (answer : RunResult) : Result (option Topology * bool * option Error) :=
  match createTopologyTransaction tt (Some read) (Some write) act pas with
  | None => Panics
  | Some txn =>
      match runOutcome answer, runErr answer with
      | None, e => Returned (None, false, ErrExternal <$> e)
      | Some _, Some e => Returned (None, false, Some (ErrExternal e))
      | Some result, None =>
          let txnId := Id (OutcomeTxn result) in
          match Which result with
          | Commit =>
              Returned (Some (mkTopology (TopCfg write) txnId (Root write)), false, None)
          | OutcomeAbort Resubmit => Returned (None, true, None)
          | OutcomeAbort (Rerun abortUpdates) =>
              match topologyOfRerun abortUpdates with
              | inl e => Returned (None, false, Some e)
              | inr (dbversion, value, references) =>
                  if 1 <? len references then
                    Returned (None, false, Some ErrTooManyReferences)
                  else
                    match TopologyFromCap dbversion (rootOf references) value with
                    | inl e => Returned (None, false, Some (ErrExternal e))
                    | inr topology => Returned (Some topology, false, None)
                    end
              end
          end
      end
  end.

End Transactions.

(** A rerun payload of the expected shape: one update with one action, a
    write of the topology variable. *)
Definition topologyWrite (txnId : TxnId) (value : list Z) (references : list VarIdPos)
    : list Update :=
  [mkUpdate txnId [mkAction TopologyVarUUId (ActionWrite value references)]].

Definition answerOf (txn : Txn) (which : OutcomeWhich) : RunResult :=
  mkRunResult (Some (mkOutcome txn which)) None.

Lemma topologyOfRerun_inr updates txnId value references :
  topologyOfRerun updates = inr (txnId, value, references) ->
  updates = topologyWrite txnId value references.
Proof.
  unfold topologyOfRerun, topologyWrite.
  destruct updates as [|[uid actions] [|u2 us]]; try done. cbn.
  destruct actions as [|[vid body] [|a2 acts]]; try done. cbn.
  case_bool_decide as Hv; cbn; [|done].
  destruct body; try done. intros [= -> -> ->]. by rewrite Hv.
Qed.

Lemma discovery_txn Serialize tt c :
  activeConnections tt !! SelfRMId tt = Some c ->
  createTopologyTransaction Serialize tt None None [SelfRMId tt] [] =
  Some {|
    Id := [];
    Submitter := uint32 (SelfRMId tt);
    SubmitterBootCount := SelfBootCount tt;
    Actions := [mkAction TopologyVarUUId (ActionRead VersionZero)];
    Allocations := [mkAllocation (uint32 (SelfRMId tt)) (ConnBootCount c) [0]];
    FInc := 1;
    TopologyVersion := 0 |}.
Proof.
  intros Hc. unfold createTopologyTransaction. cbn. by rewrite Hc.
Qed.

(** C5.  The discovery transaction is a single read of the topology
    variable at version zero, allocated to the local RM alone.  On a
    non-empty database, with the local RM connected: a commit outcome gives
    an internal error and no topology; a resubmit abort makes the function
    try again (it goes on with the next answer); a rerun abort whose payload
    is one update with one write action on the topology variable gives the
    deserialized topology with the update's transaction id as [DBVersion];
    and every other rerun payload gives an error and no topology. *)
Theorem discovery_outcomes
    (Serialize : Topology -> list Z) (deserialize : list Z -> string + Configuration)
    (tt : TT) (c : Connection) (txn : Txn) (rest : list RunResult) :
  activeConnections tt !! SelfRMId tt = Some c ->
  let discoverWith answer :=
    getTopologyFromLocalDatabase Serialize deserialize tt false None (answer :: rest) in
  (exists discovery,
     createTopologyTransaction Serialize tt None None [SelfRMId tt] [] = Some discovery
     /\ Actions discovery = [mkAction TopologyVarUUId (ActionRead VersionZero)]
     /\ AllocRmId <$> Allocations discovery = [uint32 (SelfRMId tt)])
  /\ discoverWith (answerOf txn Commit) = Returned (None, Some ErrReadFailedToAbort)
  /\ discoverWith (answerOf txn (OutcomeAbort Resubmit))
     = getTopologyFromLocalDatabase Serialize deserialize tt false None rest
  /\ (forall txnId value references cfg,
        deserialize value = inr cfg ->
        discoverWith (answerOf txn (OutcomeAbort (Rerun (topologyWrite txnId value references))))
        = Returned (Some (mkTopology cfg txnId
                            ((fun r => (RefId r, RefPositions r)) <$> rootOf references)),
                    None))
  /\ (forall updates,
        (forall txnId value references,
            updates <> topologyWrite txnId value references) ->
        exists e,
          discoverWith (answerOf txn (OutcomeAbort (Rerun updates)))
          = Returned (None, Some e)).
Proof.
  intros Hc discoverWith. subst discoverWith. cbn beta.
  unfold getTopologyFromLocalDatabase. cbn [orb].
  rewrite bool_decide_eq_false_2 by (intros H; by apply H).
  rewrite (discovery_txn Serialize tt c Hc).
  split_and!.
  - eexists. split; [reflexivity|]. done.
  - done.
  - done.
  - intros txnId value references cfg Hd. cbn.
    rewrite bool_decide_eq_true_2 by done. cbn.
    unfold TopologyFromCap. by rewrite Hd.
  - intros updates Hshape. cbn.
    destruct (topologyOfRerun updates) as [e|[[txnId value] references]] eqn:Hr.
    + eauto.
    + apply topologyOfRerun_inr in Hr. by destruct (Hshape txnId value references).
Qed.

(** The local RM with a connection to itself, and a decoder that knows one
    encoding. *)
Definition connectedActor : TT :=
  mkTT 1 3 None None ∅ {[ 1 := mkConnection "h1" 1 3 None ]} ∅ [] None [].

Definition decodeOne (value : list Z) : string + Configuration :=
  if bool_decide (value = [42]) then inr addOneGoalCfg else inl "corrupt"%string.

Definition blankTxn : Txn := mkTxn [] 0 0 [] [] 0 0.

Example discovery_retries :
  getTopologyFromLocalDatabase (fun _ => [42]) decodeOne connectedActor false None
    [answerOf blankTxn (OutcomeAbort Resubmit);
     answerOf blankTxn (OutcomeAbort Resubmit);
     answerOf blankTxn (OutcomeAbort (Rerun (topologyWrite [5] [42] [])))]
  = Returned (Some (mkTopology addOneGoalCfg [5] None), None).
Proof. reflexivity. Qed.

Lemma discovery_outcomes_witness :
  activeConnections connectedActor !! SelfRMId connectedActor
    = Some (mkConnection "h1" 1 3 None)
  /\ getTopologyFromLocalDatabase (fun _ => [42]) decodeOne connectedActor false None
       [answerOf blankTxn Commit]
     = Returned (None, Some ErrReadFailedToAbort).
Proof.
  split; [reflexivity|].
  apply (discovery_outcomes (fun _ => [42]) decodeOne connectedActor
           (mkConnection "h1" 1 3 None) blankTxn []).
  reflexivity.
Defined.

End TopologyTxn.

(** ** The migrate task: awaiting immigrations *)

Module MigrateTask.

Import Transmogrifier Msgs TopologyTxn.

Inductive InnerState :=
| MigrateInstall
| MigrateAwaitClientDrain
| MigrateAwaitVarBarrier
| MigrateAwaitImmigrations
| MigrateAwaitNoPending.

Definition ensureRemoveTaskSender (t : Task) (tt : TT) : TT :=
  if sender t then emit EffRemoveSender tt else tt.

(** [task.fatal(err)] and [task.error(err)]: the task is dropped; a fatal
    error is returned, another one is logged. *)
Definition fatal (t : Task) (err : Error) (tt : TT) : TT * option Error :=
  (setTask None (ensureRemoveTaskSender t tt), Some err).

Definition error (t : Task) (msg : string) (tt : TT) : TT * option Error :=
  (emit (EffLog msg) (setTask None (ensureRemoveTaskSender t tt)), None).

(** [partitionByActiveConnection]: empty RM ids are dropped, the others go
    to the active or the passive list as they have a connection or not. *)
Definition partitionByActiveConnection (tt : TT) (rmIdLists : list RMIds)
    : RMIds * RMIds :=
  fold_left
    (fun (ap : RMIds * RMIds) rmId =>
       if bool_decide (rmId = RMIdEmpty) then ap
       else if bool_decide (is_Some (activeConnections tt !! rmId))
            then (ap.1 ++ [rmId], ap.2)
            else (ap.1, ap.2 ++ [rmId]))
    (concat rmIdLists) ([], []).

(** [verifyRoots]: every remote host must be connected, and must have no
    root or ours. *)
Fixpoint verifyRoots (tt : TT) (rootId : option VarUUId) (remoteHosts : list string)
    : bool * option string :=
  match remoteHosts with
  | [] => (true, None)
  | host :: rest =>
      match hostToConnection tt !! host with
      | Some cd =>
          match ConnRootId cd with
          | None => verifyRoots tt rootId rest
          | Some remoteRootId =>
              if bool_decide (rootId = Some remoteRootId)
              then verifyRoots tt rootId rest
              else (false, Some "Attempt made to merge different logical clusters"%string)
          end
      | None => (false, None)
      end
  end.

(** [allHostsBarLocalHost]: the hosts of the transition without the first
    occurrence of the local one. *)
Fixpoint removeFirst (localHost : string) (hosts : list string) : list string :=
  match hosts with
  | [] => []
  | host :: rest =>
      if String.eqb host localHost then rest else host :: removeFirst localHost rest
  end.

Definition allHostsBarLocalHost (localHost : string) (next : NextConfiguration)
    : list string :=
  removeFirst localHost (AllHosts next).

(** The clone of the active topology with the updated [Pending]. *)
Definition withPending (pending : Conds) (a : Topology) : Topology :=
  match Next (TopCfg a) with
  | None => a
  | Some next =>
      let c := TopCfg a in
      mkTopology
        (mkConfiguration (ClusterId c) (Version c) (Hosts c) (F c) (MaxRMCount c)
           (NoSync c) (RMs c) (RMsRemoved c)
           (Some (mkNextConfiguration (NextCfg next) (AllHosts next) (NewRMIds next)
                    (SurvivingRMIds next) (LostRMIds next) (PendingInstall next)
                    pending)))
        (DBVersion a) (Root a)
  end.

Section Immigrations.

Variable Serialize : Topology -> list Z.
Variable deserialize : list Z -> string + Configuration.
Variable LocalRemoteHosts : Configuration -> string + (string * list string).

(** Modelled from the spec: [Conds.SuppliedBy] is not among the sources.
    [SuppliedBy pending requester supplier maxSuppliers] marks the
    requester's condition as supplied by the supplier, up to [maxSuppliers]
    suppliers, and says whether [pending] changed. *)
Variable SuppliedBy : Conds -> RMId -> RMId -> Z -> Conds * bool.

(** [firstLocalHost]: the local host of the first configuration, along the
    chain of targets, that lists this node.  [None] is the nil dereference
    at the end of the chain. *)
Fixpoint firstLocalHost (c : Configuration) : option string :=
  match LocalRemoteHosts c with
  | inr (localHost, _) => Some localHost
  | inl _ =>
      match nextConfiguration c with
      | Some next => firstLocalHost (NextCfg next)
      | None => None
      end
  end.

Definition maxSuppliersOf (a : Topology) : Z :=
  let maxSuppliers := NonEmptyLen (RMs (TopCfg a)) - F (TopCfg a) in
  match LocalRemoteHosts (TopCfg a) with
  | inr _ => maxSuppliers - 1
  | inl _ => maxSuppliers
  end.

(** The loop over the senders of the ledger, in the order the map yields
    them. *)
Definition markSupplied (tt : TT) (maxSuppliers : Z) (order : list (RMId * nat))
    (pending : Conds) : Conds * bool :=
  fold_left
    (fun (pc : Conds * bool) (entry : RMId * nat) =>
       if bool_decide (cells tt !! entry.2 = Some 0) then
         let r := SuppliedBy pc.1 (SelfRMId tt) entry.1 maxSuppliers in
         (r.1, r.2 || pc.2)
       else pc)
    order (pending, false).

Definition migrateAwaitImmigrations_tick (t : Task) (tt : TT)
    (order : list (RMId * nat)) (answer : RunResult)
    : Result (TT * InnerState * option Error) :=
  match active tt with
  | None => Panics
  | Some a =>
      match Next (TopCfg a) with
      | None => Panics
      | Some next0 =>
          match Pending next0 !! SelfRMId tt with
          | None =>
              Returned (emit (EffLog "All migration into this RM completed") tt,
                        MigrateAwaitNoPending, None)
          | Some _ =>
              match migrations tt !! Version (NextCfg next0) with
              | None => Returned (tt, MigrateAwaitImmigrations, None)
              | Some senders =>
                  let maxSuppliers := maxSuppliersOf a in
                  let marked := markSupplied tt maxSuppliers order (Pending next0) in
                  let topology := withPending marked.1 a in
                  if negb marked.2 then Returned (tt, MigrateAwaitImmigrations, None)
                  else
                    match firstLocalHost (TopCfg a) with
                    | None => Panics
                    | Some localHost =>
                        let remoteHosts := allHostsBarLocalHost localHost next0 in
                        match verifyRoots tt (fst <$> Root a) remoteHosts with
                        | (_, Some e) =>
                            let r := error t e tt in
                            Returned (r.1, MigrateAwaitImmigrations, r.2)
                        | (false, None) =>
                            Returned (tt, MigrateAwaitImmigrations, None)
                        | (true, None) =>
                            let ap := partitionByActiveConnection tt
                                        [RMs (NextCfg next0)] in
                            if len ap.1 <=? len ap.2 then
                              Returned (tt, MigrateAwaitImmigrations, None)
                            else
                              let pas := ap.2 ++ LostRMIds next0 in
                              let tt1 := emit (EffRewriteTopology a topology ap.1 pas) tt in
                              match rewriteTopology Serialize deserialize tt1
                                      a topology ap.1 pas answer with
                              | Panics => Panics
                              | Blocks => Blocks
                              | Returned (_, _, Some e) =>
                                  let r := fatal t e tt1 in
                                  Returned (r.1, MigrateAwaitImmigrations, r.2)
                              | Returned (_, true, None) =>
                                  Returned (emit EffEnqueueTick tt1,
                                            MigrateAwaitImmigrations, None)
                              | Returned (_, false, None) =>
                                  Returned (tt1, MigrateAwaitImmigrations, None)
                              end
                        end
                    end
              end
          end
      end
  end.

(** *** The step as the specification words it *)

(** The senders whose counter has reached zero, in the order of the loop. *)
Definition zeroSenders (tt : TT) (order : list (RMId * nat)) : list RMId :=
  (filter (fun entry : RMId * nat => cells tt !! entry.2 = Some 0) order).*1.

(** [Pending] marked as supplied by each of [suppliers] in turn, under the
    cap, and whether any mark changed it. *)
Definition suppliedByAll (tt : TT) (maxSuppliers : Z) (suppliers : list RMId)
    (start : Conds * bool) : Conds * bool :=
  fold_left
    (fun (pc : Conds * bool) supplier =>
       let r := SuppliedBy pc.1 (SelfRMId tt) supplier maxSuppliers in
       (r.1, r.2 || pc.2))
    suppliers start.

Lemma markSupplied_zeroSenders tt maxSuppliers order : forall start,
  fold_left
    (fun (pc : Conds * bool) (entry : RMId * nat) =>
       if bool_decide (cells tt !! entry.2 = Some 0) then
         let r := SuppliedBy pc.1 (SelfRMId tt) entry.1 maxSuppliers in
         (r.1, r.2 || pc.2)
       else pc)
    order start
  = suppliedByAll tt maxSuppliers (zeroSenders tt order) start.
Proof.
  unfold suppliedByAll, zeroSenders.
  induction order as [|[s ptr] order IH]; intros start; [done|].
  cbn [fold_left].
  rewrite (filter_cons (fun entry : RMId * nat => cells tt !! entry.2 = Some 0)).
  cbn [snd fst]. case_bool_decide as Hz.
  - rewrite decide_True by done. cbn [fmap list_fmap fold_left fst]. apply IH.
  - rewrite decide_False by done. apply IH.
Qed.

Lemma zeroSenders_counter tt order version senders s :
  migrations tt !! version = Some senders ->
  order ≡ₚ map_to_list senders ->
  (s ∈ zeroSenders tt order <-> Ledger.counter tt version s = Some 0).
Proof.
  intros Hm Hperm. unfold zeroSenders, Ledger.counter, Ledger.ptrOf.
  rewrite Hm. cbn. rewrite list_elem_of_fmap. split.
  - intros ([s' ptr] & -> & Hin).
    apply list_elem_of_filter in Hin as [Hz Hin]. cbn in *.
    rewrite Hperm in Hin. apply elem_of_map_to_list in Hin.
    by rewrite Hin.
  - intros Hc. apply bind_Some in Hc as (ptr & Hs & Hz).
    exists (s, ptr). split; [done|].
    apply list_elem_of_filter. split; [done|].
    rewrite Hperm. by apply elem_of_map_to_list.
Qed.

End Immigrations.

Lemma rewrite_emitted e tt read write act pas :
  EffRewriteTopology read write act pas ∈ effects (emit e tt) ->
  e = EffRewriteTopology read write act pas
  \/ EffRewriteTopology read write act pas ∈ effects tt.
Proof. cbn. intros [->|H]%elem_of_cons; auto. Qed.

Lemma rewrite_dropped t tt read write act pas :
  EffRewriteTopology read write act pas
    ∈ effects (setTask None (ensureRemoveTaskSender t tt)) ->
  EffRewriteTopology read write act pas ∈ effects tt.
Proof.
  unfold ensureRemoveTaskSender. destruct (sender t); cbn; [|done].
  by intros [[=]|H]%elem_of_cons.
Qed.

(** The cap, the senders the loop acts on, and the one rewrite a tick may
    add: [maxSuppliers] is the number of non-empty RMs of the active
    topology minus its [F], less one exactly when the local node is among
    the active topology's hosts; the senders are those whose counter for
    the target version is zero; and a rewrite a tick has added reads the
    active topology and writes it with [Pending] marked as supplied by
    each of them under that cap, a mark having changed [Pending], with
    the connected RMs of the target as actives and the others followed by
    [LostRMIds] as passives. *)
Lemma immigrations_rewrite_only_when_changed
    (Serialize : Topology -> list Z) (deserialize : list Z -> string + Configuration)
    (LocalRemoteHosts : Configuration -> string + (string * list string))
    (SuppliedBy : Conds -> RMId -> RMId -> Z -> Conds * bool)
    (t : Task) (tt : TT) (order : list (RMId * nat)) (answer : RunResult)
    (a : Topology) (next : NextConfiguration) (senders : gmap Z nat) :
  active tt = Some a ->
  Next (TopCfg a) = Some next ->
  migrations tt !! Version (NextCfg next) = Some senders ->
  order ≡ₚ map_to_list senders ->
  let maxSuppliers :=
    NonEmptyLen (RMs (TopCfg a)) - F (TopCfg a)
    - (if LocalRemoteHosts (TopCfg a) is inr _ then 1 else 0) in
  let marks :=
    suppliedByAll SuppliedBy tt maxSuppliers (zeroSenders tt order)
                  (Pending next, false) in
  let ap := partitionByActiveConnection tt [RMs (NextCfg next)] in
  maxSuppliersOf LocalRemoteHosts a = maxSuppliers
  /\ (forall s, s ∈ zeroSenders tt order <->
                Ledger.counter tt (Version (NextCfg next)) s = Some 0)
  /\ (forall tt' st err,
        migrateAwaitImmigrations_tick Serialize deserialize LocalRemoteHosts SuppliedBy
          t tt order answer = Returned (tt', st, err) ->
        forall read write act pas,
          EffRewriteTopology read write act pas ∈ effects tt' ->
          EffRewriteTopology read write act pas ∈ effects tt
          \/ (marks.2 = true /\ read = a /\ write = withPending marks.1 a
              /\ act = ap.1 /\ pas = ap.2 ++ LostRMIds next)).
Proof.
  intros Ha Hn Hm Hperm maxSuppliers marks ap.
  assert (Hmax : maxSuppliersOf LocalRemoteHosts a = maxSuppliers).
  { unfold maxSuppliersOf, maxSuppliers.
    destruct (LocalRemoteHosts (TopCfg a)); lia. }
  split; [exact Hmax|]. split; [intros s; by eapply zeroSenders_counter|].
  intros tt' st err Htick read write act pas Hin.
  unfold migrateAwaitImmigrations_tick in Htick.
  rewrite Ha, Hn in Htick.
  destruct (Pending next !! SelfRMId tt) as [cs|].
  2: { injection Htick as <- _ _. apply rewrite_emitted in Hin as [[=]|Hin]; auto. }
  rewrite Hm in Htick. cbn zeta in Htick.
  unfold markSupplied in Htick. rewrite markSupplied_zeroSenders, Hmax in Htick.
  fold marks in Htick.
  destruct (marks.2) eqn:Hchanged; cbn [negb] in Htick.
  2: { injection Htick as <- _ _. auto. }
  destruct (firstLocalHost LocalRemoteHosts (TopCfg a)) as [localHost|]; [|done].
  destruct (verifyRoots tt (fst <$> Root a) (allHostsBarLocalHost localHost next))
    as [[|] [e|]].
  - injection Htick as <- _ _. unfold error in Hin. cbn [fst] in Hin.
    apply rewrite_emitted in Hin as [[=]|Hin]. left. by eapply rewrite_dropped.
  - fold ap in Htick.
    destruct (len ap.1 <=? len ap.2); [injection Htick as <- _ _; auto|].
    set (tt1 := emit (EffRewriteTopology a (withPending marks.1 a) ap.1
                        (ap.2 ++ LostRMIds next)) tt) in *.
    assert (Hone : forall tt2,
              EffRewriteTopology read write act pas ∈ effects tt2 ->
              effects tt2 = effects tt1 ->
              EffRewriteTopology read write act pas ∈ effects tt
              \/ (true = true /\ read = a /\ write = withPending marks.1 a
                  /\ act = ap.1 /\ pas = ap.2 ++ LostRMIds next)).
    { intros tt2 H2 E. rewrite E in H2. subst tt1.
      apply rewrite_emitted in H2 as [[= -> -> -> ->]|H2];
        [right; by split_and!|by left]. }
    destruct (rewriteTopology Serialize deserialize tt1 a (withPending marks.1 a)
                ap.1 (ap.2 ++ LostRMIds next) answer)
      as [[[top resubmit] [e|]]| |]; try done;
      destruct resubmit; injection Htick as <- _ _.
    + unfold fatal in Hin. cbn [fst] in Hin.
      apply rewrite_dropped in Hin. by apply (Hone tt1).
    + unfold fatal in Hin. cbn [fst] in Hin.
      apply rewrite_dropped in Hin. by apply (Hone tt1).
    + apply rewrite_emitted in Hin as [[=]|Hin]. by apply (Hone tt1).
    + by apply (Hone tt1).
  - injection Htick as <- _ _. unfold error in Hin. cbn [fst] in Hin.
    apply rewrite_emitted in Hin as [[=]|Hin]. left. by eapply rewrite_dropped.
  - injection Htick as <- _ _. auto.
Qed.

(** The node being added (RM 4), once RM 2 has delivered everything: the
    ledger of [Ledger.exampleWorld], connections to all four RMs. *)
Definition conn (host : string) (rmId : RMId) : Connection :=
  mkConnection host rmId 1 (Some [7]).

Definition immigrantActor : TT :=
  let tt := Ledger.actor Ledger.exampleWorld in
  mkTT 4 1 (active tt) None
    {[ "h1"%string := conn "h1" 1; "h2"%string := conn "h2" 2;
       "h3"%string := conn "h3" 3; "h4"%string := conn "h4" 4 ]}
    {[ 1 := conn "h1" 1; 2 := conn "h2" 2; 3 := conn "h3" 3; 4 := conn "h4" 4 ]}
    (migrations tt) (cells tt)
    (Some (mkTask Migrate addOneGoal false)) [].

Definition h4Local (c : Configuration) : string + (string * list string) :=
  if bool_decide ("h4"%string ∈ Hosts c)
  then inr ("h4"%string, filter (fun h => h <> "h4"%string) (Hosts c))
  else inl "this node is not among the hosts"%string.

(** A [SuppliedBy] for the examples: a new supplier is appended while
    there is room under the cap. *)
Definition appendSupplier (pending : Conds) (requester supplier : RMId)
    (maxSuppliers : Z) : Conds * bool :=
  match pending !! requester with
  | Some cs =>
      if bool_decide (supplier ∈ Suppliers cs) || (maxSuppliers <=? len (Suppliers cs))
      then (pending, false)
      else (<[requester := mkCondSuppliers (CSCond cs) (Suppliers cs ++ [supplier])]>
              pending, true)
  | None => (pending, false)
  end.

Definition immigrantTick : Result (TT * InnerState * option Error) :=
  migrateAwaitImmigrations_tick (fun _ => [42]) decodeOne h4Local appendSupplier
    (mkTask Migrate addOneGoal false) immigrantActor [(2, 0%nat)]
    (answerOf blankTxn Commit).

Example immigrant_rewrites :
  match immigrantTick with
  | Returned (tt', st, err) =>
      effects tt' =
      [EffRewriteTopology addOneActive
         (withPending
            {[ 4 := mkCondSuppliers (Conditions.includesGenerator 4 4 0 3 []) [2] ]}
            addOneActive)
         [1; 2; 3; 4] []]
      /\ err = None
  | _ => False
  end.
Proof. vm_compute. split; reflexivity. Qed.

End MigrateTask.

(** ** Client transaction resubmission

    The back-off of [ClientTxnSubmitter.SubmitClientTransaction]: what the
    continuation does to [delay] and [retryCount] each time the transaction
    has to be resubmitted.  Durations are in nanoseconds. *)

Module ClientTxnSubmitter.

Definition Microsecond : Z := 1000.
Definition Second : Z := 1000000000.

Definition SubmissionInitialAttempts : Z := 5.
Definition SubmissionInitialBackoff : Z := 2 * Microsecond.
Definition SubmissionMaxSubmitDelay : Z := 2 * Second.

(** The random source: [rng pos] is the [pos]-th raw draw.  [Intn n] panics
    for [n <= 0] and otherwise reduces the next draw into [0, n). *)
Definition Intn (rng : nat -> Z) (n : Z) (pos : nat) : option (Z * nat) :=
  if n <=? 0 then None else Some (rng pos mod n, S pos).

Record Retry := mkRetry {
  delay : Z;                        (* time.Duration *)
  retryCount : Z;
  drawn : nat                       (* draws taken from the random source *)
}.

(** The state in which the first submission is made, with delay 0. *)
Definition firstSubmission : Retry := mkRetry 0 0 0.

(** The new [delay], by the [switch] on [retryCount]. *)
Definition backoff (rng : nat -> Z) (retryCount delay : Z) (pos : nat)
    : option (Z * nat) :=
  if retryCount =? SubmissionInitialAttempts then
    Some (SubmissionInitialBackoff, pos)
  else if SubmissionInitialAttempts <? retryCount then
    match Intn rng delay pos with
    | None => None
    | Some (jitter, pos1) =>
        let delay1 := delay + jitter in
        if SubmissionMaxSubmitDelay <? delay1
        then Intn rng SubmissionMaxSubmitDelay pos1
        else Some (delay1, pos1)
    end
  else Some (delay, pos).

(** One resubmission: [None] is a panic.  After the back-off one more draw
    moves the transaction id on. *)
Definition resubmit (rng : nat -> Z) (st : Retry) : option Retry :=
  let retryCount := retryCount st + 1 in
  match backoff rng retryCount (delay st) (drawn st) with
  | None => None
  | Some (delay, pos) =>
      match Intn rng 8 pos with
      | None => None
      | Some (_, pos1) => Some (mkRetry delay retryCount pos1)
      end
  end.

(** The state in which the submission after [n] aborts is made. *)
Fixpoint afterAborts (rng : nat -> Z) (n : nat) : option Retry :=
  match n with
  | O => Some firstSubmission
  | S k =>
      match afterAborts rng k with
      | Some st => resubmit rng st
      | None => None
      end
  end.

Lemma Intn_range rng n pos r pos' :
  Intn rng n pos = Some (r, pos') -> 0 <= r < n.
Proof.
  unfold Intn. destruct (n <=? 0) eqn:E; [done|].
  apply Z.leb_gt in E. intros [= <- <-]. apply Z.mod_pos_bound. lia.
Qed.

Lemma Intn_positive rng n pos :
  0 < n -> exists r, Intn rng n pos = Some (r, S pos) /\ 0 <= r < n.
Proof.
  intros Hn. unfold Intn. rewrite (proj2 (Z.leb_gt _ _) Hn).
  eexists. split; [reflexivity|]. apply Z.mod_pos_bound. lia.
Qed.

Lemma afterAborts_retryCount rng n st :
  afterAborts rng n = Some st -> retryCount st = Z.of_nat n.
Proof.
  revert st. induction n as [|n IH]; intros st; cbn [afterAborts].
  - by intros [= <-].
  - destruct (afterAborts rng n) as [st0|]; [|done].
    unfold resubmit. destruct (backoff _ _ _ _) as [[d p]|]; [|done].
    cbn. intros [= <-]. cbn. rewrite (IH st0 eq_refl). lia.
Qed.

(** The first five submissions (the first one and four resubmissions) are
    made with delay 0, whatever the random source. *)
Lemma early_submissions rng n :
  (n < 5)%nat -> exists st, afterAborts rng n = Some st /\ delay st = 0.
Proof.
  induction n as [|n IH]; intros Hn; cbn [afterAborts].
  - by eexists.
  - destruct IH as (st & Hst & Hd); [lia|]. rewrite Hst.
    pose proof (afterAborts_retryCount rng n st Hst) as Hc.
    unfold resubmit, backoff, SubmissionInitialAttempts. rewrite Hc, Hd.
    rewrite (proj2 (Z.eqb_neq _ _)) by lia.
    rewrite (proj2 (Z.ltb_ge _ _)) by lia.
    cbn. eexists. split; [reflexivity|done].
Qed.

(** The resubmission numbered [SubmissionInitialAttempts] waits for
    [SubmissionInitialBackoff]. *)
Lemma fifth_resubmission rng :
  exists st, afterAborts rng 5 = Some st /\ delay st = SubmissionInitialBackoff.
Proof.
  destruct (early_submissions rng 4) as (st & Hst & Hd); [lia|].
  cbn [afterAborts] in *. rewrite Hst.
  pose proof (afterAborts_retryCount rng 4 st Hst) as Hc. cbn [afterAborts] in Hc.
  unfold resubmit, backoff, SubmissionInitialAttempts. rewrite Hc. cbn.
  eexists. split; [reflexivity|done].
Qed.

(** From a positive delay, a later resubmission adds a jitter below the
    delay, or, when that would pass [SubmissionMaxSubmitDelay], draws the
    delay afresh below it. *)
Lemma later_resubmission rng n st :
  (5 <= n)%nat -> afterAborts rng n = Some st -> 0 < delay st ->
  exists st', afterAborts rng (S n) = Some st'
    /\ 0 <= delay st' <= SubmissionMaxSubmitDelay
    /\ (delay st <= delay st' < 2 * delay st
        \/ delay st' < SubmissionMaxSubmitDelay).
Proof.
  intros Hn Hst Hd. cbn [afterAborts]. rewrite Hst.
  pose proof (afterAborts_retryCount rng n st Hst) as Hc.
  unfold resubmit, backoff, SubmissionInitialAttempts. rewrite Hc.
  rewrite (proj2 (Z.eqb_neq _ _)) by lia.
  rewrite (proj2 (Z.ltb_lt _ _)) by lia.
  destruct (Intn_positive rng (delay st) (drawn st) Hd) as (j & -> & Hj).
  destruct (SubmissionMaxSubmitDelay <? delay st + j) eqn:Hcap.
  - destruct (Intn_positive rng SubmissionMaxSubmitDelay (S (drawn st)))
      as (r & -> & Hr); [done|].
    cbn. eexists. split; [reflexivity|]. cbn. lia.
  - apply Z.ltb_ge in Hcap. cbn. eexists. split; [reflexivity|]. cbn. lia.
Qed.

(** A random source that always draws the largest jitter, and 0 when the
    delay is drawn afresh at the cap. *)
Definition zeroAtCap (pos : nat) : Z :=
  if Nat.eqb pos 44 then 0 else -1.

(** C8.  The back-off misses a case: the delay drawn afresh at the cap can
    be 0, and the next resubmission then calls [Intn 0], which panics.  With
    [zeroAtCap] the 25th resubmission is made with delay 0 and the 26th
    never happens. *)
Theorem resubmit_panics_after_zero_delay :
  (delay <$> afterAborts zeroAtCap 24) = Some 1048051713
  /\ (delay <$> afterAborts zeroAtCap 25) = Some 0
  /\ afterAborts zeroAtCap 26 = None.
Proof. vm_compute. by split_and!. Qed.

End ClientTxnSubmitter.

(** ** The variable manager

    [VarManager.find], [VarManager.ApplyToVar] and [VarManager.checkAllDisk]
    of the transaction engine.  [Var] objects live on a heap and
    [vm.active] maps a variable's id to the address of its object, so that
    what the supplied function does to the object or to [vm.active] is seen
    by the test that follows it. *)

Module VarManager.

Definition VarUUId := list Z.

(** An [error] that is not [nil]: [mdb.NotFound] or any other one. *)
Inductive Error :=
| NotFound
| OtherError (code : Z).

#[global] Instance Error_eq_dec : EqDecision Error.
Proof. solve_decision. Defined.

(** The read-only transaction of [find]: [ResultError] gives an error, or a
    result that is the error of [rtxn.Get], or one that is its bytes. *)
Inductive ReadResult :=
| TxnError (err : Error)
| GetError (err : Error)
| GetBytes (bites : list Z).

Inductive Panic :=
| NotActiveNotIdle                  (* "Var is not active, yet is not idle!" *)
| BadTypeAssertion.                 (* result.([]byte) on an error *)

Inductive Result (A : Type) :=
| Completed (a : A)
| Panicked (p : Panic).
Arguments Completed {A} a.
Arguments Panicked {A} p.

Inductive Effect :=
| EffDone (tc : nat).               (* onDisk.Done(VarSubscriber) *)

Section Vars.

(** The [Var] type is not among the sources: its objects are taken with the
    three things the manager reads from them, and with the two functions
    that build them. *)
Context {Var : Type}.
Variable UUId : Var -> VarUUId.
Variable isIdle : Var -> bool.
Variable isOnDisk : Var -> bool.
Variable NewVar : VarUUId -> Var.
Variable VarFromData : list Z -> Var + Error.

(** What the database answers to the read of [find]. *)
Variable dbGet : VarUUId -> ReadResult.

Record VM := mkVM {
  active : gmap VarUUId nat;        (* map[common.VarUUId]*Var *)
  vars : nat -> Var;                (* the Var objects, by address *)
  allocated : nat;                  (* the next fresh address *)
  RollAllowed : bool;
  onDisk : option nat;              (* the TopologyChange waited on, or nil *)
  effects : list Effect
}.

Definition setActive (m : gmap VarUUId nat) (vm : VM) : VM :=
  mkVM m (vars vm) (allocated vm) (RollAllowed vm) (onDisk vm) (effects vm).

(** A new [Var] object on the heap, and its address. *)
Definition alloc (var : Var) (vm : VM) : nat * VM :=
  (allocated vm,
   mkVM (active vm)
        (fun a => if Nat.eqb a (allocated vm) then var else vars vm a)
        (S (allocated vm)) (RollAllowed vm) (onDisk vm) (effects vm)).

(** [vm.active[*v.UUId] = v] for a fresh object [var]. *)
Definition activate (var : Var) (vm : VM) : nat * VM :=
  let v := (alloc var vm).1 in
  let vm1 := (alloc var vm).2 in
  (v, setActive (<[UUId var := v]> (active vm1)) vm1).

(** [find]: the address of the object, or the error. *)
Definition find (uuid : VarUUId) (vm : VM) : Result ((nat + Error) * VM) :=
  match active vm !! uuid with
  | Some v => Completed (inl v, vm)
  | None =>
      match dbGet uuid with
      | TxnError err => Completed (inr err, vm)
      | GetError NotFound => Completed (inr NotFound, vm)
      | GetError (OtherError _) => Panicked BadTypeAssertion
      | GetBytes bites =>
          match VarFromData bites with
          | inl var =>
              Completed (inl (activate var vm).1, (activate var vm).2)
          | inr err => Completed (inr err, vm)
          end
      end
  end.

Definition checkAllDisk (vm : VM) : VM :=
  match onDisk vm with
  | Some tc =>
      if forallb (fun kv => isOnDisk (vars vm kv.2)) (map_to_list (active vm))
      then mkVM (active vm) (vars vm) (allocated vm) false None
                (effects vm ++ [EffDone tc])
      else vm
  | None => vm
  end.

(** The supplied function, called with an address or [nil] and with an
    error or [nil]; it may change the objects and [vm.active]. *)
Definition Fun := option nat -> option Error -> VM -> VM.

(** The first statement of [ApplyToVar]: the variable found, or created
    when it is missing and [createIfMissing] is set, or the error. *)
Definition findOrCreate (createIfMissing : bool) (uuid : VarUUId) (vm : VM)
    : Result ((nat + Error) * VM) :=
  match find uuid vm with
  | Panicked p => Panicked p
  | Completed (inr err, vm1) =>
      if bool_decide (err = NotFound) && createIfMissing
      then Completed (inl (activate (NewVar uuid) vm1).1,
                      (activate (NewVar uuid) vm1).2)
      else Completed (inr err, vm1)
  | Completed (inl v, vm1) => Completed (inl v, vm1)
  end.

Definition ApplyToVar (fun_ : Fun) (createIfMissing : bool) (uuid : VarUUId)
    (vm : VM) : Result VM :=
  match findOrCreate createIfMissing uuid vm with
  | Panicked p => Panicked p
  | Completed (inr err, vm1) => Completed (fun_ None (Some err) vm1)
  | Completed (inl v, vm1) =>
      let vm2 := fun_ (Some v) None vm1 in
      if negb (bool_decide (is_Some (active vm2 !! uuid)))
         && negb (isIdle (vars vm2 v))
      then Panicked NotActiveNotIdle
      else Completed (checkAllDisk vm2)
  end.

(** After [fun_] has run on the variable at [v]: is the variable listed
    under [uuid], and is it idle. *)
Definition isActive (uuid : VarUUId) (vm : VM) : bool :=
  bool_decide (is_Some (active vm !! uuid)).

Definition idleAt (v : nat) (vm : VM) : bool := isIdle (vars vm v).

Lemma find_active uuid vm v :
  active vm !! uuid = Some v -> find uuid vm = Completed (inl v, vm).
Proof. intros H. unfold find. by rewrite H. Qed.

Lemma find_type_assertion uuid vm :
  find uuid vm = Panicked BadTypeAssertion <->
  active vm !! uuid = None /\ exists code, dbGet uuid = GetError (OtherError code).
Proof.
  unfold find. destruct (active vm !! uuid) as [v|].
  { split; [done|]. by intros [? _]. }
  destruct (dbGet uuid) as [err|[|code]|bites].
  - split; [done|]. by intros [_ [? ?]].
  - split; [done|]. by intros [_ [? ?]].
  - split; [|done]. intros _. split; [done|]. by exists code.
  - destruct (VarFromData bites); (split; [done|]); by intros [_ [? ?]].
Qed.

Lemma find_panics uuid vm p :
  find uuid vm = Panicked p -> p = BadTypeAssertion.
Proof.
  unfold find. destruct (active vm !! uuid) as [v|]; [done|].
  destruct (dbGet uuid) as [err|[|code]|bites]; try done.
  - by intros [= <-].
  - by destruct (VarFromData bites).
Qed.

Lemma findOrCreate_panics c uuid vm p :
  findOrCreate c uuid vm = Panicked p -> p = BadTypeAssertion.
Proof.
  unfold findOrCreate. destruct (find uuid vm) as [[[v|err] vm1]|q] eqn:E.
  - done.
  - by case_match.
  - intros [= <-]. by eapply find_panics.
Qed.

(** A variable that is listed when [ApplyToVar] is called is the one the
    function is applied to, and nothing is read or created. *)
Lemma findOrCreate_active c uuid vm v :
  active vm !! uuid = Some v -> findOrCreate c uuid vm = Completed (inl v, vm).
Proof. intros H. unfold findOrCreate. by rewrite (find_active _ _ _ H). Qed.

(** C9, as the code has it.  [ApplyToVar] panics with "Var is not active,
    yet is not idle!" exactly when the function was applied to a variable
    and, afterwards, the variable's id is not listed in [vm.active] and the
    variable is not idle.  Whenever the function was applied and the
    variable is afterwards listed or idle, in particular when it is active
    and idle, [ApplyToVar] completes and [checkAllDisk] has run; so it does
    for a variable that was listed at the call and still is after the
    function.  When the variable was neither found nor created, the
    function gets the error and [ApplyToVar] completes. *)
Theorem ApplyToVar_panics_iff_inactive_and_busy fun_ c uuid vm :
  (ApplyToVar fun_ c uuid vm = Panicked NotActiveNotIdle <->
     exists v vm1, findOrCreate c uuid vm = Completed (inl v, vm1)
       /\ isActive uuid (fun_ (Some v) None vm1) = false
       /\ idleAt v (fun_ (Some v) None vm1) = false)
  /\ (forall v vm1, findOrCreate c uuid vm = Completed (inl v, vm1) ->
        isActive uuid (fun_ (Some v) None vm1) = true
        \/ idleAt v (fun_ (Some v) None vm1) = true ->
        ApplyToVar fun_ c uuid vm
        = Completed (checkAllDisk (fun_ (Some v) None vm1)))
  /\ (forall v, active vm !! uuid = Some v ->
        isActive uuid (fun_ (Some v) None vm) = true ->
        ApplyToVar fun_ c uuid vm
        = Completed (checkAllDisk (fun_ (Some v) None vm)))
  /\ (forall err vm1, findOrCreate c uuid vm = Completed (inr err, vm1) ->
        ApplyToVar fun_ c uuid vm = Completed (fun_ None (Some err) vm1)).
Proof.
  assert (Hdone : forall v vm1,
    findOrCreate c uuid vm = Completed (inl v, vm1) ->
    isActive uuid (fun_ (Some v) None vm1) = true
    \/ idleAt v (fun_ (Some v) None vm1) = true ->
    ApplyToVar fun_ c uuid vm
    = Completed (checkAllDisk (fun_ (Some v) None vm1))).
  { intros v vm1 E H. unfold ApplyToVar. rewrite E. cbn zeta.
    unfold isActive, idleAt in H.
    destruct H as [-> | ->]; [done|]. by rewrite andb_false_r. }
  split_and!.
  - unfold ApplyToVar, isActive, idleAt.
    destruct (findOrCreate c uuid vm) as [[[v|err] vm1]|p] eqn:E.
    + cbn zeta. split.
      * intros H. exists v, vm1. split; [done|].
        destruct (bool_decide _); [done|].
        destruct (isIdle _); [done|]. done.
      * intros (v' & vm' & [= <- <-] & -> & ->). done.
    + split; [done|]. by intros (? & ? & ? & _).
    + split.
      * intros [= ->]. by apply findOrCreate_panics in E.
      * by intros (? & ? & ? & _).
  - exact Hdone.
  - intros v Hv H. apply Hdone; [by apply findOrCreate_active|by left].
  - intros err vm1 E. unfold ApplyToVar. by rewrite E.
Qed.

End Vars.

Arguments VM : clear implicits.
Arguments Fun : clear implicits.

(** *** A manager with one variable *)

Record VarObj := mkVar {
  varUUId : VarUUId;
  varIdle : bool;
  varOnDisk : bool
}.

Definition u1 : VarUUId := [1].

Definition freshVar (uuid : VarUUId) : VarObj := mkVar uuid false false.
Definition noData (bites : list Z) : VarObj + Error := inr (OtherError 0).
Definition emptyDb (uuid : VarUUId) : ReadResult := GetError NotFound.

Definition applyToVar : Fun VarObj -> bool -> VarUUId -> VM VarObj
    -> Result (VM VarObj) :=
  ApplyToVar varUUId varIdle varOnDisk freshVar noData emptyDb.

(** The variable [u1], listed at address 0, idle or busy. *)
Definition oneVar (idle : bool) : VM VarObj :=
  mkVM {[ u1 := 0%nat ]} (fun _ => mkVar u1 idle true) 1 false None [].

(** A function that leaves everything as it is, and one that takes the
    variable off the list, as [SetInactive] does. *)
Definition keep : Fun VarObj := fun _ _ vm => vm.
Definition unlist : Fun VarObj :=
  fun _ _ vm => setActive (delete u1 (active vm)) vm.

(** C9, the spec's reading fails both ways.  A variable that is active and
    idle after the function does not make [ApplyToVar] panic; a variable
    that is neither active nor idle, which is not the combination the spec
    names, does. *)
Lemma ApplyToVar_active_idle_completes :
  (isActive u1 (keep (Some 0%nat) None (oneVar true)) = true
   /\ idleAt varIdle 0 (keep (Some 0%nat) None (oneVar true)) = true
   /\ applyToVar keep false u1 (oneVar true) = Completed (oneVar true))
  /\ (isActive u1 (unlist (Some 0%nat) None (oneVar false)) = false
      /\ idleAt varIdle 0 (unlist (Some 0%nat) None (oneVar false)) = false
      /\ applyToVar unlist false u1 (oneVar false)
         = Panicked NotActiveNotIdle).
Proof. vm_compute. by split_and!. Qed.

(** A variable that goes idle and is taken off the list is no violation,
    and a missing variable is created and listed. *)
Example ApplyToVar_idle_unlisted :
  applyToVar unlist false u1 (oneVar true)
  = Completed (setActive ∅ (oneVar true)).
Proof. vm_compute. reflexivity. Qed.

Example ApplyToVar_creates :
  (active <$> match applyToVar keep true [2] (oneVar true) with
              | Completed vm => Some vm
              | Panicked _ => None
              end) = Some ({[ u1 := 0%nat; [2] := 1%nat ]} : gmap VarUUId nat).
Proof. vm_compute. reflexivity. Qed.

End VarManager.

(** ** The emigrator

    [dbIterator.iterate] with [filterVars], [matchVarsAgainstCond] and
    [sendBatch]: the scan of the local variable table that sends the
    variables a joining RM needs.  The functions run in a monad that keeps
    what has been sent, also when the scan ends in a panic. *)

Module Emigrator.

Import Msgs.

Definition TopologyVarUUId : VarUUId := TopologyTxn.TopologyVarUUId.

(** [bytes.Compare(a, b) < 0]. *)
Fixpoint bytesLess (a b : list Z) : bool :=
  match a, b with
  | _, [] => false
  | [], _ :: _ => true
  | x :: a', y :: b' =>
      if x <? y then true else if y <? x then false else bytesLess a' b'
  end.

(** What [db.ReadTxnBytesFromDisk] and the decoding of its bytes give. *)
Inductive TxnRead :=
| TxnMissing                        (* txnBytes == nil *)
| TxnCorrupt                        (* the bytes do not decode *)
| TxnStored (txnCap : Txn).

(** The database as the read-only transaction sees it: the [Vars] table in
    cursor order, each value decoded ([None] where the bytes do not
    decode), and the transactions by id.  A [TxnId] is the bytes
    [common.MakeTxnId] copies. *)
Record Disk := mkDisk {
  Vars : list (VarUUId * option Var);
  Txns : TxnId -> TxnRead
}.

(** [cursor.RTxn.Get(db.DB.Vars, key)]: [None] is [mdb.NotFound]. *)
Fixpoint lookupVar (records : list (VarUUId * option Var)) (key : VarUUId)
    : option (option Var) :=
  match records with
  | [] => None
  | (k, varBytes) :: rest =>
      if bool_decide (k = key) then Some varBytes else lookupVar rest key
  end.

Definition Get (disk : Disk) (key : VarUUId) : option (option Var) :=
  lookupVar (Vars disk) key.

Record sendBatch := mkSendBatch {
  version : Z;                      (* uint32 *)
  conn : Z;                         (* the connection, by its RMId *)
  cond : Cond;
  vars : list (option Var);         (* []*msgs.Var: an entry may be nil *)
  txns : list Txn
}.

Definition sendBatchTxnCount : nat := 64.

Definition newBatch (nextVersion : Z) (target : Z * Cond) : sendBatch :=
  mkSendBatch nextVersion target.1 target.2 [] [].

Inductive Effect :=
| EffSend (conn : Z) (migration : Migration)
| EffLog                            (* log.Println(err) *)
| EffAddSender.

(** A computation that sends and may panic: what it returns, if it
    returns, and everything done so far. *)
Definition M (A : Type) : Type := list Effect -> option A * list Effect.

Definition ret {A} (a : A) : M A := fun effs => (Some a, effs).

Definition bind {A B} (m : M A) (k : A -> M B) : M B :=
  fun effs =>
    match m effs with
    | (Some a, effs1) => k a effs1
    | (None, effs1) => (None, effs1)
    end.

Definition emit (e : Effect) : M unit := fun effs => (Some tt, effs ++ [e]).

Definition panic {A} : M A := fun effs => (None, effs).

Notation "x <- m ;; k" := (bind m (fun x => k))
  (at level 100, m at next level, right associativity).

(** [*varCap] for every entry: a nil entry is a nil dereference. *)
Fixpoint derefAll (varCaps : list (option Var)) : option (list Var) :=
  match varCaps with
  | [] => Some []
  | None :: _ => None
  | Some varCap :: rest => cons varCap <$> derefAll rest
  end.

Definition flush (sb : sendBatch) : M sendBatch :=
  match vars sb with
  | [] => ret sb
  | _ :: _ =>
      match derefAll (vars sb) with
      | None => panic
      | Some vs =>
          _ <- emit (EffSend (conn sb) (mkMigration (version sb) (txns sb) vs)) ;;
          ret (mkSendBatch (version sb) (conn sb) (cond sb) [] [])
      end
  end.

Definition add (txnCap : Txn) (varCaps : list (option Var)) (sb : sendBatch)
    : M sendBatch :=
  let sb1 := mkSendBatch (version sb) (conn sb) (cond sb)
                         (vars sb ++ varCaps) (txns sb ++ [txnCap]) in
  if Nat.eqb (length (txns sb1)) sendBatchTxnCount then flush sb1 else ret sb1.

Definition isRead (action : Action) : bool :=
  match Body action with
  | ActionRead _ => true
  | _ => false
  end.

(** *** What is sent *)

Definition nonTopology (varCap : Var) : Prop := VarId varCap <> TopologyVarUUId.

(** The variables of the migrations sent. *)
Definition sentVars (effs : list Effect) : list Var :=
  flat_map (fun e => match e with
                     | EffSend _ migration => MigVars migration
                     | _ => []
                     end) effs.

(** A record of the table that holds the topology variable. *)
Definition isTopologyRecord (r : VarUUId * option Var) : bool :=
  match r.2 with
  | Some varCap => bool_decide (VarId varCap = TopologyVarUUId)
  | None => false
  end.

(** The transaction has an action other than a read on the variable. *)
Definition writes (txnCap : Txn) (key : VarUUId) : bool :=
  existsb (fun action => bool_decide (ActionVarId action = key)
                         && negb (isRead action)) (Actions txnCap).

(** The table has one record for a key, and the transaction a record names
    as the one that wrote it, when it is stored, acts on the record's
    variable other than by a read. *)
Definition consistent (disk : Disk) : bool :=
  bool_decide (NoDup (Vars disk).*1)
  && forallb (fun r => match r.2 with
                       | Some varCap =>
                           match Txns disk (WriteTxnId varCap) with
                           | TxnStored txnCap => writes txnCap r.1
                           | _ => true
                           end
                       | None => true
                       end) (Vars disk).

(** A batch that can be sent, having no nil entry, holds no topology
    variable. *)
Definition cleanBatch (sb : sendBatch) : Prop :=
  forall vs, derefAll (vars sb) = Some vs -> Forall nonTopology vs.

(** [m] sends no topology variable, and what it returns satisfies [post]. *)
Definition preserves {A} (m : M A) (post : A -> Prop) : Prop :=
  forall effs, Forall nonTopology (sentVars effs) ->
    Forall nonTopology (sentVars (m effs).2)
    /\ forall a, (m effs).1 = Some a -> post a.

Lemma preserves_ret {A} (a : A) (post : A -> Prop) :
  post a -> preserves (ret a) post.
Proof. intros Ha effs H. split; [done|]. by intros ? [= <-]. Qed.

Lemma preserves_panic {A} (post : A -> Prop) : preserves panic post.
Proof. intros effs H. by split. Qed.

Lemma preserves_bind {A B} (m : M A) (k : A -> M B) P Q :
  preserves m P -> (forall a, P a -> preserves (k a) Q) ->
  preserves (bind m k) Q.
Proof.
  intros Hm Hk effs H. unfold bind.
  destruct (Hm effs H) as [H1 H2].
  destruct (m effs) as [[a|] effs1]; cbn in *.
  - by apply Hk; [apply H2|].
  - by split.
Qed.

Lemma preserves_weaken {A} (m : M A) (P Q : A -> Prop) :
  preserves m P -> (forall a, P a -> Q a) -> preserves m Q.
Proof.
  intros Hm HPQ effs H. destruct (Hm effs H) as [H1 H2].
  split; [done|]. intros a Ha. by apply HPQ, H2.
Qed.

Lemma sentVars_app effs1 effs2 :
  sentVars (effs1 ++ effs2) = sentVars effs1 ++ sentVars effs2.
Proof. unfold sentVars. by rewrite flat_map_app. Qed.

Lemma preserves_send c migration :
  Forall nonTopology (MigVars migration) ->
  preserves (emit (EffSend c migration)) (fun _ => True).
Proof.
  intros Hm effs H. split; [|done]. cbn. rewrite sentVars_app.
  apply Forall_app. split; [done|]. cbn. by rewrite app_nil_r.
Qed.

Lemma preserves_quiet e :
  sentVars [e] = [] -> preserves (emit e) (fun _ => True).
Proof.
  intros He effs H. split; [|done]. cbn. rewrite sentVars_app, He.
  by rewrite app_nil_r.
Qed.

Lemma derefAll_app a b vs :
  derefAll (a ++ b) = Some vs ->
  exists va vb, derefAll a = Some va /\ derefAll b = Some vb /\ vs = va ++ vb.
Proof.
  revert vs. induction a as [|[x|] a IH]; intros vs H; cbn in *.
  - by exists [], vs.
  - destruct (derefAll (a ++ b)) as [w|] eqn:E; [|done].
    injection H as <-. destruct (IH w eq_refl) as (va & vb & -> & Hb & ->).
    by exists (x :: va), vb.
  - done.
Qed.

Lemma derefAll_Some l : derefAll (Some <$> l) = Some l.
Proof. induction l as [|x l IH]; [done|]. cbn. by rewrite IH. Qed.

Lemma flush_clean sb :
  cleanBatch sb -> preserves (flush sb) cleanBatch.
Proof.
  intros Hsb. unfold flush. destruct (vars sb) as [|v0 vs0] eqn:Ev.
  { by apply preserves_ret. }
  destruct (derefAll (v0 :: vs0)) as [vs|] eqn:Ed; [|apply preserves_panic].
  eapply preserves_bind.
  - apply preserves_send. cbn. apply Hsb. by rewrite Ev.
  - intros _ _. apply preserves_ret. intros vs' [= <-]. constructor.
Qed.

Lemma add_clean txnCap varCaps sb :
  cleanBatch sb ->
  (forall vs, derefAll varCaps = Some vs -> Forall nonTopology vs) ->
  preserves (add txnCap varCaps sb) cleanBatch.
Proof.
  intros Hsb Hv. unfold add.
  set (sb1 := mkSendBatch _ _ _ _ _).
  assert (H1 : cleanBatch sb1).
  { intros vs Hvs. cbn in Hvs.
    apply derefAll_app in Hvs as (va & vb & Ha & Hb & ->).
    apply Forall_app. split; [by apply Hsb|by apply Hv]. }
  destruct (Nat.eqb _ _); [by apply flush_clean|by apply preserves_ret].
Qed.

Section Iterator.

(** [cond.SatisfiedBy(it.topology, positions)], which is not among the
    sources: [None] is an error. *)
Variable SatisfiedBy : Cond -> list Z -> option bool.

Variable disk : Disk.

(** [filterVars]: [None] is an error; the early return [nil, nil] is the
    empty list. *)
Fixpoint filterVars (vUUIdBytes : VarUUId) (txnIdBytes : TxnId)
    (actions : list Action) (varCaps : list Var) : option (list Var) :=
  match actions with
  | [] => Some varCaps
  | action :: rest =>
      if isRead action then filterVars vUUIdBytes txnIdBytes rest varCaps
      else
        match Get disk (ActionVarId action) with
        | None => filterVars vUUIdBytes txnIdBytes rest varCaps
        | Some None => None
        | Some (Some varCap) =>
            if bytesLess (ActionVarId action) vUUIdBytes
               && bool_decide (txnIdBytes = WriteTxnId varCap)
            then Some []
            else filterVars vUUIdBytes txnIdBytes rest (varCaps ++ [varCap])
        end
  end.

(** The loop of [matchVarsAgainstCond] over [varCaps], appending to
    [result]. *)
Fixpoint matchLoop (cond : Cond) (varCaps : list Var)
    (result : list (option Var)) : option (list (option Var)) :=
  match varCaps with
  | [] => Some result
  | varCap :: rest =>
      match SatisfiedBy cond (Positions varCap) with
      | Some true => matchLoop cond rest (result ++ [Some varCap])
      | Some false => matchLoop cond rest result
      | None => None
      end
  end.

(** [result] starts as [make([]*msgs.Var, len(varCaps)>>1)]: a slice of
    that length, of nil entries. *)
Definition matchVarsAgainstCond (cond : Cond) (varCaps : list Var)
    : option (list (option Var)) :=
  matchLoop cond varCaps (replicate (Nat.div2 (length varCaps)) None).

(** The loop over [it.batch] for one transaction; [false] when
    [matchVarsAgainstCond] gave an error. *)
Fixpoint offer (txnCap : Txn) (varCaps : list Var) (batch : list sendBatch)
    : M (list sendBatch * bool) :=
  match batch with
  | [] => ret ([], true)
  | sb :: rest =>
      match matchVarsAgainstCond (cond sb) varCaps with
      | None => ret (sb :: rest, false)
      | Some [] =>
          r <- offer txnCap varCaps rest ;; ret (sb :: r.1, r.2)
      | Some matchingVarCaps =>
          sb1 <- add txnCap matchingVarCaps sb ;;
          r <- offer txnCap varCaps rest ;; ret (sb1 :: r.1, r.2)
      end
  end.

(** How the cursor loop ends: at the end of the table, or by [return nil],
    with or without an error set on the cursor. *)
Inductive ScanEnd :=
| EndOfTable
| Stopped (err : bool).

Fixpoint scan (records : list (VarUUId * option Var)) (batch : list sendBatch)
    : M (list sendBatch * ScanEnd) :=
  match records with
  | [] => ret (batch, EndOfTable)
  | (vUUIdBytes, varBytes) :: rest =>
      match varBytes with
      | None => ret (batch, Stopped true)
      | Some varCap =>
          if bool_decide (VarId varCap = TopologyVarUUId) then scan rest batch
          else
            let txnId := WriteTxnId varCap in
            match Txns disk txnId with
            | TxnMissing => ret (batch, Stopped false)
            | TxnCorrupt => ret (batch, Stopped true)
            | TxnStored txnCap =>
                match filterVars vUUIdBytes txnId (Actions txnCap) [] with
                | None => ret (batch, Stopped true)
                | Some [] => scan rest batch
                | Some varCaps =>
                    r <- offer txnCap varCaps batch ;;
                    if r.2 then scan rest r.1 else ret (r.1, Stopped true)
                end
            end
      end
  end.

Fixpoint flushAll (batch : list sendBatch) : M (list sendBatch) :=
  match batch with
  | [] => ret []
  | sb :: rest =>
      sb1 <- flush sb ;; rest1 <- flushAll rest ;; ret (sb1 :: rest1)
  end.

Definition iterate (batch : list sendBatch) : M (list sendBatch) :=
  r <- scan (Vars disk) batch ;;
  _ <- match r.2 with
       | Stopped true => emit EffLog
       | _ => ret tt
       end ;;
  batch1 <- flushAll r.1 ;;
  _ <- emit EffAddSender ;;
  ret batch1.

(** What the loop of [matchVarsAgainstCond] returns is [result] followed by
    some of the variables offered. *)
Lemma matchLoop_selects cond varCaps result matching :
  matchLoop cond varCaps result = Some matching ->
  exists selected, matching = result ++ (Some <$> selected)
                   /\ selected ⊆ varCaps.
Proof.
  revert result. induction varCaps as [|varCap rest IH]; intros result H.
  - injection H as <-. exists []. by rewrite app_nil_r.
  - cbn in H. destruct (SatisfiedBy cond (Positions varCap)) as [[|]|]; [| |done].
    + destruct (IH _ H) as (sel & -> & Hsel). exists (varCap :: sel).
      split; [by rewrite <- app_assoc|].
      intros x Hx. apply elem_of_cons in Hx as [->|Hx]; [by left|].
      right. by apply Hsel.
    + destruct (IH _ H) as (sel & -> & Hsel). exists sel.
      split; [done|]. intros x Hx. right. by apply Hsel.
Qed.

(** Of two or more variables, what [matchVarsAgainstCond] returns has a nil
    entry; of one, it is that variable or nothing. *)
Lemma matchVarsAgainstCond_clean cond varCaps matching :
  matchVarsAgainstCond cond varCaps = Some matching ->
  ((length varCaps <= 1)%nat -> Forall nonTopology varCaps) ->
  forall vs, derefAll matching = Some vs -> Forall nonTopology vs.
Proof.
  unfold matchVarsAgainstCond. intros H Hone vs Hvs.
  destruct (matchLoop_selects _ _ _ _ H) as (sel & -> & Hsel).
  apply derefAll_app in Hvs as (va & vb & Ha & Hb & ->).
  rewrite derefAll_Some in Hb. injection Hb as <-.
  destruct varCaps as [|x [|y rest]].
  - cbn in Ha. injection Ha as <-. cbn. apply Forall_forall. set_solver.
  - cbn in Ha. injection Ha as <-. cbn.
    specialize (Hone ltac:(cbn; lia)).
    apply Forall_forall. intros v Hv. rewrite Forall_forall in Hone.
    apply Hone. set_solver.
  - cbn in Ha. done.
Qed.

Lemma offer_clean txnCap varCaps batch :
  Forall cleanBatch batch ->
  ((length varCaps <= 1)%nat -> Forall nonTopology varCaps) ->
  preserves (offer txnCap varCaps batch) (fun r => Forall cleanBatch r.1).
Proof.
  intros Hb Hone. induction Hb as [|sb rest Hsb Hrest IH]; cbn [offer].
  { by apply preserves_ret. }
  destruct (matchVarsAgainstCond (cond sb) varCaps) as [matching|] eqn:Em.
  - pose proof (matchVarsAgainstCond_clean _ _ _ Em Hone) as Hm.
    destruct matching as [|m0 ms].
    + eapply preserves_bind; [exact IH|]. intros r Hr.
      apply preserves_ret. by constructor.
    + eapply preserves_bind; [by apply add_clean|]. intros sb1 Hsb1.
      eapply preserves_bind; [exact IH|]. intros r Hr.
      apply preserves_ret. by constructor.
  - apply preserves_ret. by constructor.
Qed.

(** When [filterVars] returns variables, the one read for each action that
    is not a read is among them. *)
Lemma filterVars_keeps vUUIdBytes txnIdBytes actions varCaps result :
  filterVars vUUIdBytes txnIdBytes actions varCaps = Some result ->
  result = []
  \/ (varCaps ⊆ result
      /\ forall action varCap, action ∈ actions -> isRead action = false ->
           Get disk (ActionVarId action) = Some (Some varCap) ->
           varCap ∈ result).
Proof.
  revert varCaps. induction actions as [|a rest IH]; intros varCaps H.
  - injection H as <-. right. split; [done|]. intros ?? Hin. set_solver.
  - cbn in H. destruct (isRead a) eqn:Er.
    { destruct (IH _ H) as [->|[Hsub Hall]]; [by left|]. right.
      split; [done|]. intros action varCap Hin Hr Hg.
      apply elem_of_cons in Hin as [->|Hin]; [congruence|by eapply Hall]. }
    destruct (Get disk (ActionVarId a)) as [[v|]|] eqn:Eg; [|done|].
    + destruct (_ && _); [injection H as <-; by left|].
      destruct (IH _ H) as [->|[Hsub Hall]]; [by left|]. right.
      split; [set_solver|]. intros action varCap Hin Hr Hg.
      apply elem_of_cons in Hin as [->|Hin]; [|by eapply Hall].
      rewrite Eg in Hg. injection Hg as <-. set_solver.
    + destruct (IH _ H) as [->|[Hsub Hall]]; [by left|]. right.
      split; [done|]. intros action varCap Hin Hr Hg.
      apply elem_of_cons in Hin as [->|Hin]; [congruence|by eapply Hall].
Qed.

Lemma lookupVar_NoDup records key varBytes :
  NoDup records.*1 -> (key, varBytes) ∈ records ->
  lookupVar records key = Some varBytes.
Proof.
  induction records as [|[k v] rest IH]; intros Hnd Hin; [set_solver|].
  cbn in *. apply NoDup_cons in Hnd as [Hk Hnd].
  apply elem_of_cons in Hin as [[= <- <-]|Hin].
  - by rewrite bool_decide_eq_true_2.
  - rewrite bool_decide_eq_false_2; [by apply IH|].
    intros ->. apply Hk. apply list_elem_of_fmap. by exists (key, varBytes).
Qed.

Lemma writes_action txnCap key :
  writes txnCap key = true ->
  exists action, action ∈ Actions txnCap /\ ActionVarId action = key
                 /\ isRead action = false.
Proof.
  unfold writes. intros H. apply existsb_exists in H as (a & Hin & Ha).
  apply andb_true_iff in Ha as [Hk Hr]. apply bool_decide_eq_true in Hk.
  apply negb_true_iff in Hr. exists a. by rewrite list_elem_of_In.
Qed.

(** On a consistent disk, a single variable kept for a record of the table
    is that record's variable. *)
Lemma filterVars_single key varCap txnCap kept :
  consistent disk = true ->
  (key, Some varCap) ∈ Vars disk ->
  Txns disk (WriteTxnId varCap) = TxnStored txnCap ->
  filterVars key (WriteTxnId varCap) (Actions txnCap) [] = Some [kept] ->
  kept = varCap.
Proof.
  intros Hc Hin Ht Hf. apply andb_true_iff in Hc as [Hnd Hw].
  apply bool_decide_eq_true in Hnd. rewrite forallb_forall in Hw.
  specialize (Hw (key, Some varCap)). cbn in Hw. rewrite Ht in Hw.
  destruct (writes_action txnCap key) as (a & Ha & Hk & Hr).
  { apply Hw. by rewrite <- list_elem_of_In. }
  destruct (filterVars_keeps _ _ _ _ _ Hf) as [?|[_ Hall]]; [done|].
  symmetry. apply list_elem_of_singleton.
  apply (Hall a); [done|done|]. rewrite Hk. by apply lookupVar_NoDup.
Qed.

Lemma scan_clean records batch :
  consistent disk = true -> records ⊆ Vars disk ->
  Forall cleanBatch batch ->
  preserves (scan records batch) (fun r => Forall cleanBatch r.1).
Proof.
  intros Hc. revert batch.
  induction records as [|[key [varCap|]] rest IH]; intros batch Hsub Hb;
    cbn [scan]; try by apply preserves_ret.
  assert (Hrest : rest ⊆ Vars disk) by set_solver.
  case_bool_decide as Ht; [by apply IH|].
  destruct (Txns disk (WriteTxnId varCap)) as [| |txnCap] eqn:Etxn;
    try by apply preserves_ret.
  destruct (filterVars _ _ _ _) as [[|kept more]|] eqn:Ef;
    [by apply IH| |by apply preserves_ret].
  eapply preserves_bind.
  - apply offer_clean; [done|]. intros Hlen.
    destruct more; [|cbn in Hlen; lia].
    assert (kept = varCap) as ->.
    { eapply filterVars_single; [done| |done|done]. set_solver. }
    by constructor.
  - intros r Hr. destruct (r.2); [by apply IH|by apply preserves_ret].
Qed.

Lemma flushAll_clean batch :
  Forall cleanBatch batch -> preserves (flushAll batch) (fun _ => True).
Proof.
  induction 1 as [|sb rest Hsb Hrest IH]; cbn [flushAll].
  { by apply preserves_ret. }
  eapply preserves_bind; [by apply flush_clean|]. intros sb1 _.
  eapply preserves_bind; [exact IH|]. intros rest1 _. by apply preserves_ret.
Qed.

Lemma iterate_clean batch :
  consistent disk = true -> Forall cleanBatch batch ->
  preserves (iterate batch) (fun _ => True).
Proof.
  intros Hc Hb. unfold iterate.
  eapply preserves_bind; [by apply scan_clean|]. intros r Hr.
  eapply preserves_bind.
  { instantiate (1 := fun _ => True).
    destruct (r.2) as [|[|]]; [by apply preserves_ret| |by apply preserves_ret].
    by apply preserves_quiet. }
  intros _ _. eapply preserves_bind; [by apply flushAll_clean|]. intros b1 _.
  eapply preserves_bind; [by apply (preserves_quiet EffAddSender)|].
  intros _ _. by apply preserves_ret.
Qed.

(** The cursor loop passes over the records of the topology variable. *)
Lemma scan_skips records :
  forall batch effs,
    scan records batch effs
    = scan (List.filter (fun r => negb (isTopologyRecord r)) records) batch effs.
Proof.
  induction records as [|[key [varCap|]] rest IH]; intros batch effs;
    [done| |done].
  cbn [List.filter scan]. unfold isTopologyRecord at 1. cbn [snd].
  destruct (bool_decide (VarId varCap = TopologyVarUUId)) eqn:Ht; cbn [negb];
    [by apply IH|].
  cbn [scan]. rewrite Ht.
  destruct (Txns disk (WriteTxnId varCap)) as [| |txnCap]; try done.
  destruct (filterVars _ _ _ _) as [[|kept more]|]; [by apply IH| |done].
  unfold bind. destruct (offer _ _ _ _) as [[r|] effs1]; [|done].
  destruct (r.2); [by apply IH|done].
Qed.

End Iterator.

(** C10.  The cursor loop of [dbIterator.iterate] passes over every record
    that holds the topology variable: the scan of the table is the scan of
    the table without those records.  And on a consistent disk no migration
    that [iterate] sends, from batches made by [newBatch], has the topology
    variable among its vars, whether [iterate] returns or panics. *)
Theorem iterate_never_sends_topology SatisfiedBy disk nextVersion targets :
  consistent disk = true ->
  (forall batch effs,
     scan SatisfiedBy disk (Vars disk) batch effs
     = scan SatisfiedBy disk
         (List.filter (fun r => negb (isTopologyRecord r)) (Vars disk))
         batch effs)
  /\ Forall nonTopology
       (sentVars (iterate SatisfiedBy disk (newBatch nextVersion <$> targets)
                          []).2).
Proof.
  intros Hc. split; [apply scan_skips|].
  refine (proj1 (iterate_clean SatisfiedBy disk _ Hc _ [] _)).
  - apply Forall_fmap, Forall_forall. intros target _ vs [= <-]. constructor.
  - constructor.
Qed.

(** *** A disk with the topology variable and one other variable *)

Definition xId : VarUUId := repeat 1 16.
Definition yId : VarUUId := repeat 2 16.
Definition txn0 : TxnId := repeat 0 20.
Definition txn1 : TxnId := repeat 1 20.

Definition writeTxn (id : TxnId) (keys : list VarUUId) : Txn :=
  mkTxn id 0 0 ((fun key => mkAction key (ActionWrite [] [])) <$> keys) [] 1 0.

Definition topologyVar : Var := mkVar TopologyVarUUId [] txn0.
Definition xVar : Var := mkVar xId [0] txn1.
Definition yVar : Var := mkVar yId [0] txn1.

(** The transaction [txn0] wrote the topology variable, and [txn1] the
    variables [keys]. *)
Definition txnsOf (keys : list VarUUId) (id : TxnId) : TxnRead :=
  if bool_decide (id = txn0) then TxnStored (writeTxn txn0 [TopologyVarUUId])
  else if bool_decide (id = txn1) then TxnStored (writeTxn txn1 keys)
  else TxnMissing.

Definition oneVarDisk : Disk :=
  mkDisk [(TopologyVarUUId, Some topologyVar); (xId, Some xVar)] (txnsOf [xId]).

Definition everywhere (cond : Cond) (positions : list Z) : option bool :=
  Some true.

Definition toRM2 : list (Z * Cond) :=
  [(2, CondGenerator (mkGenerator 2 1 0 1 [] true))].

(** The variable is sent, at the flush that ends the scan; the topology
    variable is not. *)
Example iterate_sends_variable :
  iterate everywhere oneVarDisk (newBatch 2 <$> toRM2) []
  = (Some (newBatch 2 <$> toRM2),
     [EffSend 2 (mkMigration 2 [writeTxn txn1 [xId]] [xVar]); EffAddSender]).
Proof. vm_compute. reflexivity. Qed.

Lemma iterate_never_sends_topology_witness :
  consistent oneVarDisk = true
  /\ Forall nonTopology
       (sentVars (iterate everywhere oneVarDisk (newBatch 2 <$> toRM2) []).2).
Proof.
  assert (Hc : consistent oneVarDisk = true) by (vm_compute; reflexivity).
  split; [exact Hc|].
  exact (proj2 (iterate_never_sends_topology everywhere oneVarDisk 2 toRM2 Hc)).
Defined.

(** A transaction that wrote two variables of the table: what
    [matchVarsAgainstCond] returns starts with a nil entry, and the flush
    panics before anything is sent. *)
Definition twoVarDisk : Disk :=
  mkDisk [(TopologyVarUUId, Some topologyVar); (xId, Some xVar); (yId, Some yVar)]
         (txnsOf [xId; yId]).

Example iterate_two_variables_panics :
  consistent twoVarDisk = true
  /\ matchVarsAgainstCond everywhere (CondGenerator (mkGenerator 2 1 0 1 [] true))
       [xVar; yVar] = Some [None; Some xVar; Some yVar]
  /\ iterate everywhere twoVarDisk (newBatch 2 <$> toRM2) [] = (None, []).
Proof. vm_compute. by split_and!. Qed.

(** What consistency is for: were the transaction named by the record of
    [xId] one that wrote the topology variable only, [filterVars] would
    keep the topology variable and it would be sent. *)
Definition strayDisk : Disk :=
  mkDisk [(TopologyVarUUId, Some topologyVar); (xId, Some xVar)]
         (txnsOf [TopologyVarUUId]).

Example iterate_on_inconsistent_disk :
  consistent strayDisk = false
  /\ sentVars (iterate everywhere strayDisk (newBatch 2 <$> toRM2) []).2
     = [topologyVar].
Proof. vm_compute. by split. Qed.

End Emigrator.

(** ** The resubmission schedule as a whole

    Properties of the back-off of [ClientTxnSubmitter.SubmitClientTransaction]
    over every run of aborts and every random source. *)

Module Schedule.

Import ClientTxnSubmitter.

Lemma backoff_range rng rc d pos d' pos' :
  0 <= d <= SubmissionMaxSubmitDelay ->
  backoff rng rc d pos = Some (d', pos') ->
  0 <= d' <= SubmissionMaxSubmitDelay.
Proof.
  intros Hd. unfold backoff.
  destruct (rc =? SubmissionInitialAttempts).
  { intros [= <- <-]. unfold SubmissionInitialBackoff, SubmissionMaxSubmitDelay,
      Microsecond, Second. lia. }
  destruct (SubmissionInitialAttempts <? rc); [|by intros [= <- <-]].
  destruct (Intn rng d pos) as [[j pos1]|] eqn:Ej; [|done].
  apply Intn_range in Ej.
  destruct (SubmissionMaxSubmitDelay <? d + j) eqn:Hcap.
  - intros Hr. apply Intn_range in Hr. lia.
  - apply Z.ltb_ge in Hcap. intros [= <- <-]. lia.
Qed.

Lemma afterAborts_range rng n st :
  afterAborts rng n = Some st -> 0 <= delay st <= SubmissionMaxSubmitDelay.
Proof.
  revert st. induction n as [|n IH]; intros st.
  - intros [= <-]. cbn. unfold SubmissionMaxSubmitDelay, Second. lia.
  - cbn [afterAborts]. destruct (afterAborts rng n) as [st0|]; [|done].
    specialize (IH st0 eq_refl). unfold resubmit.
    destruct (backoff rng (retryCount st0 + 1) (delay st0) (drawn st0))
      as [[d pos]|] eqn:Eb; [|done].
    pose proof (backoff_range _ _ _ _ _ _ IH Eb).
    destruct (Intn rng 8 pos) as [[? pos1]|]; [|done].
    by intros [= <-].
Qed.

(** Whatever the random source draws and however often the transaction
    aborts, a submission that is made is made with a delay between 0 and
    [SubmissionMaxSubmitDelay]. *)
Theorem delay_within_cap rng n st :
  afterAborts rng n = Some st ->
  0 <= delay st <= SubmissionMaxSubmitDelay.
Proof.
  revert st. induction n as [|n IH]; intros st.
  - intros [= <-]. cbn. unfold SubmissionMaxSubmitDelay, Second. lia.
  - cbn [afterAborts]. destruct (afterAborts rng n) as [st0|]; [|done].
    specialize (IH st0 eq_refl). unfold resubmit.
    destruct (backoff rng (retryCount st0 + 1) (delay st0) (drawn st0))
      as [[d pos]|] eqn:Eb; [|done].
    pose proof (backoff_range _ _ _ _ _ _ IH Eb) as Hd.
    destruct (Intn rng 8 pos) as [[? pos1]|]; [|done].
    by intros [= <-].
Qed.

Definition steady (pos : nat) : Z := 3.

Lemma delay_within_cap_witness :
  afterAborts steady 7 = Some (mkRetry 2006 7 9)
  /\ 0 <= 2006 <= SubmissionMaxSubmitDelay.
Proof.
  assert (H : afterAborts steady 7 = Some (mkRetry 2006 7 9))
    by (vm_compute; reflexivity).
  split; [exact H|]. exact (delay_within_cap steady 7 _ H).
Defined.

(** The continuation panics on a resubmission exactly when five or more
    resubmissions have been made and the last one was made with delay 0:
    then, and only then, [rng.Intn] is called with 0. *)
Theorem resubmit_panics_iff_zero_delay rng n st :
  afterAborts rng n = Some st ->
  (resubmit rng st = None <-> (5 <= n)%nat /\ delay st = 0).
Proof.
  intros Hst. pose proof (afterAborts_range _ _ _ Hst) as Hd.
  pose proof (afterAborts_retryCount rng n st Hst) as Hc.
  unfold resubmit, backoff, SubmissionInitialAttempts. rewrite Hc.
  destruct (Z.of_nat n + 1 =? 5) eqn:E5.
  { apply Z.eqb_eq in E5. cbn. split; [done|]. intros [Hn _]. lia. }
  apply Z.eqb_neq in E5.
  destruct (5 <? Z.of_nat n + 1) eqn:Elt.
  - apply Z.ltb_lt in Elt. unfold Intn at 1.
    destruct (delay st <=? 0) eqn:Ez.
    + apply Z.leb_le in Ez. split; [|done]. intros _. split; lia.
    + apply Z.leb_gt in Ez.
      destruct (SubmissionMaxSubmitDelay <? _).
      * unfold Intn at 1. cbn. split; [done|]. intros [_ H0]. lia.
      * cbn. split; [done|]. intros [_ H0]. lia.
  - apply Z.ltb_ge in Elt. cbn. split; [done|]. intros [Hn _]. lia.
Qed.

Lemma resubmit_panics_iff_zero_delay_witness :
  afterAborts zeroAtCap 25 = Some (mkRetry 0 25 46)
  /\ resubmit zeroAtCap (mkRetry 0 25 46) = None.
Proof.
  assert (H : afterAborts zeroAtCap 25 = Some (mkRetry 0 25 46))
    by (vm_compute; reflexivity).
  split; [exact H|].
  apply (proj2 (resubmit_panics_iff_zero_delay zeroAtCap 25 _ H)).
  split; [lia|reflexivity].
Defined.

End Schedule.

(** ** What the emigrator sends, and when it finishes

    Invariants of [sendBatch.add], [sendBatch.flush] and [dbIterator.iterate]
    over every disk, beyond the topology variable. *)

Module Batches.

Import Msgs Emigrator.

(** [m] keeps [I] of what has been done so far, and what it returns
    satisfies [post]. *)
Definition keeps {A} (I : list Effect -> Prop) (m : M A) (post : A -> Prop)
    : Prop :=
  forall effs, I effs ->
    I (m effs).2 /\ forall a, (m effs).1 = Some a -> post a.

Lemma keeps_ret {A} I (a : A) (post : A -> Prop) :
  post a -> keeps I (ret a) post.
Proof. intros Ha effs H. split; [done|]. by intros ? [= <-]. Qed.

Lemma keeps_panic {A} I (post : A -> Prop) : keeps I panic post.
Proof. intros effs H. by split. Qed.

Lemma keeps_bind {A B} I (m : M A) (k : A -> M B) P Q :
  keeps I m P -> (forall a, P a -> keeps I (k a) Q) -> keeps I (bind m k) Q.
Proof.
  intros Hm Hk effs H. unfold bind.
  destruct (Hm effs H) as [H1 H2].
  destruct (m effs) as [[a|] effs1]; cbn in *.
  - by apply Hk; [apply H2|].
  - by split.
Qed.

Lemma keeps_emit (P : Effect -> Prop) e :
  P e -> keeps (Forall P) (emit e) (fun _ => True).
Proof.
  intros He effs H. split; [|done]. cbn. apply Forall_app. split; [done|].
  by constructor.
Qed.

Lemma bind_run {A B} (m : M A) (k : A -> M B) effs :
  bind m k effs
  = match m effs with
    | (Some a, effs1) => k a effs1
    | (None, effs1) => (None, effs1)
    end.
Proof. reflexivity. Qed.

Lemma derefAll_length varCaps vs :
  derefAll varCaps = Some vs -> length vs = length varCaps.
Proof.
  revert vs. induction varCaps as [|[x|] rest IH]; intros vs; cbn.
  - by intros [= <-].
  - destruct (derefAll rest) as [w|]; [|done]. intros [= <-]. cbn.
    by rewrite (IH w).
  - done.
Qed.

Section Sending.

Variable SatisfiedBy : Cond -> list Z -> option bool.
Variable disk : Disk.

(** The batches [iterate] starts from. *)
Variable init : list sendBatch.

Definition emptied (sb : sendBatch) : sendBatch :=
  mkSendBatch (version sb) (conn sb) (cond sb) [] [].

(** A migration that is sent has a variable, has between 1 and
    [sendBatchTxnCount] transactions, and goes with the version of one of
    the batches to the connection of that batch. *)
Definition wellSent (e : Effect) : Prop :=
  match e with
  | EffSend c migration =>
      MigVars migration <> []
      /\ (1 <= length (MigTxns migration) <= sendBatchTxnCount)%nat
      /\ exists i, i ∈ init /\ c = conn i /\ MigVersion migration = version i
  | EffLog => True
  | EffAddSender => False
  end.

(** The batch [sb] between two calls, as it descends from [i]. *)
Definition tracks (i sb : sendBatch) : Prop :=
  i ∈ init
  /\ version sb = version i /\ conn sb = conn i /\ cond sb = cond i
  /\ (length (txns sb) < sendBatchTxnCount)%nat
  /\ (vars sb = [] <-> txns sb = []).

Lemma flush_tracks i sb :
  i ∈ init ->
  version sb = version i -> conn sb = conn i -> cond sb = cond i ->
  (length (txns sb) <= sendBatchTxnCount)%nat ->
  (vars sb <> [] -> txns sb <> []) ->
  (vars sb = [] -> tracks i sb) ->
  keeps (Forall wellSent) (flush sb) (tracks i).
Proof.
  intros Hi Hv Hc Hd Hlen Hne Hempty. unfold flush.
  destruct (vars sb) as [|v0 vs0] eqn:Ev.
  { apply keeps_ret. by apply Hempty. }
  destruct (derefAll (v0 :: vs0)) as [vs|] eqn:Ed; [|apply keeps_panic].
  eapply keeps_bind.
  - apply keeps_emit. cbn. split_and!.
    + apply derefAll_length in Ed. destruct vs; [done|done].
    + destruct (txns sb) eqn:Et; [by destruct Hne|]. cbn. lia.
    + done.
    + by exists i.
  - intros _ _. apply keeps_ret. unfold tracks. cbn.
    unfold sendBatchTxnCount. split_and!; try done. lia.
Qed.

Lemma add_tracks i txnCap varCaps sb :
  varCaps <> [] -> tracks i sb ->
  keeps (Forall wellSent) (add txnCap varCaps sb) (tracks i).
Proof.
  intros Hne (Hi & Hv & Hc & Hd & Hlen & Hiff). unfold add.
  set (sb1 := mkSendBatch _ _ _ _ _).
  assert (Hl1 : length (txns sb1) = S (length (txns sb))).
  { cbn. rewrite length_app. cbn. lia. }
  assert (Hv1 : vars sb1 <> []).
  { cbn. intros E. apply app_eq_nil in E as [_ E]. done. }
  assert (Ht1 : txns sb1 <> []).
  { cbn. intros E. apply app_eq_nil in E as [_ E]. done. }
  destruct (Nat.eqb _ _) eqn:E64.
  - apply flush_tracks; try done. lia.
  - apply Nat.eqb_neq in E64. apply keeps_ret.
    unfold tracks. split_and!; try done. lia.
Qed.

Lemma offer_tracks txnCap varCaps origins batch :
  Forall2 tracks origins batch ->
  keeps (Forall wellSent) (offer SatisfiedBy txnCap varCaps batch)
        (fun r => Forall2 tracks origins r.1).
Proof.
  induction 1 as [|i sb origins rest Hsb Hrest IH]; cbn [offer].
  { by apply keeps_ret. }
  destruct (matchVarsAgainstCond SatisfiedBy (cond sb) varCaps)
    as [[|m0 ms]|].
  - eapply keeps_bind; [exact IH|]. intros r Hr.
    apply keeps_ret. by constructor.
  - eapply keeps_bind; [by apply add_tracks|]. intros sb1 Hsb1.
    eapply keeps_bind; [exact IH|]. intros r Hr.
    apply keeps_ret. by constructor.
  - apply keeps_ret. by constructor.
Qed.

Lemma scan_tracks records : forall batch,
  Forall2 tracks init batch ->
  keeps (Forall wellSent) (scan SatisfiedBy disk records batch)
        (fun r => Forall2 tracks init r.1).
Proof.
  induction records as [|[key [varCap|]] rest IH]; intros batch Hb;
    cbn [scan]; try by apply keeps_ret.
  case_bool_decide as Ht; [by apply IH|].
  destruct (Txns disk (WriteTxnId varCap)) as [| |txnCap];
    try by apply keeps_ret.
  destruct (filterVars _ _ _ _ _) as [[|kept more]|];
    [by apply IH| |by apply keeps_ret].
  eapply keeps_bind; [by apply offer_tracks|].
  intros r Hr. destruct (r.2); [by apply IH|by apply keeps_ret].
Qed.

Lemma flushAll_tracks origins batch :
  Forall2 tracks origins batch ->
  keeps (Forall wellSent) (flushAll batch) (fun r => r = emptied <$> origins).
Proof.
  induction 1 as [|i sb origins rest Hsb Hrest IH]; cbn [flushAll].
  { by apply keeps_ret. }
  destruct Hsb as (Hi & Hv & Hc & Hd & Hlen & Hiff).
  eapply keeps_bind with (P := fun sb1 => sb1 = emptied i).
  - intros effs H. unfold flush.
    destruct (vars sb) as [|v0 vs0] eqn:Ev.
    + split; [done|]. intros a [= <-]. destruct sb as [v c d vs ts].
      cbn in *. subst. by rewrite (proj1 Hiff eq_refl).
    + assert (Hfl : keeps (Forall wellSent) (flush sb) (tracks i)).
      { apply flush_tracks; try done; [lia| |by rewrite Ev].
        intros _ E. apply Hiff in E. congruence. }
      specialize (Hfl effs H). unfold flush in Hfl. rewrite Ev in Hfl.
      destruct (derefAll (v0 :: vs0)) as [vs|]; [|by split].
      split; [apply Hfl|]. cbn. intros a [= <-]. unfold emptied.
      by rewrite Hv, Hc, Hd.
  - intros sb1 ->. eapply keeps_bind; [exact IH|]. intros rest1 ->.
    by apply keeps_ret.
Qed.

(** [iterate] from batches that track [init]: what it does before it
    registers as a sender is well sent, and it registers, last, exactly
    when it returns, with the batches emptied. *)
Lemma iterate_tracks batch :
  Forall2 tracks init batch ->
  exists sent, Forall wellSent sent
    /\ ((iterate SatisfiedBy disk batch [] = (None, sent))
        \/ (iterate SatisfiedBy disk batch []
            = (Some (emptied <$> init), sent ++ [EffAddSender]))).
Proof.
  intros Hb. unfold iterate.
  destruct (scan_tracks (Vars disk) batch Hb [] (List.Forall_nil _)) as [H1 H2].
  rewrite bind_run.
  destruct (scan SatisfiedBy disk (Vars disk) batch []) as [[r|] effs1];
    cbn [fst snd] in *; [|by exists effs1; split; [|left]].
  specialize (H2 r eq_refl). rewrite bind_run.
  assert (Hlog : exists effs2,
            match r.2 with Stopped true => emit EffLog | _ => ret tt end effs1
            = (Some tt, effs2) /\ Forall wellSent effs2).
  { destruct (r.2) as [|[|]]; cbn; eauto.
    eexists. split; [done|]. apply Forall_app. split; [done|].
    by constructor. }
  destruct Hlog as (effs2 & -> & H3). rewrite bind_run.
  destruct (flushAll_tracks init r.1 H2 effs2 H3) as [H4 H5].
  destruct (flushAll r.1 effs2) as [[b1|] effs3]; cbn [fst snd] in *;
    [|by exists effs3; split; [|left]].
  rewrite (H5 b1 eq_refl). exists effs3. split; [done|]. by right.
Qed.

End Sending.

Lemma newBatch_tracks nextVersion targets :
  Forall2 (tracks (newBatch nextVersion <$> targets))
          (newBatch nextVersion <$> targets) (newBatch nextVersion <$> targets).
Proof.
  apply Forall2_same_length_lookup_2; [done|].
  intros k i sb Hi Hsb. rewrite Hi in Hsb. injection Hsb as <-.
  apply list_elem_of_lookup_2 in Hi as Hin.
  apply list_elem_of_fmap in Hin as (target & -> & _).
  unfold tracks. cbn. unfold sendBatchTxnCount. split_and!; try done.
  - by eapply list_elem_of_lookup_2.
  - lia.
Qed.

(** Every migration [iterate] sends, from batches made by [newBatch], has
    at least one variable and between 1 and [sendBatchTxnCount]
    transactions, whatever is on the disk and whether [iterate] returns or
    panics. *)
Theorem sent_migrations_bounded SatisfiedBy disk nextVersion targets :
  Forall (fun e => match e with
                   | EffSend _ migration =>
                       MigVars migration <> []
                       /\ (1 <= length (MigTxns migration)
                           <= sendBatchTxnCount)%nat
                   | _ => True
                   end)
         (iterate SatisfiedBy disk (newBatch nextVersion <$> targets) []).2.
Proof.
  destruct (iterate_tracks SatisfiedBy disk _ _
              (newBatch_tracks nextVersion targets)) as (sent & Hs & [->| ->]);
    cbn [snd]; [|apply Forall_app; split; [|by repeat constructor]];
    (eapply Forall_impl; [exact Hs|]); intros [c m| |]; cbn; tauto.
Qed.

(** Every migration [iterate] sends carries the version the batches were
    made with, and goes to the connection of one of the targets. *)
Theorem migrations_go_to_targets SatisfiedBy disk nextVersion targets :
  Forall (fun e => match e with
                   | EffSend c migration =>
                       MigVersion migration = nextVersion
                       /\ exists target, target ∈ targets /\ c = target.1
                   | _ => True
                   end)
         (iterate SatisfiedBy disk (newBatch nextVersion <$> targets) []).2.
Proof.
  assert (Himp : forall e,
    wellSent (newBatch nextVersion <$> targets) e ->
    match e with
    | EffSend c migration =>
        MigVersion migration = nextVersion
        /\ exists target, target ∈ targets /\ c = target.1
    | _ => True
    end).
  { intros [c m| |]; cbn; [|done|done].
    intros (_ & _ & i & Hi & -> & ->).
    apply list_elem_of_fmap in Hi as (target & -> & Ht). cbn. eauto. }
  destruct (iterate_tracks SatisfiedBy disk _ _
              (newBatch_tracks nextVersion targets)) as (sent & Hs & [->| ->]);
    cbn [snd]; [|apply Forall_app; split; [|by repeat constructor]];
    (eapply Forall_impl; [exact Hs|exact Himp]).
Qed.

(** [iterate] registers the iterator as a sender last, and only when it
    returns: then every batch has been flushed and is empty again, and
    nothing is sent afterwards.  When it panics it has not registered. *)
Theorem iterate_registers_last SatisfiedBy disk nextVersion targets :
  match iterate SatisfiedBy disk (newBatch nextVersion <$> targets) [] with
  | (Some batch1, effs) =>
      batch1 = newBatch nextVersion <$> targets
      /\ exists sent, effs = sent ++ [EffAddSender] /\ EffAddSender ∉ sent
  | (None, effs) => EffAddSender ∉ effs
  end.
Proof.
  assert (Hno : forall sent,
    Forall (wellSent (newBatch nextVersion <$> targets)) sent ->
    EffAddSender ∉ sent).
  { intros sent Hs Hin. rewrite Forall_forall in Hs. exact (Hs _ Hin). }
  destruct (iterate_tracks SatisfiedBy disk _ _
              (newBatch_tracks nextVersion targets)) as (sent & Hs & [->| ->]).
  - by apply Hno.
  - split.
    + rewrite <- list_fmap_compose. apply list_fmap_ext. by intros ? [c d].
    + exists sent. split; [done|]. by apply Hno.
Qed.

(** *** [filterVars] *)

Lemma filterVars_written disk key txnId actions : forall varCaps result,
  filterVars disk key txnId actions varCaps = Some result ->
  (length result <= length varCaps + length actions)%nat
  /\ forall varCap, varCap ∈ result ->
       varCap ∈ varCaps
       \/ exists action, action ∈ actions /\ isRead action = false
            /\ Get disk (ActionVarId action) = Some (Some varCap).
Proof.
  induction actions as [|a rest IH]; intros varCaps result H.
  - injection H as <-. split; [cbn; lia|]. by left.
  - cbn [filterVars] in H.
    assert (Hrest : forall acc,
      filterVars disk key txnId rest acc = Some result ->
      (forall v, v ∈ acc -> v ∈ varCaps
         \/ (isRead a = false /\ Get disk (ActionVarId a) = Some (Some v))) ->
      (length acc <= S (length varCaps))%nat ->
      (length result <= length varCaps + length (a :: rest))%nat
      /\ forall varCap, varCap ∈ result ->
           varCap ∈ varCaps
           \/ exists action, action ∈ a :: rest /\ isRead action = false
                /\ Get disk (ActionVarId action) = Some (Some varCap)).
    { intros acc Hf Hacc Hlen. destruct (IH _ _ Hf) as [Hl Hin].
      split; [cbn; lia|]. intros v Hv.
      destruct (Hin v Hv) as [Hv'|(b & Hb & Hr & Hg)].
      - destruct (Hacc v Hv') as [?|[Hr Hg]]; [by left|].
        right. exists a. split; [by left|done].
      - right. exists b. split; [by right|done]. }
    destruct (isRead a) eqn:Er.
    { apply (Hrest varCaps H); [by left|lia]. }
    destruct (Get disk (ActionVarId a)) as [[v|]|] eqn:Eg; [|done|].
    + destruct (_ && _).
      { injection H as <-. split; [cbn; lia|]. intros ? Hin.
        by apply elem_of_nil in Hin. }
      apply (Hrest _ H).
      * intros w Hw. apply elem_of_app in Hw as [Hw|Hw]; [by left|].
        apply list_elem_of_singleton in Hw as ->. by right.
      * rewrite length_app. cbn. lia.
    + apply (Hrest varCaps H); [by left|lia].
Qed.

(** [filterVars] keeps no more variables than the transaction has actions,
    and each one it keeps is what the disk holds for the variable of an
    action that is not a read. *)
Theorem filterVars_keeps_only_written disk key txnId actions result :
  filterVars disk key txnId actions [] = Some result ->
  (length result <= length actions)%nat
  /\ forall varCap, varCap ∈ result ->
       exists action, action ∈ actions /\ isRead action = false
         /\ Get disk (ActionVarId action) = Some (Some varCap).
Proof.
  intros H. destruct (filterVars_written _ _ _ _ _ _ H) as [Hl Hin].
  split; [exact Hl|]. intros v Hv.
  destruct (Hin v Hv) as [Hn|Hex]; [by apply elem_of_nil in Hn|exact Hex].
Qed.

Lemma filterVars_keeps_only_written_witness :
  filterVars oneVarDisk xId txn1 (Actions (writeTxn txn1 [xId])) [] = Some [xVar]
  /\ (length [xVar] <= length (Actions (writeTxn txn1 [xId])))%nat.
Proof.
  assert (H : filterVars oneVarDisk xId txn1 (Actions (writeTxn txn1 [xId])) []
              = Some [xVar]) by (vm_compute; reflexivity).
  split; [exact H|].
  exact (proj1 (filterVars_keeps_only_written oneVarDisk xId txn1 _ _ H)).
Defined.

(** A transaction is handled at the first of its variables: at a record
    whose writing transaction also acted, other than by a read, on a
    stored variable with a smaller key that it was the last to write,
    [filterVars] keeps nothing (or fails on an earlier action). *)
Theorem filterVars_already_done disk key txnId actions action varCap :
  action ∈ actions -> isRead action = false ->
  Get disk (ActionVarId action) = Some (Some varCap) ->
  bytesLess (ActionVarId action) key = true ->
  WriteTxnId varCap = txnId ->
  filterVars disk key txnId actions [] = None
  \/ filterVars disk key txnId actions [] = Some [].
Proof.
  intros Hin Hr Hg Hlt Hw.
  enough (H : forall acc, filterVars disk key txnId actions acc = None
                          \/ filterVars disk key txnId actions acc = Some [])
    by apply H.
  induction actions as [|a rest IH]; intros acc.
  { by apply elem_of_nil in Hin. }
  cbn [filterVars].
  apply elem_of_cons in Hin as [<-|Hin].
  - rewrite Hr, Hg, Hlt, Hw. rewrite bool_decide_eq_true_2 by done. by right.
  - destruct (isRead a); [by apply IH|].
    destruct (Get disk (ActionVarId a)) as [[v|]|]; [|by left|by apply IH].
    destruct (_ && _); [by right|by apply IH].
Qed.

Lemma filterVars_already_done_witness :
  filterVars twoVarDisk yId txn1 (Actions (writeTxn txn1 [xId; yId])) [] = None
  \/ filterVars twoVarDisk yId txn1 (Actions (writeTxn txn1 [xId; yId])) []
     = Some [].
Proof.
  apply (filterVars_already_done twoVarDisk yId txn1 _
           (mkAction xId (ActionWrite [] [])) xVar).
  - vm_compute. by left.
  - reflexivity.
  - vm_compute. reflexivity.
  - vm_compute. reflexivity.
  - reflexivity.
Defined.

(** *** The nil entries of [matchVarsAgainstCond] *)

(** A batch with a nil entry among its variables. *)
Definition hasNil (sb : sendBatch) : Prop := derefAll (vars sb) = None.

Lemma derefAll_app_None a b : derefAll a = None -> derefAll (a ++ b) = None.
Proof.
  induction a as [|[x|] a IH]; cbn; [done| |done].
  destruct (derefAll a); [done|]. intros _. by rewrite IH.
Qed.

Lemma derefAll_app_None_r a b : derefAll b = None -> derefAll (a ++ b) = None.
Proof.
  intros Hb. induction a as [|[x|] a IH]; cbn; [done| |done]. by rewrite IH.
Qed.

Lemma flush_hasNil sb effs : hasNil sb -> (flush sb effs).1 = None.
Proof.
  unfold hasNil, flush. destruct (vars sb) as [|v0 vs0]; [done|].
  by intros ->.
Qed.

Lemma add_hasNil txnCap varCaps sb :
  hasNil sb \/ derefAll varCaps = None ->
  keeps (fun _ => True) (add txnCap varCaps sb) hasNil.
Proof.
  intros H effs _. split; [done|]. unfold add.
  set (sb1 := mkSendBatch _ _ _ _ _).
  assert (H1 : hasNil sb1).
  { unfold hasNil. cbn.
    destruct H; [by apply derefAll_app_None|by apply derefAll_app_None_r]. }
  destruct (Nat.eqb _ _).
  - intros a Ha. by rewrite flush_hasNil in Ha.
  - by intros a [= <-].
Qed.

Section Poisoned.

Variable SatisfiedBy : Cond -> list Z -> option bool.
Variable disk : Disk.

Lemma matchLoop_prefix cond varCaps : forall result matching,
  matchLoop SatisfiedBy cond varCaps result = Some matching ->
  exists more, matching = result ++ more.
Proof.
  induction varCaps as [|varCap rest IH]; intros result matching H.
  - injection H as <-. exists []. by rewrite app_nil_r.
  - cbn in H. destruct (SatisfiedBy cond (Positions varCap)) as [[|]|];
      [| |done].
    + destruct (IH _ _ H) as (more & ->). exists (Some varCap :: more).
      by rewrite <- app_assoc.
    + by apply IH.
Qed.

Lemma matchVars_hasNil cond varCaps matching :
  (2 <= length varCaps)%nat ->
  matchVarsAgainstCond SatisfiedBy cond varCaps = Some matching ->
  derefAll matching = None.
Proof.
  intros Hlen H. unfold matchVarsAgainstCond in H.
  apply matchLoop_prefix in H as (more & ->).
  apply derefAll_app_None.
  destruct varCaps as [|x [|y rest]]; cbn in Hlen; [lia|lia|]. done.
Qed.

Lemma offer_hasNil txnCap varCaps batch :
  Exists hasNil batch ->
  keeps (fun _ => True) (offer SatisfiedBy txnCap varCaps batch)
        (fun r => Exists hasNil r.1).
Proof.
  induction batch as [|sb rest IH]; intros Hex; [by inversion Hex|].
  cbn [offer].
  assert (Htail : forall (sb1 : sendBatch),
    hasNil sb1 \/ Exists hasNil rest ->
    keeps (fun _ => True)
      (r <- offer SatisfiedBy txnCap varCaps rest ;; ret (sb1 :: r.1, r.2))
      (fun r => Exists hasNil r.1)).
  { intros sb1 [H1|Hr].
    - intros effs _. split; [done|]. rewrite bind_run.
      destruct (offer _ _ _ _ _) as [[r|] e1]; [|done].
      intros a [= <-]. by left.
    - eapply keeps_bind; [by apply IH|]. intros r Hr'.
      apply keeps_ret. by right. }
  apply Exists_cons in Hex.
  destruct (matchVarsAgainstCond SatisfiedBy (cond sb) varCaps)
    as [[|m0 ms]|].
  - by apply Htail.
  - destruct Hex as [Hsb|Hrest].
    + eapply keeps_bind; [apply add_hasNil; by left|].
      intros sb1 Hsb1. apply Htail. by left.
    + intros effs _. split; [done|]. rewrite bind_run.
      destruct (add _ _ _ _) as [[sb1|] e1]; [|done].
      apply (Htail sb1 (or_intror Hrest) e1 I).
  - apply keeps_ret. by apply Exists_cons.
Qed.

Lemma scan_hasNil records : forall batch,
  Exists hasNil batch ->
  keeps (fun _ => True) (scan SatisfiedBy disk records batch)
        (fun r => Exists hasNil r.1).
Proof.
  induction records as [|[key [varCap|]] rest IH]; intros batch Hb;
    cbn [scan]; try by apply keeps_ret.
  case_bool_decide as Ht; [by apply IH|].
  destruct (Txns disk (WriteTxnId varCap)) as [| |txnCap];
    try by apply keeps_ret.
  destruct (filterVars _ _ _ _ _) as [[|kept more]|];
    [by apply IH| |by apply keeps_ret].
  eapply keeps_bind; [by apply offer_hasNil|].
  intros r Hr. destruct (r.2); [by apply IH|by apply keeps_ret].
Qed.

Lemma flushAll_hasNil batch effs :
  Exists hasNil batch -> (flushAll batch effs).1 = None.
Proof.
  revert effs. induction batch as [|sb rest IH]; intros effs Hex;
    [by inversion Hex|].
  cbn [flushAll]. rewrite bind_run. apply Exists_cons in Hex as [Hsb|Hrest].
  - pose proof (flush_hasNil sb effs Hsb) as Hf.
    by destruct (flush sb effs) as [[?|] ?].
  - destruct (flush sb effs) as [[sb1|] e1]; [|done].
    rewrite bind_run. specialize (IH e1 Hrest).
    by destruct (flushAll rest e1) as [[?|] ?].
Qed.

End Poisoned.

(** What [matchVarsAgainstCond] returns for two or more variables starts
    with a nil entry; and once a batch holds a nil entry, [iterate] cannot
    return: the flush of that batch, at the latest the one that ends the
    scan, panics. *)
Theorem nil_entry_stops_iterate SatisfiedBy disk :
  (forall cond varCaps matching,
     (2 <= length varCaps)%nat ->
     matchVarsAgainstCond SatisfiedBy cond varCaps = Some matching ->
     derefAll matching = None)
  /\ (forall batch effs,
        Exists hasNil batch -> (iterate SatisfiedBy disk batch effs).1 = None).
Proof.
  split; [apply matchVars_hasNil|].
  intros batch effs Hex. unfold iterate. rewrite bind_run.
  destruct (scan_hasNil SatisfiedBy disk (Vars disk) batch Hex effs I)
    as [_ Hs].
  destruct (scan SatisfiedBy disk (Vars disk) batch effs) as [[r|] e1];
    [|done].
  specialize (Hs r eq_refl). rewrite bind_run.
  assert (Hlog : exists e2,
            match r.2 with Stopped true => emit EffLog | _ => ret tt end e1
            = (Some tt, e2)).
  { destruct (r.2) as [|[|]]; cbn; eauto. }
  destruct Hlog as (e2 & ->). rewrite bind_run.
  pose proof (flushAll_hasNil r.1 e2 Hs) as Hf.
  by destruct (flushAll r.1 e2) as [[?|] ?].
Qed.

End Batches.

(** ** The variable manager's cache and disk barrier

    [VarManager.find] as a cache in front of the database, and
    [VarManager.checkAllDisk] as the signal of a topology change. *)

Module VarCache.

Import VarManager.

Section Cache.

Context {Var : Type}.
Variable UUId : Var -> VarUUId.
Variable isOnDisk : Var -> bool.
Variable VarFromData : list Z -> Var + Error.
Variable dbGet : VarUUId -> ReadResult.

(** A variable that [find] has found is found again at the same address,
    with nothing read, allocated or changed, as long as the object carries
    the id it was asked for under. *)
Theorem find_caches uuid (vm vm1 : VM Var) v :
  find UUId VarFromData dbGet uuid vm = Completed (inl v, vm1) ->
  UUId (vars vm1 v) = uuid ->
  find UUId VarFromData dbGet uuid vm1 = Completed (inl v, vm1).
Proof.
  unfold find at 1. destruct (active vm !! uuid) as [v0|] eqn:Ea.
  - intros [= <- <-] _. by apply find_active.
  - destruct (dbGet uuid) as [err|[|code]|bites]; try done.
    destruct (VarFromData bites) as [var|err]; [|done].
    intros [= <- <-]. cbn. rewrite Nat.eqb_refl. intros <-.
    apply find_active. cbn. by rewrite lookup_insert_eq.
Qed.

(** [checkAllDisk] signals a topology change at most once: it does nothing
    when no change is waited on or an active variable is not on disk;
    otherwise it signals the change, stops waiting and forbids rolls; and
    run again it does nothing more. *)
Theorem checkAllDisk_signals_once (vm : VM Var) :
  (checkAllDisk isOnDisk vm = vm
   \/ exists tc, onDisk vm = Some tc
        /\ (forall uuid v, active vm !! uuid = Some v ->
              isOnDisk (vars vm v) = true)
        /\ checkAllDisk isOnDisk vm
           = mkVM (active vm) (vars vm) (allocated vm) false None
                  (effects vm ++ [EffDone tc]))
  /\ checkAllDisk isOnDisk (checkAllDisk isOnDisk vm)
     = checkAllDisk isOnDisk vm.
Proof.
  unfold checkAllDisk. destruct (onDisk vm) as [tc|] eqn:Eo.
  - destruct (forallb _ _) eqn:Ef; cbn.
    + split; [|done]. right. exists tc. split_and!; [done| |done].
      intros uuid v Hv. rewrite forallb_forall in Ef.
      apply (Ef (uuid, v)). apply list_elem_of_In.
      by apply elem_of_map_to_list.
    + split; [by left|]. by rewrite Eo, Ef.
  - split; [by left|]. by rewrite Eo.
Qed.

End Cache.

(** A database that holds the variable [u1], idle and on disk. *)
Definition storedDb (uuid : VarUUId) : ReadResult := GetBytes [1].
Definition decodeU1 (bites : list Z) : VarObj + Error := inl (mkVar u1 true true).

Definition coldVM : VM VarObj :=
  mkVM ∅ (fun _ => mkVar [] false false) 0 false None [].

Definition loadedVM : VM VarObj :=
  mkVM {[ u1 := 0%nat ]}
       (fun a => if Nat.eqb a 0 then mkVar u1 true true else mkVar [] false false)
       1 false None [].

Lemma find_caches_witness :
  find varUUId decodeU1 storedDb u1 coldVM = Completed (inl 0%nat, loadedVM)
  /\ find varUUId decodeU1 storedDb u1 loadedVM = Completed (inl 0%nat, loadedVM).
Proof.
  assert (H : find varUUId decodeU1 storedDb u1 coldVM
              = Completed (inl 0%nat, loadedVM)) by reflexivity.
  split; [exact H|].
  exact (find_caches varUUId decodeU1 storedDb u1 coldVM loadedVM 0%nat H eq_refl).
Defined.

End VarCache.

(** ** Goals, the active topology and the connections

    What [selectGoal], [setActive] and [activeConnectionsChange] keep of
    the actor's state over every call. *)

Module Goals.

Import Transmogrifier.

(** [selectGoal] never leaves the actor without the task it had: the task
    stays, or it is abandoned for a new [targetConfig] whose goal is of
    the same cluster and of a strictly greater version. *)
Theorem selectGoal_replaces_only_by_newer goal tt t :
  task tt = Some t ->
  task (selectGoal goal tt) = Some t
  \/ (task (selectGoal goal tt) = Some (mkTask TargetConfig goal false)
      /\ Version (NextCfg (config t)) < Version (NextCfg goal)
      /\ ClusterId (NextCfg goal) = ClusterId (NextCfg (config t))
      /\ EffAbandon t ∈ effects (selectGoal goal tt)).
Proof.
  intros Ht. unfold selectGoal.
  assert (Hcont :
    match task tt with
    | Some t0 =>
        if negb (String.eqb (ClusterId (NextCfg goal))
                            (ClusterId (NextCfg (config t0))))
        then Return (emit (EffLog "Illegal config: ClusterId") tt)
        else if Version (NextCfg goal) <? Version (NextCfg (config t0))
        then Return (emit (EffLog "Ignoring config: newer version already targetted") tt)
        else if Version (NextCfg goal) =? Version (NextCfg (config t0))
        then Return (emit (EffLog "Config transition already in progress") tt)
        else Continue (setTask None (emit (EffAbandon t0) tt))
    | None => Continue tt
    end = Continue (setTask None (emit (EffAbandon t) tt)) ->
    Version (NextCfg (config t)) < Version (NextCfg goal)
    /\ ClusterId (NextCfg goal) = ClusterId (NextCfg (config t))).
  { rewrite Ht. destruct (String.eqb _ _) eqn:Ec; [|done]. cbn [negb].
    destruct (_ <? _) eqn:El; [done|]. destruct (_ =? _) eqn:Ee; [done|].
    intros _. apply String.eqb_eq in Ec. apply Z.ltb_ge in El.
    apply Z.eqb_neq in Ee. split; [lia|done]. }
  destruct (active tt) as [a|].
  - destruct (_ =? 0); [by left|].
    destruct (negb _); [by left|]. destruct (_ <? _); [by left|].
    destruct (_ =? _); [by left|]. rewrite Ht in *.
    destruct (negb _); [by left|]. destruct (_ <? _); [by left|].
    destruct (_ =? _); [by left|]. right. cbn.
    split; [done|]. destruct (Hcont eq_refl) as [? ?].
    split_and!; [done|done|]. by left.
  - rewrite Ht in *.
    destruct (negb _); [by left|]. destruct (_ <? _); [by left|].
    destruct (_ =? _); [by left|]. right. cbn.
    split; [done|]. destruct (Hcont eq_refl) as [? ?].
    split_and!; [done|done|]. by left.
Qed.

Definition laterGoal : NextConfiguration :=
  mkNextConfiguration
    (mkConfiguration "c" 3 ["h1"; "h2"; "h3"; "h4"; "h5"]%string 1 5 false
       [1; 2; 3; 4; 5] ∅ None)
    [] [] [] [] [] ∅.

Lemma selectGoal_replaces_only_by_newer_witness :
  task (selectGoal laterGoal addOneTT) = Some addOneTask
  \/ (task (selectGoal laterGoal addOneTT) = Some (mkTask TargetConfig laterGoal false)
      /\ Version (NextCfg (config addOneTask)) < Version (NextCfg laterGoal)
      /\ ClusterId (NextCfg laterGoal) = ClusterId (NextCfg (config addOneTask))
      /\ EffAbandon addOneTask ∈ effects (selectGoal laterGoal addOneTT)).
Proof.
  exact (selectGoal_replaces_only_by_newer laterGoal addOneTT addOneTask eq_refl).
Defined.

(** While a topology is active, [selectGoal] changes the task only to a new
    [targetConfig] for the requested goal, and only when the goal is of the
    active cluster and of a version strictly above the active one. *)
Theorem selectGoal_targets_beyond_active goal tt a :
  active tt = Some a ->
  task (selectGoal goal tt) <> task tt ->
  task (selectGoal goal tt) = Some (mkTask TargetConfig goal false)
  /\ Version (TopCfg a) < Version (NextCfg goal)
  /\ ClusterId (NextCfg goal) = ClusterId (TopCfg a).
Proof.
  intros Ha. unfold selectGoal. rewrite Ha.
  destruct (_ =? 0); [done|].
  destruct (String.eqb _ _) eqn:Ec; [|done]. cbn [negb].
  destruct (_ <? _) eqn:El; [done|]. destruct (_ =? _) eqn:Ee; [done|].
  apply String.eqb_eq in Ec. apply Z.ltb_ge in El. apply Z.eqb_neq in Ee.
  assert (Hv : Version (TopCfg a) < Version (NextCfg goal)) by lia.
  destruct (task tt) as [t|] eqn:Et.
  - destruct (negb _); [done|]. destruct (_ <? _); [done|].
    destruct (_ =? _); [done|]. by cbn.
  - by cbn; rewrite Et.
Qed.

Lemma selectGoal_targets_beyond_active_witness :
  task (selectGoal laterGoal addOneTT) = Some (mkTask TargetConfig laterGoal false)
  /\ Version (TopCfg addOneActive) < Version (NextCfg laterGoal)
  /\ ClusterId (NextCfg laterGoal) = ClusterId (TopCfg addOneActive).
Proof.
  apply (selectGoal_targets_beyond_active laterGoal addOneTT addOneActive eq_refl).
  vm_compute. congruence.
Defined.

Lemma selectGoal_active goal tt : active (selectGoal goal tt) = active tt.
Proof.
  unfold selectGoal.
  assert (Htask :
    active
      match
        match task tt with
        | Some t =>
            if negb (String.eqb (ClusterId (NextCfg goal))
                                (ClusterId (NextCfg (config t))))
            then Return (emit (EffLog "Illegal config: ClusterId") tt)
            else if Version (NextCfg goal) <? Version (NextCfg (config t))
            then Return (emit (EffLog "Ignoring config: newer version already targetted") tt)
            else if Version (NextCfg goal) =? Version (NextCfg (config t))
            then Return (emit (EffLog "Config transition already in progress") tt)
            else Continue (setTask None (emit (EffAbandon t) tt))
        | None => Continue tt
        end
      with
      | Return tt2 => tt2
      | Continue tt2 =>
          match task tt2 with
          | None => setTask (Some (mkTask TargetConfig goal false)) tt2
          | Some _ => tt2
          end
      end = active tt).
  { destruct (task tt) as [t|] eqn:Et.
    - destruct (negb _); [done|]. destruct (_ <? _); [done|].
      by destruct (_ =? _).
    - by rewrite Et. }
  destruct (active tt) as [a|] eqn:Ha; [|exact Htask].
  destruct (_ =? 0); [done|]. destruct (negb _); [done|].
  destruct (_ <? _); [done|]. destruct (_ =? _); [done|]. exact Htask.
Qed.

Lemma targetConfig_tick_active t tt :
  active (targetConfig_tick t tt).1 = active tt.
Proof.
  unfold targetConfig_tick, install.
  repeat (match goal with
          | |- context [match ?x with _ => _ end] => destruct x eqn:?
          end; try done).
Qed.

Section Observed.

Variable subTaskTick : Task -> TT -> TT * option string.
Variable LocalRemoteHosts : Configuration -> string + (string * list string).
Variable diskSetFlags : bool -> option string.

(** The ticks of the sub-tasks do not replace an active topology: only
    [ensureLocalTopology] calls [setActive], and only while there is
    none. *)
Hypothesis subTaskTick_active : forall t tt,
  is_Some (active tt) -> active (subTaskTick t tt).1 = active tt.

Lemma tick_active t tt :
  is_Some (active tt) -> active (tick subTaskTick t tt).1 = active tt.
Proof.
  intros Ha. unfold tick.
  destruct (kind t); try apply targetConfig_tick_active;
    (pose proof (subTaskTick_active t tt Ha) as Hf;
     by destruct (subTaskTick t tt)).
Qed.

(** Once a topology is active, whatever is observed, [setActive] leaves an
    active topology of the same cluster and of a version that is not
    smaller: the one that was active, or the observed one. *)
Theorem setActive_active_monotone topology tt a :
  active tt = Some a ->
  exists a',
    active (setActive subTaskTick LocalRemoteHosts diskSetFlags topology tt).1
    = Some a'
    /\ (a' = a \/ a' = topology)
    /\ ClusterId (TopCfg a') = ClusterId (TopCfg a)
    /\ Version (TopCfg a) <= Version (TopCfg a').
Proof.
  intros Ha. unfold setActive. rewrite Ha.
  destruct (String.eqb _ _) eqn:Ec; cbn [negb];
    [|exists a; split_and!; [done|by left|done|lia]].
  destruct (_ <? _) eqn:El; [exists a; split_and!; [done|by left|done|lia]|].
  destruct (Equal _ _); [exists a; split_and!; [done|by left|done|lia]|].
  apply String.eqb_eq in Ec. apply Z.ltb_ge in El.
  unfold setActive_accepted.
  case_bool_decide; [exists a; split_and!; [done|by left|done|lia]|].
  exists topology.
  split; [|split_and!; [by right|done|lia]].
  set (tt1 := setActiveTopology (Some topology) tt).
  assert (H1 : active tt1 = Some topology) by done.
  assert (H2 : active
      (match task tt1 with Some t => tick subTaskTick t tt1 | None => (tt1, None) end).1
      = Some topology).
  { destruct (task tt1) as [t|]; [|done]. by rewrite tick_active. }
  destruct (match task tt1 with Some t => tick subTaskTick t tt1 | None => (tt1, None) end)
    as [tt2 [e|]]; cbn [fst snd] in *; [done|].
  destruct (task tt2); [done|].
  destruct (Next (TopCfg topology)); [cbn [fst]; by rewrite selectGoal_active|].
  change (active (installTopology topology tt2)) with (active tt2).
  rewrite H2. by destruct (LocalRemoteHosts (TopCfg topology)) as [e|[l r]].
Qed.

End Observed.

(** *** Observed topologies that are not newer *)

Lemma Equal_refl (c : Configuration) : Equal c c = true
with NextEqual_refl (n : NextConfiguration) : NextEqual n n = true.
Proof.
  - destruct c as [cid v hosts f maxRM noSync rmIds removed next]. cbn.
    rewrite !bool_decide_eq_true_2 by done. rewrite !Z.eqb_refl.
    rewrite Bool.eqb_reflx. cbn.
    destruct next as [n|]; [apply NextEqual_refl|done].
  - destruct n as [c allHosts new surviving lost pendingInstall pending]. cbn.
    rewrite Equal_refl. by rewrite !bool_decide_eq_true_2.
Qed.

(** An observed topology that gets past the guards and does not remove
    this RM becomes the active one, as long as the ticks of the sub-tasks
    leave an active topology in place. *)
Lemma setActive_accepted_active subTaskTick LocalRemoteHosts diskSetFlags
    topology tt :
  (forall t tt, is_Some (active tt) -> active (subTaskTick t tt).1 = active tt) ->
  SelfRMId tt ∉ RMsRemoved (TopCfg topology) ->
  active (setActive_accepted subTaskTick LocalRemoteHosts diskSetFlags
            topology tt).1 = Some topology.
Proof.
  intros Hsub Hin. unfold setActive_accepted.
  rewrite bool_decide_eq_false_2 by done.
  set (tt1 := setActiveTopology (Some topology) tt).
  assert (H2 : active
      (match task tt1 with Some t => tick subTaskTick t tt1 | None => (tt1, None) end).1
      = Some topology).
  { destruct (task tt1) as [t|]; [|done].
    by rewrite (tick_active subTaskTick Hsub). }
  destruct (match task tt1 with Some t => tick subTaskTick t tt1 | None => (tt1, None) end)
    as [tt2 [e|]]; cbn [fst snd] in *; [done|].
  destruct (task tt2); [done|].
  destruct (Next (TopCfg topology)); [cbn [fst]; by rewrite selectGoal_active|].
  change (active (installTopology topology tt2)) with (active tt2).
  rewrite H2. by destruct (LocalRemoteHosts (TopCfg topology)) as [e|[l r]].
Qed.

(** C7 (as amended).  Of an observed topology of the active cluster:
    one whose version is strictly less than the active version is logged
    and ignored, the state being the old one but for the log line, so that
    the active topology and the task are unchanged and no error is
    returned; one of the active version is ignored, silently and with the
    state untouched, exactly when its configuration equals the active one;
    and one of the active version with a different configuration is
    accepted: [setActive] goes on past its guards, returns the removal
    error if the topology removes this RM, and otherwise makes the
    observed topology, which is not the old one, the active topology (the
    ticks of the sub-tasks leaving an active topology in place). *)
Theorem setActive_not_newer
    (subTaskTick : Task -> TT -> TT * option string)
    (LocalRemoteHosts : Configuration -> string + (string * list string))
    (diskSetFlags : bool -> option string)
    (topology a : Topology) (tt : TT) :
  (forall t tt, is_Some (active tt) -> active (subTaskTick t tt).1 = active tt) ->
  active tt = Some a ->
  ClusterId (TopCfg a) = ClusterId (TopCfg topology) ->
  let observed :=
    setActive subTaskTick LocalRemoteHosts diskSetFlags topology tt in
  (Version (TopCfg topology) < Version (TopCfg a) ->
   observed = (emit (EffLog "Ignoring config: newer version already active") tt, None)
   /\ active observed.1 = active tt /\ task observed.1 = task tt)
  /\ (Version (TopCfg topology) = Version (TopCfg a) ->
      (Equal (TopCfg a) (TopCfg topology) = true -> observed = (tt, None))
      /\ (observed = (tt, None) -> Equal (TopCfg a) (TopCfg topology) = true)
      /\ (Equal (TopCfg a) (TopCfg topology) = false ->
          observed
          = setActive_accepted subTaskTick LocalRemoteHosts diskSetFlags topology tt
          /\ (SelfRMId tt ∈ RMsRemoved (TopCfg topology) ->
              observed = (tt, Some ErrRemovedFromCluster))
          /\ (SelfRMId tt ∉ RMsRemoved (TopCfg topology) ->
              active observed.1 = Some topology /\ topology <> a))).
Proof.
  intros Hsub Ha Hc observed.
  destruct (setActive_ignored subTaskTick LocalRemoteHosts diskSetFlags
              topology a tt Ha Hc) as [Holder Hequal].
  assert (Hdiff : Version (TopCfg topology) = Version (TopCfg a) ->
            Equal (TopCfg a) (TopCfg topology) = false ->
            observed
            = setActive_accepted subTaskTick LocalRemoteHosts diskSetFlags topology tt
            /\ (SelfRMId tt ∈ RMsRemoved (TopCfg topology) ->
                observed = (tt, Some ErrRemovedFromCluster))
            /\ (SelfRMId tt ∉ RMsRemoved (TopCfg topology) ->
                active observed.1 = Some topology /\ topology <> a)).
  { intros Hv He.
    assert (Hacc : observed
              = setActive_accepted subTaskTick LocalRemoteHosts diskSetFlags
                  topology tt).
    { apply setActive_accepts. unfold accepts. rewrite Ha. split_and!; [done|lia|done]. }
    split; [exact Hacc|]. split.
    - intros Hin. rewrite Hacc. by apply setActive_accepted_removed.
    - intros Hin. split.
      + rewrite Hacc. by apply setActive_accepted_active.
      + intros ->. by rewrite Equal_refl in He. }
  split.
  - intros Hv. fold observed in Holder. rewrite (Holder Hv). by split_and!.
  - intros Hv. split; [intros He; by apply Hequal|]. split; [|by apply Hdiff].
    intros Hobs. destruct (Equal (TopCfg a) (TopCfg topology)) eqn:He; [done|].
    destruct (Hdiff Hv eq_refl) as (_ & Hrem & Hkeep).
    destruct (decide (SelfRMId tt ∈ RMsRemoved (TopCfg topology))) as [Hin|Hin].
    + rewrite (Hrem Hin) in Hobs. done.
    + destruct (Hkeep Hin) as [Hact Hne]. rewrite Hobs in Hact. cbn in Hact.
      rewrite Ha in Hact. by injection Hact as ->.
Qed.

(** While the add-one-node target is being installed: an older topology
    is observed and ignored; the topology of the same version whose [next]
    has moved on is observed and becomes the active one. *)
Lemma setActive_not_newer_witness :
  (forall t tt, is_Some (active tt) -> active (idleSubTaskTick t tt).1 = active tt)
  /\ active installingTT = Some addOneInstalling
  /\ (ClusterId (TopCfg addOneInstalling) = ClusterId (TopCfg olderTopology)
      /\ Version (TopCfg olderTopology) < Version (TopCfg addOneInstalling)
      /\ setActive idleSubTaskTick noLocalHost diskOk olderTopology installingTT
         = (emit (EffLog "Ignoring config: newer version already active")
                 installingTT, None))
  /\ (ClusterId (TopCfg addOneInstalling) = ClusterId (TopCfg addOneActive)
      /\ Version (TopCfg addOneActive) = Version (TopCfg addOneInstalling)
      /\ Equal (TopCfg addOneInstalling) (TopCfg addOneActive) = false
      /\ (SelfRMId installingTT ∉ RMsRemoved (TopCfg addOneActive))
      /\ active (setActive idleSubTaskTick noLocalHost diskOk addOneActive
                   installingTT).1 = Some addOneActive
      /\ addOneActive <> addOneInstalling
      /\ setActive idleSubTaskTick noLocalHost diskOk addOneActive installingTT
         <> (installingTT, None)).
Proof.
  assert (Hsub : forall t tt,
            is_Some (active tt) -> active (idleSubTaskTick t tt).1 = active tt)
    by done.
  assert (Hv : Version (TopCfg olderTopology) < Version (TopCfg addOneInstalling))
    by (vm_compute; reflexivity).
  assert (He : Equal (TopCfg addOneInstalling) (TopCfg addOneActive) = false)
    by (vm_compute; reflexivity).
  assert (Hin : SelfRMId installingTT ∉ RMsRemoved (TopCfg addOneActive))
    by (cbn; apply not_elem_of_empty).
  split; [exact Hsub|]. split; [reflexivity|]. split.
  - split; [reflexivity|]. split; [exact Hv|].
    exact (proj1 (proj1 (setActive_not_newer idleSubTaskTick noLocalHost diskOk
                           olderTopology addOneInstalling installingTT
                           Hsub eq_refl eq_refl) Hv)).
  - destruct (proj2 (setActive_not_newer idleSubTaskTick noLocalHost diskOk
                       addOneActive addOneInstalling installingTT
                       Hsub eq_refl eq_refl) eq_refl)
      as (_ & Honly & Hdiff).
    destruct (Hdiff He) as (_ & _ & Hkeep). destruct (Hkeep Hin) as [Hact Hne].
    split_and!; try done; intros Hobs; apply Honly in Hobs; congruence.
Defined.

Lemma setActive_active_monotone_witness :
  exists a',
    active (setActive idleSubTaskTick noLocalHost diskOk addOneActive installingTT).1
    = Some a'
    /\ (a' = addOneInstalling \/ a' = addOneActive)
    /\ ClusterId (TopCfg a') = ClusterId (TopCfg addOneInstalling)
    /\ Version (TopCfg addOneInstalling) <= Version (TopCfg a').
Proof.
  apply (setActive_active_monotone idleSubTaskTick noLocalHost diskOk);
    [done|reflexivity].
Defined.

End Goals.

(** ** The helpers of a topology task

    [partitionByActiveConnection], [verifyRoots] and [allHostsBarLocalHost]
    of [targetConfig]. *)

Module TaskHelpers.

Import Transmogrifier MigrateTask.

Definition connected (tt : TT) (rmId : RMId) : Prop :=
  is_Some (activeConnections tt !! rmId).

Lemma filter_step {A} (P : A -> Prop) `{!forall x, Decision (P x)} x l :
  filter P (x :: l) = if decide (P x) then x :: filter P l else filter P l.
Proof. reflexivity. Qed.

Lemma partition_step tt rmIds : forall act pas,
  fold_left
    (fun (ap : RMIds * RMIds) rmId =>
       if bool_decide (rmId = RMIdEmpty) then ap
       else if bool_decide (is_Some (activeConnections tt !! rmId))
            then (ap.1 ++ [rmId], ap.2)
            else (ap.1, ap.2 ++ [rmId]))
    rmIds (act, pas)
  = (act ++ filter (connected tt) (NonEmpty rmIds),
     pas ++ filter (fun rmId => ¬ connected tt rmId) (NonEmpty rmIds)).
Proof.
  unfold NonEmpty, RMIds in *.
  induction rmIds as [|rmId rest IH]; intros act pas.
  { cbn. by rewrite !app_nil_r. }
  cbn [fold_left]. rewrite filter_step.
  destruct (decide (rmId ≠ RMIdEmpty)) as [He|He].
  - rewrite bool_decide_eq_false_2 by done. rewrite !filter_step.
    destruct (decide (connected tt rmId)) as [Hc|Hc].
    + rewrite bool_decide_eq_true_2 by done.
      rewrite decide_False by (by intros ?).
      rewrite IH. cbn [fst snd]. by rewrite <- app_assoc.
    + rewrite bool_decide_eq_false_2 by done.
      rewrite decide_True by done.
      rewrite IH. cbn [fst snd]. by rewrite <- app_assoc.
  - rewrite bool_decide_eq_true_2 by (by destruct (decide (rmId = RMIdEmpty))).
    apply IH.
Qed.

(** [partitionByActiveConnection] splits the RM ids of its lists that are
    not empty, in their order, into those with a connection and those
    without: nothing is lost, nothing is in both, and no empty id is in
    either. *)
Theorem partitionByActiveConnection_partitions tt rmIdLists :
  let ap := partitionByActiveConnection tt rmIdLists in
  ap.1 = filter (connected tt) (NonEmpty (concat rmIdLists))
  /\ ap.2 = filter (fun rmId => ¬ connected tt rmId) (NonEmpty (concat rmIdLists))
  /\ ap.1 ++ ap.2 ≡ₚ NonEmpty (concat rmIdLists)
  /\ len ap.1 + len ap.2 = NonEmptyLen (concat rmIdLists).
Proof.
  cbn zeta. unfold partitionByActiveConnection. rewrite partition_step.
  cbn [fst snd app]. split; [done|]. split; [done|].
  assert (Hp : filter (connected tt) (NonEmpty (concat rmIdLists))
               ++ filter (fun rmId => ¬ connected tt rmId) (NonEmpty (concat rmIdLists))
               ≡ₚ NonEmpty (concat rmIdLists)).
  { apply filter_app_complement. }
  split; [exact Hp|].
  pose proof (Permutation_length Hp) as Hl. rewrite length_app in Hl.
  unfold len, NonEmptyLen. rewrite <- Hl. by rewrite Nat2Z.inj_add.
Qed.

(** A remote host [verifyRoots] accepts: it is connected and has no root,
    or the root asked for. *)
Definition rootAgrees (tt : TT) (rootId : option VarUUId) (host : string) : Prop :=
  exists cd, hostToConnection tt !! host = Some cd
             /\ (ConnRootId cd = None \/ ConnRootId cd = rootId).

Lemma verifyRoots_agrees tt rootId remoteHosts :
  verifyRoots tt rootId remoteHosts = (true, None) ->
  Forall (rootAgrees tt rootId) remoteHosts.
Proof.
  induction remoteHosts as [|host rest IH]; [constructor|].
  cbn [verifyRoots]. destruct (hostToConnection tt !! host) as [cd|] eqn:Eh;
    [|done].
  destruct (ConnRootId cd) as [r|] eqn:Er.
  - case_bool_decide as Hroot; [|done]. intros H. constructor; [|by apply IH].
    exists cd. split; [done|]. right. by rewrite Er.
  - intros H. constructor; [|by apply IH]. exists cd. split; [done|]. by left.
Qed.

(** [verifyRoots] says yes exactly when every remote host is connected
    with no root or with the root asked for; it never says yes with an
    error; and it gives an error only for a connected host with another
    root. *)
Theorem verifyRoots_decides tt rootId remoteHosts :
  (verifyRoots tt rootId remoteHosts = (true, None)
   <-> Forall (rootAgrees tt rootId) remoteHosts)
  /\ ((verifyRoots tt rootId remoteHosts).1 = true ->
      (verifyRoots tt rootId remoteHosts).2 = None)
  /\ ((verifyRoots tt rootId remoteHosts).2 <> None ->
      (verifyRoots tt rootId remoteHosts).1 = false
      /\ exists host cd remoteRootId,
           host ∈ remoteHosts /\ hostToConnection tt !! host = Some cd
           /\ ConnRootId cd = Some remoteRootId /\ rootId <> Some remoteRootId).
Proof.
  induction remoteHosts as [|host rest (IH1 & IH2 & IH3)].
  { cbn. split_and!; [|done|done]. split; [constructor|done]. }
  cbn [verifyRoots].
  assert (Hagree : rootAgrees tt rootId host ->
    verifyRoots tt rootId rest =
    match hostToConnection tt !! host with
    | Some cd =>
        match ConnRootId cd with
        | None => verifyRoots tt rootId rest
        | Some remoteRootId =>
            if bool_decide (rootId = Some remoteRootId)
            then verifyRoots tt rootId rest
            else (false, Some "Attempt made to merge different logical clusters"%string)
        end
    | None => (false, None)
    end).
  { intros (cd & -> & [Hr| Hr]); [by rewrite Hr|].
    destruct (ConnRootId cd) as [r|]; [|done].
    by rewrite bool_decide_eq_true_2. }
  destruct (hostToConnection tt !! host) as [cd|] eqn:Eh.
  - destruct (ConnRootId cd) as [r|] eqn:Er.
    + case_bool_decide as Hroot.
      * split_and!; [|done|].
        -- rewrite IH1. split.
           ++ intros H. constructor; [|done]. exists cd. split; [done|].
              right. by rewrite Er.
           ++ by intros [_ H]%Forall_cons.
        -- intros Hne. destruct (IH3 Hne) as (Hf & h & c & r' & Hin & Hrest).
           split; [done|]. exists h, c, r'. split; [by right|done].
      * split_and!; [|done|].
        -- split; [done|]. intros [(cd' & Hcd' & [Hn|Hs]) _]%Forall_cons;
             rewrite Eh in Hcd'; injection Hcd' as <-; congruence.
        -- intros _. split; [done|]. exists host, cd, r.
           split_and!; [by left|done|done|done].
    + split_and!; [|done|].
      * rewrite IH1. split.
        -- intros H. constructor; [|done]. exists cd. split; [done|]. by left.
        -- by intros [_ H]%Forall_cons.
      * intros Hne. destruct (IH3 Hne) as (Hf & h & c & r' & Hin & Hrest).
        split; [done|]. exists h, c, r'. split; [by right|done].
  - split_and!; [|done|done]. split; [done|].
    intros [(cd' & Hcd' & _) _]%Forall_cons. by rewrite Eh in Hcd'.
Qed.

Lemma removeFirst_absent localHost hosts :
  localHost ∉ hosts -> removeFirst localHost hosts = hosts.
Proof.
  induction hosts as [|host rest IH]; [done|]. intros Hn. cbn.
  destruct (String.eqb host localHost) eqn:E.
  - apply String.eqb_eq in E. subst. exfalso. apply Hn. by left.
  - rewrite IH; [done|]. intros Hin. apply Hn. by right.
Qed.

(** [allHostsBarLocalHost] takes the local host out once: if [AllHosts]
    lists it, what is left together with it is [AllHosts], and if not,
    [AllHosts] is returned as it is.  It undoes what
    [calculateTargetTopology] does when it sets [AllHosts] to the remote
    hosts followed by the local one. *)
Theorem allHostsBarLocalHost_removes_once localHost next :
  (localHost ∈ AllHosts next ->
   AllHosts next ≡ₚ localHost :: allHostsBarLocalHost localHost next)
  /\ (localHost ∉ AllHosts next ->
      allHostsBarLocalHost localHost next = AllHosts next)
  /\ (forall remoteHosts,
        localHost ∉ remoteHosts ->
        AllHosts next = remoteHosts ++ [localHost] ->
        allHostsBarLocalHost localHost next = remoteHosts).
Proof.
  unfold allHostsBarLocalHost. split_and!.
  - induction (AllHosts next) as [|host rest IH]; intros Hin.
    { by apply elem_of_nil in Hin. }
    cbn. destruct (String.eqb host localHost) eqn:E.
    + apply String.eqb_eq in E. by subst.
    + apply String.eqb_neq in E.
      apply elem_of_cons in Hin as [->|Hin]; [done|].
      rewrite (IH Hin) at 1. apply Permutation_swap.
  - apply removeFirst_absent.
  - intros remoteHosts Hn ->.
    induction remoteHosts as [|host rest IH]; cbn.
    + by rewrite String.eqb_refl.
    + destruct (String.eqb host localHost) eqn:E.
      * apply String.eqb_eq in E. subst. exfalso. apply Hn. by left.
      * rewrite IH; [done|]. intros Hin. apply Hn. by right.
Qed.

End TaskHelpers.

(** ** The target topology ([installTargetOld.calculateTargetTopology])

    From the active topology and the goal: which hosts survive, which are
    added and which are removed, the RM ids of the target in their slots,
    and the topology with that target as its [next]. *)

Module TargetTopology.

Import Transmogrifier Msgs TopologyTxn MigrateTask.

Local Set Warnings "-clear-no-such-hyp".

(** [installTargetOld]: the [targetConfig] it embeds and its flag. *)
Record Installer := mkInstaller {
  target : Task;
  installing : bool
}.

(** The three host sets and the list of remote hosts. *)
Record HostSets := mkHostSets {
  hostsSurvived : gset string;
  hostsRemoved : gset string;
  hostsAdded : gset string;
  allRemoteHosts : list string
}.

(** 1. Start by assuming all old hosts have been removed. *)
Definition assumeRemoved (localHost : string) (hs : HostSets) (host : string)
    : HostSets :=
  mkHostSets (hostsSurvived hs) ({[ host ]} ∪ hostsRemoved hs) (hostsAdded hs)
             (if bool_decide (host <> localHost)
              then allRemoteHosts hs ++ [host] else allRemoteHosts hs).

(** 2. A new host that is in the removed set has survived; else it is
    added. *)
Definition classify (localHost : string) (hs : HostSets) (host : string)
    : HostSets :=
  if bool_decide (host ∈ hostsRemoved hs) then
    mkHostSets ({[ host ]} ∪ hostsSurvived hs) (hostsRemoved hs) (hostsAdded hs)
               (allRemoteHosts hs)
  else
    mkHostSets (hostsSurvived hs) (hostsRemoved hs) ({[ host ]} ∪ hostsAdded hs)
               (if bool_decide (host <> localHost)
                then allRemoteHosts hs ++ [host] else allRemoteHosts hs).

Definition classifyHosts (localHost : string) (oldHosts newHosts : list string)
    : HostSets :=
  fold_left (classify localHost) newHosts
    (fold_left (assumeRemoved localHost) oldHosts (mkHostSets ∅ ∅ ∅ [])).

(** 3. Assume all old RM ids have been removed (so map to [RMIdEmpty]). *)
Definition assumeLost (rmIdsOld : RMIds) : gmap Z Z :=
  fold_left (fun m rmId => <[rmId := RMIdEmpty]> m) rmIdsOld ∅.

(** 4. All new hosts must have new RM ids.  [None] is the call of [RMId]
    on the missing connection of a host. *)
Fixpoint addedRMIds (tt : TT) (hosts : list string) (rmIdsAdded : RMIds)
    : option RMIds :=
  match hosts with
  | [] => Some rmIdsAdded
  | host :: rest =>
      match hostToConnection tt !! host with
      | Some cd => addedRMIds tt rest (rmIdsAdded ++ [ConnRMId cd])
      | None => None
      end
  end.

Record Survival := mkSurvival {
  rmIdsTranslation : gmap Z Z;
  rmIdsAdded : RMIds;
  rmIdsSurvived : RMIds
}.

(** 5. A surviving host whose RM id is an old one maps to itself; one that
    has changed its RM id counts as added. *)
Fixpoint survivedRMIds (tt : TT) (hosts : list string) (s : Survival)
    : option Survival :=
  match hosts with
  | [] => Some s
  | host :: rest =>
      match hostToConnection tt !! host with
      | Some cd =>
          let rmId := ConnRMId cd in
          match rmIdsTranslation s !! rmId with
          | Some _ =>
              survivedRMIds tt rest
                (mkSurvival (<[rmId := rmId]> (rmIdsTranslation s))
                            (rmIdsAdded s) (rmIdsSurvived s ++ [rmId]))
          | None =>
              survivedRMIds tt rest
                (mkSurvival (rmIdsTranslation s) (rmIdsAdded s ++ [rmId])
                            (rmIdsSurvived s))
          end
      | None => None
      end
  end.

(** The construction of the new RM id list. *)
Record Placement := mkPlacement {
  rmIdsNew : RMIds;
  translation : gmap Z Z;
  rmIdsAddedCopy : RMIds;
  rmIdsLost : RMIds
}.

Definition place (p : Placement) (rmIdOld : RMId) : Placement :=
  let rmIdNew := default RMIdEmpty (translation p !! rmIdOld) in
  if bool_decide (rmIdOld = RMIdEmpty) then
    match rmIdsAddedCopy p with
    | first :: rest =>
        mkPlacement (rmIdsNew p ++ [first]) (translation p) rest (rmIdsLost p)
    | [] =>
        mkPlacement (rmIdsNew p ++ [RMIdEmpty]) (translation p) []
                    (rmIdsLost p)
    end
  else if bool_decide (rmIdNew = RMIdEmpty) then
    match rmIdsAddedCopy p with
    | first :: rest =>
        mkPlacement (rmIdsNew p ++ [first])
                    (<[rmIdOld := first]> (translation p)) rest
                    (rmIdsLost p ++ [rmIdOld])
    | [] =>
        mkPlacement (rmIdsNew p ++ [rmIdNew]) (translation p) []
                    (rmIdsLost p ++ [rmIdOld])
    end
  else
    mkPlacement (rmIdsNew p ++ [rmIdNew]) (translation p) (rmIdsAddedCopy p)
                (rmIdsLost p).

Definition placeAll (rmIdsOld : RMIds) (s : Survival) : Placement :=
  let p := fold_left place rmIdsOld
             (mkPlacement [] (rmIdsTranslation s) (rmIdsAdded s) []) in
  mkPlacement (rmIdsNew p ++ rmIdsAddedCopy p) (translation p) [] (rmIdsLost p).

(** The clone of the goal's configuration with the new RM ids and the
    removed set. *)
Definition withRMs (c : Configuration) (rmIds : RMIds) (removed : gset Z)
    : Configuration :=
  mkConfiguration (ClusterId c) (Version c) (Hosts c) (F c) (MaxRMCount c)
                  (NoSync c) rmIds removed (nextConfiguration c).

(** The clone of the active topology with [next] set. *)
Definition withNext (a : Topology) (next : NextConfiguration) : Topology :=
  let c := TopCfg a in
  mkTopology
    (mkConfiguration (ClusterId c) (Version c) (Hosts c) (F c) (MaxRMCount c)
                     (NoSync c) (RMs c) (RMsRemoved c) (Some next))
    (DBVersion a) (Root a).

(** *** The hosts *)

Lemma assumeRemoved_fold localHost oldHosts : forall hs,
  let f := fold_left (assumeRemoved localHost) oldHosts hs in
  hostsSurvived f = hostsSurvived hs
  /\ hostsAdded f = hostsAdded hs
  /\ (forall h, h ∈ hostsRemoved f <-> h ∈ oldHosts \/ h ∈ hostsRemoved hs)
  /\ allRemoteHosts f
     = allRemoteHosts hs ++ filter (fun h => h <> localHost) oldHosts.
Proof.
  induction oldHosts as [|host rest IH]; intros hs; cbn zeta.
  { cbn. rewrite app_nil_r. split_and!; try done. intros h. set_solver. }
  cbn [fold_left]. destruct (IH (assumeRemoved localHost hs host))
    as (H1 & H2 & H3 & H4).
  split_and!; [done|done| |].
  - intros h. rewrite H3. cbn. set_solver.
  - rewrite H4. cbn [assumeRemoved allRemoteHosts].
    rewrite TaskHelpers.filter_step. case_bool_decide as Hl.
    + rewrite decide_True by done. by rewrite <- app_assoc.
    + by destruct (decide (host <> localHost)).
Qed.

Lemma classify_fold localHost newHosts : forall hs,
  let f := fold_left (classify localHost) newHosts hs in
  hostsRemoved f = hostsRemoved hs
  /\ (forall h, h ∈ hostsSurvived f <->
        h ∈ hostsSurvived hs \/ (h ∈ newHosts /\ h ∈ hostsRemoved hs))
  /\ (forall h, h ∈ hostsAdded f <->
        h ∈ hostsAdded hs \/ (h ∈ newHosts /\ h ∉ hostsRemoved hs))
  /\ allRemoteHosts f
     = allRemoteHosts hs
       ++ filter (fun h => (h ∉ hostsRemoved hs) /\ h <> localHost) newHosts.
Proof.
  induction newHosts as [|host rest IH]; intros hs; cbn zeta.
  { cbn. rewrite app_nil_r. split_and!; try done; intros h; set_solver. }
  cbn [fold_left]. destruct (IH (classify localHost hs host))
    as (H1 & H2 & H3 & H4).
  assert (Hr : hostsRemoved (classify localHost hs host) = hostsRemoved hs).
  { unfold classify. by case_bool_decide. }
  rewrite Hr in *. split_and!; [done| | |].
  - intros h. rewrite H2. unfold classify. case_bool_decide; cbn; set_solver.
  - intros h. rewrite H3. unfold classify. case_bool_decide; cbn; set_solver.
  - rewrite H4. rewrite TaskHelpers.filter_step. unfold classify.
    case_bool_decide as Hrem; cbn [allRemoteHosts].
    + rewrite decide_False; [done|]. by intros [? _].
    + case_bool_decide as Hl.
      * rewrite decide_True by done. by rewrite <- app_assoc.
      * rewrite decide_False; [done|]. by intros [_ ?].
Qed.

(** What the two loops over the hosts come to. *)
Lemma classifyHosts_sets localHost oldHosts newHosts :
  let hs := classifyHosts localHost oldHosts newHosts in
  (forall h, h ∈ hostsSurvived hs <-> h ∈ newHosts /\ h ∈ oldHosts)
  /\ (forall h, h ∈ hostsAdded hs <-> h ∈ newHosts /\ h ∉ oldHosts)
  /\ (forall h, h ∈ allRemoteHosts hs <->
        h <> localHost /\ (h ∈ oldHosts \/ h ∈ newHosts))
  /\ (NoDup oldHosts -> NoDup newHosts -> NoDup (allRemoteHosts hs)).
Proof.
  cbn zeta. unfold classifyHosts.
  destruct (assumeRemoved_fold localHost oldHosts (mkHostSets ∅ ∅ ∅ []))
    as (A1 & A2 & A3 & A4).
  destruct (classify_fold localHost newHosts
              (fold_left (assumeRemoved localHost) oldHosts (mkHostSets ∅ ∅ ∅ [])))
    as (C1 & C2 & C3 & C4).
  cbn in A1, A2, A3, A4.
  assert (Hrem : forall h,
    h ∈ hostsRemoved (fold_left (assumeRemoved localHost) oldHosts
                        (mkHostSets ∅ ∅ ∅ [])) <-> h ∈ oldHosts).
  { intros h. rewrite A3. set_solver. }
  split_and!.
  - intros h. rewrite C2, A1, Hrem. set_solver.
  - intros h. rewrite C3, A2, Hrem. set_solver.
  - intros h. rewrite C4, A4. rewrite !elem_of_app, !list_elem_of_filter.
    rewrite Hrem. split.
    + intros [[? ?]|[[? ?] ?]]; split; auto.
    + intros [Hl [Ho|Hn]]; [by left|].
      destruct (decide (h ∈ oldHosts)); [by left|by right].
  - intros Ho Hn. rewrite C4, A4. apply NoDup_app. split_and!.
    + by apply NoDup_filter.
    + intros h [_ Hin]%list_elem_of_filter [[Hnr _] _]%list_elem_of_filter.
      apply Hnr. by apply Hrem.
    + by apply NoDup_filter.
Qed.

(** *** The RM ids *)

Lemma assumeLost_fold rmIdsOld : forall (m : gmap Z Z) k,
  fold_left (fun m rmId => <[rmId := RMIdEmpty]> m) rmIdsOld m !! k
  = if decide (k ∈ rmIdsOld) then Some RMIdEmpty else m !! k.
Proof.
  induction rmIdsOld as [|x rest IH]; intros m k; cbn [fold_left].
  { rewrite decide_False; [done|]. apply not_elem_of_nil. }
  rewrite IH. destruct (decide (k ∈ rest)) as [Hr|Hr].
  - rewrite decide_True; [done|]. by right.
  - destruct (decide (k = x)) as [->|Hk].
    + rewrite lookup_insert_eq. rewrite decide_True; [done|]. by left.
    + rewrite lookup_insert_ne by done. rewrite decide_False; [done|].
      intros [?|?]%elem_of_cons; done.
Qed.

(** After step 5: a survivor maps to itself, any other old RM id still to
    [RMIdEmpty], and only old RM ids are survivors. *)
Definition survivalOf (rmIdsOld : RMIds) (s : Survival) : Prop :=
  (forall k, k ∈ rmIdsSurvived s -> rmIdsTranslation s !! k = Some k)
  /\ (forall k, k ∉ rmIdsSurvived s -> k ∈ rmIdsOld ->
        rmIdsTranslation s !! k = Some RMIdEmpty)
  /\ (forall k, k ∉ rmIdsOld -> rmIdsTranslation s !! k = None)
  /\ (forall k, k ∈ rmIdsSurvived s -> k ∈ rmIdsOld).

Lemma survivedRMIds_survivalOf tt rmIdsOld hosts : forall s0 s,
  survivalOf rmIdsOld s0 ->
  survivedRMIds tt hosts s0 = Some s ->
  survivalOf rmIdsOld s.
Proof.
  induction hosts as [|host rest IH]; intros s0 s Hinv H.
  { by injection H as <-. }
  cbn [survivedRMIds] in H.
  destruct (hostToConnection tt !! host) as [cd|]; [|done].
  destruct Hinv as (Hself & Hlost & Hnone & Hsub).
  destruct (rmIdsTranslation s0 !! ConnRMId cd) as [v|] eqn:Ev.
  - refine (IH _ _ _ H). clear H.
    assert (Hold : ConnRMId cd ∈ rmIdsOld).
    { destruct (decide (ConnRMId cd ∈ rmIdsOld)) as [?|Hn]; [done|].
      by rewrite (Hnone _ Hn) in Ev. }
    split_and!; cbn.
    + intros k [Hs|Hin]%elem_of_app.
      * destruct (decide (k = ConnRMId cd)) as [->|Hk].
        -- by rewrite lookup_insert_eq.
        -- rewrite lookup_insert_ne by done. by apply Hself.
      * apply list_elem_of_singleton in Hin as ->. by rewrite lookup_insert_eq.
    + intros k Hn Hk.
      assert (k <> ConnRMId cd).
      { intros ->. apply Hn, elem_of_app. right. by left. }
      rewrite lookup_insert_ne by done. apply Hlost; [|done].
      intros Hs. apply Hn, elem_of_app. by left.
    + intros k Hk.
      assert (k <> ConnRMId cd) by (by intros ->).
      rewrite lookup_insert_ne by done. by apply Hnone.
    + intros k [Hs|Hin]%elem_of_app; [by apply Hsub|].
      by apply list_elem_of_singleton in Hin as ->.
  - refine (IH _ _ _ H). by split_and!.
Qed.

Lemma place_lookup p x k :
  k <> RMIdEmpty -> translation p !! k = Some k ->
  translation (place p x) !! k = Some k.
Proof.
  intros Hk HT. unfold place.
  case_bool_decide as Hx; [by destruct (rmIdsAddedCopy p)|].
  case_bool_decide as Hn; [|done].
  destruct (rmIdsAddedCopy p) as [|first rest]; [done|]. cbn.
  destruct (decide (x = k)) as [->|Hxk]; [|by rewrite lookup_insert_ne].
  rewrite HT in Hn. cbn in Hn. done.
Qed.

Lemma place_lookup_ne p x k :
  k <> x -> translation (place p x) !! k = translation p !! k.
Proof.
  intros Hk. unfold place.
  case_bool_decide as Hx; [by destruct (rmIdsAddedCopy p)|].
  case_bool_decide as Hn; [|done].
  destruct (rmIdsAddedCopy p) as [|first rest]; [done|]. cbn.
  by rewrite lookup_insert_ne.
Qed.

(** The loop over the old RM ids places one RM id for each of them, a
    survivor in its own slot. *)
Lemma place_fold_new rmIdsOld : forall p,
  (forall k, k ∈ rmIdsOld -> k <> RMIdEmpty) ->
  exists placed,
    rmIdsNew (fold_left place rmIdsOld p) = rmIdsNew p ++ placed
    /\ length placed = length rmIdsOld
    /\ (forall i k, rmIdsOld !! i = Some k -> translation p !! k = Some k ->
          placed !! i = Some k)
    /\ exists used,
         rmIdsAddedCopy p = used ++ rmIdsAddedCopy (fold_left place rmIdsOld p)
         /\ forall k, k ∈ used -> k ∈ placed.
Proof.
  induction rmIdsOld as [|x rest IH]; intros p Hne; cbn [fold_left].
  { exists []. rewrite app_nil_r. split_and!; [done|done|done|].
    exists []. split; [done|]. by intros k Hk. }
  assert (Hx : x <> RMIdEmpty) by (apply Hne; by left).
  destruct (IH (place p x)) as (placed & Hnew & Hlen & Hslot & used & Hcopy & Hused).
  { intros k Hk. apply Hne. by right. }
  assert (Hstep : exists e u,
    rmIdsNew (place p x) = rmIdsNew p ++ [e]
    /\ rmIdsAddedCopy p = u ++ rmIdsAddedCopy (place p x)
    /\ (forall k, k ∈ u -> k = e)
    /\ (translation p !! x = Some x -> e = x)).
  { unfold place. rewrite bool_decide_eq_false_2 by done.
    case_bool_decide as Hn.
    - destruct (rmIdsAddedCopy p) as [|first more] eqn:Ec; cbn.
      + exists (default RMIdEmpty (translation p !! x)), [].
        split_and!; [done|done| |].
        * by intros k Hk%elem_of_nil.
        * intros HT. by rewrite HT.
      + exists first, [first]. split_and!; [done|done| |].
        * by intros k Hk%list_elem_of_singleton.
        * intros HT. rewrite HT in Hn. by cbn in Hn.
    - cbn. exists (default RMIdEmpty (translation p !! x)), [].
      split_and!; [done|done| |].
      + by intros k Hk%elem_of_nil.
      + intros HT. by rewrite HT. }
  destruct Hstep as (e & u & He & Hu & Hue & Hex).
  exists (e :: placed). split_and!.
  - rewrite Hnew, He. by rewrite <- app_assoc.
  - cbn. by rewrite Hlen.
  - intros [|i] k Hi HT; cbn in *.
    + injection Hi as ->. by rewrite (Hex HT).
    + apply (Hslot i k Hi). apply place_lookup; [|done].
      apply Hne. right. by eapply list_elem_of_lookup_2.
  - exists (u ++ used). split.
    + by rewrite Hu, Hcopy, app_assoc.
    + intros k [Hk|Hk]%elem_of_app.
      * rewrite (Hue k Hk). by left.
      * right. by apply Hused.
Qed.

(** An old RM id is lost exactly when it maps to [RMIdEmpty] as the loop
    starts. *)
Lemma place_fold_lost rmIdsOld : forall p,
  (forall k, k ∈ rmIdsOld -> k <> RMIdEmpty) ->
  forall k, k ∈ rmIdsLost (fold_left place rmIdsOld p)
    <-> k ∈ rmIdsLost p
        \/ (k ∈ rmIdsOld /\ default RMIdEmpty (translation p !! k) = RMIdEmpty).
Proof.
  induction rmIdsOld as [|x rest IH]; intros p Hne k; cbn [fold_left].
  { split; [by left|]. intros [?|[Hin _]]; [done|].
    by apply elem_of_nil in Hin. }
  assert (Hx : x <> RMIdEmpty) by (apply Hne; by left).
  rewrite IH by (intros k' Hk'; apply Hne; by right).
  assert (Hlost : forall k',
    k' ∈ rmIdsLost (place p x)
    <-> k' ∈ rmIdsLost p
        \/ (k' = x /\ default RMIdEmpty (translation p !! x) = RMIdEmpty)).
  { intros k'. unfold place. rewrite bool_decide_eq_false_2 by done.
    case_bool_decide as Hn.
    - destruct (rmIdsAddedCopy p); cbn; rewrite elem_of_app,
        list_elem_of_singleton; tauto.
    - cbn. tauto. }
  assert (Hchg : translation (place p x) !! x <> translation p !! x ->
                 default RMIdEmpty (translation p !! x) = RMIdEmpty).
  { unfold place. rewrite bool_decide_eq_false_2 by done.
    case_bool_decide as Hn; [done|]. intros Hd. by destruct Hd. }
  rewrite Hlost. split.
  - intros [[Hl|[-> Hd]]|[Hin Hd]].
    + by left.
    + right. split; [by left|done].
    + destruct (decide (k = x)) as [->|Hk].
      * right. split; [by left|].
        destruct (decide (translation (place p x) !! x = translation p !! x))
          as [E|E]; [|by apply Hchg].
        exact (eq_ind _ (fun o => default RMIdEmpty o = RMIdEmpty) Hd _ E).
      * right. split; [by right|].
        exact (eq_ind _ (fun o => default RMIdEmpty o = RMIdEmpty) Hd _
                 (place_lookup_ne p x k Hk)).
  - intros [Hl|[Hin Hd]]; [by left; left|].
    apply elem_of_cons in Hin as [->|Hin]; [left; right; by split|].
    destruct (decide (k = x)) as [->|Hk]; [left; right; by split|].
    right. split; [done|].
    exact (eq_ind _ (fun o => default RMIdEmpty o = RMIdEmpty) Hd _
             (eq_sym (place_lookup_ne p x k Hk))).
Qed.

Section Calculation.

Variable LocalRemoteHosts : Configuration -> string + (string * list string).

(** The order in which a [range] over a set of hosts yields them. *)
Variable rangeOver : gset string -> list string.

Definition calculateTargetTopology (task : Installer) (tt : TT)
    : Result (TT * Installer * option Topology * option Error) :=
  match active tt with
  | None => Panics
  | Some a =>
      match firstLocalHost LocalRemoteHosts (TopCfg a) with
      | None => Panics
      | Some localHost =>
          let goal := NextCfg (config (target task)) in
          let hs := classifyHosts localHost (Hosts (TopCfg a)) (Hosts goal) in
          let task1 := mkInstaller (target task) true in
          let tt1 :=
            if installing task then tt
            else emit (EffSetDesiredServers localHost (allRemoteHosts hs))
                      (installTopology a tt) in
          match verifyRoots tt1 (fst <$> Root a) (allRemoteHosts hs) with
          | (_, Some e) =>
              let r := error (target task) e tt1 in
              Returned (r.1, task1, None, r.2)
          | (false, None) => Returned (tt1, task1, None, None)
          | (true, None) =>
              let rmIdsOld := NonEmpty (RMs (TopCfg a)) in
              match addedRMIds tt1 (rangeOver (hostsAdded hs)) [] with
              | None => Panics
              | Some added0 =>
                  match survivedRMIds tt1 (rangeOver (hostsSurvived hs))
                          (mkSurvival (assumeLost rmIdsOld) added0 []) with
                  | None => Panics
                  | Some s =>
                      let p := placeAll rmIdsOld s in
                      let removed :=
                        RMsRemoved (TopCfg a) ∪ list_to_set (rmIdsLost p) in
                      let next := withRMs goal (rmIdsNew p) removed in
                      let conds :=
                        Conditions.calculateMigrationConditions
                          (rmIdsAdded s) (rmIdsLost p) (rmIdsSurvived s)
                          (TopCfg a) next in
                      Returned
                        (tt1, task1,
                         Some (withNext a
                                 (mkNextConfiguration next
                                    (allRemoteHosts hs ++ [localHost])
                                    (rmIdsAdded s) (rmIdsSurvived s)
                                    (rmIdsLost p) (rmIdsAdded s) conds)),
                         None)
                  end
              end
          end
      end
  end.

End Calculation.

(** What a run of [calculateTargetTopology] that returns a topology has
    been through. *)
Lemma calculateTargetTopology_returns LocalRemoteHosts rangeOver task tt a
    tt' task' topology err :
  active tt = Some a ->
  calculateTargetTopology LocalRemoteHosts rangeOver task tt
  = Returned (tt', task', Some topology, err) ->
  exists localHost added0 s,
    let goal := NextCfg (config (target task)) in
    let hs := classifyHosts localHost (Hosts (TopCfg a)) (Hosts goal) in
    let rmIdsOld := NonEmpty (RMs (TopCfg a)) in
    let p := placeAll rmIdsOld s in
    let next :=
      withRMs goal (rmIdsNew p)
              (RMsRemoved (TopCfg a) ∪ list_to_set (rmIdsLost p)) in
    firstLocalHost LocalRemoteHosts (TopCfg a) = Some localHost
    /\ hostToConnection tt' = hostToConnection tt
    /\ verifyRoots tt' (fst <$> Root a) (allRemoteHosts hs) = (true, None)
    /\ addedRMIds tt' (rangeOver (hostsAdded hs)) [] = Some added0
    /\ survivedRMIds tt' (rangeOver (hostsSurvived hs))
         (mkSurvival (assumeLost rmIdsOld) added0 []) = Some s
    /\ err = None
    /\ topology
       = withNext a
           (mkNextConfiguration next (allRemoteHosts hs ++ [localHost])
              (rmIdsAdded s) (rmIdsSurvived s) (rmIdsLost p) (rmIdsAdded s)
              (Conditions.calculateMigrationConditions
                 (rmIdsAdded s) (rmIdsLost p) (rmIdsSurvived s) (TopCfg a) next)).
Proof.
  intros Ha. unfold calculateTargetTopology. rewrite Ha.
  destruct (firstLocalHost LocalRemoteHosts (TopCfg a)) as [localHost|];
    [|done].
  cbn zeta.
  set (hs := classifyHosts localHost (Hosts (TopCfg a))
               (Hosts (NextCfg (config (target task))))).
  set (tt1 := if installing task then tt else _).
  assert (Hh : hostToConnection tt1 = hostToConnection tt).
  { unfold tt1. by destruct (installing task). }
  destruct (verifyRoots tt1 (fst <$> Root a) (allRemoteHosts hs))
    as [[|] [e|]] eqn:Ev; try done.
  destruct (addedRMIds tt1 (rangeOver (hostsAdded hs)) []) as [added0|] eqn:Ea;
    [|done].
  destruct (survivedRMIds tt1 _ _) as [s|] eqn:Es; [|done].
  intros [= <- <- <- <-]. exists localHost, added0, s. by split_and!.
Qed.

Lemma removeFirst_last localHost remoteHosts :
  localHost ∉ remoteHosts ->
  removeFirst localHost (remoteHosts ++ [localHost]) = remoteHosts.
Proof.
  induction remoteHosts as [|host rest IH]; intros Hn; cbn.
  - by rewrite String.eqb_refl.
  - destruct (String.eqb host localHost) eqn:E.
    + apply String.eqb_eq in E. subst. exfalso. apply Hn. by left.
    + rewrite IH; [done|]. intros Hin. apply Hn. by right.
Qed.

(** The hosts of a calculated target.  [AllHosts] is the remote hosts
    followed by the local host: a host is remote when it is not the local
    one and is a host of the active or of the goal configuration, and
    every remote host is connected, with no root or with the root of the
    active topology; [AllHosts] repeats no host if neither configuration
    does; and [allHostsBarLocalHost] gives the remote hosts back. *)
Theorem target_hosts_all_known LocalRemoteHosts rangeOver task tt a
    tt' task' topology err :
  active tt = Some a ->
  calculateTargetTopology LocalRemoteHosts rangeOver task tt
  = Returned (tt', task', Some topology, err) ->
  exists localHost next remoteHosts,
    firstLocalHost LocalRemoteHosts (TopCfg a) = Some localHost
    /\ Next (TopCfg topology) = Some next
    /\ AllHosts next = remoteHosts ++ [localHost]
    /\ (forall h, h ∈ remoteHosts <->
          h <> localHost
          /\ (h ∈ Hosts (TopCfg a)
              \/ h ∈ Hosts (NextCfg (config (target task)))))
    /\ Forall (TaskHelpers.rootAgrees tt (fst <$> Root a)) remoteHosts
    /\ (NoDup (Hosts (TopCfg a)) ->
        NoDup (Hosts (NextCfg (config (target task)))) ->
        NoDup (AllHosts next))
    /\ allHostsBarLocalHost localHost next = remoteHosts.
Proof.
  intros Ha Hcalc.
  destruct (calculateTargetTopology_returns _ _ _ _ _ _ _ _ _ Ha Hcalc)
    as (localHost & added0 & s & Hl & Hh & Hv & _ & _ & _ & ->).
  destruct (classifyHosts_sets localHost (Hosts (TopCfg a))
              (Hosts (NextCfg (config (target task)))))
    as (_ & _ & Hrem & Hnd).
  set (hs := classifyHosts _ _ _) in *.
  assert (Hnl : localHost ∉ allRemoteHosts hs).
  { intros Hin. apply Hrem in Hin as [? _]. done. }
  eexists localHost, _, (allRemoteHosts hs).
  split_and!; [done|reflexivity|done|exact Hrem| | |].
  - apply TaskHelpers.verifyRoots_agrees in Hv.
    eapply Forall_impl; [exact Hv|]. intros h (cd & Hcd & Hr).
    exists cd. split; [|done]. by rewrite <- Hh.
  - intros Ho Hn. cbn. apply NoDup_app. split_and!.
    + by apply Hnd.
    + intros h Hin Hl'%list_elem_of_singleton. by subst.
    + apply NoDup_singleton.
  - unfold allHostsBarLocalHost. cbn. by apply removeFirst_last.
Qed.

(** The RM ids of a calculated target.  An RM id that survives keeps the
    slot it has among the RM ids of the active topology; every new RM id
    has a slot; all of the new RM ids are pending install; and no slot is
    given up. *)
Theorem target_rms_keep_slots LocalRemoteHosts rangeOver task tt a
    tt' task' topology err :
  active tt = Some a ->
  calculateTargetTopology LocalRemoteHosts rangeOver task tt
  = Returned (tt', task', Some topology, err) ->
  exists next,
    Next (TopCfg topology) = Some next
    /\ (forall i rmId,
          NonEmpty (RMs (TopCfg a)) !! i = Some rmId ->
          rmId ∈ SurvivingRMIds next ->
          RMs (NextCfg next) !! i = Some rmId)
    /\ (forall rmId, rmId ∈ NewRMIds next -> rmId ∈ RMs (NextCfg next))
    /\ PendingInstall next = NewRMIds next
    /\ (length (NonEmpty (RMs (TopCfg a))) <= length (RMs (NextCfg next)))%nat.
Proof.
  intros Ha Hcalc.
  destruct (calculateTargetTopology_returns _ _ _ _ _ _ _ _ _ Ha Hcalc)
    as (localHost & added0 & s & _ & _ & _ & _ & Hs & _ & ->).
  set (rmIdsOld := NonEmpty (RMs (TopCfg a))) in *.
  assert (Hne : forall k, k ∈ rmIdsOld -> k <> RMIdEmpty).
  { intros k Hk. unfold rmIdsOld, NonEmpty in Hk.
    by apply list_elem_of_filter in Hk as [? _]. }
  assert (Hsurv : survivalOf rmIdsOld s).
  { eapply survivedRMIds_survivalOf; [|exact Hs]. split_and!; cbn.
    - by intros k Hk%elem_of_nil.
    - intros k _ Hk. unfold assumeLost. rewrite assumeLost_fold.
      by rewrite decide_True.
    - intros k Hk. unfold assumeLost. rewrite assumeLost_fold.
      by rewrite decide_False.
    - by intros k Hk%elem_of_nil. }
  destruct Hsurv as (Hself & _ & _ & _).
  destruct (place_fold_new rmIdsOld
              (mkPlacement [] (rmIdsTranslation s) (rmIdsAdded s) []) Hne)
    as (placed & Hnew & Hlen & Hslot & used & Hcopy & Hused).
  cbn in Hnew, Hcopy, Hslot.
  eexists. split; [reflexivity|]. cbn. unfold placeAll. cbn. rewrite Hnew.
  split_and!.
  - intros i k Hi Hk. apply lookup_app_l_Some.
    apply Hslot; [done|]. by apply Hself.
  - intros k Hk. rewrite Hcopy in Hk. apply elem_of_app.
    apply elem_of_app in Hk as [Hk|Hk]; [left; by apply Hused|by right].
  - done.
  - rewrite length_app, Hlen. lia.
Qed.

(** The RM ids a calculated target loses.  The lost RM ids are the RM ids
    of the active topology that do not survive; every survivor is an RM id
    of the active topology; the target's removed set is the active one
    with the lost RM ids added; and [Pending] holds the migration
    conditions of these added, lost and surviving RM ids. *)
Theorem target_lost_and_removed LocalRemoteHosts rangeOver task tt a
    tt' task' topology err :
  active tt = Some a ->
  calculateTargetTopology LocalRemoteHosts rangeOver task tt
  = Returned (tt', task', Some topology, err) ->
  exists next,
    Next (TopCfg topology) = Some next
    /\ (forall rmId, rmId ∈ LostRMIds next <->
          rmId ∈ NonEmpty (RMs (TopCfg a)) /\ rmId ∉ SurvivingRMIds next)
    /\ (forall rmId, rmId ∈ SurvivingRMIds next ->
          rmId ∈ NonEmpty (RMs (TopCfg a)))
    /\ RMsRemoved (NextCfg next)
       = RMsRemoved (TopCfg a) ∪ list_to_set (LostRMIds next)
    /\ Pending next
       = Conditions.calculateMigrationConditions
           (NewRMIds next) (LostRMIds next) (SurvivingRMIds next)
           (TopCfg a) (NextCfg next).
Proof.
  intros Ha Hcalc.
  destruct (calculateTargetTopology_returns _ _ _ _ _ _ _ _ _ Ha Hcalc)
    as (localHost & added0 & s & _ & _ & _ & _ & Hs & _ & ->).
  set (rmIdsOld := NonEmpty (RMs (TopCfg a))) in *.
  assert (Hne : forall k, k ∈ rmIdsOld -> k <> RMIdEmpty).
  { intros k Hk. unfold rmIdsOld, NonEmpty in Hk.
    by apply list_elem_of_filter in Hk as [? _]. }
  assert (Hsurv : survivalOf rmIdsOld s).
  { eapply survivedRMIds_survivalOf; [|exact Hs]. split_and!; cbn.
    - by intros k Hk%elem_of_nil.
    - intros k _ Hk. unfold assumeLost. rewrite assumeLost_fold.
      by rewrite decide_True.
    - intros k Hk. unfold assumeLost. rewrite assumeLost_fold.
      by rewrite decide_False.
    - by intros k Hk%elem_of_nil. }
  destruct Hsurv as (Hself & Hlost & _ & Hsub).
  pose proof (place_fold_lost rmIdsOld
                (mkPlacement [] (rmIdsTranslation s) (rmIdsAdded s) []) Hne)
    as Hl.
  cbn in Hl.
  eexists. split; [reflexivity|]. cbn. split_and!; [|exact Hsub|done|done].
  intros k. rewrite Hl. split.
  - intros [Hk|[Hk Hd]]; [by apply elem_of_nil in Hk|]. split; [done|].
    intros Hin. rewrite (Hself k Hin) in Hd. cbn in Hd. by apply (Hne k).
  - intros [Hk Hn]. right. split; [done|]. by rewrite (Hlost k Hn Hk).
Qed.

(** *** Replacing one node

    RM 1 on h1, with h2 and h3, is asked for a cluster of h1, h2 and h4. *)

Definition replaceActive : Topology :=
  mkTopology
    (mkConfiguration "c" 1 ["h1"; "h2"; "h3"]%string 1 5 false [1; 2; 3] ∅ None)
    [1] (Some ([7], [0; 1; 2; 3; 4])).

Definition replaceGoal : NextConfiguration :=
  mkNextConfiguration
    (mkConfiguration "c" 2 ["h1"; "h2"; "h4"]%string 1 5 false [] ∅ None)
    [] [] [] [] [] ∅.

Definition connectionOf (host : string) (rmId : RMId) : Connection :=
  mkConnection host rmId 1 (Some [7]).

Definition replaceActor : TT :=
  mkTT 1 1 (Some replaceActive) None
       {[ "h1"%string := connectionOf "h1" 1; "h2"%string := connectionOf "h2" 2;
          "h3"%string := connectionOf "h3" 3; "h4"%string := connectionOf "h4" 4 ]}
       {[ 1 := connectionOf "h1" 1; 2 := connectionOf "h2" 2;
          3 := connectionOf "h3" 3; 4 := connectionOf "h4" 4 ]}
       ∅ [] (Some (mkTask InstallTargetOld replaceGoal false)) [].

Definition replaceTask : Installer :=
  mkInstaller (mkTask InstallTargetOld replaceGoal false) false.

Definition replaceRun
    : Result (TT * Installer * option Topology * option Error) :=
  calculateTargetTopology firstHostLocal elements replaceTask replaceActor.

Definition replaceTarget : Topology :=
  withNext replaceActive
    (mkNextConfiguration
       (withRMs (NextCfg replaceGoal) [1; 2; 4] {[ 3 ]})
       ["h2"; "h3"; "h4"; "h1"]%string [4] [1; 2] [3] [4]
       {[ 4 := mkCondSuppliers (Conditions.includesGenerator 4 3 0 3 []) [] ]}).

Definition replaceInstalled : TT :=
  emit (EffSetDesiredServers "h1" ["h2"; "h3"; "h4"]%string)
       (installTopology replaceActive replaceActor).

(** RM 4 takes the slot of RM 3, which is lost. *)
Example replace_one_node :
  replaceRun
  = Returned (replaceInstalled, mkInstaller (target replaceTask) true,
              Some replaceTarget, None).
Proof. vm_compute. reflexivity. Qed.

Lemma target_hosts_all_known_witness :
  exists localHost next remoteHosts,
    firstLocalHost firstHostLocal (TopCfg replaceActive) = Some localHost
    /\ Next (TopCfg replaceTarget) = Some next
    /\ AllHosts next = remoteHosts ++ [localHost]
    /\ (forall h, h ∈ remoteHosts <->
          h <> localHost
          /\ (h ∈ Hosts (TopCfg replaceActive)
              \/ h ∈ Hosts (NextCfg (config (target replaceTask)))))
    /\ Forall (TaskHelpers.rootAgrees replaceActor (fst <$> Root replaceActive))
              remoteHosts
    /\ (NoDup (Hosts (TopCfg replaceActive)) ->
        NoDup (Hosts (NextCfg (config (target replaceTask)))) ->
        NoDup (AllHosts next))
    /\ allHostsBarLocalHost localHost next = remoteHosts.
Proof.
  apply (target_hosts_all_known firstHostLocal elements replaceTask replaceActor
           replaceActive replaceInstalled (mkInstaller (target replaceTask) true)
           replaceTarget None eq_refl).
  vm_compute. reflexivity.
Defined.

Lemma target_rms_keep_slots_witness :
  exists next,
    Next (TopCfg replaceTarget) = Some next
    /\ (forall i rmId,
          NonEmpty (RMs (TopCfg replaceActive)) !! i = Some rmId ->
          rmId ∈ SurvivingRMIds next ->
          RMs (NextCfg next) !! i = Some rmId)
    /\ (forall rmId, rmId ∈ NewRMIds next -> rmId ∈ RMs (NextCfg next))
    /\ PendingInstall next = NewRMIds next
    /\ (length (NonEmpty (RMs (TopCfg replaceActive)))
        <= length (RMs (NextCfg next)))%nat.
Proof.
  apply (target_rms_keep_slots firstHostLocal elements replaceTask replaceActor
           replaceActive replaceInstalled (mkInstaller (target replaceTask) true)
           replaceTarget None eq_refl).
  vm_compute. reflexivity.
Defined.

Lemma target_lost_and_removed_witness :
  exists next,
    Next (TopCfg replaceTarget) = Some next
    /\ (forall rmId, rmId ∈ LostRMIds next <->
          rmId ∈ NonEmpty (RMs (TopCfg replaceActive))
          /\ rmId ∉ SurvivingRMIds next)
    /\ (forall rmId, rmId ∈ SurvivingRMIds next ->
          rmId ∈ NonEmpty (RMs (TopCfg replaceActive)))
    /\ RMsRemoved (NextCfg next)
       = RMsRemoved (TopCfg replaceActive) ∪ list_to_set (LostRMIds next)
    /\ Pending next
       = Conditions.calculateMigrationConditions
           (NewRMIds next) (LostRMIds next) (SurvivingRMIds next)
           (TopCfg replaceActive) (NextCfg next).
Proof.
  apply (target_lost_and_removed firstHostLocal elements replaceTask replaceActor
           replaceActive replaceInstalled (mkInstaller (target replaceTask) true)
           replaceTarget None eq_refl).
  vm_compute. reflexivity.
Defined.

End TargetTopology.

(** ** Installing the target ([installTargetOld.tick],
    [installTargetNew.tick], [installCompletion.tick])

    The transactions that tell the old and then the new RMs of the target,
    and the one that ends the change: which RMs they run on, what they
    leave to be done, and when they cannot be made. *)

Module InstallTasks.

Import Transmogrifier Msgs TopologyTxn MigrateTask TargetTopology.

Local Set Warnings "-clear-no-such-hyp".

(** The actor together with the goals that [shareGoalWithAll] has handed
    to [AddSender], the newest first. *)
Record Sharing := mkSharing {
  actor : TT;
  shared : list NextConfiguration
}.

Definition onActor (r : TT * option Error) (sh : Sharing)
    : Sharing * option Error :=
  (mkSharing r.1 (shared sh), r.2).

(** [task.completed()]. *)
Definition completed (t : Task) (tt : TT) : TT * option Error :=
  (setTask None (ensureRemoveTaskSender t tt), None).

(** [shareGoalWithAll]: the sender is made and added once; the task of the
    actor is the one that now has it. *)
Definition shareGoalWithAll (t : Task) (sh : Sharing) : Task * Sharing :=
  if sender t then (t, sh)
  else
    let t1 := mkTask (kind t) (config t) true in
    (t1, mkSharing (setTask (Some t1) (actor sh)) (config t :: shared sh)).

(** The calls of [rewriteTopology] among the effects, the newest first. *)
Definition rewrites (effs : list Effect)
    : list (Topology * Topology * RMIds * RMIds) :=
  flat_map (fun e => match e with
                     | EffRewriteTopology read write act pas =>
                         [(read, write, act, pas)]
                     | _ => []
                     end) effs.

(** What [tick] does with the answer of [rewriteTopology]. *)
Definition afterRewrite (t : Task) (sh : Sharing)
    (r : Result (option Topology * bool * option Error))
    : Result (Sharing * option Error) :=
  match r with
  | Panics => Panics
  | Blocks => Blocks
  | Returned (_, _, Some e) => Returned (onActor (fatal t e (actor sh)) sh)
  | Returned (_, true, None) =>
      Returned (mkSharing (emit EffEnqueueTick (actor sh)) (shared sh), None)
  | Returned (_, false, None) => Returned (sh, None)
  end.

(** *** What [calculateTargetTopology] leaves alone, and when it returns *)

Lemma calculateTargetTopology_frame LocalRemoteHosts rangeOver task tt
    tt1 task1 topology err :
  calculateTargetTopology LocalRemoteHosts rangeOver task tt
  = Returned (tt1, task1, topology, err) ->
  rewrites (effects tt1) = rewrites (effects tt)
  /\ activeConnections tt1 = activeConnections tt
  /\ active tt1 = active tt
  /\ target task1 = target task.
Proof.
  unfold calculateTargetTopology.
  destruct (active tt) as [a|] eqn:Ha; [|done].
  destruct (firstLocalHost LocalRemoteHosts (TopCfg a)) as [localHost|];
    [|done].
  cbn zeta.
  set (hs := classifyHosts localHost (Hosts (TopCfg a))
               (Hosts (NextCfg (config (target task))))).
  set (tt0 := if installing task then tt else _).
  assert (H0 : rewrites (effects tt0) = rewrites (effects tt)
               /\ activeConnections tt0 = activeConnections tt
               /\ active tt0 = active tt).
  { unfold tt0. by destruct (installing task). }
  destruct H0 as (H1 & H2 & H3). unfold rewrites in *.
  destruct (verifyRoots tt0 (fst <$> Root a) (allRemoteHosts hs))
    as [[|] [e|]].
  - intros [= <- <- <- <-]. unfold error, ensureRemoveTaskSender.
    destruct (sender (target task)); cbn; split_and!; try done; congruence.
  - destruct (addedRMIds tt0 (rangeOver (hostsAdded hs)) []); [|done].
    destruct (survivedRMIds tt0 _ _); [|done].
    intros [= <- <- <- <-]. split_and!; try done; congruence.
  - intros [= <- <- <- <-]. unfold error, ensureRemoveTaskSender.
    destruct (sender (target task)); cbn; split_and!; try done; congruence.
  - intros [= <- <- <- <-]. split_and!; try done; congruence.
Qed.

Lemma addedRMIds_returns tt hosts : forall acc,
  (forall h, h ∈ hosts -> is_Some (hostToConnection tt !! h)) ->
  is_Some (addedRMIds tt hosts acc).
Proof.
  induction hosts as [|host rest IH]; intros acc Hall; [done|].
  cbn. destruct (Hall host ltac:(by left)) as [cd ->].
  apply IH. intros h Hh. apply Hall. by right.
Qed.

Lemma survivedRMIds_returns tt hosts : forall s,
  (forall h, h ∈ hosts -> is_Some (hostToConnection tt !! h)) ->
  is_Some (survivedRMIds tt hosts s).
Proof.
  induction hosts as [|host rest IH]; intros s Hall; [done|].
  cbn. destruct (Hall host ltac:(by left)) as [cd ->].
  destruct (rmIdsTranslation s !! ConnRMId cd);
    apply IH; intros h Hh; apply Hall; by right.
Qed.

(** [calculateTargetTopology] returns when the node finds its local host
    and has a connection for it: the connections of the other hosts are
    there once [verifyRoots] has said yes. *)
Lemma calculateTargetTopology_total LocalRemoteHosts rangeOver task tt a localHost :
  (forall s, rangeOver s ≡ₚ elements s) ->
  active tt = Some a ->
  firstLocalHost LocalRemoteHosts (TopCfg a) = Some localHost ->
  is_Some (hostToConnection tt !! localHost) ->
  exists r, calculateTargetTopology LocalRemoteHosts rangeOver task tt
            = Returned r.
Proof.
  intros Hrange Ha Hl Hlocal. unfold calculateTargetTopology. rewrite Ha, Hl.
  cbn zeta.
  destruct (classifyHosts_sets localHost (Hosts (TopCfg a))
              (Hosts (NextCfg (config (target task)))))
    as (Hsurv & Hadd & Hrem & _).
  set (hs := classifyHosts localHost (Hosts (TopCfg a))
               (Hosts (NextCfg (config (target task))))) in *.
  set (tt0 := if installing task then tt else _).
  assert (H0 : hostToConnection tt0 = hostToConnection tt).
  { unfold tt0. by destruct (installing task). }
  destruct (verifyRoots tt0 (fst <$> Root a) (allRemoteHosts hs))
    as [[|] [e|]] eqn:Ev; eauto.
  apply TaskHelpers.verifyRoots_agrees in Ev.
  assert (Hconn : forall h,
    h ∈ Hosts (TopCfg a) \/ h ∈ Hosts (NextCfg (config (target task))) ->
    is_Some (hostToConnection tt0 !! h)).
  { intros h Hh. destruct (decide (h = localHost)) as [->|Hn].
    - by rewrite H0.
    - rewrite Forall_forall in Ev.
      destruct (Ev h) as (cd & -> & _); [|done]. by apply Hrem. }
  destruct (addedRMIds_returns tt0 (rangeOver (hostsAdded hs)) []) as [added0 ->].
  { intros h Hh. rewrite Hrange in Hh. apply elem_of_elements, Hadd in Hh.
    apply Hconn. right. by destruct Hh. }
  destruct (survivedRMIds_returns tt0 (rangeOver (hostsSurvived hs))
              (mkSurvival (assumeLost (NonEmpty (RMs (TopCfg a)))) added0 []))
    as [s ->]; [|eauto].
  intros h Hh. rewrite Hrange in Hh. apply elem_of_elements, Hsurv in Hh.
  apply Hconn. right. by destruct Hh.
Qed.

Lemma allocations_active tt rmIds :
  (forall rmId, rmId ∈ rmIds -> is_Some (activeConnections tt !! rmId)) ->
  is_Some (allocations tt true rmIds).
Proof.
  induction rmIds as [|rmId rest IH]; intros Hall; [done|].
  cbn. destruct (Hall rmId ltac:(by left)) as [cd ->]. cbn.
  destruct IH as [l ->]; [|done]. intros r Hr. apply Hall. by right.
Qed.

Lemma allocations_passive tt rmIds : is_Some (allocations tt false rmIds).
Proof.
  induction rmIds as [|rmId rest [l IH]]; [done|]. cbn. by rewrite IH.
Qed.

(** The transaction of a rewrite can be made when the topology written has
    a root and every active RM has a connection; [rewriteTopology] then
    returns. *)
Lemma rewriteTopology_returns Serialize deserialize tt read write act pas answer :
  Root write <> None ->
  (forall rmId, rmId ∈ act -> is_Some (activeConnections tt !! rmId)) ->
  exists r, rewriteTopology Serialize deserialize tt read write act pas answer
            = Returned r.
Proof.
  intros Hroot Hact. unfold rewriteTopology, createTopologyTransaction.
  destruct (Root write) as [root|]; [|done].
  destruct (allocations_active tt act Hact) as [aa ->].
  destruct (allocations_passive tt pas) as [pa ->].
  destruct (runOutcome answer) as [result|]; [|eauto].
  destruct (runErr answer) as [e|]; [eauto|].
  destruct (Which result) as [|[|updates]]; eauto.
  destruct (topologyOfRerun updates) as [e|[[dbversion value] references]];
    [eauto|].
  destruct (1 <? len references); [eauto|].
  destruct (TopologyFromCap _ _ _ _) as [e|topology]; eauto.
Qed.

Lemma majority_split (n1 n2 : Z) :
  0 <= n2 < n1 ->
  let fInc := Z.shiftr (n1 + n2) 1 + 1 in
  fInc = (n1 + n2) / 2 + 1 /\ 0 < fInc <= n1 /\ n1 + n2 < 2 * fInc.
Proof.
  intros H. cbn zeta. rewrite Z.shiftr_div_pow2 by lia.
  change (2 ^ 1) with 2.
  pose proof (Z.div_mod (n1 + n2) 2 ltac:(lia)).
  pose proof (Z.mod_pos_bound (n1 + n2) 2 ltac:(lia)). lia.
Qed.

Section Ticks.

Variable Serialize : Topology -> list Z.
Variable deserialize : list Z -> string + Configuration.
Variable LocalRemoteHosts : Configuration -> string + (string * list string).
Variable rangeOver : gset string -> list string.

(** [installTargetOld.tick], given the answer of [RunTransaction]. *)
Definition installTargetOld_tick (task : Installer) (sh : Sharing)
    (answer : RunResult) : Result (Sharing * Installer * option Error) :=
  match active (actor sh) with
  | None => Panics
  | Some a =>
      if negb (nextMissingOrOlder a (config (target task))) then
        let r := onActor (completed (target task) (actor sh)) sh in
        Returned (r.1, task, r.2)
      else
        match calculateTargetTopology LocalRemoteHosts rangeOver task (actor sh) with
        | Panics => Panics
        | Blocks => Blocks
        | Returned (tt1, task1, _, Some e) =>
            Returned (mkSharing tt1 (shared sh), task1, Some e)
        | Returned (tt1, task1, None, None) =>
            Returned (mkSharing tt1 (shared sh), task1, None)
        | Returned (tt1, task1, Some targetTopology, None) =>
            let shared1 := shareGoalWithAll (target task1) (mkSharing tt1 (shared sh)) in
            let t2 := shared1.1 in
            let task2 := mkInstaller t2 (installing task1) in
            let sh2 := shared1.2 in
            let ap := partitionByActiveConnection (actor sh2) [RMs (TopCfg a)] in
            if len ap.1 <=? len ap.2 then
              Returned (mkSharing (emit (EffLog "Can not make progress at this time due to too many failures") (actor sh2))
                                  (shared sh2), task2, None)
            else
              let fInc := Z.shiftr (len ap.1 + len ap.2) 1 + 1 in
              if len ap.1 <? fInc then Panics
              else
                let act := take (Z.to_nat fInc) ap.1 in
                let pas := drop (Z.to_nat fInc) ap.1 ++ ap.2 in
                let tt3 :=
                  emit (EffRewriteTopology a targetTopology act pas)
                       (emit (EffLog "Calculated target topology") (actor sh2)) in
                match afterRewrite t2 (mkSharing tt3 (shared sh2))
                        (rewriteTopology Serialize deserialize tt3 a
                           targetTopology act pas answer) with
                | Panics => Panics
                | Blocks => Blocks
                | Returned r => Returned (r.1, task2, r.2)
                end
        end
  end.

End Ticks.

Lemma afterRewrite_rewrites t sh r sh' err :
  afterRewrite t sh r = Returned (sh', err) ->
  rewrites (effects (actor sh')) = rewrites (effects (actor sh)).
Proof.
  unfold afterRewrite, onActor.
  destruct r as [[[top resubmit] [e|]]| |]; try done.
  - destruct resubmit; intros [= <- <-];
      unfold fatal, ensureRemoveTaskSender; cbn; by destruct (sender t).
  - destruct resubmit; by intros [= <- <-].
Qed.

Lemma partition_one tt rmIds :
  partitionByActiveConnection tt [rmIds]
  = (filter (TaskHelpers.connected tt) (NonEmpty rmIds),
     filter (fun rmId => ¬ TaskHelpers.connected tt rmId) (NonEmpty rmIds)).
Proof.
  unfold partitionByActiveConnection. rewrite TaskHelpers.partition_step.
  cbn [concat]. by rewrite app_nil_r.
Qed.

(** When [installTargetOld.tick] rewrites the topology, it reads the active
    topology and writes the calculated target, with a strict majority of
    the RMs of the active topology as actives: one more than half of its
    non-empty RM ids, each with a connection, and all the others as
    passives.  It does so at most once per tick. *)
Theorem installTargetOld_majority Serialize deserialize LocalRemoteHosts rangeOver
    task sh answer sh' task' err a :
  installTargetOld_tick Serialize deserialize LocalRemoteHosts rangeOver
    task sh answer = Returned (sh', task', err) ->
  active (actor sh) = Some a ->
  rewrites (effects (actor sh')) = rewrites (effects (actor sh))
  \/ exists write act pas,
       rewrites (effects (actor sh'))
       = (a, write, act, pas) :: rewrites (effects (actor sh))
       /\ (exists tt1 task1,
             calculateTargetTopology LocalRemoteHosts rangeOver task (actor sh)
             = Returned (tt1, task1, Some write, None))
       /\ len act = NonEmptyLen (RMs (TopCfg a)) / 2 + 1
       /\ act ++ pas ≡ₚ NonEmpty (RMs (TopCfg a))
       /\ (forall rmId, rmId ∈ act ->
             is_Some (activeConnections (actor sh) !! rmId))
       /\ len pas < len act.
Proof.
  intros Htick Ha. unfold installTargetOld_tick in Htick. rewrite Ha in Htick.
  destruct (negb _).
  { unfold onActor in Htick. cbn zeta in Htick. injection Htick as <- _ _.
    left. unfold completed, ensureRemoveTaskSender.
    cbn. by destruct (sender (target task)). }
  destruct (calculateTargetTopology LocalRemoteHosts rangeOver task (actor sh))
    as [[[[tt1 task1] [targetTopology|]] [e|]]| |] eqn:Ecalc; try done;
    destruct (calculateTargetTopology_frame _ _ _ _ _ _ _ _ Ecalc)
      as (Hrw & Hconn & _ & _);
    try (injection Htick as <- _ _; by left).
  cbn zeta in Htick.
  set (shared1 := shareGoalWithAll (target task1) (mkSharing tt1 (shared sh))) in *.
  assert (Hsh : effects (actor shared1.2) = effects tt1
                /\ activeConnections (actor shared1.2) = activeConnections tt1).
  { unfold shared1, shareGoalWithAll. by destruct (sender (target task1)). }
  destruct Hsh as [Heff Hac].
  rewrite partition_one in Htick. cbn [fst snd] in Htick.
  set (act0 := filter (TaskHelpers.connected (actor shared1.2))
                 (NonEmpty (RMs (TopCfg a)))) in *.
  set (pas0 := filter (fun rmId => ¬ TaskHelpers.connected (actor shared1.2) rmId)
                 (NonEmpty (RMs (TopCfg a)))) in *.
  destruct (len act0 <=? len pas0) eqn:Ele.
  { injection Htick as <- _ _. left. cbn. by rewrite Heff. }
  apply Z.leb_gt in Ele.
  destruct (majority_split (len act0) (len pas0)) as (HfInc & Hbound & Hmaj).
  { unfold len in *. lia. }
  set (fInc := Z.shiftr (len act0 + len pas0) 1 + 1) in *.
  destruct (len act0 <? fInc) eqn:Elt; [done|].
  set (tt3 := emit (EffRewriteTopology a targetTopology _ _) _) in *.
  destruct (afterRewrite shared1.1 (mkSharing tt3 (shared shared1.2)) _)
    as [[sh3 e3]| |] eqn:Eafter; try done.
  injection Htick as <- _ _.
  apply afterRewrite_rewrites in Eafter. cbn [actor fst] in Eafter |- *.
  right. exists targetTopology, (take (Z.to_nat fInc) act0),
    (drop (Z.to_nat fInc) act0 ++ pas0).
  assert (Hperm : act0 ++ pas0 ≡ₚ NonEmpty (RMs (TopCfg a))).
  { apply filter_app_complement. }
  assert (Hlen : len act0 + len pas0 = NonEmptyLen (RMs (TopCfg a))).
  { pose proof (Permutation_length Hperm) as Hl. rewrite length_app in Hl.
    unfold len, NonEmptyLen. rewrite <- Hl. by rewrite Nat2Z.inj_add. }
  assert (Htake : len (take (Z.to_nat fInc) act0) = fInc).
  { unfold len in *. rewrite length_take. lia. }
  split_and!.
  - rewrite Eafter. unfold tt3. cbn. f_equal. rewrite Heff. exact Hrw.
  - by exists tt1, task1.
  - rewrite Htake. by rewrite HfInc, Hlen.
  - rewrite app_assoc, take_drop. exact Hperm.
  - intros rmId Hin. apply (subseteq_take _ _ rmId) in Hin.
    apply list_elem_of_filter in Hin as [Hc _].
    unfold TaskHelpers.connected in Hc. by rewrite Hac, Hconn in Hc.
  - rewrite Htake. unfold len in *. rewrite length_app, length_drop. lia.
Qed.

(** [installTargetOld.tick] returns, whatever the transaction answers, when
    the active topology has a root and the node finds its local host and
    has a connection for it: no RM id is looked up without a connection and
    no slice is cut beyond its length. *)
Theorem installTargetOld_tick_returns Serialize deserialize LocalRemoteHosts
    rangeOver task sh answer a localHost :
  (forall s, rangeOver s ≡ₚ elements s) ->
  active (actor sh) = Some a ->
  Root a <> None ->
  firstLocalHost LocalRemoteHosts (TopCfg a) = Some localHost ->
  is_Some (hostToConnection (actor sh) !! localHost) ->
  exists r,
    installTargetOld_tick Serialize deserialize LocalRemoteHosts rangeOver
      task sh answer = Returned r.
Proof.
  intros Hrange Ha Hroot Hl Hlocal. unfold installTargetOld_tick. rewrite Ha.
  destruct (negb _); [eauto|].
  destruct (calculateTargetTopology_total LocalRemoteHosts rangeOver task
              (actor sh) a localHost Hrange Ha Hl Hlocal)
    as ([[[tt1 task1] top] e] & Ecalc).
  rewrite Ecalc.
  destruct (calculateTargetTopology_frame _ _ _ _ _ _ _ _ Ecalc)
    as (_ & Hconn & _ & _).
  destruct top as [targetTopology|], e as [e|]; [eauto| |eauto|eauto].
  destruct (calculateTargetTopology_returns _ _ _ _ _ _ _ _ _ Ha Ecalc)
    as (l' & added0 & s & _ & _ & _ & _ & _ & _ & Htop).
  cbv beta iota zeta.
  set (shared1 := shareGoalWithAll (target task1) (mkSharing tt1 (shared sh))) in *.
  assert (Hac : activeConnections (actor shared1.2) = activeConnections tt1).
  { unfold shared1, shareGoalWithAll. by destruct (sender (target task1)). }
  rewrite partition_one. cbn [fst snd].
  set (act0 := filter (TaskHelpers.connected (actor shared1.2))
                 (NonEmpty (RMs (TopCfg a)))) in *.
  set (pas0 := filter (fun rmId => ¬ TaskHelpers.connected (actor shared1.2) rmId)
                 (NonEmpty (RMs (TopCfg a)))) in *.
  destruct (len act0 <=? len pas0) eqn:Ele; [eauto|].
  apply Z.leb_gt in Ele.
  destruct (majority_split (len act0) (len pas0)) as (HfInc & Hbound & Hmaj).
  { unfold len in *. lia. }
  set (fInc := Z.shiftr (len act0 + len pas0) 1 + 1) in *.
  rewrite (proj2 (Z.ltb_ge _ _)) by lia.
  set (tt3 := emit (EffRewriteTopology a targetTopology _ _) _) in *.
  destruct (rewriteTopology_returns Serialize deserialize tt3 a targetTopology
              (take (Z.to_nat fInc) act0) (drop (Z.to_nat fInc) act0 ++ pas0)
              answer) as ([[top resubmit] e] & ->).
  - rewrite Htop. exact Hroot.
  - intros rmId Hin. apply (subseteq_take _ _ rmId) in Hin.
    apply list_elem_of_filter in Hin as [Hc _]. exact Hc.
  - unfold afterRewrite. destruct e as [e|]; destruct resubmit; eauto.
Qed.

(** *** Replacing one node, continued

    All three RMs of the active topology are connected: two of them run
    the rewrite as actives, the third is passive. *)

Definition replaceTick (answer : RunResult)
    : Result (Sharing * Installer * option Error) :=
  installTargetOld_tick (fun _ => [42]) decodeOne firstHostLocal elements
    replaceTask (mkSharing replaceActor []) answer.

Example replace_rewrites_with_two :
  match replaceTick (answerOf blankTxn Commit) with
  | Returned (sh', _, err) =>
      rewrites (effects (actor sh')) = [(replaceActive, replaceTarget, [1; 2], [3])]
      /\ err = None
  | _ => False
  end.
Proof. vm_compute. by split. Qed.

Lemma installTargetOld_majority_witness :
  exists sh' task' err,
    replaceTick (answerOf blankTxn Commit) = Returned (sh', task', err)
    /\ (rewrites (effects (actor sh'))
        = rewrites (effects (actor (mkSharing replaceActor [])))
        \/ exists write act pas,
             rewrites (effects (actor sh'))
             = (replaceActive, write, act, pas)
               :: rewrites (effects (actor (mkSharing replaceActor [])))
             /\ (exists tt1 task1,
                   calculateTargetTopology firstHostLocal elements replaceTask
                     (actor (mkSharing replaceActor []))
                   = Returned (tt1, task1, Some write, None))
             /\ len act = NonEmptyLen (RMs (TopCfg replaceActive)) / 2 + 1
             /\ act ++ pas ≡ₚ NonEmpty (RMs (TopCfg replaceActive))
             /\ (forall rmId, rmId ∈ act ->
                   is_Some (activeConnections (actor (mkSharing replaceActor []))
                              !! rmId))
             /\ len pas < len act).
Proof.
  assert (E : exists r, replaceTick (answerOf blankTxn Commit) = Returned r).
  { eexists. vm_compute. reflexivity. }
  destruct E as ([[sh' task'] err] & E).
  exists sh', task', err. split; [exact E|].
  exact (installTargetOld_majority (fun _ => [42]) decodeOne firstHostLocal
           elements replaceTask (mkSharing replaceActor [])
           (answerOf blankTxn Commit) sh' task' err replaceActive E eq_refl).
Defined.

Lemma installTargetOld_tick_returns_witness :
  exists r, replaceTick (answerOf blankTxn (OutcomeAbort Resubmit)) = Returned r.
Proof.
  apply (installTargetOld_tick_returns (fun _ => [42]) decodeOne firstHostLocal
           elements replaceTask (mkSharing replaceActor [])
           (answerOf blankTxn (OutcomeAbort Resubmit)) replaceActive "h1"%string).
  - intros s. reflexivity.
  - reflexivity.
  - done.
  - reflexivity.
  - vm_compute. eauto.
Defined.

(** *** [installTargetNew.tick]

    The debug lines of [server.Log] are not among the effects. *)

(** [s[:n]] panics unless [0 <= n] and [n] is within the slice.  Go lets
    [n] reach the capacity, which is not modelled: in both uses below
    [n <= len s] holds by construction. *)
Definition sliceTo {A} (s : list A) (n : Z) : option (list A) :=
  if (n <? 0) || (len s <? n) then None else Some (take (Z.to_nat n) s).

(** [next] when [next != nil && next.Version == task.config.Version &&
    len(next.PendingInstall) > 0]. *)
Definition goalPending (a : Topology) (goal : NextConfiguration)
    : option NextConfiguration :=
  match Next (TopCfg a) with
  | None => None
  | Some next =>
      if (Version (NextCfg next) =? Version (NextCfg goal))
         && (0 <? len (PendingInstall next))
      then Some next else None
  end.

(** The clone of the active topology with the updated [PendingInstall]. *)
Definition withPendingInstall (pendingInstall : RMIds) (a : Topology)
    (next : NextConfiguration) : Topology :=
  withNext a
    (mkNextConfiguration (NextCfg next) (AllHosts next) (NewRMIds next)
       (SurvivingRMIds next) (LostRMIds next) pendingInstall (Pending next)).

Section Extending.

Variable Serialize : Topology -> list Z.
Variable deserialize : list Z -> string + Configuration.
Variable LocalRemoteHosts : Configuration -> string + (string * list string).

(** [installTargetNew.tick], given the answer of [RunTransaction].
    [firstLocalHost] either finds a host or runs into the nil at the end of
    the chain, so its error is never seen. *)
Definition installTargetNew_tick (task : Installer) (sh : Sharing)
    (answer : RunResult) : Result (Sharing * Installer * option Error) :=
  match active (actor sh) with
  | None => Panics
  | Some a =>
      match goalPending a (config (target task)) with
      | None =>
          let r := onActor (completed (target task) (actor sh)) sh in
          Returned (r.1, task, r.2)
      | Some next =>
          match firstLocalHost LocalRemoteHosts (TopCfg a) with
          | None => Panics
          | Some localHost =>
              let remoteHosts := allHostsBarLocalHost localHost next in
              let tt1 :=
                if installing task then actor sh
                else emit (EffSetDesiredServers localHost remoteHosts)
                          (installTopology a (actor sh)) in
              let shared1 :=
                shareGoalWithAll (target task) (mkSharing tt1 (shared sh)) in
              let t2 := shared1.1 in
              let task2 := mkInstaller t2 true in
              let sh2 := shared1.2 in
              match verifyRoots (actor sh2) (fst <$> Root a) remoteHosts with
              | (_, Some e) =>
                  let r := onActor (error t2 e (actor sh2)) sh2 in
                  Returned (r.1, task2, r.2)
              | (false, None) => Returned (sh2, task2, None)
              | (true, None) =>
                  let added := NewRMIds next in
                  match sliceTo added (len added - len (PendingInstall next)) with
                  | None => Panics
                  | Some alreadyExtendedTo =>
                      let ap := partitionByActiveConnection (actor sh2)
                                  [SurvivingRMIds next; alreadyExtendedTo] in
                      let single := NonEmptyLen (RMs (TopCfg a)) =? 1 in
                      let maxPassive :=
                        if single then len ap.1 - 1 + 1 else len ap.1 - 1 in
                      let tt3 :=
                        if single
                        then emit (EffLog "You've asked to extend the cluster from a single node.")
                                  (actor sh2)
                        else actor sh2 in
                      if maxPassive - len ap.2 <=? 0 then
                        Returned (mkSharing (emit (EffLog "Topology change: No progress possible") tt3)
                                            (shared sh2), task2, None)
                      else
                        let passive1 := ap.2 ++ PendingInstall next in
                        let maxPassive1 :=
                          if len passive1 <? maxPassive then len passive1
                          else maxPassive in
                        match sliceTo passive1 maxPassive1 with
                        | None => Panics
                        | Some passive2 =>
                            let pendingInstall :=
                              drop (Z.to_nat maxPassive1) passive1 in
                            let pas := LostRMIds next ++ passive2 in
                            let topology :=
                              withPendingInstall pendingInstall a next in
                            let tt4 :=
                              emit (EffRewriteTopology a topology ap.1 pas)
                                (installTopology topology
                                   (emit (EffLog "Extending topology") tt3)) in
                            match afterRewrite t2 (mkSharing tt4 (shared sh2))
                                    (rewriteTopology Serialize deserialize tt4 a
                                       topology ap.1 pas answer) with
                            | Panics => Panics
                            | Blocks => Blocks
                            | Returned r => Returned (r.1, task2, r.2)
                            end
                        end
                  end
              end
          end
      end
  end.

End Extending.

Lemma partition_lists tt rmIdLists :
  partitionByActiveConnection tt rmIdLists
  = (filter (TaskHelpers.connected tt) (NonEmpty (concat rmIdLists)),
     filter (fun rmId => ¬ TaskHelpers.connected tt rmId)
            (NonEmpty (concat rmIdLists))).
Proof.
  unfold partitionByActiveConnection. by rewrite TaskHelpers.partition_step.
Qed.

Lemma verifyRoots_connections tt tt' rootId remoteHosts :
  hostToConnection tt = hostToConnection tt' ->
  verifyRoots tt rootId remoteHosts = verifyRoots tt' rootId remoteHosts.
Proof.
  intros H. induction remoteHosts as [|host rest IH]; [done|].
  cbn. rewrite H. destruct (hostToConnection tt' !! host) as [cd|]; [|done].
  destruct (ConnRootId cd); [|done]. by case_bool_decide.
Qed.

(** What the first steps of [installTargetNew.tick] leave alone. *)
Lemma extending_frame (installs : bool) localHost remoteHosts a t sh :
  let tt1 := if installs then actor sh
             else emit (EffSetDesiredServers localHost remoteHosts)
                       (installTopology a (actor sh)) in
  let sh2 := (shareGoalWithAll t (mkSharing tt1 (shared sh))).2 in
  rewrites (effects (actor sh2)) = rewrites (effects (actor sh))
  /\ activeConnections (actor sh2) = activeConnections (actor sh)
  /\ hostToConnection (actor sh2) = hostToConnection (actor sh).
Proof.
  cbn zeta. unfold shareGoalWithAll. by destruct installs, (sender t).
Qed.

Lemma sliceTo_Some {A} (s : list A) n r :
  sliceTo s n = Some r -> 0 <= n <= len s /\ r = take (Z.to_nat n) s.
Proof.
  unfold sliceTo. destruct (n <? 0) eqn:E1; [done|].
  destruct (len s <? n) eqn:E2; [done|]. intros [= <-].
  apply Z.ltb_ge in E1, E2. by split.
Qed.

Lemma sliceTo_is_Some {A} (s : list A) n :
  0 <= n <= len s -> sliceTo s n = Some (take (Z.to_nat n) s).
Proof.
  intros H. unfold sliceTo.
  by rewrite (proj2 (Z.ltb_ge _ _)), (proj2 (Z.ltb_ge _ _)) by lia.
Qed.

(** When [installTargetNew.tick] rewrites the topology it makes progress
    and stays safe: it reads the active topology and writes it with the
    first [k >= 1] RMs of [PendingInstall] taken off; the actives are the
    connected ones among the survivors and the RMs already extended to;
    the passives are the lost RMs, then the unconnected candidates, then
    the [k] RMs being installed; and the passives other than the lost ones
    are fewer than the actives (as many at most, when the cluster grows
    from a single node).  Otherwise the tick runs no rewrite. *)
Theorem installTargetNew_extends Serialize deserialize LocalRemoteHosts
    task sh answer sh' task' err a next :
  installTargetNew_tick Serialize deserialize LocalRemoteHosts task sh answer
  = Returned (sh', task', err) ->
  active (actor sh) = Some a ->
  Next (TopCfg a) = Some next ->
  rewrites (effects (actor sh')) = rewrites (effects (actor sh))
  \/ exists k : nat,
       let extended :=
         take (length (NewRMIds next) - length (PendingInstall next))
              (NewRMIds next) in
       let candidates := NonEmpty (SurvivingRMIds next ++ extended) in
       let act := filter (TaskHelpers.connected (actor sh)) candidates in
       let down :=
         filter (fun rmId => ¬ TaskHelpers.connected (actor sh) rmId)
                candidates in
       (1 <= k <= length (PendingInstall next))%nat
       /\ rewrites (effects (actor sh'))
          = (a, withPendingInstall (drop k (PendingInstall next)) a next, act,
             LostRMIds next ++ down ++ take k (PendingInstall next))
            :: rewrites (effects (actor sh))
       /\ len down + Z.of_nat k
          <= (if NonEmptyLen (RMs (TopCfg a)) =? 1 then len act
              else len act - 1)
       /\ Version (NextCfg next) = Version (NextCfg (config (target task)))
       /\ (length (PendingInstall next) <= length (NewRMIds next))%nat.
Proof.
  intros Htick Ha Hn. unfold installTargetNew_tick in Htick.
  rewrite Ha in Htick. unfold goalPending in Htick. rewrite Hn in Htick.
  destruct (Version (NextCfg next) =? _) eqn:Hv; cycle 1.
  { unfold onActor in Htick. cbn in Htick. injection Htick as <- _ _.
    left. unfold ensureRemoveTaskSender. cbn.
    by destruct (sender (target task)). }
  destruct (0 <? len (PendingInstall next)) eqn:Hpos; cycle 1.
  { unfold onActor in Htick. cbn in Htick. injection Htick as <- _ _.
    left. unfold ensureRemoveTaskSender. cbn.
    by destruct (sender (target task)). }
  cbn [andb] in Htick.
  destruct (firstLocalHost LocalRemoteHosts (TopCfg a)) as [localHost|];
    [|done].
  cbv beta zeta in Htick.
  destruct (extending_frame (installing task) localHost
              (allHostsBarLocalHost localHost next) a (target task) sh)
    as (Hrw & Hac & _).
  set (sh2 := (shareGoalWithAll (target task) _).2) in *.
  set (t2 := (shareGoalWithAll (target task) _).1) in *.
  destruct (verifyRoots (actor sh2) (fst <$> Root a) _) as [[|] [e|]].
  1,3: unfold onActor, error in Htick; cbn in Htick; injection Htick as <- _ _;
       left; unfold ensureRemoveTaskSender; cbn;
       by destruct (sender t2).
  2: { injection Htick as <- _ _. by left. }
  destruct (sliceTo (NewRMIds next) _) as [extended|] eqn:Eext; [|done].
  apply sliceTo_Some in Eext as [Hext ->].
  rewrite partition_lists in Htick. cbn [fst snd concat] in Htick.
  rewrite app_nil_r in Htick.
  assert (Hnat : Z.to_nat (len (NewRMIds next) - len (PendingInstall next))
                 = (length (NewRMIds next) - length (PendingInstall next))%nat).
  { unfold len. lia. }
  rewrite Hnat in Htick.
  set (candidates := NonEmpty (SurvivingRMIds next ++ take _ (NewRMIds next))) in *.
  assert (Hact : filter (TaskHelpers.connected (actor sh2)) candidates
                 = filter (TaskHelpers.connected (actor sh)) candidates).
  { apply list_filter_iff. intros rmId. unfold TaskHelpers.connected.
    by rewrite Hac. }
  assert (Hdown : filter (fun rmId => ¬ TaskHelpers.connected (actor sh2) rmId)
                    candidates
                  = filter (fun rmId => ¬ TaskHelpers.connected (actor sh) rmId)
                      candidates).
  { apply list_filter_iff. intros rmId. unfold TaskHelpers.connected.
    by rewrite Hac. }
  rewrite Hact, Hdown in Htick.
  set (act := filter (TaskHelpers.connected (actor sh)) candidates) in *.
  set (down := filter (fun rmId => ¬ TaskHelpers.connected (actor sh) rmId)
                 candidates) in *.
  set (single := NonEmptyLen (RMs (TopCfg a)) =? 1) in *.
  set (maxPassive := if single then len act - 1 + 1 else len act - 1) in *.
  set (tt3 := if single then emit _ (actor sh2) else actor sh2) in *.
  assert (Hrw3 : rewrites (effects tt3) = rewrites (effects (actor sh))).
  { unfold tt3. by destruct single. }
  destruct (maxPassive - len down <=? 0) eqn:Hprog.
  { injection Htick as <- _ _. left. cbn. exact Hrw3. }
  apply Z.leb_gt in Hprog. apply Z.ltb_lt in Hpos. apply Z.eqb_eq in Hv.
  set (maxPassive1 := if len (down ++ PendingInstall next) <? maxPassive
                      then len (down ++ PendingInstall next) else maxPassive) in *.
  destruct (sliceTo (down ++ PendingInstall next) maxPassive1)
    as [passive2|] eqn:Epas; [|done].
  apply sliceTo_Some in Epas as [Hmax ->].
  set (tt4 := emit (EffRewriteTopology _ _ _ _) _) in *.
  destruct (afterRewrite t2 (mkSharing tt4 (shared sh2)) _)
    as [[sh3 e3]| |] eqn:Eafter; try done.
  injection Htick as <- _ _.
  apply afterRewrite_rewrites in Eafter. cbn [actor fst] in Eafter |- *.
  assert (Hlen : len (down ++ PendingInstall next)
                 = len down + len (PendingInstall next)).
  { unfold len. rewrite length_app. lia. }
  assert (Hk : exists k : nat,
             Z.to_nat maxPassive1 = (length down + k)%nat
             /\ (1 <= k <= length (PendingInstall next))%nat
             /\ len down + Z.of_nat k <= maxPassive).
  { exists (Z.to_nat (maxPassive1 - len down)). unfold maxPassive1 in *.
    destruct (len (down ++ PendingInstall next) <? maxPassive) eqn:Hlt;
      [apply Z.ltb_lt in Hlt | apply Z.ltb_ge in Hlt];
      unfold len in *; lia. }
  destruct Hk as (k & Hk & Hbounds & Hsafe).
  right. exists k. cbv zeta. fold candidates. fold act. fold down.
  split; [exact Hbounds|]. split; [|split; [|split]].
  - rewrite Eafter. unfold tt4.
    rewrite Hk, drop_app_add', take_app_add' by done.
    cbn. f_equal. exact Hrw3.
  - fold single. unfold maxPassive in Hsafe. destruct single; lia.
  - exact Hv.
  - unfold len in Hext. lia.
Qed.

(** [installTargetNew.tick] returns, whatever the transaction answers, when
    the active topology has a root, the node finds its local host, and
    [PendingInstall] is no longer than [NewRMIds]: no slice is cut out of
    its bounds and no RM id is looked up without a connection. *)
Theorem installTargetNew_tick_returns Serialize deserialize LocalRemoteHosts
    task sh answer a localHost :
  active (actor sh) = Some a ->
  Root a <> None ->
  firstLocalHost LocalRemoteHosts (TopCfg a) = Some localHost ->
  (forall next, Next (TopCfg a) = Some next ->
     (length (PendingInstall next) <= length (NewRMIds next))%nat) ->
  exists r,
    installTargetNew_tick Serialize deserialize LocalRemoteHosts task sh answer
    = Returned r.
Proof.
  intros Ha Hroot Hl Hpi. unfold installTargetNew_tick, goalPending.
  rewrite Ha. destruct (Next (TopCfg a)) as [next|] eqn:Hn; [|eauto].
  specialize (Hpi next eq_refl).
  destruct (_ && _); [|eauto]. rewrite Hl. cbv beta zeta.
  destruct (extending_frame (installing task) localHost
              (allHostsBarLocalHost localHost next) a (target task) sh)
    as (_ & Hac & _).
  set (sh2 := (shareGoalWithAll (target task) _).2) in *.
  set (t2 := (shareGoalWithAll (target task) _).1) in *.
  destruct (verifyRoots (actor sh2) (fst <$> Root a) _) as [[|] [e|]]; eauto.
  rewrite sliceTo_is_Some by (unfold len; lia).
  rewrite partition_lists. cbn [fst snd].
  set (act := filter (TaskHelpers.connected (actor sh2)) _).
  set (down := filter (fun rmId => ¬ TaskHelpers.connected (actor sh2) rmId) _).
  set (single := NonEmptyLen (RMs (TopCfg a)) =? 1).
  set (maxPassive := if single then len act - 1 + 1 else len act - 1).
  set (tt3 := if single then emit _ (actor sh2) else actor sh2).
  destruct (maxPassive - len down <=? 0) eqn:Hprog; [eauto|].
  apply Z.leb_gt in Hprog.
  set (maxPassive1 := if len (down ++ PendingInstall next) <? maxPassive
                      then len (down ++ PendingInstall next) else maxPassive).
  rewrite sliceTo_is_Some; cycle 1.
  { unfold maxPassive1.
    destruct (len (down ++ PendingInstall next) <? maxPassive) eqn:Hlt;
      [apply Z.ltb_lt in Hlt | apply Z.ltb_ge in Hlt]; unfold len in *; lia. }
  set (tt4 := emit (EffRewriteTopology _ _ _ _) _).
  destruct (rewriteTopology_returns Serialize deserialize tt4 a
              (withPendingInstall (drop (Z.to_nat maxPassive1)
                                     (down ++ PendingInstall next)) a next)
              act (LostRMIds next ++ take (Z.to_nat maxPassive1)
                                       (down ++ PendingInstall next))
              answer) as ([[top resubmit] e] & ->).
  - exact Hroot.
  - intros rmId Hin. apply list_elem_of_filter in Hin as [Hc _].
    unfold tt4, tt3. by destruct single.
  - unfold afterRewrite. destruct e as [e|]; destruct resubmit; eauto.
Qed.

(** A topology whose [PendingInstall] is longer than its [NewRMIds] stops
    [installTargetNew.tick] with a panic, on the slice of the RMs already
    extended to, as soon as every remote host is there with the right
    root. *)
Theorem installTargetNew_overlong_pending_panics Serialize deserialize
    LocalRemoteHosts task sh answer a next localHost :
  active (actor sh) = Some a ->
  goalPending a (config (target task)) = Some next ->
  firstLocalHost LocalRemoteHosts (TopCfg a) = Some localHost ->
  verifyRoots (actor sh) (fst <$> Root a) (allHostsBarLocalHost localHost next)
  = (true, None) ->
  (length (NewRMIds next) < length (PendingInstall next))%nat ->
  installTargetNew_tick Serialize deserialize LocalRemoteHosts task sh answer
  = Panics.
Proof.
  intros Ha Hg Hl Hroots Hlong. unfold installTargetNew_tick.
  rewrite Ha, Hg, Hl. cbv beta zeta.
  destruct (extending_frame (installing task) localHost
              (allHostsBarLocalHost localHost next) a (target task) sh)
    as (_ & _ & Hhc).
  rewrite (verifyRoots_connections _ (actor sh) _ _ Hhc).
  match goal with
  | |- context [verifyRoots ?tt ?rootId ?hosts] =>
      replace (verifyRoots tt rootId hosts) with (true, @None string)
        by (symmetry; exact Hroots)
  end.
  unfold sliceTo.
  by rewrite (proj2 (Z.ltb_lt _ _)) by (unfold len; lia).
Qed.

(** *** Replacing one node, continued: the new RM is installed

    The target is active with RM 4 pending.  RMs 1 and 2 survive and are
    connected, so one passive is allowed next to the lost RM 3: RM 4. *)

Definition extendNext : NextConfiguration :=
  default replaceGoal (Next (TopCfg replaceTarget)).

Definition extendActor (a : Topology) : Sharing :=
  mkSharing (setActiveTopology (Some a) replaceActor) [].

Definition extendTask : Installer :=
  mkInstaller (mkTask InstallTargetNew replaceGoal false) false.

Definition extendTick (a : Topology) (answer : RunResult)
    : Result (Sharing * Installer * option Error) :=
  installTargetNew_tick (fun _ => [42]) decodeOne firstHostLocal extendTask
    (extendActor a) answer.

Definition overlongTarget : Topology :=
  withPendingInstall [4; 5] replaceTarget extendNext.

Example extend_installs_pending :
  match extendTick replaceTarget (answerOf blankTxn Commit) with
  | Returned (sh', _, err) =>
      rewrites (effects (actor sh'))
      = [(replaceTarget, withPendingInstall [] replaceTarget extendNext,
          [1; 2], [3; 4])]
      /\ err = None
  | _ => False
  end.
Proof. vm_compute. by split. Qed.

Lemma installTargetNew_extends_witness :
  exists sh' task' err,
    extendTick replaceTarget (answerOf blankTxn Commit)
    = Returned (sh', task', err)
    /\ (rewrites (effects (actor sh'))
        = rewrites (effects (actor (extendActor replaceTarget)))
        \/ exists k : nat,
             let extended :=
               take (length (NewRMIds extendNext)
                     - length (PendingInstall extendNext))
                    (NewRMIds extendNext) in
             let candidates :=
               NonEmpty (SurvivingRMIds extendNext ++ extended) in
             let act :=
               filter (TaskHelpers.connected (actor (extendActor replaceTarget)))
                      candidates in
             let down :=
               filter (fun rmId =>
                         ¬ TaskHelpers.connected
                             (actor (extendActor replaceTarget)) rmId)
                      candidates in
             (1 <= k <= length (PendingInstall extendNext))%nat
             /\ rewrites (effects (actor sh'))
                = (replaceTarget,
                   withPendingInstall (drop k (PendingInstall extendNext))
                     replaceTarget extendNext,
                   act,
                   LostRMIds extendNext ++ down
                   ++ take k (PendingInstall extendNext))
                  :: rewrites (effects (actor (extendActor replaceTarget)))
             /\ len down + Z.of_nat k
                <= (if NonEmptyLen (RMs (TopCfg replaceTarget)) =? 1
                    then len act else len act - 1)
             /\ Version (NextCfg extendNext)
                = Version (NextCfg (config (target extendTask)))
             /\ (length (PendingInstall extendNext)
                 <= length (NewRMIds extendNext))%nat).
Proof.
  assert (E : exists r,
    extendTick replaceTarget (answerOf blankTxn Commit) = Returned r).
  { eexists. vm_compute. reflexivity. }
  destruct E as ([[sh' task'] err] & E).
  exists sh', task', err. split; [exact E|].
  exact (installTargetNew_extends (fun _ => [42]) decodeOne firstHostLocal
           extendTask (extendActor replaceTarget) (answerOf blankTxn Commit)
           sh' task' err replaceTarget extendNext E eq_refl eq_refl).
Defined.

Lemma installTargetNew_tick_returns_witness :
  exists r,
    extendTick replaceTarget (answerOf blankTxn (OutcomeAbort Resubmit))
    = Returned r.
Proof.
  apply (installTargetNew_tick_returns (fun _ => [42]) decodeOne firstHostLocal
           extendTask (extendActor replaceTarget)
           (answerOf blankTxn (OutcomeAbort Resubmit)) replaceTarget "h1"%string).
  - reflexivity.
  - done.
  - reflexivity.
  - intros next [= <-]. vm_compute. lia.
Defined.

Lemma installTargetNew_overlong_pending_panics_witness :
  extendTick overlongTarget (answerOf blankTxn Commit) = Panics.
Proof.
  apply (installTargetNew_overlong_pending_panics (fun _ => [42]) decodeOne
           firstHostLocal extendTask (extendActor overlongTarget)
           (answerOf blankTxn Commit) overlongTarget
           (default replaceGoal (Next (TopCfg overlongTarget))) "h1"%string).
  - reflexivity.
  - vm_compute. reflexivity.
  - reflexivity.
  - vm_compute. reflexivity.
  - vm_compute. lia.
Defined.

(** *** [installCompletion.tick] *)

(** [next] when [next != nil && next.Version == task.config.Version &&
    len(next.PendingInstall) == 0 && len(next.Pending) == 0]. *)
Definition goalMigrated (a : Topology) (goal : NextConfiguration)
    : option NextConfiguration :=
  match Next (TopCfg a) with
  | None => None
  | Some next =>
      if (Version (NextCfg next) =? Version (NextCfg goal))
         && (len (PendingInstall next) =? 0)
         && (Z.of_nat (size (Pending next)) =? 0)
      then Some next else None
  end.

Section Completing.

Variable Serialize : Topology -> list Z.
Variable deserialize : list Z -> string + Configuration.
Variable LocalRemoteHosts : Configuration -> string + (string * list string).

(** [Topology.SetConfiguration] is the configuration package's: what a
    clone of the first argument is once its configuration has been set. *)
Variable SetConfiguration : Topology -> Configuration -> Topology.

(** [installCompletion.tick], given the answer of [RunTransaction]. *)
Definition installCompletion_tick (task : Installer) (sh : Sharing)
    (answer : RunResult) : Result (Sharing * Installer * option Error) :=
  match active (actor sh) with
  | None => Panics
  | Some a =>
      match goalMigrated a (config (target task)) with
      | None =>
          let r := onActor (completed (target task) (actor sh)) sh in
          Returned (r.1, task, r.2)
      | Some next =>
          match firstLocalHost LocalRemoteHosts (TopCfg a) with
          | None => Panics
          | Some localHost =>
              let remoteHosts := allHostsBarLocalHost localHost next in
              let tt1 :=
                if installing task then actor sh
                else emit (EffSetDesiredServers localHost remoteHosts)
                          (installTopology a (actor sh)) in
              let shared1 :=
                shareGoalWithAll (target task) (mkSharing tt1 (shared sh)) in
              let t2 := shared1.1 in
              let task2 := mkInstaller t2 true in
              let sh2 := shared1.2 in
              match verifyRoots (actor sh2) (fst <$> Root a) remoteHosts with
              | (_, Some e) =>
                  let r := onActor (error t2 e (actor sh2)) sh2 in
                  Returned (r.1, task2, r.2)
              | (false, None) => Returned (sh2, task2, None)
              | (true, None) =>
                  let ap := partitionByActiveConnection (actor sh2)
                              [RMs (NextCfg next)] in
                  if len ap.1 <=? len ap.2 then Returned (sh2, task2, None)
                  else
                    let pas := ap.2 ++ LostRMIds next in
                    let topology := SetConfiguration a (NextCfg next) in
                    let tt3 :=
                      emit (EffRewriteTopology a topology ap.1 pas) (actor sh2) in
                    match afterRewrite t2 (mkSharing tt3 (shared sh2))
                            (rewriteTopology Serialize deserialize tt3 a
                               topology ap.1 pas answer) with
                    | Panics => Panics
                    | Blocks => Blocks
                    | Returned r => Returned (r.1, task2, r.2)
                    end
              end
          end
      end
  end.

End Completing.

(** When [installCompletion.tick] rewrites the topology, the migration is
    over and a strict majority of the new cluster is there: the active
    topology has the goal's version with nothing pending; it is read, and
    written with the configuration of its [next]; the actives are all the
    connected RMs of the new configuration, the passives its unconnected
    ones, fewer than the actives, followed by the lost RMs.  Otherwise the
    tick runs no rewrite. *)
Theorem installCompletion_majority Serialize deserialize LocalRemoteHosts
    SetConfiguration task sh answer sh' task' err a next :
  installCompletion_tick Serialize deserialize LocalRemoteHosts SetConfiguration
    task sh answer = Returned (sh', task', err) ->
  active (actor sh) = Some a ->
  Next (TopCfg a) = Some next ->
  rewrites (effects (actor sh')) = rewrites (effects (actor sh))
  \/ (let rmIds := NonEmpty (RMs (NextCfg next)) in
      let act := filter (TaskHelpers.connected (actor sh)) rmIds in
      let down :=
        filter (fun rmId => ¬ TaskHelpers.connected (actor sh) rmId) rmIds in
      rewrites (effects (actor sh'))
      = (a, SetConfiguration a (NextCfg next), act, down ++ LostRMIds next)
        :: rewrites (effects (actor sh))
      /\ len down < len act
      /\ NonEmptyLen (RMs (NextCfg next)) < 2 * len act
      /\ Version (NextCfg next) = Version (NextCfg (config (target task)))
      /\ PendingInstall next = []
      /\ Pending next = ∅).
Proof.
  intros Htick Ha Hn. unfold installCompletion_tick in Htick.
  rewrite Ha in Htick. unfold goalMigrated in Htick. rewrite Hn in Htick.
  destruct ((Version (NextCfg next) =? Version (NextCfg (config (target task))))
            && (len (PendingInstall next) =? 0)
            && (Z.of_nat (size (Pending next)) =? 0)) eqn:Hgoal; cycle 1.
  { unfold onActor in Htick. cbn in Htick. injection Htick as <- _ _.
    left. unfold ensureRemoveTaskSender. cbn.
    by destruct (sender (target task)). }
  apply andb_prop in Hgoal as [Hgoal Hpending].
  apply andb_prop in Hgoal as [Hv Hpi].
  apply Z.eqb_eq in Hv, Hpi, Hpending.
  destruct (firstLocalHost LocalRemoteHosts (TopCfg a)) as [localHost|];
    [|done].
  cbv beta zeta in Htick.
  destruct (extending_frame (installing task) localHost
              (allHostsBarLocalHost localHost next) a (target task) sh)
    as (Hrw & Hac & _).
  set (sh2 := (shareGoalWithAll (target task) _).2) in *.
  set (t2 := (shareGoalWithAll (target task) _).1) in *.
  match type of Htick with
  | context [verifyRoots ?tt ?rootId ?hosts] =>
      destruct (verifyRoots tt rootId hosts) as [[|] [e|]]
  end.
  1,3: unfold onActor, error in Htick; cbn in Htick; injection Htick as <- _ _;
       left; unfold ensureRemoveTaskSender; cbn;
       by destruct (sender t2).
  2: { injection Htick as <- _ _. by left. }
  rewrite partition_one in Htick. cbn [fst snd] in Htick.
  set (rmIds := NonEmpty (RMs (NextCfg next))) in *.
  assert (Hact : filter (TaskHelpers.connected (actor sh2)) rmIds
                 = filter (TaskHelpers.connected (actor sh)) rmIds).
  { apply list_filter_iff. intros rmId. unfold TaskHelpers.connected.
    by rewrite Hac. }
  assert (Hdown : filter (fun rmId => ¬ TaskHelpers.connected (actor sh2) rmId)
                    rmIds
                  = filter (fun rmId => ¬ TaskHelpers.connected (actor sh) rmId)
                      rmIds).
  { apply list_filter_iff. intros rmId. unfold TaskHelpers.connected.
    by rewrite Hac. }
  rewrite Hact, Hdown in Htick.
  set (act := filter (TaskHelpers.connected (actor sh)) rmIds) in *.
  set (down := filter (fun rmId => ¬ TaskHelpers.connected (actor sh) rmId)
                 rmIds) in *.
  destruct (len act <=? len down) eqn:Ele.
  { injection Htick as <- _ _. by left. }
  apply Z.leb_gt in Ele.
  set (tt3 := emit (EffRewriteTopology _ _ _ _) _) in *.
  destruct (afterRewrite t2 (mkSharing tt3 (shared sh2)) _)
    as [[sh3 e3]| |] eqn:Eafter; try done.
  injection Htick as <- _ _.
  apply afterRewrite_rewrites in Eafter. cbn [actor fst] in Eafter |- *.
  right. cbv zeta. fold rmIds. fold act. fold down.
  assert (Hperm : act ++ down ≡ₚ rmIds) by apply filter_app_complement.
  split_and!.
  - rewrite Eafter. unfold tt3. cbn. f_equal. exact Hrw.
  - exact Ele.
  - pose proof (Permutation_length Hperm) as Hl. rewrite length_app in Hl.
    unfold NonEmptyLen. fold rmIds. unfold len in *. lia.
  - exact Hv.
  - destruct (PendingInstall next); [done|]. unfold len in Hpi. cbn in Hpi. lia.
  - apply map_size_empty_iff. lia.
Qed.

(** *** Replacing one node, continued: the change is completed

    RM 4 is installed and nothing is pending any more.  RMs 1, 2 and 4 of
    the new configuration are connected and run the rewrite; the lost RM 3
    is passive. *)

Definition completeTarget : Topology :=
  withPending ∅ (withPendingInstall [] replaceTarget extendNext).

Definition completeNext : NextConfiguration :=
  default replaceGoal (Next (TopCfg completeTarget)).

Definition setConfiguration (a : Topology) (c : Configuration) : Topology :=
  mkTopology c (DBVersion a) (Root a).

Definition completeTick (answer : RunResult)
    : Result (Sharing * Installer * option Error) :=
  installCompletion_tick (fun _ => [42]) decodeOne firstHostLocal
    setConfiguration
    (mkInstaller (mkTask InstallCompletion replaceGoal false) false)
    (extendActor completeTarget) answer.

Example complete_rewrites_with_new_cluster :
  match completeTick (answerOf blankTxn Commit) with
  | Returned (sh', _, err) =>
      rewrites (effects (actor sh'))
      = [(completeTarget, setConfiguration completeTarget (NextCfg completeNext),
          [1; 2; 4], [3])]
      /\ err = None
  | _ => False
  end.
Proof. vm_compute. by split. Qed.

Lemma installCompletion_majority_witness :
  exists sh' task' err,
    completeTick (answerOf blankTxn Commit) = Returned (sh', task', err)
    /\ (rewrites (effects (actor sh'))
        = rewrites (effects (actor (extendActor completeTarget)))
        \/ (let rmIds := NonEmpty (RMs (NextCfg completeNext)) in
            let act :=
              filter (TaskHelpers.connected (actor (extendActor completeTarget)))
                     rmIds in
            let down :=
              filter (fun rmId =>
                        ¬ TaskHelpers.connected
                            (actor (extendActor completeTarget)) rmId)
                     rmIds in
            rewrites (effects (actor sh'))
            = (completeTarget,
               setConfiguration completeTarget (NextCfg completeNext),
               act, down ++ LostRMIds completeNext)
              :: rewrites (effects (actor (extendActor completeTarget)))
            /\ len down < len act
            /\ NonEmptyLen (RMs (NextCfg completeNext)) < 2 * len act
            /\ Version (NextCfg completeNext) = Version (NextCfg replaceGoal)
            /\ PendingInstall completeNext = []
            /\ Pending completeNext = ∅)).
Proof.
  assert (E : exists r, completeTick (answerOf blankTxn Commit) = Returned r).
  { eexists. vm_compute. reflexivity. }
  destruct E as ([[sh' task'] err] & E).
  exists sh', task', err. split; [exact E|].
  exact (installCompletion_majority (fun _ => [42]) decodeOne firstHostLocal
           setConfiguration
           (mkInstaller (mkTask InstallCompletion replaceGoal false) false)
           (extendActor completeTarget) (answerOf blankTxn Commit)
           sh' task' err completeTarget completeNext E eq_refl eq_refl).
Defined.

(** *** When the topology transaction cannot be made *)

Lemma allocations_active_connected tt rmIds :
  is_Some (allocations tt true rmIds) <->
  forall rmId, rmId ∈ rmIds -> is_Some (activeConnections tt !! rmId).
Proof.
  split; [|apply allocations_active].
  induction rmIds as [|rmId rest IH]; intros Hsome r Hr.
  { by apply elem_of_nil in Hr. }
  cbn in Hsome.
  destruct (activeConnections tt !! rmId) as [cd|] eqn:Hcd; cbn in Hsome;
    [|by destruct Hsome].
  destruct (allocations tt true rest) as [allocs|] eqn:Hrest;
    [|by destruct Hsome].
  apply elem_of_cons in Hr as [->|Hr]; [by rewrite Hcd|].
  by apply IH.
Qed.

(** [createTopologyTransaction] panics in exactly three cases: it is asked
    to read a topology without writing one; it is asked to replace a
    topology by one that has no root; or one of the active RMs has no
    connection.  The passive RMs need no connection. *)
Theorem createTopologyTransaction_panics_iff Serialize tt read write act pas :
  createTopologyTransaction Serialize tt read write act pas = None <->
  (write = None /\ read <> None)
  \/ (exists rd wr, read = Some rd /\ write = Some wr /\ Root wr = None)
  \/ (exists rmId, rmId ∈ act /\ activeConnections tt !! rmId = None).
Proof.
  assert (Hact : allocations tt true act = None <->
                 exists rmId, rmId ∈ act /\ activeConnections tt !! rmId = None).
  { split.
    - induction act as [|rmId rest IH]; [done|]. cbn.
      destruct (activeConnections tt !! rmId) as [cd|] eqn:Hcd; cbn.
      + destruct (allocations tt true rest) as [allocs|]; [done|].
        intros _. destruct (IH eq_refl) as (r & Hr & Hn).
        exists r. split; [by right|done].
      + intros _. exists rmId. split; [by left|done].
    - intros (rmId & Hin & Hn).
      destruct (allocations tt true act) eqn:E; [|done].
      assert (Hs : is_Some (allocations tt true act)) by (by rewrite E).
      rewrite allocations_active_connected in Hs.
      destruct (Hs rmId Hin) as [cd Hcd]. congruence. }
  destruct (allocations_passive tt pas) as [pa Hpas].
  unfold createTopologyTransaction. rewrite Hpas.
  destruct write as [wr|], read as [rd|].
  - destruct (Root wr) as [root|] eqn:Hroot.
    + destruct (allocations tt true act) as [aa|] eqn:Ea.
      * split; [done|]. intros [[? _]|[(rd' & wr' & [= <-] & [= <-] & Hr)|Hc]];
          [done|congruence|]. apply Hact in Hc. congruence.
      * split; [|done]. intros _. right. right. by apply Hact.
    + split; [|done]. intros _. right. left. by exists rd, wr.
  - destruct (allocations tt true act) as [aa|] eqn:Ea.
    + split; [done|]. intros [[? _]|[(rd' & wr' & ? & _)|Hc]];
        [done|done|]. apply Hact in Hc. congruence.
    + split; [|done]. intros _. right. right. by apply Hact.
  - split; [|done]. intros _. by left.
  - destruct (allocations tt true act) as [aa|] eqn:Ea.
    + split; [done|]. intros [[_ ?]|[(rd' & wr' & ? & _)|Hc]];
        [done|done|]. apply Hact in Hc. congruence.
    + split; [|done]. intros _. right. right. by apply Hact.
Qed.

End InstallTasks.

(** ** Whom the emigrator sends to ([emigrator.ConnectedRMs],
    [emigrator.ConnectionEstablished], [emigrator.startBatch])

    The emigrator makes a batch per connected RM that waits for
    variables, and starts an iterator on them. *)

Module Emigration.

Import Msgs Emigrator.

(** The emigrator, with the id of the RM it runs on
    ([connectionManager.RMId]) and the topology it was made with. *)
Record emigrator := mkEmigrator {
  connectionManagerRMId : RMId;
  topology : Topology
}.

Section Starting.

Variable SatisfiedBy : Cond -> list Z -> option bool.
Variable disk : Disk.

(** The order in which a [range] over the pending conditions yields
    them. *)
Variable rangeOver : Conds -> list (RMId * CondSuppliers).

(** [startBatch]: what the iterator it starts does. *)
Definition startBatch (batch : list sendBatch) : list Effect :=
  (iterate SatisfiedBy disk batch []).2.

(** One round of the loop of [ConnectedRMs]: the batch for an entry of
    [Pending], if it is not this RM's and the RM is connected. *)
Definition batchFor (e : emigrator) (conns : gmap Z Z) (nextVersion : Z)
    (entry : RMId * CondSuppliers) : option sendBatch :=
  if bool_decide (entry.1 = connectionManagerRMId e) then None
  else (fun conn => newBatch nextVersion (conn, CSCond entry.2))
       <$> conns !! entry.1.

(** [emigrator.ConnectedRMs], with the connections by their RM ids:
    [None] is the nil dereference of a topology without [next]. *)
Definition ConnectedRMs (e : emigrator) (conns : gmap Z Z)
    : option (list Effect) :=
  match Next (TopCfg (topology e)) with
  | None => None
  | Some next =>
      let batchConds :=
        omap (batchFor e conns (Version (NextCfg next)))
             (rangeOver (Pending next)) in
      if (0 <? length batchConds)%nat then Some (startBatch batchConds)
      else Some []
  end.

(** [emigrator.ConnectionEstablished]. *)
Definition ConnectionEstablished (e : emigrator) (rmId : RMId) (conn : Z)
    : option (list Effect) :=
  if bool_decide (rmId = connectionManagerRMId e) then Some []
  else
    match Next (TopCfg (topology e)) with
    | None => None
    | Some next =>
        match Pending next !! rmId with
        | Some cond =>
            Some (startBatch [newBatch (Version (NextCfg next))
                                       (conn, CSCond cond)])
        | None => Some []
        end
    end.

(** What the emigrator may send: a migration of the next version, on the
    connection of an RM other than itself that has a pending condition. *)
Definition toPending (e : emigrator) (next : NextConfiguration)
    (connOf : RMId -> option Z) (ef : Effect) : Prop :=
  match ef with
  | EffSend c migration =>
      MigVersion migration = Version (NextCfg next)
      /\ exists rmId, rmId <> connectionManagerRMId e
                      /\ is_Some (Pending next !! rmId)
                      /\ connOf rmId = Some c
  | _ => True
  end.

Lemma startBatch_targets nextVersion targets :
  Forall (fun ef => match ef with
                    | EffSend c migration =>
                        MigVersion migration = nextVersion
                        /\ exists target, target ∈ targets /\ c = target.1
                    | _ => True
                    end)
         (startBatch (newBatch nextVersion <$> targets)).
Proof.
  unfold startBatch.
  destruct (Batches.iterate_tracks SatisfiedBy disk _ _
              (Batches.newBatch_tracks nextVersion targets))
    as (sent & Hs & [->| ->]);
    cbn [snd]; [|apply Forall_app; split; [|by repeat constructor]];
    (eapply Forall_impl; [exact Hs|]);
    (intros [c m| |]; cbn; [|done|done]);
    intros (_ & _ & i & Hi & -> & ->);
    apply list_elem_of_fmap in Hi as (target & -> & Ht); cbn; eauto.
Qed.

Lemma batchFor_targets e conns nextVersion
    (entries : list (RMId * CondSuppliers)) :
  exists targets : list (Z * Cond),
    omap (batchFor e conns nextVersion) entries = newBatch nextVersion <$> targets
    /\ forall target, target ∈ targets ->
         exists entry, entry ∈ entries
                       /\ entry.1 <> connectionManagerRMId e
                       /\ conns !! entry.1 = Some target.1.
Proof.
  induction entries as [|entry rest (targets & Heq & Hin)].
  { exists []. split; [done|]. intros ? H. by apply elem_of_nil in H. }
  cbn. unfold batchFor at 1. case_bool_decide as Hself.
  { exists targets. split; [done|]. intros target Ht.
    destruct (Hin target Ht) as (en & ? & ? & ?). exists en.
    split; [by right|done]. }
  destruct (conns !! entry.1) as [conn|] eqn:Hconn; cbn.
  - exists ((conn, CSCond entry.2) :: targets). rewrite Heq. split; [done|].
    intros target Ht. apply elem_of_cons in Ht as [->|Ht].
    + exists entry. split; [by left|]. by split.
    + destruct (Hin target Ht) as (en & ? & ? & ?). exists en.
      split; [by right|done].
  - exists targets. split; [done|]. intros target Ht.
    destruct (Hin target Ht) as (en & ? & ? & ?). exists en.
    split; [by right|done].
Qed.

End Starting.

(** The emigrator sends migrations only where they are awaited: whatever
    is on the disk, every migration sent by the iterators that
    [ConnectedRMs] and [ConnectionEstablished] start carries the version
    of the next configuration and goes on the connection of an RM, other
    than the emigrator's own, that has a pending condition in the next
    configuration. *)
Theorem emigrator_sends_to_pending SatisfiedBy disk rangeOver e next :
  (forall pending : Conds, rangeOver pending ≡ₚ map_to_list pending) ->
  Next (TopCfg (topology e)) = Some next ->
  (forall conns,
     exists effs,
       ConnectedRMs SatisfiedBy disk rangeOver e conns = Some effs
       /\ Forall (toPending e next (fun rmId => conns !! rmId)) effs)
  /\ (forall rmId conn,
        exists effs,
          ConnectionEstablished SatisfiedBy disk e rmId conn = Some effs
          /\ Forall (toPending e next
                       (fun r => if bool_decide (r = rmId) then Some conn
                                 else None)) effs).
Proof.
  intros Hrange Hnext. split.
  - intros conns. unfold ConnectedRMs. rewrite Hnext. cbv zeta.
    destruct (batchFor_targets e conns (Version (NextCfg next))
                (rangeOver (Pending next))) as (targets & -> & Hin).
    destruct (0 <? length _)%nat; [|by exists []].
    eexists. split; [done|].
    eapply Forall_impl; [apply startBatch_targets|].
    intros [c m| |]; cbn; [|done|done].
    intros (Hv & target & Ht & ->). split; [done|].
    destruct (Hin target Ht) as ([rmId cs] & Hen & Hself & Hconn).
    exists rmId. split; [done|]. split; [|done].
    rewrite Hrange in Hen. apply elem_of_map_to_list in Hen. by exists cs.
  - intros rmId conn. unfold ConnectionEstablished.
    case_bool_decide as Hself; [by exists []|]. rewrite Hnext.
    destruct (Pending next !! rmId) as [cs|] eqn:Hp; [|by exists []].
    eexists. split; [done|].
    eapply Forall_impl;
      [apply (startBatch_targets SatisfiedBy disk (Version (NextCfg next))
                [(conn, CSCond cs)])|].
    intros [c m| |]; cbn; [|done|done].
    intros (Hv & target & Ht & ->). split; [done|].
    apply list_elem_of_singleton in Ht as ->.
    exists rmId. split; [done|]. split; [by exists cs|].
    by rewrite bool_decide_eq_true_2.
Qed.

(** The emigrator of RM 1 while RM 4 is being installed: the variable on
    the disk goes to RM 4. *)
Definition replacingEmigrator : emigrator :=
  mkEmigrator 1 TargetTopology.replaceTarget.

Definition mapOrder (pending : Conds) : list (RMId * CondSuppliers) :=
  map_to_list pending.

Example emigrator_sends_variable :
  ConnectedRMs everywhere oneVarDisk mapOrder replacingEmigrator
    {[ 1 := 1; 2 := 2; 4 := 4 ]}
  = Some [EffSend 4 (mkMigration 2 [writeTxn txn1 [xId]] [xVar]); EffAddSender].
Proof. vm_compute. reflexivity. Qed.

Lemma emigrator_sends_to_pending_witness :
  (forall conns,
     exists effs,
       ConnectedRMs everywhere oneVarDisk mapOrder replacingEmigrator conns
       = Some effs
       /\ Forall (toPending replacingEmigrator InstallTasks.extendNext
                    (fun rmId => conns !! rmId)) effs)
  /\ (forall rmId conn,
        exists effs,
          ConnectionEstablished everywhere oneVarDisk replacingEmigrator
            rmId conn = Some effs
          /\ Forall (toPending replacingEmigrator InstallTasks.extendNext
                       (fun r => if bool_decide (r = rmId) then Some conn
                                 else None)) effs).
Proof.
  apply (emigrator_sends_to_pending everywhere oneVarDisk mapOrder
           replacingEmigrator InstallTasks.extendNext).
  - intros pending. reflexivity.
  - reflexivity.
Defined.

End Emigration.

(** ** Topology changes at the variable manager
    ([VarManager.TopologyChanged], [VarManager.SetInactive])

    Every topology change handed to the manager is signalled [Done]
    once. *)

Module TopologyChanges.

Import VarManager.

(** A [TopologyChange] object: its identity, its topology ([None] is nil;
    otherwise what [NextBarrierReached1] and [NextBarrierReached2] of the
    configuration package say of it for this RM), and whether it has a
    callback for the variable subscriber. *)
Record TopologyChange := mkTopologyChange {
  changeId : nat;
  Topology : option (bool * bool);
  HasCallbackFor : bool
}.

(** The panics of [SetInactive]. *)
Inductive Inactive (A : Type) :=
| Deleted (a : A)
| InactiveButMissing                (* "inactive but doesn't exist!" *)
| InactiveButDifferent.             (* "inactive but different var!" *)
Arguments Deleted {A} a.
Arguments InactiveButMissing {A}.
Arguments InactiveButDifferent {A}.

Section Changes.

Context {Var : Type}.
Variable UUId : Var -> VarUUId.
Variable isIdle : Var -> bool.
Variable isOnDisk : Var -> bool.
Variable NewVar : VarUUId -> Var.
Variable VarFromData : list Z -> Var + Error.
Variable dbGet : VarUUId -> ReadResult.

(** What [TopologyChanged] enqueues on the manager's executor.  The field
    [vm.Topology] is only written by the functions modelled. *)
Definition TopologyChanged (tc : TopologyChange) (vm : VM Var) : VM Var :=
  let vm1 :=
    match onDisk vm with
    | Some old =>
        mkVM (active vm) (vars vm) (allocated vm) (RollAllowed vm) None
             (effects vm ++ [EffDone old])
    | None => vm
    end in
  let rollAllowed :=
    match Topology tc with
    | None => true
    | Some (_, reached2) => negb reached2
    end in
  let goingToDisk :=
    match Topology tc with
    | None => false
    | Some (reached1, reached2) => reached1 && negb reached2
    end in
  if goingToDisk && HasCallbackFor tc then
    checkAllDisk isOnDisk
      (mkVM (active vm1) (vars vm1) (allocated vm1) rollAllowed
            (Some (changeId tc)) (effects vm1))
  else
    mkVM (active vm1) (vars vm1) (allocated vm1) rollAllowed (onDisk vm1)
         (effects vm1 ++ [EffDone (changeId tc)]).

(** [SetInactive], for the object at address [v]. *)
Definition SetInactive (v : nat) (vm : VM Var) : Inactive (VM Var) :=
  match active vm !! UUId (vars vm v) with
  | None => InactiveButMissing
  | Some v1 =>
      if negb (Nat.eqb v1 v) then InactiveButDifferent
      else Deleted (setActive (delete (UUId (vars vm v)) (active vm)) vm)
  end.

(** What reaches the manager's executor. *)
Inductive Op :=
| OpTopologyChanged (tc : TopologyChange)
| OpApplyToVar (fun_ : Fun Var) (createIfMissing : bool) (uuid : VarUUId)
| OpSetInactive (v : nat).

Definition step (op : Op) (vm : VM Var) : option (VM Var) :=
  match op with
  | OpTopologyChanged tc => Some (TopologyChanged tc vm)
  | OpApplyToVar fun_ createIfMissing uuid =>
      match ApplyToVar UUId isIdle isOnDisk NewVar VarFromData dbGet
              fun_ createIfMissing uuid vm with
      | Completed vm1 => Some vm1
      | Panicked _ => None
      end
  | OpSetInactive v =>
      match SetInactive v vm with
      | Deleted vm1 => Some vm1
      | _ => None
      end
  end.

(** The manager after the operations [ops], unless one of them panics. *)
Fixpoint run (ops : list Op) (vm : VM Var) : option (VM Var) :=
  match ops with
  | [] => Some vm
  | op :: rest =>
      match step op vm with
      | Some vm1 => run rest vm1
      | None => None
      end
  end.

(** The changes received, in order. *)
Definition received (ops : list Op) : list nat :=
  flat_map (fun op => match op with
                      | OpTopologyChanged tc => [changeId tc]
                      | _ => []
                      end) ops.

(** The changes signalled [Done], in order. *)
Definition signalled (vm : VM Var) : list nat :=
  (fun e => match e with EffDone tc => tc end) <$> effects vm.

(** The changes signalled, and then the one waited on. *)
Definition accounted (vm : VM Var) : list nat :=
  signalled vm ++ option_list (onDisk vm).

(** A supplied function that leaves the topology change alone. *)
Definition quiet (fun_ : Fun Var) : Prop :=
  forall v err vm,
    onDisk (fun_ v err vm) = onDisk vm /\ effects (fun_ v err vm) = effects vm.

Definition allQuiet (ops : list Op) : Prop :=
  Forall (fun op => match op with
                    | OpApplyToVar fun_ _ _ => quiet fun_
                    | _ => True
                    end) ops.

Lemma checkAllDisk_accounted vm :
  accounted (checkAllDisk isOnDisk vm) = accounted vm.
Proof.
  unfold checkAllDisk, accounted, signalled.
  destruct (onDisk vm) as [tc|] eqn:Eo; [|by rewrite Eo].
  destruct (forallb _ _); [|by rewrite Eo]. cbn.
  by rewrite fmap_app, app_nil_r.
Qed.

Lemma TopologyChanged_accounted tc vm :
  accounted (TopologyChanged tc vm) = accounted vm ++ [changeId tc].
Proof.
  unfold TopologyChanged.
  set (vm1 := match onDisk vm with Some old => _ | None => vm end).
  assert (H1 : accounted vm1 = accounted vm /\ onDisk vm1 = None).
  { unfold vm1, accounted, signalled. destruct (onDisk vm) as [old|] eqn:Eo; cbn.
    - by rewrite fmap_app, app_nil_r.
    - by rewrite Eo. }
  destruct H1 as [H1 H2]. cbv zeta.
  destruct (_ && HasCallbackFor tc).
  - rewrite checkAllDisk_accounted, <- H1. unfold accounted, signalled. cbn.
    by rewrite H2, app_nil_r.
  - rewrite <- H1. unfold accounted, signalled. cbn.
    by rewrite H2, fmap_app, !app_nil_r.
Qed.

Lemma findOrCreate_accounted createIfMissing uuid vm r vm1 :
  findOrCreate UUId NewVar VarFromData dbGet createIfMissing uuid vm
  = Completed (r, vm1) ->
  onDisk vm1 = onDisk vm /\ effects vm1 = effects vm.
Proof.
  unfold findOrCreate, find.
  destruct (active vm !! uuid) as [v|]; [by intros [= <- <-]|].
  destruct (dbGet uuid) as [err|[|code]|bites]; try done.
  - destruct (bool_decide (err = NotFound) && createIfMissing);
      by intros [= <- <-].
  - cbn. destruct createIfMissing; by intros [= <- <-].
  - destruct (VarFromData bites) as [var|err]; [by intros [= <- <-]|].
    destruct (bool_decide (err = NotFound) && createIfMissing);
      by intros [= <- <-].
Qed.

Lemma step_accounted op vm vm1 :
  match op with OpApplyToVar fun_ _ _ => quiet fun_ | _ => True end ->
  step op vm = Some vm1 ->
  accounted vm1 = accounted vm ++ received [op].
Proof.
  destruct op as [tc|fun_ createIfMissing uuid|v]; cbn; intros Hq.
  - intros [= <-]. by rewrite TopologyChanged_accounted.
  - unfold ApplyToVar.
    destruct (findOrCreate _ _ _ _ _ _ _) as [[[v|err] vm2]|p] eqn:Ef;
      [| |done]; apply findOrCreate_accounted in Ef as [Ho He].
    + destruct (_ && _); [done|]. intros [= <-].
      rewrite checkAllDisk_accounted, app_nil_r. unfold accounted, signalled.
      destruct (Hq (Some v) None vm2) as [-> ->]. by rewrite Ho, He.
    + intros [= <-]. rewrite app_nil_r. unfold accounted, signalled.
      destruct (Hq None (Some err) vm2) as [-> ->]. by rewrite Ho, He.
  - unfold SetInactive. destruct (active vm !! _) as [v1|]; [|done].
    destruct (negb _); [done|]. intros [= <-]. by rewrite app_nil_r.
Qed.

End Changes.

(** Every topology change is signalled once: after any operations of the
    manager that do not panic, on variables whose functions leave the
    topology change alone, the changes signalled [Done] so far, followed
    by the one the manager waits for on disk if there is one, are exactly
    the changes received, each once and in the order of their arrival. *)
Theorem topology_changes_signalled_once {Var : Type} (UUId : Var -> VarUUId)
    isIdle isOnDisk NewVar VarFromData dbGet ops (vm vm' : VM Var) :
  allQuiet ops ->
  run UUId isIdle isOnDisk NewVar VarFromData dbGet ops vm = Some vm' ->
  accounted vm' = accounted vm ++ received ops.
Proof.
  revert vm. induction ops as [|op rest IH]; intros vm Hq Hrun.
  { injection Hrun as <-. by rewrite app_nil_r. }
  apply Forall_cons in Hq as [Hop Hrest]. cbn [run] in Hrun.
  destruct (step _ _ _ _ _ _ op vm) as [vm1|] eqn:Es; [|done].
  rewrite (IH vm1 Hrest Hrun).
  rewrite (step_accounted _ _ _ _ _ _ op vm vm1 Hop Es).
  rewrite <- app_assoc. f_equal. unfold received. cbn. by rewrite app_nil_r.
Qed.

(** Two changes and a variable that reaches the disk in between: the
    first change waits for the variable, the second is signalled at
    once. *)
Definition toDisk : TopologyChange := mkTopologyChange 7 (Some (true, false)) true.
Definition settled : TopologyChange := mkTopologyChange 8 (Some (true, true)) true.

Definition busyVar : VM VarObj :=
  mkVM {[ u1 := 0%nat ]} (fun _ => mkVar u1 true false) 1 true None [].

Definition writeOut : Fun VarObj :=
  fun _ _ vm =>
    mkVM (active vm) (fun _ => mkVar u1 true true) (allocated vm)
         (RollAllowed vm) (onDisk vm) (effects vm).

Definition changeRun : list (Op (Var := VarObj)) :=
  [OpTopologyChanged toDisk; OpApplyToVar writeOut false u1;
   OpTopologyChanged settled].

Definition runVars : list (Op (Var := VarObj)) -> VM VarObj -> option (VM VarObj) :=
  run varUUId varIdle varOnDisk freshVar noData emptyDb.

Example change_waits_for_disk :
  (effects <$> runVars [OpTopologyChanged toDisk] busyVar) = Some []
  /\ (effects <$> runVars [OpTopologyChanged toDisk;
                           OpApplyToVar writeOut false u1] busyVar)
     = Some [EffDone 7]
  /\ (effects <$> runVars changeRun busyVar) = Some [EffDone 7; EffDone 8].
Proof. vm_compute. by split_and!. Qed.

Lemma topology_changes_signalled_once_witness :
  exists vm',
    runVars changeRun busyVar = Some vm'
    /\ accounted vm' = accounted busyVar ++ received changeRun.
Proof.
  assert (E : exists vm', runVars changeRun busyVar = Some vm').
  { eexists. vm_compute. reflexivity. }
  destruct E as (vm' & E). exists vm'. split; [exact E|].
  apply (topology_changes_signalled_once varUUId varIdle varOnDisk freshVar
           noData emptyDb changeRun busyVar vm'); [|exact E].
  repeat constructor.
Defined.

End TopologyChanges.

(** ** Joining a cluster ([joinCluster.tick])

    A node with the blank topology learns from its peers whether they all
    join a new cluster, belong to one cluster already, or belong to
    different ones. *)

Module Joining.

Import Transmogrifier MigrateTask InstallTasks.

Local Set Warnings "-clear-no-such-hyp".

(** How a tick of [joinCluster] ends: it returns, or it ends in the call
    [task.allJoining(allRMIds)], or it panics. *)
Inductive Joined :=
| JoinReturned (sh : Sharing) (err : option Error)
| JoinAll (sh : Sharing) (allRMIds : RMIds)
| JoinPanics.

(** How the loop over the hosts ends. *)
Inductive Collected :=
| Collect (rmIds : RMIds) (rootId : option VarUUId)
| Merge                             (* the roots differ: fatal *)
| NilConnection.                    (* [cd.RMId()] on a missing connection *)

(** The second loop of [joinCluster.tick]: the RM ids of the remote hosts
    and the first root among them, as long as the roots agree. *)
Fixpoint collect (tt : TT) (localHost : string) (hosts : list string)
    (rmIds : RMIds) (rootId : option VarUUId) : Collected :=
  match hosts with
  | [] => Collect rmIds rootId
  | host :: rest =>
      if String.eqb host localHost then collect tt localHost rest rmIds rootId
      else
        match hostToConnection tt !! host with
        | None => NilConnection
        | Some cd =>
            let rmIds1 := rmIds ++ [ConnRMId cd] in
            match ConnRootId cd, rootId with
            | None, _ => collect tt localHost rest rmIds1 rootId
            | Some remoteRootId, None =>
                collect tt localHost rest rmIds1 (Some remoteRootId)
            | Some remoteRootId, Some root =>
                if bool_decide (root = remoteRootId)
                then collect tt localHost rest rmIds1 rootId
                else Merge
            end
        end
  end.

Section Join.

Variable LocalRemoteHosts : Configuration -> string + (string * list string).

Definition joinCluster_tick (t : Task) (sh : Sharing) : Joined :=
  match active (actor sh) with
  | None => JoinPanics
  | Some a =>
      if negb (Version (TopCfg a) =? 0) then
        let r := onActor (completed t (actor sh)) sh in
        JoinReturned r.1 r.2
      else
        match LocalRemoteHosts (NextCfg (config t)) with
        | inl e =>
            let r := onActor (fatal t (ErrExternal e) (actor sh)) sh in
            JoinReturned r.1 r.2
        | inr (localHost, remoteHosts) =>
            let tt1 := emit (EffSetDesiredServers localHost remoteHosts)
                            (installTopology a (actor sh)) in
            let shared1 := shareGoalWithAll t (mkSharing tt1 (shared sh)) in
            let t2 := shared1.1 in
            let sh2 := shared1.2 in
            let hosts := Hosts (NextCfg (config t)) in
            if negb (forallb
                       (fun host =>
                          bool_decide (is_Some (hostToConnection (actor sh2) !! host)))
                       hosts)
            then JoinReturned sh2 None
            else
              match collect (actor sh2) localHost hosts [] None with
              | NilConnection => JoinPanics
              | Merge =>
                  let r :=
                    onActor
                      (fatal t2
                         (ErrExternal "Attempt made to merge different logical clusters together, which is illegal. Aborting.")
                         (actor sh2)) sh2 in
                  JoinReturned r.1 r.2
              | Collect rmIds None =>
                  JoinAll sh2 (rmIds ++ [SelfRMId (actor sh2)])
              | Collect rmIds (Some _) =>
                  JoinReturned
                    (mkSharing
                       (emit (EffLog "Requesting help from existing cluster members for topology change.")
                             (actor sh2))
                       (shared sh2))
                    None
              end
        end
  end.

End Join.

(** The remote hosts among [hosts], the RM ids of their connections and
    the roots these connections have. *)
Definition remoteAmong (localHost : string) (hosts : list string) : list string :=
  filter (fun host => host <> localHost) hosts.

Definition remoteRMIds (tt : TT) (localHost : string) (hosts : list string)
    : RMIds :=
  omap (fun host => ConnRMId <$> hostToConnection tt !! host)
       (remoteAmong localHost hosts).

Definition remoteRoots (tt : TT) (localHost : string) (hosts : list string)
    : list VarUUId :=
  omap (fun host => hostToConnection tt !! host ≫= ConnRootId)
       (remoteAmong localHost hosts).

Definition allKnown (tt : TT) (hosts : list string) : Prop :=
  Forall (fun host => is_Some (hostToConnection tt !! host)) hosts.

Lemma remoteAmong_cons localHost host rest :
  remoteAmong localHost (host :: rest)
  = if String.eqb host localHost then remoteAmong localHost rest
    else host :: remoteAmong localHost rest.
Proof.
  unfold remoteAmong. rewrite TaskHelpers.filter_step.
  destruct (String.eqb_spec host localHost) as [->|Hne].
  - by rewrite decide_False by (by intros ?).
  - by rewrite decide_True.
Qed.

Lemma collect_agrees tt localHost hosts : forall rmIds rootId,
  allKnown tt hosts ->
  collect tt localHost hosts rmIds rootId
  = match option_list rootId ++ remoteRoots tt localHost hosts with
    | [] => Collect (rmIds ++ remoteRMIds tt localHost hosts) None
    | root :: others =>
        if forallb (fun other => bool_decide (root = other)) others
        then Collect (rmIds ++ remoteRMIds tt localHost hosts) (Some root)
        else Merge
    end.
Proof.
  unfold remoteRoots, remoteRMIds.
  induction hosts as [|host rest IH]; intros rmIds rootId Hall.
  { cbn. rewrite !app_nil_r. by destruct rootId. }
  apply Forall_cons in Hall as [[cd Hcd] Hrest].
  cbn [collect]. rewrite remoteAmong_cons.
  destruct (String.eqb host localHost); [by apply IH|].
  rewrite Hcd. cbn [omap list_omap]. rewrite Hcd. cbn.
  destruct (ConnRootId cd) as [remoteRootId|] eqn:Er; cbn.
  - destruct rootId as [root|]; cbn.
    + case_bool_decide as Heq; cbn; [|done].
      rewrite (IH _ (Some root) Hrest). cbn. by rewrite <- app_assoc.
    + rewrite (IH _ (Some remoteRootId) Hrest). cbn. by rewrite <- app_assoc.
  - rewrite (IH _ rootId Hrest). by rewrite <- app_assoc.
Qed.

(** [joinCluster.tick] on the blank topology, once it has found the local
    host in the goal: it goes on to [allJoining] exactly when every host of
    the goal has a connection and no remote host has a root, and then with
    the RM ids of the remote hosts, in the order of the hosts, followed by
    its own; it fails exactly when every host has a connection and two
    remote hosts have different roots; in all other cases it returns and
    waits.  It never panics. *)
Theorem joinCluster_decides LocalRemoteHosts t sh a localHost remoteHosts :
  active (actor sh) = Some a ->
  Version (TopCfg a) = 0 ->
  LocalRemoteHosts (NextCfg (config t)) = inr (localHost, remoteHosts) ->
  let hosts := Hosts (NextCfg (config t)) in
  let roots := remoteRoots (actor sh) localHost hosts in
  match joinCluster_tick LocalRemoteHosts t sh with
  | JoinAll sh' allRMIds =>
      allKnown (actor sh) hosts /\ roots = []
      /\ allRMIds = remoteRMIds (actor sh) localHost hosts ++ [SelfRMId (actor sh)]
  | JoinReturned sh' (Some e) =>
      allKnown (actor sh) hosts
      /\ exists root other, root ∈ roots /\ other ∈ roots /\ root <> other
  | JoinReturned sh' None =>
      ¬ allKnown (actor sh) hosts
      \/ (roots <> []
          /\ forall root other, root ∈ roots -> other ∈ roots -> root = other)
  | JoinPanics => False
  end.
Proof.
  intros Ha Hv Hl. cbv zeta. unfold joinCluster_tick.
  rewrite Ha, Hv, Hl. cbn [Z.eqb negb]. cbv beta zeta.
  set (tt1 := emit (EffSetDesiredServers localHost remoteHosts)
                   (installTopology a (actor sh))).
  set (sh2 := (shareGoalWithAll t (mkSharing tt1 (shared sh))).2).
  assert (Hframe : hostToConnection (actor sh2) = hostToConnection (actor sh)
                   /\ SelfRMId (actor sh2) = SelfRMId (actor sh)).
  { unfold sh2, shareGoalWithAll. by destruct (sender t). }
  destruct Hframe as [Hhc Hself].
  assert (Hroots : remoteRoots (actor sh2) localHost (Hosts (NextCfg (config t)))
                   = remoteRoots (actor sh) localHost (Hosts (NextCfg (config t)))).
  { unfold remoteRoots. by rewrite Hhc. }
  assert (Hids : remoteRMIds (actor sh2) localHost (Hosts (NextCfg (config t)))
                 = remoteRMIds (actor sh) localHost (Hosts (NextCfg (config t)))).
  { unfold remoteRMIds. by rewrite Hhc. }
  destruct (forallb _ (Hosts (NextCfg (config t)))) eqn:Hall; cbn [negb]; cycle 1.
  { left. intros Hk. apply not_true_iff_false in Hall. apply Hall.
    apply forallb_forall. intros host Hin. apply bool_decide_eq_true_2.
    rewrite Hhc. unfold allKnown in Hk. rewrite Forall_forall in Hk.
    apply Hk. by apply list_elem_of_In. }
  assert (Hknown : allKnown (actor sh) (Hosts (NextCfg (config t)))).
  { apply Forall_forall. intros host Hin. rewrite forallb_forall in Hall.
    apply list_elem_of_In in Hin. specialize (Hall host Hin).
    apply bool_decide_eq_true_1 in Hall. by rewrite <- Hhc. }
  rewrite collect_agrees by (unfold allKnown; by rewrite Hhc).
  rewrite Hroots, Hids, Hself.
  change (option_list (@None VarUUId)) with (@nil VarUUId). cbn [app].
  destruct (remoteRoots (actor sh) localHost (Hosts (NextCfg (config t))))
    as [|root others] eqn:Er.
  { by split_and!. }
  cbv beta iota.
  destruct (forallb (fun other => bool_decide (root = other)) others) eqn:Hsame.
  - right. split; [done|]. rewrite forallb_forall in Hsame.
    assert (Heq : forall r, r ∈ root :: others -> r = root).
    { intros r Hr. apply elem_of_cons in Hr as [->|Hr]; [done|].
      apply list_elem_of_In in Hr. specialize (Hsame r Hr).
      by apply bool_decide_eq_true_1 in Hsame. }
    intros r1 r2 H1 H2. by rewrite (Heq r1 H1), (Heq r2 H2).
  - cbn. split; [done|].
    assert (Hex : exists other, other ∈ others /\ root <> other).
    { clear -Hsame. induction others as [|o rest IH]; [done|].
      cbn in Hsame. apply andb_false_iff in Hsame as [Hne|Hrest].
      - exists o. split; [by left|]. by apply bool_decide_eq_false_1 in Hne.
      - destruct (IH Hrest) as (other & Hin & Hne). exists other.
        split; [by right|done]. }
    destruct Hex as (other & Hin & Hne). exists root, other.
    split_and!; [by left|by right|done].
Qed.

(** Three peers: two that join too, or two from one cluster, or two from
    different clusters. *)
Definition joinGoal : NextConfiguration :=
  mkNextConfiguration
    (mkConfiguration "c" 1 ["h1"; "h2"; "h3"]%string 1 5 false [] ∅ None)
    [] [] [] [] [] ∅.

Definition blankActive : Topology :=
  mkTopology (mkConfiguration "c" 0 [] 0 0 false [] ∅ None) [] None.

Definition peers (root2 root3 : option VarUUId) : Sharing :=
  mkSharing
    (mkTT 1 1 (Some blankActive) None
       {[ "h1"%string := mkConnection "h1" 1 1 None;
          "h2"%string := mkConnection "h2" 2 1 root2;
          "h3"%string := mkConnection "h3" 3 1 root3 ]}
       ∅ ∅ [] None [])
    [].

Definition joinTask : Task := mkTask JoinCluster joinGoal false.

Example join_three_ways :
  (exists sh', joinCluster_tick firstHostLocal joinTask (peers None None)
               = JoinAll sh' [2; 3; 1])
  /\ (exists sh', joinCluster_tick firstHostLocal joinTask
                    (peers (Some [7]) None) = JoinReturned sh' None)
  /\ (exists sh' e, joinCluster_tick firstHostLocal joinTask
                      (peers (Some [7]) (Some [8]))
                    = JoinReturned sh' (Some e)).
Proof. split_and!; repeat eexists; vm_compute; reflexivity. Qed.

Lemma joinCluster_decides_witness :
  match joinCluster_tick firstHostLocal joinTask (peers (Some [7]) (Some [8])) with
  | JoinAll sh' allRMIds =>
      allKnown (actor (peers (Some [7]) (Some [8]))) (Hosts (NextCfg joinGoal))
      /\ remoteRoots (actor (peers (Some [7]) (Some [8]))) "h1"
           (Hosts (NextCfg joinGoal)) = []
      /\ allRMIds
         = remoteRMIds (actor (peers (Some [7]) (Some [8]))) "h1"
             (Hosts (NextCfg joinGoal))
           ++ [SelfRMId (actor (peers (Some [7]) (Some [8])))]
  | JoinReturned sh' (Some e) =>
      allKnown (actor (peers (Some [7]) (Some [8]))) (Hosts (NextCfg joinGoal))
      /\ exists root other,
           root ∈ remoteRoots (actor (peers (Some [7]) (Some [8]))) "h1"
                    (Hosts (NextCfg joinGoal))
           /\ other ∈ remoteRoots (actor (peers (Some [7]) (Some [8]))) "h1"
                        (Hosts (NextCfg joinGoal))
           /\ root <> other
  | JoinReturned sh' None =>
      ¬ allKnown (actor (peers (Some [7]) (Some [8]))) (Hosts (NextCfg joinGoal))
      \/ (remoteRoots (actor (peers (Some [7]) (Some [8]))) "h1"
            (Hosts (NextCfg joinGoal)) <> []
          /\ forall root other,
               root ∈ remoteRoots (actor (peers (Some [7]) (Some [8]))) "h1"
                        (Hosts (NextCfg joinGoal)) ->
               other ∈ remoteRoots (actor (peers (Some [7]) (Some [8]))) "h1"
                         (Hosts (NextCfg joinGoal)) ->
               root = other)
  | JoinPanics => False
  end.
Proof.
  exact (joinCluster_decides firstHostLocal joinTask (peers (Some [7]) (Some [8]))
           blankActive "h1"%string ["h2"; "h3"]%string eq_refl eq_refl eq_refl).
Defined.

End Joining.

(** ** The phases of the migration ([migrate.tick], [migrate.nextState]
    and the ticks of the inner states)

    The migrate task walks through its inner states; the emigrator is
    its helper from the variable barrier on. *)

Module Migration.

Import Transmogrifier Msgs TopologyTxn MigrateTask InstallTasks.

Local Set Warnings "-clear-no-such-hyp".

(** What happens to emigrators: [newEmigrator] adds one as a sender,
    [stopAsync] stops one. *)
Inductive EmigratorEvent :=
| EmigratorAdded (topology : Topology)
| EmigratorStopped.

(** The migrate task: the actor it runs in (with the goals shared), its
    [targetConfig], its current inner state ([None] is nil), the
    configuration whose variable barrier has been reached, the emigrator
    (by the topology it was made with), the configurations for which
    [ForceToIdle] has been asked, and what has happened to emigrators. *)
Record Migrating := mkMigrating {
  sharing : Sharing;
  goalTask : Task;
  currentState : option InnerState;
  varBarrierReached : option Configuration;
  emigrator : option Topology;
  forcedToIdle : list Configuration;
  emigratorEvents : list EmigratorEvent
}.

Definition withSharing (sh : Sharing) (m : Migrating) : Migrating :=
  mkMigrating sh (goalTask m) (currentState m) (varBarrierReached m)
              (emigrator m) (forcedToIdle m) (emigratorEvents m).

Definition withState (st : InnerState) (m : Migrating) : Migrating :=
  mkMigrating (sharing m) (goalTask m) (Some st) (varBarrierReached m)
              (emigrator m) (forcedToIdle m) (emigratorEvents m).

Definition logged (msg : string) (m : Migrating) : Migrating :=
  withSharing (mkSharing (emit (EffLog msg) (actor (sharing m)))
                         (shared (sharing m))) m.

(** [ensureEmigrator], with the active topology. *)
Definition ensureEmigrator (a : Topology) (m : Migrating) : Migrating :=
  match emigrator m with
  | Some _ => m
  | None =>
      mkMigrating (sharing m) (goalTask m) (currentState m)
                  (varBarrierReached m) (Some a) (forcedToIdle m)
                  (emigratorEvents m ++ [EmigratorAdded a])
  end.

Definition ensureStopEmigrator (m : Migrating) : Migrating :=
  match emigrator m with
  | Some _ =>
      mkMigrating (sharing m) (goalTask m) (currentState m)
                  (varBarrierReached m) None (forcedToIdle m)
                  (emigratorEvents m ++ [EmigratorStopped])
  | None => m
  end.

(** [migrate.completed]. *)
Definition migrate_completed (m : Migrating) : Migrating * option Error :=
  let m1 := ensureStopEmigrator m in
  let r := onActor (completed (goalTask m1) (actor (sharing m1))) (sharing m1) in
  (withSharing r.1 m1, r.2).

(** [next] when [next != nil && next.Version == task.config.Version &&
    len(next.PendingInstall) == 0 && len(next.Pending) > 0]. *)
Definition goalMigrating (a : Topology) (goal : NextConfiguration)
    : option NextConfiguration :=
  match Next (TopCfg a) with
  | None => None
  | Some next =>
      if (Version (NextCfg next) =? Version (NextCfg goal))
         && (len (PendingInstall next) =? 0)
         && (0 <? Z.of_nat (size (Pending next)))
      then Some next else None
  end.

Section Phases.

Variable Serialize : Topology -> list Z.
Variable deserialize : list Z -> string + Configuration.
Variable LocalRemoteHosts : Configuration -> string + (string * list string).
Variable SuppliedBy : Conds -> RMId -> RMId -> Z -> Conds * bool.

Definition migrateAwaitNoPending_tick (m : Migrating)
    : Result (Migrating * option Error) :=
  Returned (m, None).

(** [migrateAwaitImmigrations.tick] on the task: the state it returns is
    the one [nextState] has moved to, whose tick does nothing. *)
Definition migrateAwaitImmigrations_step (m : Migrating)
    (order : list (RMId * nat)) (answer : RunResult)
    : Result (Migrating * option Error) :=
  match migrateAwaitImmigrations_tick Serialize deserialize LocalRemoteHosts
          SuppliedBy (goalTask m) (actor (sharing m)) order answer with
  | Panics => Panics
  | Blocks => Blocks
  | Returned (tt1, st, err) =>
      Returned (withState st
                  (withSharing (mkSharing tt1 (shared (sharing m))) m), err)
  end.

Definition migrateAwaitVarBarrier_tick (m : Migrating)
    (order : list (RMId * nat)) (answer : RunResult)
    : Result (Migrating * option Error) :=
  match varBarrierReached m with
  | None => Returned (m, None)
  | Some reached =>
      match active (actor (sharing m)) with
      | None => Panics
      | Some a =>
          match Next (TopCfg a) with
          | None => Panics
          | Some next =>
              if Equal reached (NextCfg next) then
                let m1 :=
                  logged "Topology: Var barrier achieved. Migration can proceed." m in
                let m2 :=
                  match LocalRemoteHosts (TopCfg a) with
                  | inr _ => ensureEmigrator a m1
                  | inl _ => m1
                  end in
                migrateAwaitImmigrations_step
                  (withState MigrateAwaitImmigrations m2) order answer
              else Returned (m, None)
          end
      end
  end.

Definition migrateAwaitClientDrain_tick (m : Migrating)
    (order : list (RMId * nat)) (answer : RunResult)
    : Result (Migrating * option Error) :=
  match installedOnProposers (actor (sharing m)) with
  | None => Returned (m, None)
  | Some installed =>
      match Next (TopCfg installed) with
      | None => Returned (m, None)
      | Some installedNext =>
          match active (actor (sharing m)) with
          | None => Panics
          | Some a =>
              match Next (TopCfg a) with
              | None => Panics
              | Some next =>
                  if Equal (NextCfg installedNext) (NextCfg next) then
                    let m1 :=
                      logged "Topology: Topology installed on clients. Waiting for vars to go quiet." m in
                    let m2 :=
                      mkMigrating (sharing m1) (goalTask m1) (currentState m1)
                                  (varBarrierReached m1) (emigrator m1)
                                  (forcedToIdle m1 ++ [NextCfg next])
                                  (emigratorEvents m1) in
                    migrateAwaitVarBarrier_tick
                      (withState MigrateAwaitVarBarrier m2) order answer
                  else Returned (m, None)
              end
          end
      end
  end.

Definition migrateInstall_tick (m : Migrating)
    (order : list (RMId * nat)) (answer : RunResult)
    : Result (Migrating * option Error) :=
  match active (actor (sharing m)) with
  | None => Panics
  | Some a =>
      match firstLocalHost LocalRemoteHosts (TopCfg a) with
      | None => Panics
      | Some localHost =>
          match Next (TopCfg a) with
          | None => Panics
          | Some next =>
              let remoteHosts := allHostsBarLocalHost localHost next in
              let tt1 := emit (EffSetDesiredServers localHost remoteHosts)
                              (installTopology a (actor (sharing m))) in
              let shared1 :=
                shareGoalWithAll (goalTask m)
                  (mkSharing tt1 (shared (sharing m))) in
              let m1 :=
                mkMigrating shared1.2 shared1.1 (currentState m)
                            (varBarrierReached m) (emigrator m)
                            (forcedToIdle m) (emigratorEvents m) in
              migrateAwaitClientDrain_tick
                (withState MigrateAwaitClientDrain m1) order answer
          end
      end
  end.

(** [migrate.tick]: the tick of the current state, the first one when
    there is none yet. *)
Definition migrate_tick (m : Migrating) (order : list (RMId * nat))
    (answer : RunResult) : Result (Migrating * option Error) :=
  match active (actor (sharing m)) with
  | None => Panics
  | Some a =>
      match goalMigrating a (config (goalTask m)) with
      | None => Returned (migrate_completed m)
      | Some _ =>
          match currentState m with
          | None => migrateInstall_tick (withState MigrateInstall m) order answer
          | Some MigrateInstall => migrateInstall_tick m order answer
          | Some MigrateAwaitClientDrain =>
              migrateAwaitClientDrain_tick m order answer
          | Some MigrateAwaitVarBarrier =>
              migrateAwaitVarBarrier_tick m order answer
          | Some MigrateAwaitImmigrations =>
              migrateAwaitImmigrations_step m order answer
          | Some MigrateAwaitNoPending => migrateAwaitNoPending_tick m
          end
      end
  end.

End Phases.

(** The inner states, in the order of [nextState]. *)
Definition phase (st : option InnerState) : nat :=
  match st with
  | None => 0
  | Some MigrateInstall => 1
  | Some MigrateAwaitClientDrain => 2
  | Some MigrateAwaitVarBarrier => 3
  | Some MigrateAwaitImmigrations => 4
  | Some MigrateAwaitNoPending => 5
  end.

(** The emigrator is as before, or has just been started: at the variable
    barrier of the next configuration, on a node of the active
    configuration, with the active topology. *)
Definition emigratorKept (LocalRemoteHosts : Configuration -> string + (string * list string))
    (a : Topology) (m m' : Migrating) : Prop :=
  emigrator m' = emigrator m
  \/ (emigrator m = None /\ emigrator m' = Some a
      /\ (4 <= phase (currentState m'))%nat
      /\ exists reached next,
           varBarrierReached m = Some reached
           /\ Next (TopCfg a) = Some next
           /\ Equal reached (NextCfg next) = true
           /\ exists hosts, LocalRemoteHosts (TopCfg a) = inr hosts).

Lemma immigrations_state Serialize deserialize LocalRemoteHosts SuppliedBy
    t tt order answer tt1 st err :
  migrateAwaitImmigrations_tick Serialize deserialize LocalRemoteHosts SuppliedBy
    t tt order answer = Returned (tt1, st, err) ->
  st = MigrateAwaitImmigrations \/ st = MigrateAwaitNoPending.
Proof.
  unfold migrateAwaitImmigrations_tick.
  repeat case_match; try done; intros [= <- <- <-]; auto.
Qed.

Section Advancing.

Variable Serialize : Topology -> list Z.
Variable deserialize : list Z -> string + Configuration.
Variable LocalRemoteHosts : Configuration -> string + (string * list string).
Variable SuppliedBy : Conds -> RMId -> RMId -> Z -> Conds * bool.

Lemma immigrations_advance m order answer m' err :
  migrateAwaitImmigrations_step Serialize deserialize LocalRemoteHosts SuppliedBy
    m order answer = Returned (m', err) ->
  (4 <= phase (currentState m'))%nat
  /\ emigrator m' = emigrator m.
Proof.
  unfold migrateAwaitImmigrations_step.
  destruct (migrateAwaitImmigrations_tick _ _ _ _ _ _ _ _)
    as [[[tt1 st] e]| |] eqn:Et; try done.
  intros [= <- <-]. apply immigrations_state in Et as [-> | ->]; cbn; split; lia || done.
Qed.

Lemma varBarrier_advance m order answer m' err a :
  migrateAwaitVarBarrier_tick Serialize deserialize LocalRemoteHosts SuppliedBy
    m order answer = Returned (m', err) ->
  active (actor (sharing m)) = Some a ->
  phase (currentState m) = 3%nat ->
  (3 <= phase (currentState m'))%nat
  /\ emigratorKept LocalRemoteHosts a m m'.
Proof.
  unfold migrateAwaitVarBarrier_tick. intros Htick Ha Hp.
  destruct (varBarrierReached m) as [reached|] eqn:Hr; cycle 1.
  { injection Htick as <- _. split; [lia|by left]. }
  rewrite Ha in Htick.
  destruct (Next (TopCfg a)) as [next|] eqn:Hn; [|done].
  destruct (Equal reached (NextCfg next)) eqn:He; cycle 1.
  { injection Htick as <- _. split; [lia|by left]. }
  cbv zeta in Htick.
  apply immigrations_advance in Htick as [H4 He'].
  split; [lia|].
  destruct (LocalRemoteHosts (TopCfg a)) as [e|hosts] eqn:Hl;
    [by left|].
  unfold ensureEmigrator in He'. cbn in He'.
  destruct (emigrator m) as [old|] eqn:Hem; cbn in He'; [by left|].
  right. split_and!; try done. exists reached, next. split_and!; try done.
  by exists hosts.
Qed.

Lemma clientDrain_advance m order answer m' err a :
  migrateAwaitClientDrain_tick Serialize deserialize LocalRemoteHosts SuppliedBy
    m order answer = Returned (m', err) ->
  active (actor (sharing m)) = Some a ->
  phase (currentState m) = 2%nat ->
  (2 <= phase (currentState m'))%nat
  /\ emigratorKept LocalRemoteHosts a m m'.
Proof.
  unfold migrateAwaitClientDrain_tick. intros Htick Ha Hp.
  destruct (installedOnProposers (actor (sharing m))) as [installed|]; cycle 1.
  { injection Htick as <- _. split; [lia|by left]. }
  destruct (Next (TopCfg installed)) as [installedNext|]; cycle 1.
  { injection Htick as <- _. split; [lia|by left]. }
  rewrite Ha in Htick.
  destruct (Next (TopCfg a)) as [next|] eqn:Hn; [|done].
  destruct (Equal (NextCfg installedNext) (NextCfg next)); cycle 1.
  { injection Htick as <- _. split; [lia|by left]. }
  cbv zeta in Htick.
  apply (varBarrier_advance _ _ _ _ _ a) in Htick as [H3 Hk];
    [|exact Ha|reflexivity].
  split; [lia|exact Hk].
Qed.

Lemma install_advance m order answer m' err a :
  migrateInstall_tick Serialize deserialize LocalRemoteHosts SuppliedBy
    m order answer = Returned (m', err) ->
  active (actor (sharing m)) = Some a ->
  (2 <= phase (currentState m'))%nat
  /\ emigratorKept LocalRemoteHosts a m m'.
Proof.
  unfold migrateInstall_tick. intros Htick Ha. rewrite Ha in Htick.
  destruct (firstLocalHost LocalRemoteHosts (TopCfg a)) as [localHost|];
    [|done].
  destruct (Next (TopCfg a)) as [next|] eqn:Hn; [|done].
  cbv zeta in Htick.
  apply (clientDrain_advance _ _ _ _ _ a) in Htick as [H2 Hk];
    [done| |reflexivity].
  cbn. unfold shareGoalWithAll. by destruct (sender (goalTask m)).
Qed.

End Advancing.

(** The migration only moves forward.  A tick of the migrate task that
    returns leaves the inner state where it was or moves it on in the order
    install, client drain, variable barrier, immigrations, no pending:
    never back, and never to none again.  When the active topology is no
    longer the goal in migration, the task stops its emigrator and ends.
    Otherwise an inner state is set, and the emigrator is the one there
    was, or is started in this tick for the active topology: then the
    variable barrier of the next configuration has been reached, this node
    is among the hosts of the active configuration, and the task is past
    the variable barrier. *)
Theorem migrate_phases_advance Serialize deserialize LocalRemoteHosts SuppliedBy
    m order answer m' err a :
  migrate_tick Serialize deserialize LocalRemoteHosts SuppliedBy m order answer
  = Returned (m', err) ->
  active (actor (sharing m)) = Some a ->
  (phase (currentState m) <= phase (currentState m'))%nat
  /\ match goalMigrating a (config (goalTask m)) with
     | None =>
         emigrator m' = None /\ task (actor (sharing m')) = None
         /\ err = None /\ currentState m' = currentState m
     | Some _ =>
         currentState m' <> None
         /\ emigratorKept LocalRemoteHosts a m m'
         /\ (emigrator m' <> emigrator m ->
             (phase (currentState m) <= 3)%nat)
     end.
Proof.
  intros Htick Ha. unfold migrate_tick in Htick. rewrite Ha in Htick.
  destruct (goalMigrating a (config (goalTask m))) as [next|].
  - assert (Hsome : forall k, (1 <= k)%nat ->
              (k <= phase (currentState m'))%nat -> currentState m' <> None).
    { intros k Hk Hle Hnone. rewrite Hnone in Hle. cbn in Hle. lia. }
    destruct (currentState m) as [[| | | |]|] eqn:Hst; cbn [phase].
    + apply (install_advance _ _ _ _ _ _ _ _ _ a) in Htick as [H2 Hk];
        [|exact Ha].
      split; [lia|]. split; [by apply (Hsome 2%nat); [lia|]|].
      split; [exact Hk|]. intros _. lia.
    + apply (clientDrain_advance _ _ _ _ _ _ _ _ _ a) in Htick as [H2 Hk];
        [|exact Ha|by rewrite Hst].
      split; [lia|]. split; [by apply (Hsome 2%nat); [lia|]|].
      split; [exact Hk|]. intros _. lia.
    + apply (varBarrier_advance _ _ _ _ _ _ _ _ _ a) in Htick as [H3 Hk];
        [|exact Ha|by rewrite Hst].
      split; [lia|]. split; [by apply (Hsome 3%nat); [lia|]|].
      split; [exact Hk|]. intros _. lia.
    + apply immigrations_advance in Htick as [H4 Hk].
      split; [lia|]. split; [by apply (Hsome 4%nat); [lia|]|].
      split; [by left|]. intros Hne. by destruct Hne.
    + injection Htick as <- _. rewrite Hst. cbn. split; [lia|].
      split; [done|]. split; [by left|]. intros Hne. by destruct Hne.
    + apply (install_advance _ _ _ _ _ _ _ _ _ a) in Htick as [H2 Hk];
        [|exact Ha].
      split; [lia|]. split; [by apply (Hsome 2%nat); [lia|]|].
      split; [|intros _; lia].
      destruct Hk as [Hk|(Hk1 & Hk2 & Hk3 & Hk4)]; [by left|]. by right.
  - unfold migrate_completed, ensureStopEmigrator, onActor, completed in Htick.
    destruct (emigrator m) as [old|] eqn:Hem; cbn in Htick;
      injection Htick as <- <-; cbn; by rewrite ?Hem.
Qed.

(** Adding one node, seen from RM 1 of the old cluster: nothing migrates
    into it.  Before the variables are idle the task waits at the variable
    barrier; once they are, one tick starts the emigrator and runs through
    to the last state. *)
Definition oldNode : Sharing :=
  mkSharing
    (mkTT 1 1 (Some addOneActive) (Some addOneActive)
       {[ "h1"%string := conn "h1" 1; "h2"%string := conn "h2" 2;
          "h3"%string := conn "h3" 3; "h4"%string := conn "h4" 4 ]}
       {[ 1 := conn "h1" 1; 2 := conn "h2" 2; 3 := conn "h3" 3; 4 := conn "h4" 4 ]}
       ∅ [] (Some (mkTask Migrate addOneGoal false)) [])
    [].

Definition migrating (reached : option Configuration) : Migrating :=
  mkMigrating oldNode (mkTask Migrate addOneGoal false) None reached None [] [].

Definition migrateRun (reached : option Configuration)
    : Result (Migrating * option Error) :=
  migrate_tick (fun _ => [42]) decodeOne firstHostLocal appendSupplier
    (migrating reached) [] (answerOf blankTxn Commit).

Example migrate_waits_for_barrier :
  match migrateRun None with
  | Returned (m', err) =>
      currentState m' = Some MigrateAwaitVarBarrier
      /\ forcedToIdle m' = [addOneGoalCfg]
      /\ emigrator m' = None /\ err = None
  | _ => False
  end.
Proof. vm_compute. by split_and!. Qed.

Example migrate_runs_through :
  match migrateRun (Some addOneGoalCfg) with
  | Returned (m', err) =>
      currentState m' = Some MigrateAwaitNoPending
      /\ emigrator m' = Some addOneActive
      /\ emigratorEvents m' = [EmigratorAdded addOneActive]
      /\ err = None
  | _ => False
  end.
Proof. vm_compute. by split_and!. Qed.

Lemma migrate_phases_advance_witness :
  exists m' err,
    migrateRun (Some addOneGoalCfg) = Returned (m', err)
    /\ (phase (currentState (migrating (Some addOneGoalCfg)))
        <= phase (currentState m'))%nat
    /\ match goalMigrating addOneActive
               (config (goalTask (migrating (Some addOneGoalCfg)))) with
       | None =>
           emigrator m' = None /\ task (actor (sharing m')) = None
           /\ err = None
           /\ currentState m' = currentState (migrating (Some addOneGoalCfg))
       | Some _ =>
           currentState m' <> None
           /\ emigratorKept firstHostLocal addOneActive
                (migrating (Some addOneGoalCfg)) m'
           /\ (emigrator m' <> emigrator (migrating (Some addOneGoalCfg)) ->
               (phase (currentState (migrating (Some addOneGoalCfg))) <= 3)%nat)
       end.
Proof.
  assert (E : exists r, migrateRun (Some addOneGoalCfg) = Returned r).
  { eexists. vm_compute. reflexivity. }
  destruct E as ([m' err] & E). exists m', err. split; [exact E|].
  exact (migrate_phases_advance (fun _ => [42]) decodeOne firstHostLocal
           appendSupplier (migrating (Some addOneGoalCfg)) []
           (answerOf blankTxn Commit) m' err addOneActive E eq_refl).
Defined.

End Migration.

(** ** What the step that awaits immigrations does
    ([migrateAwaitImmigrations.tick])

    The tick as a whole: when it marks, when it stops short, and when it
    rewrites the topology. *)

Module Supplying.

Import Transmogrifier Msgs TopologyTxn MigrateTask InstallTasks.

Local Set Warnings "-clear-no-such-hyp".

(** C4.  In the migrateAwaitImmigrations step, [maxSuppliers] is the number
    of non-empty RMs of the active topology minus its [F], less one exactly
    when the local node is among the active topology's hosts.  The senders
    the loop acts on are those whose counter for the target version is
    zero, and [Pending] is marked as supplied by each of them, in turn,
    under that cap.  When no mark changes [Pending] the tick does nothing
    at all.  When one does, the local host is found, every remote host is
    there with the right root and more RMs of the target are connected
    than not, the tick attempts the rewrite, once: it reads the active
    topology and writes it with the marked [Pending], with the connected
    RMs of the target as actives and the others followed by [LostRMIds] as
    passives; it returns when the active topology has a root and panics
    when it has none.  No tick adds any other rewrite; and when nothing
    is pending for this RM the tick only moves on to the next state. *)
Theorem migrateAwaitImmigrations_supplies
    (Serialize : Topology -> list Z) (deserialize : list Z -> string + Configuration)
    (LocalRemoteHosts : Configuration -> string + (string * list string))
    (SuppliedBy : Conds -> RMId -> RMId -> Z -> Conds * bool)
    (t : Task) (tt : TT) (order : list (RMId * nat)) (answer : RunResult)
    (a : Topology) (next : NextConfiguration) (senders : gmap Z nat) :
  active tt = Some a ->
  Next (TopCfg a) = Some next ->
  migrations tt !! Version (NextCfg next) = Some senders ->
  order ≡ₚ map_to_list senders ->
  let maxSuppliers :=
    NonEmptyLen (RMs (TopCfg a)) - F (TopCfg a)
    - (if LocalRemoteHosts (TopCfg a) is inr _ then 1 else 0) in
  let marks :=
    suppliedByAll SuppliedBy tt maxSuppliers (zeroSenders tt order)
                  (Pending next, false) in
  let ap := partitionByActiveConnection tt [RMs (NextCfg next)] in
  let ticked :=
    migrateAwaitImmigrations_tick Serialize deserialize LocalRemoteHosts
      SuppliedBy t tt order answer in
  maxSuppliersOf LocalRemoteHosts a = maxSuppliers
  /\ (forall s, s ∈ zeroSenders tt order <->
                Ledger.counter tt (Version (NextCfg next)) s = Some 0)
  /\ (forall tt' st err,
        ticked = Returned (tt', st, err) ->
        forall read write act pas,
          EffRewriteTopology read write act pas ∈ effects tt' ->
          EffRewriteTopology read write act pas ∈ effects tt
          \/ (marks.2 = true /\ read = a /\ write = withPending marks.1 a
              /\ act = ap.1 /\ pas = ap.2 ++ LostRMIds next))
  /\ (Pending next !! SelfRMId tt = None ->
      ticked
      = Returned (emit (EffLog "All migration into this RM completed") tt,
                  MigrateAwaitNoPending, None))
  /\ (is_Some (Pending next !! SelfRMId tt) ->
      (marks.2 = false ->
       ticked = Returned (tt, MigrateAwaitImmigrations, None))
      /\ (marks.2 = true ->
          forall localHost,
            firstLocalHost LocalRemoteHosts (TopCfg a) = Some localHost ->
            verifyRoots tt (fst <$> Root a) (allHostsBarLocalHost localHost next)
            = (true, None) ->
            len ap.2 < len ap.1 ->
            (Root a = None -> ticked = Panics)
            /\ (Root a <> None ->
                exists tt' err,
                  ticked = Returned (tt', MigrateAwaitImmigrations, err)
                  /\ rewrites (effects tt')
                     = (a, withPending marks.1 a, ap.1, ap.2 ++ LostRMIds next)
                       :: rewrites (effects tt)))).
Proof.
  intros Ha Hn Hm Hperm maxSuppliers marks ap ticked.
  destruct (immigrations_rewrite_only_when_changed Serialize deserialize
              LocalRemoteHosts SuppliedBy t tt order answer a next senders
              Ha Hn Hm Hperm) as (Hmax & Hzero & Honly).
  split; [exact Hmax|]. split; [exact Hzero|]. split; [exact Honly|].
  fold maxSuppliers in Hmax.
  assert (Hstep : ticked
    = match Pending next !! SelfRMId tt with
      | None =>
          Returned (emit (EffLog "All migration into this RM completed") tt,
                    MigrateAwaitNoPending, None)
      | Some _ =>
          if negb marks.2 then Returned (tt, MigrateAwaitImmigrations, None)
          else
            match firstLocalHost LocalRemoteHosts (TopCfg a) with
            | None => Panics
            | Some localHost =>
                match verifyRoots tt (fst <$> Root a)
                        (allHostsBarLocalHost localHost next) with
                | (_, Some e) =>
                    Returned ((error t e tt).1, MigrateAwaitImmigrations,
                              (error t e tt).2)
                | (false, None) => Returned (tt, MigrateAwaitImmigrations, None)
                | (true, None) =>
                    if len ap.1 <=? len ap.2 then
                      Returned (tt, MigrateAwaitImmigrations, None)
                    else
                      let tt1 :=
                        emit (EffRewriteTopology a (withPending marks.1 a) ap.1
                                (ap.2 ++ LostRMIds next)) tt in
                      match rewriteTopology Serialize deserialize tt1 a
                              (withPending marks.1 a) ap.1
                              (ap.2 ++ LostRMIds next) answer with
                      | Panics => Panics
                      | Blocks => Blocks
                      | Returned (_, _, Some e) =>
                          Returned ((fatal t e tt1).1, MigrateAwaitImmigrations,
                                    (fatal t e tt1).2)
                      | Returned (_, true, None) =>
                          Returned (emit EffEnqueueTick tt1,
                                    MigrateAwaitImmigrations, None)
                      | Returned (_, false, None) =>
                          Returned (tt1, MigrateAwaitImmigrations, None)
                      end
                end
            end
      end).
  { unfold ticked, migrateAwaitImmigrations_tick. rewrite Ha, Hn.
    destruct (Pending next !! SelfRMId tt) as [cs|]; [|done].
    rewrite Hm. cbn zeta. unfold markSupplied.
    rewrite markSupplied_zeroSenders, Hmax. done. }
  split.
  { intros Hnone. by rewrite Hstep, Hnone. }
  intros [cs Hcs]. rewrite Hcs in Hstep. split.
  { intros Hsame. by rewrite Hstep, Hsame. }
  intros Hchanged localHost Hl Hroots Hmajor.
  rewrite Hchanged, Hl in Hstep. cbn [negb] in Hstep.
  match type of Hstep with
  | context [verifyRoots ?x ?rootId ?hosts] =>
      replace (verifyRoots x rootId hosts) with (true, @None string) in Hstep
        by (symmetry; exact Hroots)
  end.
  rewrite (proj2 (Z.leb_gt _ _)) in Hstep by exact Hmajor.
  cbv zeta in Hstep.
  set (tt1 := emit (EffRewriteTopology a (withPending marks.1 a) ap.1
                      (ap.2 ++ LostRMIds next)) tt) in *.
  split.
  - intros Hroot. rewrite Hstep. unfold rewriteTopology, createTopologyTransaction.
    assert (Hw : Root (withPending marks.1 a) = None).
    { unfold withPending. by rewrite Hn. }
    rewrite Hw. done.
  - intros Hroot.
    destruct (rewriteTopology_returns Serialize deserialize tt1 a
                (withPending marks.1 a) ap.1 (ap.2 ++ LostRMIds next) answer)
      as ([[top resubmit] e] & Hr).
    + unfold withPending. by rewrite Hn.
    + intros rmId Hin. unfold ap in Hin. rewrite partition_one in Hin.
      cbn [fst] in Hin. apply list_elem_of_filter in Hin as [Hc _]. exact Hc.
    + rewrite Hr in Hstep.
      assert (Hrw : rewrites (effects tt1)
                    = (a, withPending marks.1 a, ap.1, ap.2 ++ LostRMIds next)
                      :: rewrites (effects tt)) by done.
      destruct e as [e|]; [|destruct resubmit].
      * exists (fatal t e tt1).1, (fatal t e tt1).2.
        split; [by destruct resubmit|]. rewrite <- Hrw.
        unfold fatal, ensureRemoveTaskSender. cbn. by destruct (sender t).
      * exists (emit EffEnqueueTick tt1), None. by split.
      * exists tt1, None. by split.
Qed.

(** The node being added, once RM 2 has delivered everything: RM 2 is
    marked as a supplier and the topology is rewritten by all four RMs. *)
Lemma migrateAwaitImmigrations_supplies_witness :
  (active immigrantActor = Some addOneActive
   /\ Next (TopCfg addOneActive) = Some addOneNext
   /\ migrations immigrantActor !! Version (NextCfg addOneNext) = Some {[ 2 := 0%nat ]}
   /\ [(2, 0%nat)] ≡ₚ map_to_list ({[ 2 := 0%nat ]} : gmap Z nat))
  /\ maxSuppliersOf h4Local addOneActive = 2
  /\ zeroSenders immigrantActor [(2, 0%nat)] = [2]
  /\ (suppliedByAll appendSupplier immigrantActor 2 [2] (Pending addOneNext, false)).2
     = true
  /\ exists tt' err,
       immigrantTick = Returned (tt', MigrateAwaitImmigrations, err)
       /\ rewrites (effects tt')
          = [(addOneActive,
              withPending
                {[ 4 := mkCondSuppliers (Conditions.includesGenerator 4 4 0 3 []) [2] ]}
                addOneActive,
              [1; 2; 3; 4], [])].
Proof.
  assert (H1 : active immigrantActor = Some addOneActive) by reflexivity.
  assert (H2 : Next (TopCfg addOneActive) = Some addOneNext) by reflexivity.
  assert (H3 : migrations immigrantActor !! Version (NextCfg addOneNext)
               = Some {[ 2 := 0%nat ]}) by (vm_compute; reflexivity).
  assert (H4 : [(2, 0%nat)] ≡ₚ map_to_list ({[ 2 := 0%nat ]} : gmap Z nat))
    by (by rewrite map_to_list_singleton).
  destruct (migrateAwaitImmigrations_supplies (fun _ => [42]) decodeOne h4Local
              appendSupplier (mkTask Migrate addOneGoal false) immigrantActor
              [(2, 0%nat)] (answerOf blankTxn Commit)
              addOneActive addOneNext {[ 2 := 0%nat ]} H1 H2 H3 H4)
    as (Hmax & _ & _ & _ & Hawaits).
  split; [by split_and!|]. split; [exact Hmax|].
  split; [vm_compute; reflexivity|].
  assert (Hchanged :
    (suppliedByAll appendSupplier immigrantActor 2 [2] (Pending addOneNext, false)).2
    = true) by (vm_compute; reflexivity).
  split; [exact Hchanged|].
  destruct Hawaits as [_ Hrewrites]; [vm_compute; eauto|].
  destruct (Hrewrites (eq_trans ltac:(vm_compute; reflexivity) Hchanged)
              "h4"%string ltac:(vm_compute; reflexivity)
              ltac:(vm_compute; reflexivity) ltac:(vm_compute; reflexivity))
    as [_ Hret].
  destruct Hret as (tt' & err & Htick & Hrw); [done|].
  exists tt', err. split; [exact Htick|].
  rewrite Hrw. vm_compute. reflexivity.
Defined.

End Supplying.
